(* ===== verification/_CoqProject ===== *)
-Q . S2P
Prelude.v
Effects.v
Bytes.v
Slice.v
Msr.v
Mbuf.v
MbufSlice.v
MbufData.v
MbufChain.v
Kvs.v
Mlx5Rx.v
Mlx5Burst.v
CrcTables.v
HashCrc.v
Ring.v
RingThreads.v
MempoolDrivers.v
Mempool.v
MempoolLayout.v
MempoolBufs.v
MempoolCreate.v
PktmbufPool.v
Lpm.v
LpmSpec.v
LpmRules.v
LpmStore.v
LpmTables.v
LpmGroups.v
LpmRefine.v
LpmLookup.v
LpmApi.v
Bpf.v
BpfValidate.v
BpfDfs.v
BpfPass.v
BpfVerify.v
BpfRun.v
BpfEval.v
BpfEvalInsn.v
BpfDomain.v
BpfEvaluate.v
BpfPaths.v
BpfWalk.v
BpfSafe.v
BpfAccess.v
BpfPkt.v
BpfHooks.v
