(* ===== verification/Prelude.v ===== *)
(** * CacheDirector: verification development

    CacheDirector is a fork of DPDK that places the first bytes of a packet
    on the slice of the last-level cache next to the core that will process it.  Intel
    processors spread consecutive cache lines over the slices with a hash of
    the physical address; the fork computes the hash (or measures it with
    uncore counters), stores for every packet buffer the line offset of each
    slice, and lets the mlx5 driver choose the data offset of a received
    packet by the receive queue.  A key-value store example places its values
    on slices in the same way.

    ** The program and the files

    - [Slice] (lib/librte_slice/rte_slice.h): [calculateSlice_HF_haswell],
      the search [sliceFinder_HF_haswell], [indexCalculator].
    - [Msr] (lib/librte_msr, lib/librte_slice/rte_slice.c): the measured
      variant; model-specific registers read and written through
      /dev/cpu/0/msr, the programming of the counters, [polling],
      [find_CHA_CBO], [calculateSlice_uncore], [sliceFinder_uncore].
    - [Mbuf], [MbufData], [MbufChain] (lib/librte_mbuf): the buffer record, the
      store of buffers, data manipulation inside and across segments,
      reference counts, attachment, external buffers, release.
    - [MbufSlice] (lib/librte_mbuf): [rte_pktmbuf_slice_init] in both
      variants and [rte_pktmbuf_set_slice], the steering of the fork.
    - [Mlx5Rx], [Mlx5Burst] (drivers/net/mlx5): the receive queue: filling of the
      ring, completions with their compressed form, [mlx5_rx_burst]; what a burst of
      plain completions returns.
    - [Kvs] (examples/KVS/main.c): [create_array] and the packet loop.
    - [Ring], [RingThreads] (lib/librte_ring): the lockless ring, first as one
      thread runs it, then between threads.
    - [MempoolDrivers] (drivers/mempool/ring, drivers/mempool/stack): the drivers that
      hold the free objects of a pool.  [Mempool] (lib/librte_mempool): the caches of
      the lcores, put and get.  [MempoolLayout]: object sizes, cutting of memory into
      objects.  [MempoolCreate]: the empty pool, population with memory zones,
      [rte_mempool_create].
    - [MempoolBufs]: the pools as the packet buffers use them.  [PktmbufPool]
      (lib/librte_mbuf, lib/librte_mempool/rte_mempool_ops.c): drivers by name,
      [rte_pktmbuf_pool_create], and the receive queue filled from the pool it creates.
    - [CrcTables], [HashCrc] (lib/librte_hash/rte_hash_crc.h): the CRC hash.
    - [Lpm] (lib/librte_lpm): the tables of the longest prefix match library and every
      operation on them.  [LpmSpec]: rules as a map and the longest match.  [LpmRules],
      [LpmStore]: the rule table.  [LpmTables], [LpmGroups]: the lookup tables.
      [LpmRefine], [LpmLookup], [LpmApi]: the operations against the specification.
    - [Bpf] (lib/librte_bpf/bpf_exec.c): instructions and interpreter of the eBPF machine.
      [BpfValidate] (lib/librte_bpf/bpf_validate.c): the first pass of the verifier.
      [BpfDfs], [BpfPass]: its depth-first search and its control flow graph.
      [BpfVerify], [BpfRun]: which programs it accepts, and how they run.  [BpfEval],
      [BpfEvalInsn], [BpfEvaluate] (also lib/librte_bpf/bpf_load.c): the second pass,
      values, instructions and walk, and loading.  [BpfDomain]: what its bounds mean.
      [BpfPaths], [BpfWalk]: the paths it walks, and that it ends.  [BpfSafe], [BpfAccess]:
      what the accepted programs access.  [BpfPkt], [BpfHooks] (lib/librte_bpf/bpf_pkt.c):
      programs as packet filters, and their loading while a queue is polled.
    - [Prelude], [Effects], [Bytes]: configuration, machine integers, loops, the monad of
      effectful code with its triples, byte memories.

    The buffer library calls the slice search and takes buffers from a pool;
    the driver calls the buffer library; the example calls the slice search
    and the buffer library.  The pool library is for them the class [MempoolOps] with
    the laws [MempoolLaws] (file [Mbuf]), which the pools of [Mempool] implement (file
    [MempoolBufs]).  A driver of pools is an instance of the class [PoolDriver] with the
    laws [PoolDriverLaws] (file [MempoolDrivers]): the ring in its four variants, the
    stack, and any of them behind a pointer that may be null.  What the environment
    layer answers to a pool is the record [eal] (file [MempoolCreate]).  The layout of the completion entries is
    the class [Mlx5Prm] (file [Mlx5Rx]); the [crc32] instructions are the class
    [Crc32Instr] (file [HashCrc]); the memory and the external functions of an eBPF
    program are the class [BpfEnv] (file [Bpf]), with the laws [SafeMem] (file [BpfSafe]) of a
    memory that serves a context and a stack.  Each class has an instance that
    satisfies its laws, which the concrete examples use.

    ** How state and operations correspond

    Functions keep their names.  A C structure is a [Record] with its
    fields; a [w]-bit unsigned integer is a [Z] and every operation that can
    leave the width is followed by [wrap w].  A function without effects is
    a Gallina function; a function that changes memory, calls the system or
    can fail is a computation of the monad [comp] of [Effects], whose outcomes
    are a return, [exit], a panic, undefined behaviour or the end of the
    fuel.  Loops are [run_loop], [comp_loop] or [for_loop].  Memory outside
    the structures is a function from addresses to bytes.  Buffers are in a
    finite map by address, so that two pointers to one buffer are one entry.

    ** What the theorems show

    - Slices: the search ends within 15 tests for each of the eight slices and
      finds the least offset, at most 896; each 512-byte block has one line of every
      slice; the measured variant finds the same slice when the counters
      behave as documented.
    - Buffers: each data operation on the bytes of the packet, on every
      branch, errors included; chains; release and attachment give every
      buffer back to its pool exactly once.
    - Steering: after [rte_pktmbuf_set_slice] the first data byte is on the
      requested slice; the receive queue posts and returns only buffers on
      its slice; filling the queue is complete or undone.
    - Pools: no object is lost or duplicated whatever the lcores do; a get succeeds
      exactly when the cache or the driver alone can serve it; objects are spread over
      the memory channels, cut without overlaps and complete; creation is all or nothing; a
      created pool of packet buffers feeds a receive queue.
    - Key-value store: placement of the values, bounds of the allocation, the
      answer to a packet and what else changes.
    - Ring: creation; one thread sees a bounded queue for any position of the
      32-bit indices; any number of threads see a bounded queue, without
      races and without deadlock.
    - CRC: tables, software and hardware paths equal the bit-serial CRC32-C.
    - Longest prefix match: every sequence of calls on a table answers as a finite map of
      rules does, with exact capacities; the lookups of one address, in bulk and in four
      lanes agree, the last up to 256 groups.
    - eBPF: the first pass of the verifier accepts exactly the valid programs whose control
      flow graph has no cycle and no unreachable instruction, as far as jumps land on
      instructions; such a program ends within as many steps as it has instructions.  The
      second pass ends on every program.  For the programs of a fragment ([in_fragment]) its
      bounds are sound: a loaded program returns and stays inside its context and its stack,
      also with indices that are only known at run time.  A packet filter does the same
      with native code as with the interpreter.  In every interleaving of loading, unloading
      and polling, a callback runs the installed program and nothing that was destroyed, and
      the wait of the loading thread ends if the program returns.

    Behaviour that a comment or the purpose of the code contradicts is proved
    as the code has it: offsets above the headroom ([headroom_exceeded]), the read of zero bytes at the
    end of a chain ([read_empty_at_end]), answers that alternate
    ([process_packet_twice]), pools without a driver ([rte_mempool_create_oversized]),
    allocations and posted space that are too
    small ([create_array_overflow], [rx_posts_past_end]), rings of size
    zero ([rte_ring_create_correct]), tables of prefixes that are too large for their allocation
    or their lookup ([lpm_create_sizes], [lookupx4_agrees]), accepted eBPF programs that
    never end ([mid_jump_diverges]) or read outside their memory ([accepted_escapes]), and filters that run on the argument
    of another ([hook_kind_race]).

    ** Fuel

    Every loop whose number of rounds depends on data has a fuel argument.
    [sliceFinder_HF_haswell]: 15 rounds are enough, for slices from 8 on none
    are.  Chains: the number of segments.  Ring copies: the number of objects plus
    one; a single thread never waits for a tail.  [mlx5_rx_burst] has a
    partial-correctness triple for any completions, since the number of rounds depends on
    the device, and ends when the completions are plain, with more fuel than packets; the
    waits for a completion have triples too.  Greatest common divisors: [gcd_fuel] rounds
    (66) for 32-bit numbers.  Padding: the number of channels times ranks.  Population: the
    number of objects, and of pages of a zone.  The loops of the prefix tables have bounds
    in the code.  The depth-first search of the verifier: twice the number of nodes plus two.
    An accepted program: its number of instructions.  The second pass: as many rounds as
    the paths of the graph take, which [bpf_validate_ends] shows to be finite.  The theorems of the other
    functions say that the code returns with the fuel named.

    ** Not modelled

    Of the eBPF machine: the just-in-time compiler and loading from ELF files; the hooks are
    those of one queue.  The tables of lib/librte_hash, of which only the CRC is modelled.  Of
    the pools: anonymous memory, freeing, the list of pools and its lookup.  Of the prefix
    tables: their list by name, IPv6, and readers concurrent with a writer.  The environment layer is system calls and
    process-wide state.  Other drivers and libraries are those of DPDK, which the
    fork leaves alone.  Of the modelled files, log messages, assertions,
    statistics and the variants for other processors than Haswell are left out; so are
    the lookup of rings by name and the port set-up of the example, which only call the
    environment layer.  Memory ordering
    is that of the barriers: accesses of a thread take effect in program order. *)

From Stdlib Require Export ZArith Lia Bool Btauto.
From stdpp Require Export base tactics list numbers sets gmap.
From coqutil Require Export Datatypes.RecordSettersUsingExistingGetters.

#[global] Open Scope Z_scope.

(** ** Build configuration

    The constants of config/common_base that several components use. *)

Definition RTE_CACHE_LINE_SIZE : Z := 64.
Definition RTE_PKTMBUF_HEADROOM : Z := 832.

(** ** Machine integers

    An unsigned [w]-bit C integer is a [Z] in [0 <= x < 2^w]; every C
    operation that can leave that range is followed by [wrap w].  A signed
    [w]-bit integer is obtained from its bit pattern with [sgn w]. *)

Definition wrap (w x : Z) : Z := x mod 2 ^ w.

Definition sgn (w x : Z) : Z :=
  let y := wrap w x in if y <? 2 ^ (w - 1) then y else y - 2 ^ w.

Abbreviation u8 := (wrap 8).
Abbreviation u16 := (wrap 16).
Abbreviation u32 := (wrap 32).
Abbreviation u64 := (wrap 64).
Abbreviation s32 := (sgn 32).
Abbreviation s64 := (sgn 64).

#[global] Arguments RecordSettersUsingExistingGetters.const {E} newValue _ /.
#[global] Arguments wrap w x : simpl never.
#[global] Arguments sgn w x : simpl never.
#[global] Arguments Z.add _ _ : simpl never.
#[global] Arguments Z.sub _ _ : simpl never.
#[global] Arguments Z.mul _ _ : simpl never.
#[global] Arguments Z.div _ _ : simpl never.
#[global] Arguments Z.modulo _ _ : simpl never.
#[global] Arguments Z.pow _ _ : simpl never.
#[global] Arguments Z.land _ _ : simpl never.
#[global] Arguments Z.lor _ _ : simpl never.
#[global] Arguments Z.lxor _ _ : simpl never.
#[global] Arguments Z.lnot _ : simpl never.
#[global] Arguments Z.shiftl _ _ : simpl never.
#[global] Arguments Z.shiftr _ _ : simpl never.
#[global] Arguments Z.testbit _ _ : simpl never.
#[global] Arguments Z.of_nat _ : simpl never.
#[global] Arguments Z.to_nat _ : simpl never.

Definition in_range (w x : Z) : Prop := 0 <= x < 2 ^ w.

Declare Scope c_scope.
Delimit Scope c_scope with C.
Notation "x '+[' w ']' y" := (wrap w (x + y))
  (at level 50, left associativity) : c_scope.
Notation "x '-[' w ']' y" := (wrap w (x - y))
  (at level 50, left associativity) : c_scope.
Notation "x '*[' w ']' y" := (wrap w (x * y))
  (at level 40, left associativity) : c_scope.
Notation "x '<<[' w ']' n" := (wrap w (Z.shiftl x n))
  (at level 40, left associativity) : c_scope.
#[global] Open Scope c_scope.

(** ** Tactics *)

Create HintDb cdb.

(** Case analysis on the integer comparisons the C conditions turn into. *)
Ltac zcases :=
  repeat match goal with
  | |- context [?a <? ?b] => destruct (Z.ltb_spec a b)
  | |- context [?a <=? ?b] => destruct (Z.leb_spec a b)
  | |- context [?a =? ?b] => destruct (Z.eqb_spec a b)
  | H : context [?a <? ?b] |- _ => destruct (Z.ltb_spec a b)
  | H : context [?a <=? ?b] |- _ => destruct (Z.leb_spec a b)
  | H : context [?a =? ?b] |- _ => destruct (Z.eqb_spec a b)
  end.

(** [2 ^ w] for a literal width, and the division equations, for [lia]. *)
Ltac pow_norm :=
  repeat match goal with
  | |- context [2 ^ ?n] => let v := eval vm_compute in (2 ^ n) in
      match v with Zpos _ => change (2 ^ n) with v end
  | H : context [2 ^ ?n] |- _ => let v := eval vm_compute in (2 ^ n) in
      match v with Zpos _ => change (2 ^ n) with v in H end
  end.
Ltac clia :=
  unfold in_range, wrap in *; pow_norm; Z.div_mod_to_equations; lia.

(** Evaluating record updates on a constructor, with the arithmetic left alone. *)
Ltac rset :=
  cbv - [wrap sgn Z.add Z.sub Z.mul Z.opp Z.land Z.lor Z.lxor Z.shiftl Z.shiftr Z.pow not].

(** ** Lemmas on [wrap] *)

Section Wrap.
Context (w : Z) (Hw : 0 <= w).

Lemma wrap_range x : in_range w (wrap w x).
Proof using Hw. apply Z.mod_pos_bound. lia. Qed.

Lemma wrap_small x : in_range w x -> wrap w x = x.
Proof using. apply Z.mod_small. Qed.

Lemma wrap_wrap x : wrap w (wrap w x) = wrap w x.
Proof using. apply Zmod_mod. Qed.

Lemma wrap_add_l x y : wrap w (wrap w x + y) = wrap w (x + y).
Proof using. apply Zplus_mod_idemp_l. Qed.

Lemma wrap_add_r x y : wrap w (x + wrap w y) = wrap w (x + y).
Proof using. apply Zplus_mod_idemp_r. Qed.

Lemma wrap_sub_l x y : wrap w (wrap w x - y) = wrap w (x - y).
Proof using. apply Zminus_mod_idemp_l. Qed.

Lemma wrap_sub_r x y : wrap w (x - wrap w y) = wrap w (x - y).
Proof using. apply Zminus_mod_idemp_r. Qed.

Lemma wrap_land x : wrap w x = Z.land x (Z.ones w).
Proof using Hw. symmetry. by apply Z.land_ones. Qed.

Lemma wrap_testbit x i :
  Z.testbit (wrap w x) i = (i <? w) && Z.testbit x i.
Proof using Hw.
  destruct (Z.ltb_spec i w).
  - destruct (Z.neg_nonneg_cases i) as [Hi | Hi].
    + by rewrite !Z.testbit_neg_r by done.
    + apply Z.mod_pow2_bits_low. lia.
  - apply Z.mod_pow2_bits_high. lia.
Qed.
End Wrap.

Lemma in_range_testbit w x i :
  0 <= w -> in_range w x -> w <= i -> Z.testbit x i = false.
Proof.
  intros Hw Hx Hi. rewrite <- (wrap_small w x Hx). rewrite wrap_testbit by done.
  destruct (Z.ltb_spec i w); [lia | done].
Qed.

(** Bitwise equality of two integers: reduces to the bits at a
    non-negative index and rewrites the bit operations. *)
Ltac zbits :=
  apply Z.bits_inj'; intros ?i ?Hi;
  repeat (rewrite ?Z.lxor_spec, ?Z.land_spec, ?Z.lor_spec, ?Z.testbit_0_l;
          rewrite ?Z.shiftl_spec, ?Z.shiftr_spec, ?wrap_testbit by lia).

(** Splitting a number at a power of two is a bitwise exclusive or. *)
Lemma split_lxor n x r :
  0 <= n -> 0 <= r < 2 ^ n -> x * 2 ^ n + r = Z.lxor (x * 2 ^ n) r.
Proof.
  intros Hn Hr. apply Z.add_nocarry_lxor. rewrite <- Z.shiftl_mul_pow2 by done.
  zbits. destruct (Z.neg_nonneg_cases (i - n)) as [Hin | Hin].
  - rewrite Z.testbit_neg_r by done. apply andb_false_l.
  - rewrite (in_range_testbit n r) by (unfold in_range in *; lia || done).
    apply andb_false_r.
Qed.

Lemma lxor_odd_even a b : Z.lxor (2 * a + 1) (2 * b) = 2 * Z.lxor a b + 1.
Proof.
  apply Z.bits_inj'. intros i Hi. rewrite Z.lxor_spec.
  destruct (Z.eq_dec i 0) as [-> | Hne].
  - by rewrite !Z.testbit_odd_0, Z.testbit_even_0.
  - replace i with (Z.succ (i - 1)) by lia.
    by rewrite !Z.testbit_odd_succ, Z.testbit_even_succ, Z.lxor_spec by lia.
Qed.

Lemma lxor_even_odd_same a : Z.lxor (2 * a) (2 * a + 1) = 1.
Proof. by rewrite Z.lxor_comm, lxor_odd_even, Z.lxor_nilpotent. Qed.


(** The bits that change when [h] is incremented: the lowest zero bit [t]
    of [h] and everything below it. *)
Lemma succ_lxor h :
  0 <= h ->
  exists t, 0 <= t /\ Z.lxor h (h + 1) = 2 ^ (t + 1) - 1
            /\ (h + 1) mod 2 ^ (t + 1) = 2 ^ t /\ 2 ^ t <= h + 1.
Proof.
  induction h as [h IH] using (well_founded_induction (Z.lt_wf 0)).
  intros Hh. destruct (Z.Even_or_Odd h) as [[a ->] | [a ->]].
  - exists 0. rewrite lxor_even_odd_same. change (2 ^ (0 + 1)) with 2.
    repeat split; try lia. change (2 ^ 0) with 1. Z.div_mod_to_equations; lia.
  - destruct (IH a) as (t & Ht & Hx & Hm & Hle); [lia|lia|].
    exists (t + 1). replace (2 * a + 1 + 1) with (2 * (a + 1)) by lia.
    rewrite lxor_odd_even, Hx. rewrite (Z.pow_add_r 2 (t + 1) 1) by lia.
    rewrite (Z.pow_add_r 2 t 1) in * by lia. change (2 ^ 1) with 2 in *.
    replace (2 ^ t * 2 * 2) with (2 * (2 ^ t * 2)) by lia.
    rewrite Zmult_mod_distr_l, Hm. lia.
Qed.

(** Exhaustive checks over an interval, decided by evaluation. *)
Lemma forallb_seqZ (P : Z -> bool) lo n :
  forallb P (seqZ lo n) = true -> forall x, lo <= x < lo + n -> P x = true.
Proof.
  intros H x Hx. rewrite forallb_forall in H. apply H.
  apply list_elem_of_In, elem_of_seqZ. lia.
Qed.

Lemma forallb_seqZ2 (P : Z -> Z -> bool) lo n lo' n' :
  forallb (fun x => forallb (P x) (seqZ lo' n')) (seqZ lo n) = true ->
  forall x y, lo <= x < lo + n -> lo' <= y < lo' + n' -> P x y = true.
Proof.
  intros H x y Hx Hy. pose proof (forallb_seqZ _ _ _ H x Hx) as Hrow.
  exact (forallb_seqZ _ _ _ Hrow y Hy).
Qed.

(** ** Loops

    A C loop is a body [S -> S + R]: [inl] goes round again, [inr] leaves
    the loop.  [run_loop] runs it with fuel; [loop_diverges] says that no
    amount of fuel is enough. *)

Fixpoint run_loop {S R : Type} (body : S -> S + R) (fuel : nat) (s : S)
  : option R :=
  match fuel with
  | O => None
  | Datatypes.S n =>
      match body s with
      | inl s' => run_loop body n s'
      | inr r => Some r
      end
  end.

Definition loop_diverges {S R : Type} (body : S -> S + R) (s : S) : Prop :=
  forall fuel, run_loop body fuel s = None.

Section Loops.
Context {S R : Type} (body : S -> S + R).

Lemma run_loop_mono n m s r :
  (n <= m)%nat -> run_loop body n s = Some r -> run_loop body m s = Some r.
Proof.
  revert m s. induction n as [|n IH]; intros m s Hle Hrun; [done|].
  destruct m as [|m]; [lia|]. simpl in *.
  destruct (body s); [apply IH; [lia|done] | done].
Qed.

(** A loop whose body keeps an invariant and never leaves from it diverges. *)
Lemma loop_diverges_inv (P : S -> Prop) s :
  P s -> (forall x, P x -> exists x', body x = inl x' /\ P x') ->
  loop_diverges body s.
Proof.
  intros Hs Hstep fuel. revert s Hs.
  induction fuel as [|n IH]; intros s Hs; [done|].
  simpl. destruct (Hstep s Hs) as (x' & -> & Hx'). by apply IH.
Qed.

(** Partial correctness: invariant along the iterations. *)
Lemma run_loop_inv (P : S -> Prop) (Q : R -> Prop) n s r :
  (forall x x', P x -> body x = inl x' -> P x') ->
  (forall x y, P x -> body x = inr y -> Q y) ->
  P s -> run_loop body n s = Some r -> Q r.
Proof.
  intros Hin Hout. revert s. induction n as [|n IH]; intros s Hs Hrun; [done|].
  simpl in Hrun. destruct (body s) eqn:E; [eauto|].
  simplify_eq. eauto.
Qed.

(** Total correctness: invariant and a natural-number measure. *)
Lemma run_loop_total (P : S -> Prop) (Q : R -> Prop) (m : S -> nat) s n :
  (forall x, P x ->
     match body x with
     | inl x' => P x' /\ (m x' < m x)%nat
     | inr y => Q y
     end) ->
  P s -> (m s < n)%nat -> exists r, run_loop body n s = Some r /\ Q r.
Proof.
  intros Hstep. revert s. induction n as [|n IH]; intros s Hs Hm; [lia|].
  simpl. specialize (Hstep s Hs). destruct (body s) as [x'|y].
  - destruct Hstep. apply IH; [done|lia].
  - eauto.
Qed.
End Loops.

#[export] Hint Resolve wrap_range : cdb.
