(* ===== verification/Effects.v ===== *)
(** * Effectful C code

    A state monad with the outcomes of a C function: it returns ([Ret]), ends
    the process with [exit] ([Exit]) or [rte_panic] ([Panic]), has no defined
    behaviour ([UB], for example an access outside an array or through a null
    pointer), or a loop of it used up the fuel of the model ([NoFuel]).  Used
    for the components that call the operating system or change a store. *)

From S2P Require Export Prelude.

Inductive outcome (A : Type) : Type :=
| Ret (a : A)
| Exit (code : Z)
| Panic
| UB
| NoFuel.
Arguments Ret {A} a.
Arguments Exit {A} code.
Arguments Panic {A}.
Arguments UB {A}.
Arguments NoFuel {A}.

(** An outcome that is not a return, at any type. *)
Definition reraise {A B} (o : outcome A) : outcome B :=
  match o with
  | Ret _ => UB
  | Exit e => Exit e
  | Panic => Panic
  | UB => UB
  | NoFuel => NoFuel
  end.

Definition comp (S A : Type) : Type := S -> S * outcome A.

#[global] Instance comp_ret S : MRet (comp S) := fun A a s => (s, Ret a).
#[global] Instance comp_bind S : MBind (comp S) := fun A B k c s =>
  match c s with
  | (s', Ret a) => k a s'
  | (s', o) => (s', reraise o)
  end.

Definition get {S} : comp S S := fun s => (s, Ret s).
Definition put {S} (s : S) : comp S unit := fun _ => (s, Ret tt).
Definition modify {S} (f : S -> S) : comp S unit := fun s => (f s, Ret tt).
Definition exit {S A} (code : Z) : comp S A := fun s => (s, Exit code).
Definition panic {S A} : comp S A := fun s => (s, Panic).
Definition ub {S A} : comp S A := fun s => (s, UB).
Definition no_fuel {S A} : comp S A := fun s => (s, NoFuel).

(** [l[i]] for a C array [l] *)
Definition aread {S} (l : list Z) (i : nat) : comp S Z :=
  match l !! i with Some v => mret v | None => ub end.

(** [for (i = from; i < from + n; i++) f(i)] *)
Fixpoint for_loop {S} (from n : nat) (f : nat -> comp S unit) : comp S unit :=
  match n with
  | O => mret tt
  | Datatypes.S n' => f from ;; for_loop (Datatypes.S from) n' f
  end.

(** A loop whose body is effectful; [inl] goes round again. *)
Fixpoint comp_loop {S X R} (body : X -> comp S (X + R)) (fuel : nat) (x : X)
  : comp S R :=
  match fuel with
  | O => no_fuel
  | Datatypes.S n =>
      y ← body x;
      match y with
      | inl x' => comp_loop body n x'
      | inr r => mret r
      end
  end.

Section CompLemmas.
Context {S : Type}.

Lemma bind_ret {A B} (c : comp S A) (k : A -> comp S B) s s' a :
  c s = (s', Ret a) -> (c ≫= k) s = k a s'.
Proof. intros H. unfold mbind, comp_bind. by rewrite H. Qed.

Lemma bind_exit {A B} (c : comp S A) (k : A -> comp S B) s s' e :
  c s = (s', Exit e) -> (c ≫= k) s = (s', Exit e).
Proof. intros H. unfold mbind, comp_bind. by rewrite H. Qed.

Lemma bind_assoc {A B C} (c : comp S A) (f : A -> comp S B) (g : B -> comp S C) s :
  ((c ≫= f) ≫= g) s = (c ≫= (fun a => f a ≫= g)) s.
Proof. unfold mbind, comp_bind. by destruct (c s) as [s' []]. Qed.

Lemma bind_ret_inv {A B} (c : comp S A) (k : A -> comp S B) s s2 b :
  (c ≫= k) s = (s2, Ret b) -> exists s1 a, c s = (s1, Ret a) /\ k a s1 = (s2, Ret b).
Proof.
  unfold mbind, comp_bind. destruct (c s) as [s1 []]; simpl; try discriminate. eauto.
Qed.

(** Total correctness of a counted loop by an invariant. *)
Lemma for_loop_inv (I : nat -> S -> Prop) (f : nat -> comp S unit) n from s :
  (forall i x, (from <= i < from + n)%nat -> I i x ->
     exists x', f i x = (x', Ret tt) /\ I (Datatypes.S i) x') ->
  I from s ->
  exists s', for_loop from n f s = (s', Ret tt) /\ I (from + n)%nat s'.
Proof.
  revert from s. induction n as [|n IH]; intros from s Hstep Hs.
  - exists s. by rewrite Nat.add_0_r.
  - destruct (Hstep from s) as (s1 & Hf & Hs1); [lia|done|].
    destruct (IH (Datatypes.S from) s1) as (s2 & Hl & Hs2).
    { intros i x Hi. apply Hstep. lia. }
    { done. }
    exists s2. simpl. rewrite (bind_ret _ _ _ _ _ Hf), Hl. split; [done|].
    by replace (from + Datatypes.S n)%nat with (Datatypes.S from + n)%nat by lia.
Qed.
End CompLemmas.

(** Total correctness of an effectful loop: an invariant [J x] on the state
    with the loop variables [x], and a measure of the loop variables. *)
Lemma comp_loop_total {S X R} (J : X -> S -> Prop) (Q : R -> S -> Prop) (m : X -> nat)
  (body : X -> comp S (X + R)) fuel x s :
  (forall x s, J x s -> exists s' r, body x s = (s', Ret r) /\
     match r with inl y => J y s' /\ (m y < m x)%nat | inr r => Q r s' end) ->
  J x s -> (m x < fuel)%nat ->
  exists s' r, comp_loop body fuel x s = (s', Ret r) /\ Q r s'.
Proof.
  intros Hb. revert x s. induction fuel as [|fuel IH]; intros x s HJ Hm; [lia|].
  destruct (Hb x s HJ) as (s1 & [y|r] & Hrun & Hr); simpl; rewrite (bind_ret _ _ _ _ _ Hrun).
  - destruct Hr. apply IH; [done|lia].
  - by exists s1, r.
Qed.

(** ** Partial-correctness triples

    [hoare I c Q]: from a state with [I], if [c] returns then its result and
    final state satisfy [Q]. *)

Definition hoare {S A} (I : S -> Prop) (c : comp S A) (Q : A -> S -> Prop) : Prop :=
  forall s s' a, I s -> c s = (s', Ret a) -> Q a s'.

Section Hoare.
Context {S : Type}.

Lemma hoare_ret {A} (I : S -> Prop) (a : A) (Q : A -> S -> Prop) :
  (forall s, I s -> Q a s) -> hoare I (mret a) Q.
Proof. intros H s s' a' Hs [= <- <-]. auto. Qed.

Lemma hoare_bind {A B} (I : S -> Prop) (c : comp S A) (k : A -> comp S B)
  (R : A -> S -> Prop) (Q : B -> S -> Prop) :
  hoare I c R -> (forall a, hoare (R a) (k a) Q) -> hoare I (c ≫= k) Q.
Proof.
  intros Hc Hk s s' b Hs Hrun. apply bind_ret_inv in Hrun as (s1 & a & Hrun1 & Hrun2).
  exact (Hk a s1 s' b (Hc _ _ _ Hs Hrun1) Hrun2).
Qed.

(** A step that keeps the invariant and tells nothing about its result. *)
Lemma hoare_seq {A B} (I : S -> Prop) (c : comp S A) (k : A -> comp S B) (Q : B -> S -> Prop) :
  hoare I c (fun _ => I) -> (forall a, hoare I (k a) Q) -> hoare I (c ≫= k) Q.
Proof. apply hoare_bind. Qed.

Lemma hoare_weaken {A} (I : S -> Prop) (c : comp S A) (R Q : A -> S -> Prop) :
  hoare I c R -> (forall a s, R a s -> Q a s) -> hoare I c Q.
Proof. intros H HRQ s s' a Hs Hrun. eauto. Qed.

Lemma hoare_pre {A} (I J : S -> Prop) (c : comp S A) (Q : A -> S -> Prop) :
  (forall s, J s -> I s) -> hoare I c Q -> hoare J c Q.
Proof. intros HJI H s s' a Hs Hrun. eauto. Qed.

Lemma hoare_pure {A} (X : Prop) (I : S -> Prop) (c : comp S A) (Q : A -> S -> Prop) :
  (X -> hoare I c Q) -> hoare (fun s => X /\ I s) c Q.
Proof. intros H s s' a [HX Hs] Hrun. by apply (H HX s). Qed.

Lemma hoare_get (I : S -> Prop) : hoare I get (fun a s => a = s /\ I s).
Proof. by intros s s' a Hs [= <- <-]. Qed.

Lemma hoare_modify (I J : S -> Prop) f : (forall s, I s -> J (f s)) -> hoare I (modify f) (fun _ => J).
Proof. intros H s s' a Hs [= <- <-]. auto. Qed.

Lemma hoare_ub {A} (I : S -> Prop) (Q : A -> S -> Prop) : hoare I ub Q.
Proof. by intros s s' a Hs. Qed.

Lemma hoare_no_fuel {A} (I : S -> Prop) (Q : A -> S -> Prop) : hoare I no_fuel Q.
Proof. by intros s s' a Hs. Qed.

(** The invariant of a loop; [J x] holds with the loop variables [x]. *)
Lemma hoare_loop {X R} (J : X -> S -> Prop) (Q : R -> S -> Prop)
  (body : X -> comp S (X + R)) fuel x :
  (forall x, hoare (J x) (body x) (fun r s => match r with inl y => J y s | inr r => Q r s end)) ->
  hoare (J x) (comp_loop body fuel x) Q.
Proof.
  intros Hb. revert x. induction fuel as [|fuel IH]; intros x; simpl; [apply hoare_no_fuel|].
  eapply hoare_bind; [apply Hb|]. intros [y|r]; [apply IH|]. by apply hoare_ret.
Qed.
End Hoare.
