(* ===== verification/Bytes.v ===== *)
(** * Byte memory

    Memory as a function from addresses to bytes, copying, and the conversion
    between integers and their bytes in both byte orders
    ([lib/librte_eal/common/include/generic/rte_byteorder.h], [endian.h]). *)

From S2P Require Import Prelude.

(** The [n] bytes of memory from address [a]. *)
Definition range_bytes (mm : Z -> Z) (a n : Z) : list Z := mm <$> seqZ a n.

(** [memcpy(dst, src, n)] on the data memory *)
Definition mem_copy (m : Z -> Z) (dst src n : Z) : Z -> Z := fun a =>
  if (dst <=? a) && (a <? dst + n) then m (src + (a - dst)) else m a.

(** Storing the bytes [l] from address [a]. *)
Definition store_bytes (m : Z -> Z) (a : Z) (l : list Z) : Z -> Z := fun x =>
  if a <=? x then default (m x) (l !! Z.to_nat (x - a)) else m x.

(** ** Integers and bytes *)

Fixpoint le_bytes (n : nat) (v : Z) : list Z :=
  match n with
  | O => []
  | S n => v mod 256 :: le_bytes n (v / 256)
  end.
Definition le_value (l : list Z) : Z := foldr (fun b acc => b + 256 * acc) 0 l.

Definition bswap (n : nat) (v : Z) : Z := le_value (rev (le_bytes n v)).

(** Loads and stores of 64-bit integers on a little-endian machine. *)
Definition load64 (m : Z -> Z) (a : Z) : Z := le_value (range_bytes m a 8).
Definition store64 (m : Z -> Z) (a v : Z) : Z -> Z := store_bytes m a (le_bytes 8 v).

(** [htobe64] and [be64toh] of a little-endian machine. *)
Definition htobe64 (v : Z) : Z := bswap 8 v.
Definition be64toh (v : Z) : Z := bswap 8 v.

Definition byte_ok (b : Z) : Prop := 0 <= b < 256.

(** ** Ranges *)

Lemma range_bytes_app mm a n1 n2 :
  0 <= n1 -> 0 <= n2 ->
  range_bytes mm a (n1 + n2) = range_bytes mm a n1 ++ range_bytes mm (a + n1) n2.
Proof. intros H1 H2. unfold range_bytes. by rewrite seqZ_app, fmap_app. Qed.

Lemma length_range_bytes mm a n : 0 <= n -> length (range_bytes mm a n) = Z.to_nat n.
Proof. intros H. unfold range_bytes. by rewrite length_fmap, length_seqZ. Qed.

Lemma range_bytes_lookup mm a n i :
  Z.of_nat i < n -> range_bytes mm a n !! i = Some (mm (a + Z.of_nat i)).
Proof. intros H. unfold range_bytes. by rewrite list_lookup_fmap, lookup_seqZ_lt by lia. Qed.

Lemma range_bytes_shift mm mm' a b n :
  (forall i, 0 <= i < n -> mm (a + i) = mm' (b + i)) -> range_bytes mm a n = range_bytes mm' b n.
Proof.
  intros H. unfold range_bytes. apply list_eq. intros i. rewrite !list_lookup_fmap.
  destruct (decide (Z.of_nat i < n)).
  - rewrite !lookup_seqZ_lt by lia. simpl. f_equal. apply H. lia.
  - by rewrite !lookup_seqZ_ge by lia.
Qed.

Lemma range_bytes_ext mm mm' a n :
  (forall x, a <= x < a + n -> mm x = mm' x) -> range_bytes mm a n = range_bytes mm' a n.
Proof. intros H. apply range_bytes_shift. intros i Hi. apply H. lia. Qed.

Lemma range_bytes_ok mm a n : (forall x, byte_ok (mm x)) -> Forall byte_ok (range_bytes mm a n).
Proof. intros H. apply Forall_fmap, Forall_true. intros x. apply H. Qed.

Lemma sub_range mm a n o k :
  0 <= o -> 0 <= k -> o + k <= n ->
  take (Z.to_nat k) (drop (Z.to_nat o) (range_bytes mm a n)) = range_bytes mm (a + o) k.
Proof.
  intros Ho Hk Hn. replace n with (o + (k + (n - o - k))) by lia.
  rewrite !range_bytes_app by lia.
  rewrite drop_app_length', take_app_length' by (rewrite length_range_bytes; lia). done.
Qed.

(** ** Copies and stores *)

Lemma mem_copy_frame mm dst src n a :
  ~ (dst <= a < dst + n) -> mem_copy mm dst src n a = mm a.
Proof.
  intros Ha. unfold mem_copy.
  by destruct (Z.leb_spec dst a), (Z.ltb_spec a (dst + n)); simpl; try lia.
Qed.

Lemma mem_copy_at mm dst src n i :
  0 <= i < n -> mem_copy mm dst src n (dst + i) = mm (src + i).
Proof.
  intros Hi. unfold mem_copy. destruct (Z.leb_spec dst (dst + i)); [|lia].
  destruct (Z.ltb_spec (dst + i) (dst + n)); [|lia]. simpl. f_equal. lia.
Qed.

Lemma mem_copy_bytes mm dst src n :
  range_bytes (mem_copy mm dst src n) dst n = range_bytes mm src n.
Proof. apply range_bytes_shift. intros i. apply mem_copy_at. Qed.

Lemma store_bytes_frame m a l x :
  ~ (a <= x < a + Z.of_nat (length l)) -> store_bytes m a l x = m x.
Proof.
  intros H. unfold store_bytes. destruct (Z.leb_spec a x); [|done].
  by rewrite lookup_ge_None_2 by lia.
Qed.

Lemma store_bytes_read m a l :
  range_bytes (store_bytes m a l) a (Z.of_nat (length l)) = l.
Proof.
  unfold range_bytes. apply list_eq. intros i. rewrite list_lookup_fmap.
  destruct (decide (i < length l)%nat) as [Hi|Hi].
  - rewrite lookup_seqZ_lt by lia. simpl. unfold store_bytes.
    destruct (Z.leb_spec a (a + Z.of_nat i)); [|lia].
    replace (Z.to_nat (a + Z.of_nat i - a)) with i by lia.
    destruct (l !! i) eqn:E; [done|]. apply lookup_ge_None in E. lia.
  - rewrite lookup_seqZ_ge by lia. symmetry. apply lookup_ge_None. lia.
Qed.

Lemma store_bytes_ok m a l :
  Forall byte_ok l -> (forall x, byte_ok (m x)) -> forall x, byte_ok (store_bytes m a l x).
Proof.
  intros Hl H x. unfold store_bytes. destruct (a <=? x); [|apply H].
  destruct (l !! Z.to_nat (x - a)) as [b|] eqn:E; [|apply H].
  by apply (Forall_lookup_1 _ _ _ _ Hl E).
Qed.

Lemma mem_copy_ok m dst src n :
  (forall x, byte_ok (m x)) -> forall x, byte_ok (mem_copy m dst src n x).
Proof. intros H x. unfold mem_copy. by destruct (_ && _). Qed.

(** ** Byte order *)

Lemma le_bytes_length n v : length (le_bytes n v) = n.
Proof. revert v. induction n; intros v; simpl; auto. Qed.

Lemma le_bytes_ok n v : Forall byte_ok (le_bytes n v).
Proof.
  revert v. induction n; intros v; constructor; auto. apply Z.mod_pos_bound. lia.
Qed.

Lemma le_value_bytes n v : le_value (le_bytes n v) = v mod 256 ^ Z.of_nat n.
Proof.
  revert v. induction n as [|n IH]; intros v.
  - change (256 ^ Z.of_nat 0) with 1. by rewrite Z.mod_1_r.
  - simpl. rewrite IH. rewrite Nat2Z.inj_succ, Z.pow_succ_r by lia.
    symmetry. apply Z.rem_mul_r; lia.
Qed.

Lemma le_bytes_value l : Forall byte_ok l -> le_bytes (length l) (le_value l) = l.
Proof.
  induction 1 as [|b l Hb _ IH]; [done|]. unfold byte_ok in Hb. simpl.
  rewrite (Z.add_comm b), Z.mul_comm, Z.div_add_l, Z.add_comm by lia.
  rewrite Z_mod_plus_full, Z.mod_small by lia.
  rewrite (Z.div_small b), Z.add_0_r by lia. by rewrite IH.
Qed.

Lemma le_value_range l :
  Forall byte_ok l -> 0 <= le_value l < 256 ^ Z.of_nat (length l).
Proof.
  induction 1 as [|b l Hb _ IH]; [done|]. unfold byte_ok in Hb. simpl length.
  rewrite Nat2Z.inj_succ, Z.pow_succ_r by lia. simpl. lia.
Qed.

Lemma bswap_bytes n v : le_bytes n (bswap n v) = rev (le_bytes n v).
Proof.
  unfold bswap. pose proof (le_bytes_value (rev (le_bytes n v))) as H.
  rewrite length_rev, le_bytes_length in H. apply H. apply Forall_rev, le_bytes_ok.
Qed.

Lemma bswap_involutive n v : 0 <= v < 256 ^ Z.of_nat n -> bswap n (bswap n v) = v.
Proof.
  intros Hv. unfold bswap at 1. rewrite bswap_bytes, rev_involutive, le_value_bytes.
  by apply Z.mod_small.
Qed.

Lemma bswap_range n v : 0 <= bswap n v < 256 ^ Z.of_nat n.
Proof.
  unfold bswap. pose proof (le_value_range (rev (le_bytes n v))) as H.
  rewrite length_rev, le_bytes_length in H. apply H. apply Forall_rev, le_bytes_ok.
Qed.

Lemma load64_store64 m a v : load64 (store64 m a v) a = u64 v.
Proof.
  unfold load64, store64. pose proof (store_bytes_read m a (le_bytes 8 v)) as H.
  rewrite le_bytes_length in H. change (Z.of_nat 8) with 8 in H. rewrite H.
  by rewrite le_value_bytes.
Qed.

Lemma store64_frame m a v x : ~ (a <= x < a + 8) -> store64 m a v x = m x.
Proof. intros H. apply store_bytes_frame. by rewrite le_bytes_length. Qed.

Lemma store64_ok m a v : (forall x, byte_ok (m x)) -> forall x, byte_ok (store64 m a v x).
Proof. intros H. apply store_bytes_ok; [apply le_bytes_ok|done]. Qed.

Lemma load64_shift m m' a b :
  (forall i, 0 <= i < 8 -> m (a + i) = m' (b + i)) -> load64 m a = load64 m' b.
Proof. intros H. unfold load64. by rewrite (range_bytes_shift m m' a b). Qed.

Lemma load64_ext m m' a : (forall x, a <= x < a + 8 -> m x = m' x) -> load64 m a = load64 m' a.
Proof. intros H. apply load64_shift. intros i Hi. apply H. lia. Qed.

Lemma load64_range m a : (forall x, byte_ok (m x)) -> in_range 64 (load64 m a).
Proof.
  intros H. unfold load64, in_range.
  pose proof (le_value_range _ (range_bytes_ok m a 8 H)) as Hr.
  rewrite length_range_bytes in Hr by lia. done.
Qed.

#[export] Hint Resolve le_bytes_ok range_bytes_ok store64_ok store_bytes_ok mem_copy_ok : cdb.
