(* ===== verification/Slice.v ===== *)
(** * LLC slice selection

    Models [lib/librte_slice/rte_slice.h]: the constants, the Haswell hash
    function from a physical address to the LLC slice that caches it, the
    search for the next cache line of a wanted slice, and the set index
    computation.  The search through the uncore counters
    ([rte_slice.c]) is in [Msr]. *)

From S2P Require Import Prelude.

(** The macro that selects the CPU ([HASWELL] or [SKYLAKE], [rte_msr.h]). *)
Inductive cpu_arch := HASWELL | SKYLAKE.

Definition hash_0 : Z := 0x1B5F575440.
Definition hash_1 : Z := 0x2EB5FAA880.
Definition hash_2 : Z := 0x3CCCC93100.

Definition socketNumber : Z := 2.
Definition coreNumber : Z := 8.
Definition LINE : Z := 64.

(** [SKYLAKE_*] and [HASWELL_*] set index masks, and their selection. *)
Definition L3_INDEX_PER_SLICE (a : cpu_arch) : Z :=
  match a with SKYLAKE => 0x1FFC0 | HASWELL => 0x1FFC0 end.
Definition L2_INDEX (a : cpu_arch) : Z :=
  match a with SKYLAKE => 0xFFC0 | HASWELL => 0x7FC0 end.
Definition L1_INDEX (a : cpu_arch) : Z :=
  match a with SKYLAKE => 0xFC0 | HASWELL => 0xFC0 end.
Definition L3_INDEX_STRIDE (a : cpu_arch) : Z :=
  match a with SKYLAKE => 0x20000 | HASWELL => 0x20000 end.
Definition L2_INDEX_STRIDE (a : cpu_arch) : Z :=
  match a with SKYLAKE => 0x10000 | HASWELL => 0x8000 end.

(** The compiler builtin: exclusive or of the 64 bits of its argument. *)
Definition parity_bits (x : Z) : bool :=
  foldr (fun i acc => xorb (Z.testbit x i) acc) false (seqZ 0 64).

(** [__builtin_parityll(ma)] *)
Definition rte_xorall64 (ma : Z) : Z := Z.b2z (parity_bits ma).

Definition calculateSlice_HF_haswell (pa : Z) : Z :=
  let sliceNum := 0 in
  let sliceNum := u8 (Z.lor (Z.shiftl sliceNum 1) (rte_xorall64 (Z.land pa hash_2))) in
  let sliceNum := u8 (Z.lor (Z.shiftl sliceNum 1) (rte_xorall64 (Z.land pa hash_1))) in
  let sliceNum := u8 (Z.lor (Z.shiftl sliceNum 1) (rte_xorall64 (Z.land pa hash_0))) in
  sliceNum.

(** The loop of [sliceFinder_HF_haswell]; its state is the [uint16_t offset]. *)
Definition sliceFinder_HF_body (pa desiredSlice offset : Z) : Z + Z :=
  if negb (desiredSlice =? calculateSlice_HF_haswell (pa +[64] offset))
  then inl (offset +[16] LINE)
  else inr offset.

Definition sliceFinder_HF_haswell (fuel : nat) (pa desiredSlice : Z) : option Z :=
  run_loop (sliceFinder_HF_body pa desiredSlice) fuel 0.

(** [None] is [exit(EXIT_FAILURE)]. *)
Definition indexCalculator (a : cpu_arch) (addr_in cacheLevel : Z) : option Z :=
  if cacheLevel =? 1 then Some (Z.shiftr (Z.land addr_in (L1_INDEX a)) 6)
  else if cacheLevel =? 2 then Some (Z.shiftr (Z.land addr_in (L2_INDEX a)) 6)
  else if cacheLevel =? 3 then Some (Z.shiftr (Z.land addr_in (L3_INDEX_PER_SLICE a)) 6)
  else None.

(** ** The hash function is linear *)

Lemma parity_bits_lxor x y :
  parity_bits (Z.lxor x y) = xorb (parity_bits x) (parity_bits y).
Proof.
  unfold parity_bits. induction (seqZ 0 64) as [|i l IH]; [done|].
  simpl. rewrite IH, Z.lxor_spec.
  btauto.
Qed.

Lemma land_lxor_distr x y z : Z.land (Z.lxor x y) z = Z.lxor (Z.land x z) (Z.land y z).
Proof.
  zbits. by destruct (Z.testbit x i), (Z.testbit y i), (Z.testbit z i).
Qed.

(** The slice number from its three parity bits. *)
Definition slice_of_bits (b2 b1 b0 : bool) : Z :=
  4 * Z.b2z b2 + 2 * Z.b2z b1 + Z.b2z b0.

Lemma calculateSlice_bits pa :
  calculateSlice_HF_haswell pa
  = slice_of_bits (parity_bits (Z.land pa hash_2)) (parity_bits (Z.land pa hash_1))
      (parity_bits (Z.land pa hash_0)).
Proof.
  unfold calculateSlice_HF_haswell, rte_xorall64.
  by destruct (parity_bits (Z.land pa hash_2)), (parity_bits (Z.land pa hash_1)),
    (parity_bits (Z.land pa hash_0)).
Qed.

Lemma calculateSlice_lxor x y :
  calculateSlice_HF_haswell (Z.lxor x y)
  = Z.lxor (calculateSlice_HF_haswell x) (calculateSlice_HF_haswell y).
Proof.
  rewrite !calculateSlice_bits, !land_lxor_distr, !parity_bits_lxor.
  by destruct (parity_bits (Z.land x hash_2)), (parity_bits (Z.land x hash_1)),
    (parity_bits (Z.land x hash_0)), (parity_bits (Z.land y hash_2)),
    (parity_bits (Z.land y hash_1)), (parity_bits (Z.land y hash_0)).
Qed.

Lemma calculateSlice_range pa : 0 <= calculateSlice_HF_haswell pa < 8.
Proof.
  rewrite calculateSlice_bits. unfold slice_of_bits.
  destruct (parity_bits _), (parity_bits _), (parity_bits _); simpl; lia.
Qed.

(** Only the low 38 bits of an address are hashed, so the 64-bit wrap-around
    does not change the slice. *)
Lemma calculateSlice_wrap pa :
  calculateSlice_HF_haswell (u64 pa) = calculateSlice_HF_haswell pa.
Proof.
  assert (forall h, in_range 64 h -> Z.land (u64 pa) h = Z.land pa h) as Hland.
  { intros h Hh. zbits. destruct (Z.ltb_spec i 64); [done|].
    rewrite (in_range_testbit 64 h) by (done || lia). by rewrite !andb_false_r. }
  rewrite !calculateSlice_bits, !Hland by (unfold in_range; vm_compute; intuition congruence).
  done.
Qed.

(** ** Cache lines and 512-byte blocks *)

(** The slice of the line number [q]. *)
Definition line_slice (q : Z) : Z := calculateSlice_HF_haswell (q * 64).
(** The slice of the first line of the 512-byte block [h]. *)
Definition block_slice (h : Z) : Z := calculateSlice_HF_haswell (h * 512).

Lemma slice_low_bits r : 0 <= r < 64 -> calculateSlice_HF_haswell r = 0.
Proof.
  intros Hr. apply Z.eqb_eq.
  apply (forallb_seqZ (fun x => calculateSlice_HF_haswell x =? 0) 0 64); [|done].
  vm_compute. reflexivity.
Qed.

Lemma slice_line_index k : 0 <= k < 8 -> calculateSlice_HF_haswell (k * 64) = k.
Proof.
  intros Hk. apply Z.eqb_eq.
  apply (forallb_seqZ (fun x => calculateSlice_HF_haswell (x * 64) =? x) 0 8); [|done].
  vm_compute. reflexivity.
Qed.

Lemma slice_of_line q r : 0 <= r < 64 -> calculateSlice_HF_haswell (q * 64 + r) = line_slice q.
Proof.
  intros Hr. change (q * 64) with (q * 2 ^ 6). rewrite (split_lxor 6 q r) by lia.
  rewrite calculateSlice_lxor, (slice_low_bits r) by done. apply Z.lxor_0_r.
Qed.

Lemma line_in_block h k : 0 <= k < 8 -> line_slice (h * 8 + k) = Z.lxor (block_slice h) k.
Proof.
  intros Hk. unfold line_slice. replace ((h * 8 + k) * 64) with (h * 512 + k * 64) by lia.
  change (h * 512) with (h * 2 ^ 9). rewrite (split_lxor 9 h (k * 64)) by lia.
  by rewrite calculateSlice_lxor, (slice_line_index k).
Qed.

(** Exclusive or on three-bit numbers. *)
Lemma lxor3_range a b : 0 <= a < 8 -> 0 <= b < 8 -> 0 <= Z.lxor a b < 8.
Proof.
  intros Ha Hb.
  assert (((0 <=? Z.lxor a b) && (Z.lxor a b <? 8)) = true) as H.
  { by apply (forallb_seqZ2 (fun x y => (0 <=? Z.lxor x y) && (Z.lxor x y <? 8)) 0 8 0 8). }
  apply andb_prop in H. zcases; lia || easy.
Qed.

Lemma lxor_cancel a b : Z.lxor a (Z.lxor a b) = b.
Proof. by rewrite <- Z.lxor_assoc, Z.lxor_nilpotent, Z.lxor_0_l. Qed.

Lemma block_slice_range h : 0 <= block_slice h < 8.
Proof. apply calculateSlice_range. Qed.

#[export] Hint Resolve calculateSlice_range block_slice_range lxor3_range : cdb.

(** How many lines after line [l] of block [h] the first line of slice [s] is. *)
Definition next_line (h l s : Z) : Z :=
  let p := Z.lxor (block_slice h) s in
  if l <=? p then p - l else 8 - l + Z.lxor (block_slice (h + 1)) s.

Lemma next_line_hit h l s :
  0 <= l < 8 -> 0 <= s < 8 -> line_slice (h * 8 + l + next_line h l s) = s.
Proof.
  intros Hl Hs. unfold next_line.
  pose proof (lxor3_range _ _ (block_slice_range h) Hs).
  pose proof (lxor3_range _ _ (block_slice_range (h + 1)) Hs).
  zcases.
  - replace (h * 8 + l + _) with (h * 8 + Z.lxor (block_slice h) s) by lia.
    by rewrite line_in_block, lxor_cancel.
  - replace (h * 8 + l + _) with ((h + 1) * 8 + Z.lxor (block_slice (h + 1)) s) by lia.
    by rewrite line_in_block, lxor_cancel.
Qed.

Lemma next_line_first h l s j :
  0 <= l < 8 -> 0 <= s < 8 -> 0 <= j < next_line h l s ->
  line_slice (h * 8 + l + j) <> s.
Proof.
  intros Hl Hs Hj Heq. unfold next_line in Hj.
  pose proof (lxor3_range _ _ (block_slice_range h) Hs).
  pose proof (lxor3_range _ _ (block_slice_range (h + 1)) Hs).
  destruct (Z.ltb_spec (l + j) 8).
  - replace (h * 8 + l + j) with (h * 8 + (l + j)) in Heq by lia.
    rewrite line_in_block in Heq by lia. subst s. rewrite lxor_cancel in *. zcases; lia.
  - replace (h * 8 + l + j) with ((h + 1) * 8 + (l + j - 8)) in Heq by lia.
    zcases; [lia|]. rewrite line_in_block in Heq by lia.
    subst s. rewrite lxor_cancel in *. lia.
Qed.

Lemma next_line_bound h l s :
  0 <= l < 8 -> 0 <= s < 8 -> 0 <= next_line h l s <= 14.
Proof.
  intros Hl Hs. unfold next_line.
  pose proof (lxor3_range _ _ (block_slice_range h) Hs).
  pose proof (lxor3_range _ _ (block_slice_range (h + 1)) Hs).
  zcases; lia.
Qed.

(** Fourteen lines are needed only when consecutive blocks have complementary
    slice numbers. *)
Lemma next_line_bound_13 h l s :
  0 <= l < 8 -> 0 <= s < 8 -> Z.lxor (block_slice h) (block_slice (h + 1)) <> 7 ->
  next_line h l s <= 13.
Proof.
  intros Hl Hs Hd. pose proof (next_line_bound h l s Hl Hs). unfold next_line in *.
  pose proof (lxor3_range _ _ (block_slice_range h) Hs).
  pose proof (lxor3_range _ _ (block_slice_range (h + 1)) Hs) as Hp.
  zcases; [lia|]. destruct (Z.eq_dec l 1) as [-> | ]; [|lia].
  assert (Z.lxor (block_slice h) s = 0) as Hp0 by lia.
  destruct (Z.eq_dec (Z.lxor (block_slice (h + 1)) s) 7) as [H7 | ]; [|lia].
  exfalso. apply Hd. apply Z.lxor_eq in Hp0. rewrite <- Hp0 in H7.
  by rewrite Z.lxor_comm.
Qed.

(** Where consecutive blocks are complementary: at the odd multiples of
    2^26 bytes, that is when the block number after the boundary is an odd
    multiple of 2^17. *)
Lemma block_slice_diff h :
  0 <= h < 2 ^ 55 -> (h + 1) mod 2 ^ 18 <> 2 ^ 17 ->
  Z.lxor (block_slice h) (block_slice (h + 1)) <> 7.
Proof.
  intros Hh Hodd. destruct (succ_lxor h) as (t & Ht & Hx & Hm & Hle); [lia|].
  assert (Z.lxor (block_slice h) (block_slice (h + 1))
          = calculateSlice_HF_haswell ((2 ^ (t + 1) - 1) * 512)) as ->.
  { unfold block_slice. rewrite <- calculateSlice_lxor, <- Hx.
    change 512 with (2 ^ 9). rewrite <- !Z.shiftl_mul_pow2 by lia.
    by rewrite Z.shiftl_lxor. }
  assert (t <= 55) by (apply (Z.pow_le_mono_r_iff 2); lia).
  assert (t <> 17) by (intros ->; by apply Hodd).
  intros H7.
  assert (((t =? 17) || negb (calculateSlice_HF_haswell ((2 ^ (t + 1) - 1) * 512) =? 7)) = true)
    as Hchk.
  { apply (forallb_seqZ (fun t => (t =? 17)
       || negb (calculateSlice_HF_haswell ((2 ^ (t + 1) - 1) * 512) =? 7)) 0 56); [|lia].
    vm_compute. reflexivity. }
  rewrite H7 in Hchk. destruct (Z.eqb_spec t 17); [lia|done].
Qed.

(** ** The search loop *)

Lemma slice_at_offset pa i :
  0 <= pa -> 0 <= i ->
  calculateSlice_HF_haswell (pa +[64] (64 * i)) = line_slice (pa / 64 + i).
Proof.
  intros Hpa Hi. rewrite calculateSlice_wrap.
  replace (pa + 64 * i) with ((pa / 64 + i) * 64 + pa mod 64)
    by (pose proof (Z.div_mod pa 64); lia).
  apply slice_of_line. by apply Z.mod_pos_bound.
Qed.

Lemma sliceFinder_run pa s i j fuel :
  0 <= pa -> 0 <= i <= j -> j < 1024 ->
  (forall k, i <= k < j -> line_slice (pa / 64 + k) <> s) ->
  line_slice (pa / 64 + j) = s -> (Z.to_nat (j - i) < fuel)%nat ->
  run_loop (sliceFinder_HF_body pa s) fuel (64 * i) = Some (64 * j).
Proof.
  intros Hpa Hij Hj. remember (Z.to_nat (j - i)) as n eqn:Hn.
  revert i Hij Hn fuel. induction n as [|n IH]; intros i Hij Hn fuel Hmiss Hhit Hf;
    (destruct fuel as [|fuel]; [lia|]); simpl; unfold sliceFinder_HF_body at 1;
    rewrite slice_at_offset by lia.
  - replace i with j by lia. rewrite Hhit, Z.eqb_refl. done.
  - destruct (Z.eqb_spec s (line_slice (pa / 64 + i))) as [->|Hne].
    { exfalso. apply (Hmiss i); [lia|done]. }
    simpl. replace (64 * i +[16] LINE) with (64 * (i + 1)) by (unfold LINE; clia).
    apply IH; try lia. intros k Hk. apply Hmiss. lia.
Qed.

(** The line found, from an arbitrary start address. *)
Definition slice_distance (pa s : Z) : Z := next_line (pa / 64 / 8) (pa / 64 mod 8) s.

Lemma slice_distance_spec pa s :
  0 <= pa -> 0 <= s < 8 ->
  0 <= slice_distance pa s <= 14
  /\ line_slice (pa / 64 + slice_distance pa s) = s
  /\ forall k, 0 <= k < slice_distance pa s -> line_slice (pa / 64 + k) <> s.
Proof.
  intros Hpa Hs. unfold slice_distance.
  assert (0 <= pa / 64 mod 8 < 8) as Hl by (by apply Z.mod_pos_bound).
  pose proof (Z.div_mod (pa / 64) 8 ltac:(done)) as Hq.
  repeat split.
  1, 2: apply next_line_bound; done.
  - rewrite Hq at 1. rewrite (Z.mul_comm 8). by apply next_line_hit.
  - intros k Hk. rewrite Hq at 1. rewrite (Z.mul_comm 8). by apply next_line_first.
Qed.

Lemma sliceFinder_HF_result pa s fuel :
  in_range 64 pa -> 0 <= s < 8 -> (15 <= fuel)%nat ->
  sliceFinder_HF_haswell fuel pa s = Some (64 * slice_distance pa s).
Proof.
  intros [Hpa _] Hs Hf. destruct (slice_distance_spec pa s) as (Hb & Hhit & Hmiss); [done..|].
  unfold sliceFinder_HF_haswell. apply (sliceFinder_run pa s 0); try done; lia.
Qed.

Lemma slice_distance_13 pa s :
  in_range 64 pa -> 0 <= s < 8 -> (pa / 512 + 1) mod 2 ^ 18 <> 2 ^ 17 ->
  slice_distance pa s <= 13.
Proof.
  intros Hpa Hs Hodd. unfold slice_distance. rewrite Z.div_div by done.
  change (64 * 8) with 512.
  apply next_line_bound_13; [by apply Z.mod_pos_bound|done|].
  apply block_slice_diff; [|done]. clia.
Qed.

(** A line is never before the distance of its own slice. *)
Lemma slice_distance_own pa k :
  0 <= pa -> 0 <= k -> slice_distance pa (line_slice (pa / 64 + k)) <= k.
Proof.
  intros Hpa Hk. assert (0 <= line_slice (pa / 64 + k) < 8) as Hs by apply calculateSlice_range.
  destruct (slice_distance_spec pa _ Hpa Hs) as (_ & _ & Hmiss).
  destruct (Z.le_gt_cases (slice_distance pa (line_slice (pa / 64 + k))) k); [done|].
  exfalso. by apply (Hmiss k); [lia|].
Qed.

(** ** Properties *)

(** C3. [sliceFinder_HF_haswell] terminates for every 64-bit physical address
    and every existing slice, after at most 15 tests of the loop condition.
    The offset it returns is a multiple of the cache line, at most 896 bytes,
    the line at that offset is cached by the wanted slice, and no earlier line
    is. *)
Theorem sliceFinder_HF_haswell_correct pa desiredSlice fuel :
  in_range 64 pa -> 0 <= desiredSlice < 8 -> (15 <= fuel)%nat ->
  exists offset,
    sliceFinder_HF_haswell fuel pa desiredSlice = Some offset
    /\ offset mod LINE = 0 /\ 0 <= offset <= 896
    /\ calculateSlice_HF_haswell (pa +[64] offset) = desiredSlice
    /\ forall o, o mod LINE = 0 -> 0 <= o < offset ->
         calculateSlice_HF_haswell (pa +[64] o) <> desiredSlice.
Proof.
  intros Hpa Hs Hf. exists (64 * slice_distance pa desiredSlice).
  pose proof (proj1 Hpa) as Hpa0.
  destruct (slice_distance_spec pa desiredSlice) as (Hb & Hhit & Hmiss); [done..|].
  split; [by apply sliceFinder_HF_result|]. unfold LINE. repeat split.
  - rewrite Z.mul_comm. apply Z.mod_mul. lia.
  - lia.
  - lia.
  - by rewrite slice_at_offset by lia.
  - intros o Ho Hlt. apply Z.mod_divide in Ho as [k ->]; [|lia].
    rewrite (Z.mul_comm k), slice_at_offset by lia. apply Hmiss. lia.
Qed.

(** C7. The configured headroom of 832 bytes ([CONFIG_RTE_PKTMBUF_HEADROOM])
    is enough for every offset the search can return, unless the first 512-byte
    boundary after the buffer's start is an odd multiple of 64 MiB. *)
Theorem sliceFinder_fits_headroom pa desiredSlice fuel offset :
  in_range 64 pa -> 0 <= desiredSlice < 8 -> (15 <= fuel)%nat ->
  (pa / 512 + 1) mod 2 ^ 18 <> 2 ^ 17 ->
  sliceFinder_HF_haswell fuel pa desiredSlice = Some offset -> offset <= 832.
Proof.
  intros Hpa Hs Hf Hodd Hrun. rewrite sliceFinder_HF_result in Hrun by done.
  simplify_eq. pose proof (slice_distance_13 pa desiredSlice Hpa Hs Hodd). lia.
Qed.

(** C8. Within every aligned 512-byte block each of the eight slices caches
    exactly one of the eight lines: the line number inside the block and the
    slice determine each other. *)
Theorem block_slices_bijective base slice :
  0 <= base -> base mod 512 = 0 -> 0 <= slice < 8 ->
  exists k, 0 <= k < 8
    /\ forall j r, 0 <= j < 8 -> 0 <= r < LINE ->
         calculateSlice_HF_haswell (base + j * LINE + r) = slice <-> j = k.
Proof.
  intros Hb Hm Hs. apply Z.mod_divide in Hm as [h ->]; [|lia].
  exists (Z.lxor (block_slice h) slice). split; [auto with cdb|].
  intros j r Hj Hr. unfold LINE in *.
  replace (h * 512 + j * 64 + r) with ((h * 8 + j) * 64 + r) by lia.
  rewrite slice_of_line, line_in_block by done.
  split; [intros <- | intros ->]; by rewrite lxor_cancel.
Qed.

(** For a slice number the CPU does not have, the search never ends. *)
Theorem sliceFinder_HF_haswell_diverges pa desiredSlice :
  8 <= desiredSlice -> loop_diverges (sliceFinder_HF_body pa desiredSlice) 0.
Proof.
  intros Hs. apply (loop_diverges_inv _ (fun _ => True)); [done|].
  intros o _. exists (o +[16] LINE). split; [|done].
  unfold sliceFinder_HF_body. pose proof (calculateSlice_range (pa +[64] o)).
  destruct (Z.eqb_spec desiredSlice (calculateSlice_HF_haswell (pa +[64] o))); [lia|done].
Qed.

(** The set count of each cache level. *)
Definition cache_sets (a : cpu_arch) (cacheLevel : Z) : Z :=
  if cacheLevel =? 1 then 64
  else if cacheLevel =? 2 then match a with SKYLAKE => 1024 | HASWELL => 512 end
  else 2048.

Lemma index_mask x n : 0 <= n -> Z.shiftr (Z.land x (Z.shiftl (Z.ones n) 6)) 6 = (x / 64) mod 2 ^ n.
Proof.
  intros Hn. rewrite Z.shiftr_land, Z.shiftr_shiftl_l by lia.
  rewrite Z.shiftl_0_r, Z.land_ones by done. by rewrite Z.shiftr_div_pow2 by lia.
Qed.

(** The set index is the line number modulo the number of sets of the
    level, for the three cache levels of both CPUs; other levels exit. *)
Lemma indexCalculator_correct a addr_in cacheLevel :
  indexCalculator a addr_in cacheLevel
  = if (1 <=? cacheLevel) && (cacheLevel <=? 3)
    then Some ((addr_in / LINE) mod cache_sets a cacheLevel) else None.
Proof.
  unfold indexCalculator, cache_sets, LINE.
  destruct (Z.eqb_spec cacheLevel 1) as [->|]; [destruct a; apply (f_equal Some), (index_mask addr_in 6); lia|].
  destruct (Z.eqb_spec cacheLevel 2) as [->|].
  { destruct a; [apply (f_equal Some), (index_mask addr_in 9)|
                 apply (f_equal Some), (index_mask addr_in 10)]; lia. }
  destruct (Z.eqb_spec cacheLevel 3) as [->|].
  { destruct a; apply (f_equal Some), (index_mask addr_in 11); lia. }
  destruct (Z.leb_spec 1 cacheLevel), (Z.leb_spec cacheLevel 3); done || lia.
Qed.

(** ** Witnesses *)

Example sliceFinder_correct_witness :
  in_range 64 0x12345680 /\ exists offset,
    sliceFinder_HF_haswell 15 0x12345680 5 = Some offset
    /\ offset mod LINE = 0 /\ 0 <= offset <= 896
    /\ calculateSlice_HF_haswell (0x12345680 +[64] offset) = 5
    /\ forall o, o mod LINE = 0 -> 0 <= o < offset ->
         calculateSlice_HF_haswell (0x12345680 +[64] o) <> 5.
Proof.
  split; [by split; vm_compute|].
  apply (sliceFinder_HF_haswell_correct 0x12345680 5 15); [by split; vm_compute|lia|lia].
Defined.

Example sliceFinder_fits_headroom_witness :
  sliceFinder_HF_haswell 15 (0x1000 + 64) 6 = Some 128 /\ 128 <= 832.
Proof.
  assert (sliceFinder_HF_haswell 15 (0x1000 + 64) 6 = Some 128) as H by (vm_compute; reflexivity).
  split; [exact H|].
  apply (sliceFinder_fits_headroom (0x1000 + 64) 6 15 128);
    [by split; vm_compute|lia|lia|by vm_compute|exact H].
Defined.

(** The boundary case: one line past a 512-byte block that ends at 64 MiB
    the first line of slice 0 is 896 bytes away, more than the headroom. *)
Example headroom_exceeded :
  sliceFinder_HF_haswell 15 (2 ^ 26 - 512 + 64) 0 = Some 896.
Proof. vm_compute. reflexivity. Qed.

Example block_slices_bijective_witness :
  exists k, 0 <= k < 8
    /\ forall j r, 0 <= j < 8 -> 0 <= r < LINE ->
         calculateSlice_HF_haswell (0x40000 + j * LINE + r) = 5 <-> j = k.
Proof. apply (block_slices_bijective 0x40000 5); [lia|reflexivity|lia]. Defined.

Example sliceFinder_HF_haswell_diverges_witness :
  loop_diverges (sliceFinder_HF_body 0x40000 8) 0.
Proof. apply (sliceFinder_HF_haswell_diverges 0x40000 8). lia. Defined.
