(* ===== verification/Msr.v ===== *)
(** * Model-specific registers and the uncore slice search

    Models [lib/librte_msr/rte_msr.c] (reading and writing MSRs of CPU 0,
    programming the CBo/CHA counters, finding the busiest counter) and
    [lib/librte_slice/rte_slice.c] (the slice search that uses them).

    The operating system calls on [/dev/cpu/0/msr], the [clflush] instruction
    and the allocator are not code of the repository: they are the class
    [MsrOs].  What the hardware documentation promises about the counters is
    the class [CboCounters]; the theorems about the slice that is found use
    only these laws, and [sim_os] instantiates both with a simulated uncore. *)

From S2P Require Import Prelude Effects Slice.

(** The values of [errno] the code distinguishes. *)
Inductive errno := ENXIO | EIO | EOTHER.

Inductive open_mode := O_RDONLY | O_WRONLY.

(** [os_open] returns the descriptor or -1, with the errno of the failure;
    the read and write calls return [inr] when they do not transfer the eight
    bytes of the register. *)
Class MsrOs (W : Type) := {
  os_open : W -> open_mode -> W * (Z * errno);
  os_pread : W -> Z -> Z -> W * (Z + errno);
  os_pwrite : W -> Z -> Z -> Z -> W * (unit + errno);
  os_clflush : W -> Z -> W;
  os_calloc : W -> Z -> W * bool;
}.

(** [rte_msr.h] *)
Definition NUMBER_POLLING : nat := 750.
Definition PMON_GLOBAL_CTL_ADDRESS : Z := 0x700.
Definition SELECTED_EVENT : Z := 0x441134.
Definition RESET_COUNTERS : Z := 0x30002.
Definition NUMBER_SLICES (a : cpu_arch) : nat :=
  match a with SKYLAKE => 28 | HASWELL => 8 end.
Definition ENABLE_COUNT (a : cpu_arch) : Z :=
  match a with SKYLAKE => 0x2000000000000000 | HASWELL => 0x20000000 end.
Definition DISABLE_COUNT (a : cpu_arch) : Z :=
  match a with SKYLAKE => 0x8000000000000000 | HASWELL => 0x80000000 end.
Definition FILTER_BOX_VALUE (a : cpu_arch) : Z :=
  match a with SKYLAKE => 0x01FE0000 | HASWELL => 0x007E0000 end.

(** The MSR address tables of [rte_msr.c]. *)
Definition CHA_CBO_EVENT_ADDRESS : list Z :=
  [0x0E01; 0x0E11; 0x0E21; 0x0E31; 0x0E41; 0x0E51; 0x0E61; 0x0E71; 0x0E81; 0x0E91;
   0x0EA1; 0x0EB1; 0x0EC1; 0x0ED1; 0x0EE1; 0x0EF1; 0x0F01; 0x0F11; 0x0F21; 0x0F31; 0x0F41;
   0x0F51; 0x0F61; 0x0F71; 0x0F81; 0x0F91; 0x0FA1; 0x0FB1].
Definition CHA_CBO_CTL_ADDRESS : list Z :=
  [0x0E00; 0x0E10; 0x0E20; 0x0E30; 0x0E40; 0x0E50; 0x0E60; 0x0E70; 0x0E80; 0x0E90;
   0x0EA0; 0x0EB0; 0x0EC0; 0x0ED0; 0x0EE0; 0x0EF0; 0x0F00; 0x0F10; 0x0F20; 0x0F30; 0x0F40;
   0x0F50; 0x0F60; 0x0F70; 0x0F80; 0x0F90; 0x0FA0; 0x0FB0].
Definition CHA_CBO_FILTER_ADDRESS : list Z :=
  [0x0E05; 0x0E15; 0x0E25; 0x0E35; 0x0E45; 0x0E55; 0x0E65; 0x0E75; 0x0E85; 0x0E95;
   0x0EA5; 0x0EB5; 0x0EC5; 0x0ED5; 0x0EE5; 0x0EF5; 0x0F05; 0x0F15; 0x0F25; 0x0F35; 0x0F45;
   0x0F55; 0x0F65; 0x0F75; 0x0F85; 0x0F95; 0x0FA5; 0x0FB5].
Definition CHA_CBO_COUNTER_ADDRESS : list Z :=
  [0x0E08; 0x0E18; 0x0E28; 0x0E38; 0x0E48; 0x0E58; 0x0E68; 0x0E78; 0x0E88; 0x0E98;
   0x0EA8; 0x0EB8; 0x0EC8; 0x0ED8; 0x0EE8; 0x0EF8; 0x0F08; 0x0F18; 0x0F28; 0x0F38; 0x0F48;
   0x0F58; 0x0F68; 0x0F78; 0x0F88; 0x0F98; 0x0FA8; 0x0FB8].

(** The static variables of the two functions, the number of heap blocks that
    [find_CHA_CBO] allocated and nobody freed, and the world outside. *)
Record msr_state (W : Type) := MsrState {
  rd_fd : Z;
  wr_fd : Z;
  live_blocks : Z;
  world : W;
}.
Arguments MsrState {W}.
Arguments rd_fd {W}.
Arguments wr_fd {W}.
Arguments live_blocks {W}.
Arguments world {W}.

(** The state of a fresh process: both statics are -1. *)
Definition msr_init {W} (w : W) : msr_state W := MsrState (-1) (-1) 0 w.

Definition set_rd_fd {W} (fd : Z) (s : msr_state W) :=
  MsrState fd (wr_fd s) (live_blocks s) (world s).
Definition set_wr_fd {W} (fd : Z) (s : msr_state W) :=
  MsrState (rd_fd s) fd (live_blocks s) (world s).
Definition set_world {W} (w : W) (s : msr_state W) :=
  MsrState (rd_fd s) (wr_fd s) (live_blocks s) w.

Section MsrCode.
Context {W : Type} `{!MsrOs W}.

(** [errno] after a failed [open], as an exit code. *)
Definition open_exit_code (e : errno) : Z :=
  match e with ENXIO => 2 | EIO => 3 | EOTHER => 127 end.
(** [errno] after a failed transfer, as an exit code. *)
Definition io_exit_code (e : errno) : Z :=
  match e with EIO => 4 | ENXIO => 127 | EOTHER => 127 end.

Definition rdmsr_open : comp (msr_state W) unit :=
  s ← get;
  if rd_fd s <? 0 then
    let '(w, (fd, err)) := os_open (world s) O_RDONLY in
    put (set_rd_fd fd (set_world w s)) ;;
    if fd <? 0 then exit (open_exit_code err) else mret tt
  else mret tt.

Definition rdmsr_on_cpu_0 (reg : Z) : comp (msr_state W) Z :=
  rdmsr_open ;;
  s ← get;
  let '(w, res) := os_pread (world s) (rd_fd s) reg in
  put (set_world w s) ;;
  match res with
  | inl data => mret data
  | inr err => exit (io_exit_code err)
  end.

Definition wrmsr_open : comp (msr_state W) unit :=
  s ← get;
  if wr_fd s <? 0 then
    let '(w, (fd, err)) := os_open (world s) O_WRONLY in
    put (set_wr_fd fd (set_world w s)) ;;
    if fd <? 0 then exit (open_exit_code err) else mret tt
  else mret tt.

(** [while (valcnt--) { data = *regvals++; pwrite(...) }] *)
Fixpoint wrmsr_loop (reg : Z) (valcnt : nat) (regvals : list Z)
  : comp (msr_state W) unit :=
  match valcnt with
  | O => mret tt
  | S n =>
      match regvals with
      | [] => ub
      | data :: rest =>
          s ← get;
          let '(w, res) := os_pwrite (world s) (wr_fd s) reg data in
          put (set_world w s) ;;
          match res with
          | inl _ => wrmsr_loop reg n rest
          | inr err => exit (io_exit_code err)
          end
      end
  end.

(** A negative [valcnt] reads past the end of [regvals]. *)
Definition wrmsr_on_cpu_0 (reg valcnt : Z) (regvals : list Z)
  : comp (msr_state W) unit :=
  wrmsr_open ;;
  if valcnt <? 0 then ub else wrmsr_loop reg (Z.to_nat valcnt) regvals.

Definition polling (address : Z) : comp (msr_state W) unit :=
  for_loop 0 NUMBER_POLLING (fun _ =>
    modify (fun s => set_world (os_clflush (world s) address) s)).

(** One of the three loops of [uncore_init]: write [v] to every box. *)
Definition write_boxes (a : cpu_arch) (addresses : list Z) (v : Z)
  : comp (msr_state W) unit :=
  for_loop 0 (NUMBER_SLICES a) (fun i =>
    reg ← aread addresses i;
    wrmsr_on_cpu_0 reg 1 [v]).

Definition uncore_init (a : cpu_arch) : comp (msr_state W) unit :=
  wrmsr_on_cpu_0 PMON_GLOBAL_CTL_ADDRESS 1 [DISABLE_COUNT a] ;;
  write_boxes a CHA_CBO_EVENT_ADDRESS SELECTED_EVENT ;;
  write_boxes a CHA_CBO_CTL_ADDRESS RESET_COUNTERS ;;
  write_boxes a CHA_CBO_FILTER_ADDRESS (FILTER_BOX_VALUE a) ;;
  wrmsr_on_cpu_0 PMON_GLOBAL_CTL_ADDRESS 1 [ENABLE_COUNT a].

(** The first loop of [find_CHA_CBO]: the counters of the boxes [i..]. *)
Fixpoint read_counters (i n : nat) : comp (msr_state W) (list Z) :=
  match n with
  | O => mret []
  | S n' =>
      reg ← aread CHA_CBO_COUNTER_ADDRESS i;
      v ← rdmsr_on_cpu_0 reg;
      rest ← read_counters (S i) n';
      mret (v :: rest)
  end.

(** The second loop: [max_value], [max_index] and the loop counter. *)
Fixpoint find_max (i : nat) (values : list Z) (max_value : Z) (max_index : nat) : nat :=
  match values with
  | [] => max_index
  | v :: rest =>
      if max_value <? v then find_max (S i) rest v i
      else find_max (S i) rest max_value max_index
  end.

Definition find_CHA_CBO (a : cpu_arch) : comp (msr_state W) Z :=
  s ← get;
  let '(w, ok) := os_calloc (world s) (Z.of_nat (NUMBER_SLICES a) * 8) in
  put (set_world w s) ;;
  if ok then
    modify (fun s => MsrState (rd_fd s) (wr_fd s) (live_blocks s + 1) (world s)) ;;
    values ← read_counters 0 (NUMBER_SLICES a);
    mret (Z.of_nat (find_max 0 values 0 0))
  else ub.

(** [rte_slice.c] *)
Definition calculateSlice_uncore (a : cpu_arch) (va : Z) : comp (msr_state W) Z :=
  uncore_init a ;; polling va ;; r ← find_CHA_CBO a; mret (u8 r).

Definition sliceFinder_uncore_body (a : cpu_arch) (va desiredSlice offset : Z)
  : comp (msr_state W) (Z + Z) :=
  slice ← calculateSlice_uncore a (va +[64] offset);
  mret (if negb (desiredSlice =? slice) then inl (offset +[16] LINE) else inr offset).

Definition sliceFinder_uncore (a : cpu_arch) (fuel : nat) (va desiredSlice : Z)
  : comp (msr_state W) Z :=
  comp_loop (sliceFinder_uncore_body a va desiredSlice) fuel 0.
End MsrCode.

(** ** Error exits *)

Section MsrErrors.
Context {W : Type} `{!MsrOs W}.

Lemma wrmsr_open_cached (s : msr_state W) :
  0 <= wr_fd s -> wrmsr_open s = (s, Ret tt).
Proof.
  intros H. unfold wrmsr_open. rewrite (bind_ret _ _ s s s) by done.
  destruct (Z.ltb_spec (wr_fd s) 0); [lia|done].
Qed.

Lemma rdmsr_open_cached (s : msr_state W) :
  0 <= rd_fd s -> rdmsr_open s = (s, Ret tt).
Proof.
  intros H. unfold rdmsr_open. rewrite (bind_ret _ _ s s s) by done.
  destruct (Z.ltb_spec (rd_fd s) 0); [lia|done].
Qed.

(** How [rdmsr_on_cpu_0] ends, for every behaviour of [open] and [pread]:
    the file is opened only while no descriptor is cached; a failing [open]
    exits with 2 (no such CPU), 3 (no MSR support) or 127, a failing read with
    4 or 127, and otherwise the register's value is returned and the
    descriptor stays cached. *)
Theorem rdmsr_outcome reg (s : msr_state W) :
  snd (rdmsr_on_cpu_0 reg s)
  = let '(w1, (fd, open_err)) :=
      if rd_fd s <? 0 then os_open (world s) O_RDONLY else (world s, (rd_fd s, EOTHER)) in
    if fd <? 0 then
      Exit (match open_err with ENXIO => 2 | EIO => 3 | EOTHER => 127 end)
    else match snd (os_pread w1 fd reg) with
         | inl data => Ret data
         | inr EIO => Exit 4
         | inr _ => Exit 127
         end.
Proof.
  unfold rdmsr_on_cpu_0, rdmsr_open, mbind, comp_bind, get, put, exit, mret, comp_ret. simpl.
  destruct (Z.ltb_spec (rd_fd s) 0) as [Hfd|Hfd].
  - destruct (os_open (world s) O_RDONLY) as [w1 [fd err]]. simpl.
    destruct (Z.ltb_spec fd 0); [by destruct err|]. simpl.
    by destruct (os_pread w1 fd reg) as [w2 [data|[]]].
  - destruct (Z.ltb_spec (rd_fd s) 0); [lia|]. simpl.
    by destruct (os_pread (world s) (rd_fd s) reg) as [w2 [data|[]]].
Qed.
End MsrErrors.

(** ** What the hardware promises *)

(** The register file after the value [v] is written to [reg]: bit 1 of a
    box control register resets the counter of that box. *)
Definition resets (reg r : Z) : bool :=
  existsb (fun '(c, k) => (c =? reg) && (k =? r))
    (zip CHA_CBO_CTL_ADDRESS CHA_CBO_COUNTER_ADDRESS).
Definition written (regs : Z -> Z) (reg v : Z) : Z -> Z := fun r =>
  if r =? reg then v else if Z.testbit v 1 && resets reg r then 0 else regs r.

(** A box counts lookups while the session is enabled and its event and
    filter registers hold the values the code programs. *)
Definition counting (a : cpu_arch) (regs : Z -> Z) (box : nat) : Prop :=
  regs PMON_GLOBAL_CTL_ADDRESS = ENABLE_COUNT a
  /\ (forall r, CHA_CBO_EVENT_ADDRESS !! box = Some r -> regs r = SELECTED_EVENT)
  /\ (forall r, CHA_CBO_FILTER_ADDRESS !! box = Some r -> regs r = FILTER_BOX_VALUE a).

Definition bump_counter (regs : Z -> Z) (box : nat) : Z -> Z := fun r =>
  if bool_decide (CHA_CBO_COUNTER_ADDRESS !! box = Some r) then regs r + 1 else regs r.

(** The laws: the MSR device works, and while a box counts, flushing a line
    looks it up in the box [hw_owner] that caches it, and in no other. *)
Class CboCounters (W : Type) `{!MsrOs W} (a : cpu_arch) := {
  hw_reg : W -> Z -> Z;
  hw_owner : Z -> nat;
  hw_open w m : exists w' fd err,
    os_open w m = (w', (fd, err)) /\ 0 <= fd /\ forall r, hw_reg w' r = hw_reg w r;
  hw_pread w fd reg : 0 <= fd -> exists w',
    os_pread w fd reg = (w', inl (hw_reg w reg)) /\ forall r, hw_reg w' r = hw_reg w r;
  hw_pwrite w fd reg v : 0 <= fd -> exists w',
    os_pwrite w fd reg v = (w', inl tt)
    /\ forall r, hw_reg w' r = written (hw_reg w) reg v r;
  hw_calloc w n : exists w',
    os_calloc w n = (w', true) /\ forall r, hw_reg w' r = hw_reg w r;
  hw_clflush w va : counting a (hw_reg w) (hw_owner va) ->
    forall r, hw_reg (os_clflush w va) r = bump_counter (hw_reg w) (hw_owner va) r;
}.

#[global] Instance written_proper :
  Proper (pointwise_relation Z eq ==> eq ==> eq ==> pointwise_relation Z eq) written.
Proof. intros f g Hfg ? reg -> ? v -> r. unfold written. by rewrite (Hfg r). Qed.

#[global] Instance counting_proper a :
  Proper (pointwise_relation Z eq ==> eq ==> iff) (counting a).
Proof.
  intros f g Hfg ? b ->. unfold counting. rewrite (Hfg PMON_GLOBAL_CTL_ADDRESS).
  split; (intros (? & He & Hf); split_and!; [done| |]); intros r Hr.
  all: first [rewrite <- (Hfg r) | rewrite (Hfg r)]; auto.
Qed.

(** ** The uncore session finds the slice *)

(** The register file after [uncore_init]. *)
Definition write_all (regs : Z -> Z) (addresses : list Z) (v : Z) : Z -> Z :=
  foldl (fun f reg => written f reg v) regs addresses.
Definition uncore_regs (a : cpu_arch) (regs : Z -> Z) : Z -> Z :=
  let n := NUMBER_SLICES a in
  let regs := written regs PMON_GLOBAL_CTL_ADDRESS (DISABLE_COUNT a) in
  let regs := write_all regs (take n CHA_CBO_EVENT_ADDRESS) SELECTED_EVENT in
  let regs := write_all regs (take n CHA_CBO_CTL_ADDRESS) RESET_COUNTERS in
  let regs := write_all regs (take n CHA_CBO_FILTER_ADDRESS) (FILTER_BOX_VALUE a) in
  written regs PMON_GLOBAL_CTL_ADDRESS (ENABLE_COUNT a).

Lemma write_all_ext regs regs' l v :
  (forall r, regs r = regs' r) -> forall r, write_all regs l v r = write_all regs' l v r.
Proof.
  revert regs regs'. induction l as [|reg l IH]; intros regs regs' H r; [apply H|].
  simpl. apply IH. intros r'. by apply written_proper.
Qed.

(** All boxes of the CPU count from zero after [uncore_init]. *)
Lemma uncore_regs_counting a regs box :
  (box < NUMBER_SLICES a)%nat ->
  counting a (uncore_regs a regs) box
  /\ forall r, CHA_CBO_COUNTER_ADDRESS !! box = Some r -> uncore_regs a regs r = 0.
Proof.
  intros Hbox. assert (box < 28)%nat as Hb by (destruct a; simpl in Hbox; lia).
  destruct a; simpl in Hbox;
    repeat first
      [ exfalso; lia
      | destruct box as [|box];
        [ split; [split; [vm_compute; reflexivity|split]|];
          intros r [= <-]; vm_compute; reflexivity |] ].
Qed.

Lemma counter_address_inj i j r :
  CHA_CBO_COUNTER_ADDRESS !! i = Some r -> CHA_CBO_COUNTER_ADDRESS !! j = Some r -> i = j.
Proof.
  apply NoDup_lookup. by apply (bool_decide_unpack (NoDup CHA_CBO_COUNTER_ADDRESS)).
Qed.

(** *** The busiest counter *)

(** [k] is where the scan of [l] leaves [max_index] with [max_value = m]. *)
Definition max_at (l : list Z) (m : Z) (k : nat) : Prop :=
  0 <= m /\ (forall v, v ∈ l -> v <= m) /\ (m = 0 -> k = O)
  /\ (0 < m -> l !! k = Some m /\ forall j v, (j < k)%nat -> l !! j = Some v -> v < m).

Lemma find_max_scan vs pre m k :
  max_at pre m k -> exists m', max_at (pre ++ vs) m' (find_max (length pre) vs m k).
Proof.
  revert pre m k. induction vs as [|v vs IH]; intros pre m k (H0 & Hle & Hz & Hp).
  { exists m. rewrite app_nil_r. done. }
  simpl. replace (S (length pre)) with (length (pre ++ [v])) by (rewrite length_app; simpl; lia).
  replace (pre ++ v :: vs) with ((pre ++ [v]) ++ vs) by (by rewrite <- app_assoc).
  destruct (Z.ltb_spec m v) as [Hv|Hv]; apply IH; unfold max_at.
  - split_and!; [lia| |lia|].
    + intros x [Hx|Hx]%elem_of_app; [specialize (Hle x Hx); lia|].
      apply list_elem_of_singleton in Hx. lia.
    + intros _. split; [by apply list_lookup_middle|].
      intros j x Hj Hx. rewrite lookup_app_l in Hx by done.
      apply list_elem_of_lookup_2, Hle in Hx. lia.
  - split_and!; [done| |done|].
    + intros x [Hx|Hx]%elem_of_app; [by apply Hle|]. apply list_elem_of_singleton in Hx. lia.
    + intros Hm. destruct (Hp Hm) as [Hk Hlt]. apply lookup_lt_Some in Hk as Hkl. split.
      * by rewrite lookup_app_l.
      * intros j x Hj Hx. rewrite lookup_app_l in Hx by lia. by apply (Hlt j).
Qed.

(** The scan of [find_CHA_CBO] returns the first index of the largest
    counter. *)
Lemma find_max_first_maximum (values : list Z) :
  values <> [] -> Forall (fun v => 0 <= v) values ->
  exists v, values !! (find_max 0 values 0 0) = Some v
    /\ (forall x, x ∈ values -> x <= v)
    /\ forall j x, (j < find_max 0 values 0 0)%nat -> values !! j = Some x -> x < v.
Proof.
  intros Hne Hpos. destruct (find_max_scan values [] 0 0) as (m & H0 & Hle & Hz & Hp).
  { split_and!; [done| |done|lia]. intros v Hv. by apply elem_of_nil in Hv. }
  simpl in *. destruct (decide (m = 0)) as [Hm|Hm].
  - rewrite (Hz Hm) in *. destruct values as [|v0 vs]; [done|]. exists v0.
    assert (v0 = 0) as ->.
    { apply Forall_cons in Hpos as [? _]. specialize (Hle v0 ltac:(left)). lia. }
    split_and!; [done| |intros; lia]. intros x Hx. rewrite <- Hm. by apply Hle.
  - exists m. destruct (Hp ltac:(lia)) as [Hk Hlt]. done.
Qed.

Lemma NUMBER_SLICES_le a : (NUMBER_SLICES a <= 28)%nat.
Proof. destruct a; simpl; lia. Qed.

Section UncoreProofs.
Context {W : Type} `{OS : !MsrOs W} (a : cpu_arch) `{HW : !CboCounters W a}.

Definition regs_of (s : msr_state W) : Z -> Z := hw_reg (a := a) (world s).

Lemma wrmsr_ok reg v (s : msr_state W) :
  exists s', wrmsr_on_cpu_0 reg 1 [v] s = (s', Ret tt)
    /\ (forall r, regs_of s' r = written (regs_of s) reg v r)
    /\ live_blocks s' = live_blocks s.
Proof.
  assert (exists s1, wrmsr_open s = (s1, Ret tt) /\ 0 <= wr_fd s1
    /\ (forall r, regs_of s1 r = regs_of s r) /\ live_blocks s1 = live_blocks s)
    as (s1 & Hopen & Hfd & Hr & Hl).
  { destruct (Z.ltb_spec (wr_fd s) 0) as [Hlt|Hge].
    - destruct (hw_open (world s) O_WRONLY) as (w' & fd & err & Ho & Hfd & Hr).
      exists (set_wr_fd fd (set_world w' s)). split_and!; try done.
      unfold wrmsr_open, mbind, comp_bind, get, put, mret, comp_ret. simpl.
      destruct (Z.ltb_spec (wr_fd s) 0); [|lia]. rewrite Ho. simpl.
      by destruct (Z.ltb_spec fd 0); [lia|].
    - exists s. by rewrite wrmsr_open_cached. }
  destruct (hw_pwrite (world s1) (wr_fd s1) reg v Hfd) as (w' & Hw & Hr').
  exists (set_world w' s1). split_and!.
  - unfold wrmsr_on_cpu_0. rewrite (bind_ret _ _ _ _ _ Hopen). simpl.
    unfold mbind, comp_bind, get, put, mret, comp_ret. by rewrite Hw.
  - intros r. unfold regs_of at 1. simpl. rewrite Hr'. by apply written_proper.
  - done.
Qed.

Lemma write_boxes_ok addresses v (s : msr_state W) :
  (NUMBER_SLICES a <= length addresses)%nat ->
  exists s', write_boxes a addresses v s = (s', Ret tt)
    /\ (forall r, regs_of s' r
          = write_all (regs_of s) (take (NUMBER_SLICES a) addresses) v r)
    /\ live_blocks s' = live_blocks s.
Proof.
  intros Hlen. unfold write_boxes.
  apply (for_loop_inv (fun i x =>
    (forall r, regs_of x r = write_all (regs_of s) (take i addresses) v r)
    /\ live_blocks x = live_blocks s)); [|done].
  intros i x Hi [Hr Hl].
  destruct (lookup_lt_is_Some_2 addresses i) as [reg Hreg]; [lia|].
  destruct (wrmsr_ok reg v x) as (x' & Hw & Hr' & Hl').
  exists x'. split_and!.
  - rewrite (bind_ret _ _ x x reg); [done|]. unfold aread. by rewrite Hreg.
  - intros r. rewrite Hr'. rewrite (take_S_r _ _ reg) by done.
    unfold write_all. rewrite foldl_app. simpl. by apply written_proper.
  - by rewrite Hl'.
Qed.

Lemma uncore_init_ok (s : msr_state W) :
  exists s', uncore_init a s = (s', Ret tt)
    /\ (forall r, regs_of s' r = uncore_regs a (regs_of s) r)
    /\ live_blocks s' = live_blocks s.
Proof.
  unfold uncore_init.
  destruct (wrmsr_ok PMON_GLOBAL_CTL_ADDRESS (DISABLE_COUNT a) s) as (s1 & E1 & R1 & L1).
  rewrite (bind_ret _ _ _ _ _ E1).
  destruct (write_boxes_ok CHA_CBO_EVENT_ADDRESS SELECTED_EVENT s1) as (s2 & E2 & R2 & L2);
    [exact (NUMBER_SLICES_le a)|].
  rewrite (bind_ret _ _ _ _ _ E2).
  destruct (write_boxes_ok CHA_CBO_CTL_ADDRESS RESET_COUNTERS s2) as (s3 & E3 & R3 & L3);
    [exact (NUMBER_SLICES_le a)|].
  rewrite (bind_ret _ _ _ _ _ E3).
  destruct (write_boxes_ok CHA_CBO_FILTER_ADDRESS (FILTER_BOX_VALUE a) s3)
    as (s4 & E4 & R4 & L4); [exact (NUMBER_SLICES_le a)|].
  rewrite (bind_ret _ _ _ _ _ E4).
  destruct (wrmsr_ok PMON_GLOBAL_CTL_ADDRESS (ENABLE_COUNT a) s4) as (s5 & E5 & R5 & L5).
  exists s5. split; [done|]. split; [|congruence].
  intros r. rewrite R5. unfold uncore_regs. apply written_proper; [|done|done].
  intros r1. rewrite R4. apply write_all_ext. intros r2. rewrite R3. apply write_all_ext.
  intros r3. rewrite R2. apply write_all_ext. intros r4. by rewrite R1.
Qed.

(** A register that is not a counter keeps its value while a box is bumped. *)
Lemma bump_counting regs box b :
  counting a regs b -> counting a (bump_counter regs box) b.
Proof.
  assert (forall r, (r = PMON_GLOBAL_CTL_ADDRESS \/ r ∈ CHA_CBO_EVENT_ADDRESS
            \/ r ∈ CHA_CBO_FILTER_ADDRESS) -> bump_counter regs box r = regs r) as Hsame.
  { intros r Hr. unfold bump_counter. case_bool_decide as Hc; [|done]. exfalso.
    apply list_elem_of_lookup_2 in Hc.
    assert (existsb (fun r => existsb (Z.eqb r)
      (PMON_GLOBAL_CTL_ADDRESS :: CHA_CBO_EVENT_ADDRESS ++ CHA_CBO_FILTER_ADDRESS))
      CHA_CBO_COUNTER_ADDRESS = false) as Hno by (vm_compute; reflexivity).
    apply not_true_iff_false in Hno. apply Hno. apply existsb_exists. exists r.
    split; [by apply list_elem_of_In|]. apply existsb_exists. exists r.
    split; [|apply Z.eqb_refl]. apply list_elem_of_In.
    rewrite elem_of_cons, elem_of_app. tauto. }
  intros (Hg & He & Hf). split_and!.
  - rewrite Hsame by auto. done.
  - intros r Hr. rewrite Hsame by (right; left; by apply list_elem_of_lookup_2 in Hr). auto.
  - intros r Hr. rewrite Hsame by (right; right; by apply list_elem_of_lookup_2 in Hr). auto.
Qed.

Definition add_count (regs : Z -> Z) (box : nat) (n : Z) : Z -> Z := fun r =>
  if bool_decide (CHA_CBO_COUNTER_ADDRESS !! box = Some r) then regs r + n else regs r.

Lemma polling_ok va (s : msr_state W) :
  counting a (regs_of s) (hw_owner (a := a) va) ->
  exists s', polling va s = (s', Ret tt)
    /\ (forall r, regs_of s' r
          = add_count (regs_of s) (hw_owner (a := a) va) (Z.of_nat NUMBER_POLLING) r)
    /\ live_blocks s' = live_blocks s.
Proof.
  intros Hc. set (box := hw_owner (a := a) va) in *.
  destruct (for_loop_inv (fun i x =>
    counting a (regs_of x) box
    /\ (forall r, regs_of x r = add_count (regs_of s) box (Z.of_nat i) r)
    /\ live_blocks x = live_blocks s)
    (fun _ => modify (fun s => set_world (os_clflush (world s) va) s)) NUMBER_POLLING 0 s)
    as (s' & Hrun & _ & Hr & Hl).
  - intros i x _ (Hcx & Hr & Hl). eexists. split; [reflexivity|].
    assert (forall r, regs_of (set_world (os_clflush (world x) va) x) r
              = bump_counter (regs_of x) box r) as Hb.
    { intros r. unfold regs_of. simpl. by apply hw_clflush. }
    split_and!; [|intros r; rewrite Hb; unfold bump_counter, add_count; rewrite Hr|done].
    + eapply counting_proper; [exact Hb|done|]. by apply bump_counting.
    + unfold add_count. case_bool_decide; lia.
  - split_and!; [done| |done]. intros r. unfold add_count. case_bool_decide; simpl; lia.
  - by exists s'.
Qed.

Lemma rdmsr_ok reg (s : msr_state W) :
  exists s', rdmsr_on_cpu_0 reg s = (s', Ret (regs_of s reg))
    /\ (forall r, regs_of s' r = regs_of s r) /\ live_blocks s' = live_blocks s.
Proof.
  assert (exists s1, rdmsr_open s = (s1, Ret tt) /\ 0 <= rd_fd s1
    /\ (forall r, regs_of s1 r = regs_of s r) /\ live_blocks s1 = live_blocks s)
    as (s1 & Hopen & Hfd & Hr & Hl).
  { destruct (Z.ltb_spec (rd_fd s) 0) as [Hlt|Hge].
    - destruct (hw_open (world s) O_RDONLY) as (w' & fd & err & Ho & Hfd & Hr).
      exists (set_rd_fd fd (set_world w' s)). split_and!; try done.
      unfold rdmsr_open, mbind, comp_bind, get, put, mret, comp_ret. simpl.
      destruct (Z.ltb_spec (rd_fd s) 0); [|lia]. rewrite Ho. simpl.
      by destruct (Z.ltb_spec fd 0); [lia|].
    - exists s. by rewrite rdmsr_open_cached. }
  destruct (hw_pread (world s1) (rd_fd s1) reg Hfd) as (w' & Hw & Hr').
  exists (set_world w' s1). split_and!.
  - unfold rdmsr_on_cpu_0. rewrite (bind_ret _ _ _ _ _ Hopen). simpl.
    unfold mbind, comp_bind, get, put, mret, comp_ret. rewrite Hw. simpl.
    by rewrite <- Hr.
  - intros r. unfold regs_of at 1. simpl. rewrite Hr'. apply Hr.
  - done.
Qed.

Lemma read_counters_ok n i (s : msr_state W) :
  (i + n <= 28)%nat ->
  exists s' values, read_counters i n s = (s', Ret values)
    /\ length values = n
    /\ (forall j r, (j < n)%nat -> CHA_CBO_COUNTER_ADDRESS !! (i + j)%nat = Some r ->
          values !! j = Some (regs_of s r))
    /\ live_blocks s' = live_blocks s.
Proof.
  revert i s. induction n as [|n IH]; intros i s Hi.
  { exists s, []. split_and!; try done. intros; lia. }
  destruct (lookup_lt_is_Some_2 CHA_CBO_COUNTER_ADDRESS i) as [reg Hreg]; [simpl; lia|].
  destruct (rdmsr_ok reg s) as (s1 & E1 & R1 & L1).
  destruct (IH (S i) s1) as (s2 & vs & E2 & Hlen & Hvs & L2); [lia|].
  exists s2, (regs_of s reg :: vs). split_and!.
  - simpl. rewrite (bind_ret _ _ s s reg) by (unfold aread; by rewrite Hreg).
    rewrite (bind_ret _ _ _ _ _ E1), (bind_ret _ _ _ _ _ E2). done.
  - simpl. by rewrite Hlen.
  - intros [|j] r Hj Hr.
    + rewrite Nat.add_0_r in Hr. simplify_eq. done.
    + simpl. rewrite (Hvs j r); [|lia|by replace (S i + j)%nat with (i + S j)%nat by lia].
      by rewrite R1.
  - congruence.
Qed.

Lemma find_CHA_CBO_ok box n (s : msr_state W) :
  (box < NUMBER_SLICES a)%nat -> 0 < n ->
  (forall i r, (i < NUMBER_SLICES a)%nat -> CHA_CBO_COUNTER_ADDRESS !! i = Some r ->
     regs_of s r = if decide (i = box) then n else 0) ->
  exists s', find_CHA_CBO a s = (s', Ret (Z.of_nat box))
    /\ live_blocks s' = live_blocks s + 1.
Proof.
  intros Hbox Hn Hregs. pose proof (NUMBER_SLICES_le a) as HN.
  destruct (hw_calloc (world s) (Z.of_nat (NUMBER_SLICES a) * 8)) as (w' & Hcalloc & Hw').
  set (s1 := MsrState (rd_fd s) (wr_fd s) (live_blocks s + 1) w').
  destruct (read_counters_ok (NUMBER_SLICES a) 0 s1) as (s2 & vs & Hread & Hlen & Hvs & Hl);
    [lia|].
  assert (forall i, (i < NUMBER_SLICES a)%nat ->
            vs !! i = Some (if decide (i = box) then n else 0)) as Hval.
  { intros i Hi. destruct (lookup_lt_is_Some_2 CHA_CBO_COUNTER_ADDRESS i) as [r Hr];
      [simpl; lia|].
    rewrite (Hvs i r Hi Hr). f_equal. rewrite <- (Hregs i r Hi Hr). apply Hw'. }
  exists s2. split; [|done].
  assert (find_max 0 vs 0 0 = box) as Hmax.
  { assert (vs <> []) as Hne by (intros ->; simpl in Hlen; lia).
    destruct (find_max_first_maximum vs Hne) as (v & Hk & Hle & _).
    { apply Forall_lookup. intros i x Hx. rewrite Hval in Hx by
        (apply lookup_lt_Some in Hx; lia). case_decide; simplify_eq; lia. }
    assert (n <= v).
    { apply Hle, list_elem_of_lookup. exists box. rewrite Hval by done.
      by rewrite decide_True. }
    rewrite Hval in Hk by (apply lookup_lt_Some in Hk; lia).
    case_decide; [done|simplify_eq; lia]. }
  unfold find_CHA_CBO. rewrite (bind_ret _ _ s s s) by done. rewrite Hcalloc.
  rewrite (bind_ret _ _ _ (set_world w' s) tt) by done.
  rewrite (bind_ret _ _ _ s1 tt) by done.
  rewrite (bind_ret _ _ _ _ _ Hread). by rewrite Hmax.
Qed.

(** On hardware that keeps the documented promises the slice is the box of the
    address, and one block stays allocated. *)
Lemma calculateSlice_uncore_ok va (s : msr_state W) :
  (hw_owner (a := a) va < NUMBER_SLICES a)%nat ->
  exists s', calculateSlice_uncore a va s = (s', Ret (Z.of_nat (hw_owner (a := a) va)))
    /\ live_blocks s' = live_blocks s + 1.
Proof.
  intros Hbox. pose proof (NUMBER_SLICES_le a) as HN.
  set (box := hw_owner (a := a) va) in *.
  destruct (uncore_init_ok s) as (s1 & E1 & R1 & L1).
  destruct (uncore_regs_counting a (regs_of s) box Hbox) as [Hcount _].
  destruct (polling_ok va s1) as (s2 & E2 & R2 & L2).
  { eapply counting_proper; [exact R1|done|done]. }
  destruct (find_CHA_CBO_ok box (Z.of_nat NUMBER_POLLING) s2) as (s3 & E3 & L3);
    [done|done| |].
  { intros i r Hi Hr. rewrite R2. unfold add_count. rewrite R1.
    rewrite (proj2 (uncore_regs_counting a (regs_of s) i Hi) r Hr).
    fold box. case_bool_decide as Hb.
    - by rewrite decide_True by (by apply (counter_address_inj i box r)).
    - rewrite decide_False; [done|]. congruence. }
  exists s3. split; [|lia]. unfold calculateSlice_uncore.
  rewrite (bind_ret _ _ _ _ _ E1), (bind_ret _ _ _ _ _ E2), (bind_ret _ _ _ _ _ E3).
  unfold mret, comp_ret. do 2 f_equal. apply wrap_small. unfold in_range. lia.
Qed.

(** C6. On hardware that keeps the documented promises, [calculateSlice_uncore]
    returns for each of a series of addresses the slice whose box caches it;
    each call leaves one more heap block allocated, because [find_CHA_CBO] never
    frees its array. *)
Theorem calculateSlice_uncore_correct vas (s : msr_state W) :
  Forall (fun va => (hw_owner (a := a) va < NUMBER_SLICES a)%nat) vas ->
  exists s', mapM (calculateSlice_uncore a) vas s
      = (s', Ret ((fun va => Z.of_nat (hw_owner (a := a) va)) <$> vas))
    /\ live_blocks s' = live_blocks s + Z.of_nat (length vas).
Proof.
  intros Hvas. revert s. induction Hvas as [|va vas Hva _ IH]; intros s.
  - exists s. split; [done|]. simpl. lia.
  - destruct (calculateSlice_uncore_ok va s Hva) as (s1 & E1 & L1). destruct (IH s1) as (s2 & E2 & L2).
    exists s2. cbn [mapM fmap list_fmap]. rewrite (bind_ret _ _ _ _ _ E1), (bind_ret _ _ _ _ _ E2).
    split; [done|]. rewrite L2, L1. simpl length. lia.
Qed.
End UncoreProofs.

(** ** The two ways of finding a slice agree *)

Section Agreement.
Context {W : Type} `{OS : !MsrOs W} `{HW : !CboCounters W HASWELL}.
Context (v2p : Z -> Z) (va : Z).
(** The boxes are selected by the documented hash of the physical address. *)
Hypothesis owner_hash : forall v,
  hw_owner (a := HASWELL) v = Z.to_nat (calculateSlice_HF_haswell (v2p v)).
(** The buffer is physically contiguous. *)
Hypothesis contiguous : forall o, 0 <= o <= 896 -> v2p (va +[64] o) = v2p va +[64] o.

Lemma calculateSlice_uncore_hash v (s : msr_state W) :
  exists s', calculateSlice_uncore HASWELL v s = (s', Ret (calculateSlice_HF_haswell (v2p v))).
Proof using HW owner_hash.
  pose proof (calculateSlice_range (v2p v)).
  destruct (calculateSlice_uncore_ok HASWELL v s) as (s' & E & _).
  { rewrite owner_hash. simpl. lia. }
  exists s'. rewrite E, owner_hash. by rewrite Z2Nat.id by lia.
Qed.

Lemma sliceFinder_uncore_step d i (s : msr_state W) :
  0 <= v2p va -> 0 <= i <= 14 ->
  exists s', sliceFinder_uncore_body HASWELL va d (64 * i) s
    = (s', Ret (if negb (d =? line_slice (v2p va / 64 + i))
                then inl (64 * i +[16] LINE) else inr (64 * i))).
Proof using HW owner_hash contiguous.
  intros Hpa Hi. destruct (calculateSlice_uncore_hash (va +[64] (64 * i)) s) as (s' & E).
  rewrite contiguous, slice_at_offset in E by lia.
  exists s'. unfold sliceFinder_uncore_body. by rewrite (bind_ret _ _ _ _ _ E).
Qed.

Lemma sliceFinder_uncore_run d i j fuel (s : msr_state W) :
  0 <= v2p va -> 0 <= i <= j -> j <= 14 ->
  (forall k, i <= k < j -> line_slice (v2p va / 64 + k) <> d) ->
  line_slice (v2p va / 64 + j) = d -> (Z.to_nat (j - i) < fuel)%nat ->
  exists s', comp_loop (sliceFinder_uncore_body HASWELL va d) fuel (64 * i) s
             = (s', Ret (64 * j)).
Proof using HW owner_hash contiguous.
  intros Hpa Hij Hj. remember (Z.to_nat (j - i)) as n eqn:Hn.
  revert i Hij Hn fuel s. induction n as [|n IH]; intros i Hij Hn fuel s Hmiss Hhit Hf;
    (destruct fuel as [|fuel]; [lia|]); simpl;
    (destruct (sliceFinder_uncore_step d i s) as (s' & E); [lia..|]);
    rewrite (bind_ret _ _ _ _ _ E).
  - replace i with j by lia. rewrite Hhit, Z.eqb_refl. simpl. by exists s'.
  - destruct (Z.eqb_spec d (line_slice (v2p va / 64 + i))) as [->|Hne].
    { exfalso. apply (Hmiss i); [lia|done]. }
    simpl. replace (64 * i +[16] LINE) with (64 * (i + 1)) by (unfold LINE; clia).
    apply IH; try lia. intros k Hk. apply Hmiss. lia.
Qed.

(** C9. On a physically contiguous buffer the search through the performance
    counters terminates and returns the same offset as the search through the
    hash function. *)
Theorem sliceFinder_uncore_agrees desiredSlice fuel (s : msr_state W) :
  in_range 64 (v2p va) -> 0 <= desiredSlice < 8 -> (15 <= fuel)%nat ->
  exists s' offset,
    sliceFinder_uncore HASWELL fuel va desiredSlice s = (s', Ret offset)
    /\ sliceFinder_HF_haswell fuel (v2p va) desiredSlice = Some offset.
Proof using HW owner_hash contiguous.
  intros Hpa Hd Hf. rewrite sliceFinder_HF_result by done. pose proof (proj1 Hpa) as H0.
  destruct (slice_distance_spec (v2p va) desiredSlice) as (Hb & Hhit & Hmiss); [done..|].
  destruct (sliceFinder_uncore_run desiredSlice 0 (slice_distance (v2p va) desiredSlice)
    fuel s) as (s' & E); try done; [lia..|]. eauto.
Qed.
End Agreement.

(** ** A simulated uncore

    The world is the register file; flushing a line bumps the counter of the
    box of its slice when that box counts. *)

Definition sim_owner (va : Z) : nat := Z.to_nat (calculateSlice_HF_haswell va).

#[global] Instance sim_os : MsrOs (Z -> Z) := {
  os_open w _ := (w, (3, EOTHER));
  os_pread w _ reg := (w, inl (w reg));
  os_pwrite w _ reg v := (written w reg v, inl tt);
  os_clflush w va := bump_counter w (sim_owner va);
  os_calloc w _ := (w, true);
}.

#[global] Instance sim_counters : CboCounters (Z -> Z) HASWELL.
Proof.
  refine {| hw_reg w := w; hw_owner := sim_owner |}.
  - intros w m. by exists w, 3, EOTHER.
  - intros w fd reg _. by exists w.
  - intros w fd reg v _. by exists (written w reg v).
  - intros w n. by exists w.
  - done.
Defined.

Example calculateSlice_uncore_witness :
  exists s', mapM (calculateSlice_uncore HASWELL) [0x12340; 0x12380] (msr_init (fun _ : Z => 7))
      = (s', Ret [Z.of_nat (hw_owner (CboCounters := sim_counters) 0x12340);
                  Z.of_nat (hw_owner (CboCounters := sim_counters) 0x12380)])
    /\ live_blocks s' = live_blocks (msr_init (fun _ : Z => 7)) + 2.
Proof.
  apply (calculateSlice_uncore_correct HASWELL [0x12340; 0x12380] (msr_init (fun _ : Z => 7))).
  repeat constructor; vm_compute; lia.
Defined.

Example sliceFinder_uncore_agrees_witness :
  exists s' offset,
    sliceFinder_uncore HASWELL 15 0x12340 6 (msr_init (fun _ : Z => 0)) = (s', Ret offset)
    /\ sliceFinder_HF_haswell 15 0x12340 6 = Some offset.
Proof.
  apply (sliceFinder_uncore_agrees (fun v => v) 0x12340); try done; try lia.
Defined.
