(* ===== verification/Mbuf.v ===== *)
(** * Packet buffers

    Models [lib/librte_mbuf/rte_mbuf.h] and [rte_mbuf.c]: the packet buffer
    with its reference count, its chain of segments, direct, indirect and
    external buffers, and the slice offsets that CacheDirector keeps in it.

    The store holds the mbuf structures by address, the shared information of
    external buffers, the data memory (every address readable, the structures
    not aliased with the data), and the mempools behind the interface
    [MempoolOps].  The configuration is the repository's: atomic reference
    counts, no [RTE_LIBRTE_MBUF_DEBUG] (the sanity checks of the inline
    functions and [RTE_ASSERT] compile to nothing). *)

From S2P Require Import Prelude Effects Bytes Slice Msr.

Definition MBUF_INVALID_PORT : Z := 65535.
Definition RTE_MBUF_MAX_NB_SEGS : Z := 65535.
Definition RTE_MBUF_PRIV_ALIGN : Z := 8.
Definition sizeof_rte_mbuf : Z := 128.
Definition NULL : Z := 0.
Definition ENOTSUP : Z := 95.
Definition EINVAL : Z := 22.
Definition EOVERFLOW : Z := 75.
Definition ENOENT : Z := 2.

Definition EXT_ATTACHED_MBUF : Z := Z.shiftl 1 61.
Definition IND_ATTACHED_MBUF : Z := Z.shiftl 1 62.

(** [struct rte_mbuf]; [udata64] and [slice_off] are the same eight bytes. *)
Record rte_mbuf := RteMbuf {
  buf_addr : Z;
  buf_iova : Z;
  data_off : Z;
  refcnt : Z;
  nb_segs : Z;
  port : Z;
  ol_flags : Z;
  packet_type : Z;
  pkt_len : Z;
  data_len : Z;
  vlan_tci : Z;
  vlan_tci_outer : Z;
  hash : Z;
  buf_len : Z;
  timestamp : Z;
  udata64 : Z;
  pool : Z;
  next : Z;
  tx_offload : Z;
  priv_size : Z;
  shinfo : Z;
}.

(** [struct rte_mbuf_ext_shared_info] *)
Record rte_mbuf_ext_shared_info := ExtInfo {
  free_cb : Z;
  fcb_opaque : Z;
  ext_refcnt : Z;
}.

(** [struct rte_pktmbuf_pool_private] *)
Record rte_pktmbuf_pool_private := PoolPrivate {
  mbuf_data_room_size : Z;
  mbuf_priv_size : Z;
}.

(** What the mbuf code uses of [librte_mempool].  [mp_get] returns [None] when
    [rte_mempool_get] returns a negative value, [mp_get_bulk] the objects or
    the error code. *)
Class MempoolOps (P : Type) := {
  mp_get : P -> Z -> P * option Z;
  mp_get_bulk : P -> Z -> Z -> P * (list Z + Z);
  mp_put : P -> Z -> Z -> P;
  mp_priv : P -> Z -> rte_pktmbuf_pool_private;
  mp_virt2iova : P -> Z -> Z;
}.

(** What [librte_mempool] promises of pools in a valid state: objects are handed out
    only while they are available, and come back when they are put.  [mp_avail] is
    what the calling lcore can get one by one, [mp_room] the number of objects that
    are out: no more than those may be put. *)
Class MempoolLaws (P : Type) `{!MempoolOps P} := {
  mp_valid : P -> Prop;
  mp_avail : P -> Z -> list Z;
  mp_room : P -> Z -> nat;
  mp_get_some p mp p' x : mp_valid p -> mp_get p mp = (p', Some x) ->
    mp_valid p' /\ mp_avail p mp ≡ₚ x :: mp_avail p' mp /\ mp_room p' mp = S (mp_room p mp)
    /\ forall mp', mp' <> mp -> mp_avail p' mp' = mp_avail p mp' /\ mp_room p' mp' = mp_room p mp';
  mp_get_none p mp p' : mp_valid p -> mp_get p mp = (p', None) ->
    mp_valid p' /\ forall mp', mp_avail p' mp' ≡ₚ mp_avail p mp' /\ mp_room p' mp' = mp_room p mp';
  mp_get_avail p mp : mp_valid p -> mp_avail p mp <> [] -> exists p' x, mp_get p mp = (p', Some x);
  mp_get_bulk_avail p mp n p' r : mp_valid p -> 0 < n < 2 ^ 32 -> mp_get_bulk p mp n = (p', r) ->
    mp_valid p' /\ (forall mp', mp' <> mp -> mp_avail p' mp' = mp_avail p mp' /\ mp_room p' mp' = mp_room p mp')
    /\ match r with
       | inl xs => Z.of_nat (length xs) = n /\ mp_avail p mp ≡ₚ xs ++ mp_avail p' mp
                   /\ mp_room p' mp = (length xs + mp_room p mp)%nat
       | inr rc => rc < 0 /\ mp_avail p' mp ≡ₚ mp_avail p mp /\ mp_room p' mp = mp_room p mp
       end;
  mp_put_avail p mp x : mp_valid p -> (0 < mp_room p mp)%nat ->
    mp_valid (mp_put p mp x)
    /\ mp_avail (mp_put p mp x) mp ≡ₚ x :: mp_avail p mp /\ S (mp_room (mp_put p mp x) mp) = mp_room p mp
    /\ forall mp', mp' <> mp -> mp_avail (mp_put p mp x) mp' = mp_avail p mp' /\ mp_room (mp_put p mp x) mp' = mp_room p mp';
  mp_get_priv p mp p' o : mp_get p mp = (p', o) ->
    (forall mp', mp_priv p' mp' = mp_priv p mp')
    /\ forall m, mp_virt2iova p' m = mp_virt2iova p m;
  mp_put_priv p mp x :
    (forall mp', mp_priv (mp_put p mp x) mp' = mp_priv p mp')
    /\ forall m, mp_virt2iova (mp_put p mp x) m = mp_virt2iova p m;
}.

Record store (P : Type) := Store {
  mbufs : gmap Z rte_mbuf;
  shinfos : gmap Z rte_mbuf_ext_shared_info;
  mem : Z -> Z;
  pools : P;
  freed_ext : list (Z * Z * Z);
}.
Arguments Store {P}.
Arguments mbufs {P}.
Arguments shinfos {P}.
Arguments mem {P}.
Arguments pools {P}.
Arguments freed_ext {P}.

(** ** Accessors and pure functions *)

Definition rte_mbuf_data_iova (mb : rte_mbuf) : Z := buf_iova mb +[64] data_off mb.
Definition rte_mbuf_data_iova_default (mb : rte_mbuf) : Z :=
  buf_iova mb +[64] RTE_PKTMBUF_HEADROOM.
Definition rte_mbuf_from_indirect (mi : rte_mbuf) : Z :=
  buf_addr mi -[64] (sizeof_rte_mbuf + priv_size mi).
Definition RTE_MBUF_CLONED (mb : rte_mbuf) : bool :=
  negb (Z.land (ol_flags mb) IND_ATTACHED_MBUF =? 0).
Definition RTE_MBUF_HAS_EXTBUF (mb : rte_mbuf) : bool :=
  negb (Z.land (ol_flags mb) EXT_ATTACHED_MBUF =? 0).
Definition RTE_MBUF_DIRECT (mb : rte_mbuf) : bool :=
  Z.land (ol_flags mb) (Z.lor IND_ATTACHED_MBUF EXT_ATTACHED_MBUF) =? 0.
Definition rte_pktmbuf_headroom (m : rte_mbuf) : Z := data_off m.
Definition rte_pktmbuf_tailroom (m : rte_mbuf) : Z :=
  u16 (buf_len m - rte_pktmbuf_headroom m - data_len m).
Definition rte_pktmbuf_mtod_offset (m : rte_mbuf) (o : Z) : Z :=
  u64 (buf_addr m + data_off m + o).
Definition rte_pktmbuf_iova_offset (m : rte_mbuf) (o : Z) : Z :=
  u64 (buf_iova m + data_off m + o).
Definition rte_pktmbuf_pkt_len (m : rte_mbuf) : Z := pkt_len m.
Definition rte_pktmbuf_data_len (m : rte_mbuf) : Z := data_len m.
Definition rte_pktmbuf_is_contiguous (m : rte_mbuf) : bool := nb_segs m =? 1.
Definition rte_pktmbuf_reset_headroom (m : rte_mbuf) : rte_mbuf :=
  m <| data_off := u16 (Z.min (u16 RTE_PKTMBUF_HEADROOM) (u16 (buf_len m))) |>.

(** The assignments of [rte_pktmbuf_reset]. *)
Definition reset_mbuf (m : rte_mbuf) : rte_mbuf :=
  let m := m <| next := NULL |> <| pkt_len := 0 |> <| tx_offload := 0 |>
             <| vlan_tci := 0 |> <| vlan_tci_outer := 0 |> <| nb_segs := 1 |>
             <| port := MBUF_INVALID_PORT |> <| ol_flags := 0 |> <| packet_type := 0 |> in
  (rte_pktmbuf_reset_headroom m) <| data_len := 0 |>.

(** The bit fields of [tx_offload]. *)
Definition l2_len (m : rte_mbuf) : Z := Z.land (tx_offload m) 0x7f.
Definition l3_len (m : rte_mbuf) : Z := Z.land (Z.shiftr (tx_offload m) 7) 0x1ff.
Definition l4_len (m : rte_mbuf) : Z := Z.land (Z.shiftr (tx_offload m) 16) 0xff.
Definition tso_segsz (m : rte_mbuf) : Z := Z.land (Z.shiftr (tx_offload m) 24) 0xffff.
Definition outer_l3_len (m : rte_mbuf) : Z := Z.land (Z.shiftr (tx_offload m) 40) 0x1ff.
Definition outer_l2_len (m : rte_mbuf) : Z := Z.land (Z.shiftr (tx_offload m) 49) 0x7f.

Definition PKT_TX_METADATA : Z := Z.shiftl 1 40.
Definition PKT_TX_OUTER_UDP_CKSUM : Z := Z.shiftl 1 41.
Definition PKT_TX_UDP_SEG : Z := Z.shiftl 1 42.
Definition PKT_TX_SEC_OFFLOAD : Z := Z.shiftl 1 43.
Definition PKT_TX_MACSEC : Z := Z.shiftl 1 44.
Definition PKT_TX_TUNNEL_MASK : Z := Z.shiftl 0xF 45.
Definition PKT_TX_QINQ : Z := Z.shiftl 1 49.
Definition PKT_TX_TCP_SEG : Z := Z.shiftl 1 50.
Definition PKT_TX_IEEE1588_TMST : Z := Z.shiftl 1 51.
Definition PKT_TX_L4_MASK : Z := Z.shiftl 3 52.
Definition PKT_TX_IP_CKSUM : Z := Z.shiftl 1 54.
Definition PKT_TX_IPV4 : Z := Z.shiftl 1 55.
Definition PKT_TX_IPV6 : Z := Z.shiftl 1 56.
Definition PKT_TX_VLAN : Z := Z.shiftl 1 57.
Definition PKT_TX_OUTER_IP_CKSUM : Z := Z.shiftl 1 58.
Definition PKT_TX_OUTER_IPV4 : Z := Z.shiftl 1 59.
Definition PKT_TX_OUTER_IPV6 : Z := Z.shiftl 1 60.
Definition PKT_TX_OFFLOAD_MASK : Z :=
  foldr Z.lor 0
    [PKT_TX_OUTER_IPV6; PKT_TX_OUTER_IPV4; PKT_TX_OUTER_IP_CKSUM; PKT_TX_VLAN;
     PKT_TX_IPV6; PKT_TX_IPV4; PKT_TX_IP_CKSUM; PKT_TX_L4_MASK; PKT_TX_IEEE1588_TMST;
     PKT_TX_TCP_SEG; PKT_TX_QINQ; PKT_TX_TUNNEL_MASK; PKT_TX_MACSEC;
     PKT_TX_SEC_OFFLOAD; PKT_TX_UDP_SEG; PKT_TX_OUTER_UDP_CKSUM; PKT_TX_METADATA].

(** [flags & mask] as a C condition *)
Definition flag (flags mask : Z) : bool := negb (Z.land flags mask =? 0).

Definition rte_validate_tx_offload (m : rte_mbuf) : Z :=
  let ol_flags := ol_flags m in
  let inner_l3_offset := l2_len m in
  if negb (flag ol_flags PKT_TX_OFFLOAD_MASK) then 0 else
  let inner_l3_offset :=
    if flag ol_flags PKT_TX_OUTER_IP_CKSUM
    then inner_l3_offset +[64] outer_l2_len m +[64] outer_l3_len m
    else inner_l3_offset in
  if data_len m <? inner_l3_offset +[64] l3_len m +[64] l4_len m then - ENOTSUP else
  if flag ol_flags PKT_TX_IP_CKSUM && flag ol_flags PKT_TX_IPV6 then - EINVAL else
  if flag ol_flags (Z.lor PKT_TX_L4_MASK PKT_TX_TCP_SEG)
     && negb (flag ol_flags (Z.lor PKT_TX_IPV4 PKT_TX_IPV6)) then - EINVAL else
  if flag ol_flags PKT_TX_TCP_SEG
     && ((tso_segsz m =? 0)
         || (flag ol_flags PKT_TX_IPV4 && negb (flag ol_flags PKT_TX_IP_CKSUM)))
  then - EINVAL else
  if flag ol_flags PKT_TX_OUTER_IP_CKSUM && negb (flag ol_flags PKT_TX_OUTER_IPV4)
  then - EINVAL else 0.

(** ** Operations on the store *)

Section MbufCode.
Context {P : Type} `{!MempoolOps P}.
Local Notation M := (comp (store P)).

(** Reading and writing a structure through its address. *)
Definition load (p : Z) : M rte_mbuf :=
  s ← get; match mbufs s !! p with Some m => mret m | None => ub end.
Definition update (p : Z) (f : rte_mbuf -> rte_mbuf) : M unit :=
  m ← load p; modify (fun s => s <| mbufs := <[p := f m]> (mbufs s) |>).
Definition load_ext (p : Z) : M rte_mbuf_ext_shared_info :=
  s ← get; match shinfos s !! p with Some i => mret i | None => ub end.
Definition update_ext (p : Z) (f : rte_mbuf_ext_shared_info -> rte_mbuf_ext_shared_info)
  : M unit :=
  i ← load_ext p; modify (fun s => s <| shinfos := <[p := f i]> (shinfos s) |>).

Definition rte_mempool_put (mp p : Z) : M unit :=
  modify (fun s => s <| pools := mp_put (pools s) mp p |>).

Definition rte_pktmbuf_data_room_size (mp : Z) : M Z :=
  s ← get; mret (mbuf_data_room_size (mp_priv (pools s) mp)).
Definition rte_pktmbuf_priv_size (mp : Z) : M Z :=
  s ← get; mret (mbuf_priv_size (mp_priv (pools s) mp)).

Definition rte_mbuf_to_baddr (md : Z) : M Z :=
  m ← load md; psz ← rte_pktmbuf_priv_size (pool m); mret (u64 (md + sizeof_rte_mbuf + psz)).

(** *** Reference counts *)

Definition rte_mbuf_refcnt_read (p : Z) : M Z := m ← load p; mret (refcnt m).
Definition rte_mbuf_refcnt_set (p new_value : Z) : M unit :=
  update p (fun m => m <| refcnt := u16 new_value |>).
(** [rte_atomic16_add_return] *)
Definition __rte_mbuf_refcnt_update (p value : Z) : M Z :=
  update p (fun m => m <| refcnt := refcnt m +[16] value |>) ;;
  m ← load p; mret (refcnt m).
Definition rte_mbuf_refcnt_update (p value : Z) : M Z :=
  r ← rte_mbuf_refcnt_read p;
  if r =? 1 then
    let value := sgn 16 (value + 1) in
    rte_mbuf_refcnt_set p (u16 value) ;; mret (u16 value)
  else __rte_mbuf_refcnt_update p value.

Definition rte_mbuf_ext_refcnt_read (p : Z) : M Z := i ← load_ext p; mret (ext_refcnt i).
Definition rte_mbuf_ext_refcnt_set (p new_value : Z) : M unit :=
  update_ext p (fun i => i <| ext_refcnt := u16 new_value |>).
Definition rte_mbuf_ext_refcnt_update (p value : Z) : M Z :=
  r ← rte_mbuf_ext_refcnt_read p;
  if r =? 1 then
    let value := sgn 16 (value + 1) in
    rte_mbuf_ext_refcnt_set p (u16 value) ;; mret (u16 value)
  else
    update_ext p (fun i => i <| ext_refcnt := ext_refcnt i +[16] value |>) ;;
    rte_mbuf_ext_refcnt_read p.

(** *** Allocation *)

Definition rte_mbuf_raw_alloc (mp : Z) : M Z :=
  s ← get;
  let '(p', o) := mp_get (pools s) mp in
  put (s <| pools := p' |>) ;;
  mret (match o with Some m => m | None => NULL end).

Definition rte_mbuf_raw_free (p : Z) : M unit :=
  m ← load p; rte_mempool_put (pool m) p.

Definition rte_pktmbuf_reset (p : Z) : M unit := update p reset_mbuf.

Definition rte_pktmbuf_alloc (mp : Z) : M Z :=
  m ← rte_mbuf_raw_alloc mp;
  (if negb (m =? NULL) then rte_pktmbuf_reset m else mret tt) ;;
  mret m.

(** [n] copies of the body of the unrolled loop, from index [idx]. *)
Definition reset_n (mbufs : list Z) (idx n : nat) : M unit :=
  for_loop idx n (fun i => p ← aread mbufs i; rte_pktmbuf_reset p).

(** The unrolled loop starts inside its body at [count % 4]. *)
Definition rte_pktmbuf_alloc_bulk (fuel : nat) (mp count : Z) : M (Z * list Z) :=
  s ← get;
  let '(p', r) := mp_get_bulk (pools s) mp count in
  put (s <| pools := p' |>) ;;
  match r with
  | inr rc => mret (rc, [])
  | inl mbufs =>
      let first := Z.to_nat (count mod 4) in
      reset_n mbufs 0 first ;;
      comp_loop (fun idx =>
        if negb (Z.of_nat idx =? count)
        then reset_n mbufs idx 4 ;; mret (inl (idx + 4)%nat)
        else mret (inr (0, mbufs))) fuel first
  end.

(** *** Indirect and external buffers *)

Definition rte_pktmbuf_attach_extbuf (m buf_addr' buf_iova' buf_len' shinfo' : Z) : M unit :=
  update m (fun m =>
    m <| buf_addr := buf_addr' |> <| buf_iova := buf_iova' |> <| buf_len := buf_len' |>
      <| data_len := 0 |> <| data_off := 0 |>
      <| ol_flags := Z.lor (ol_flags m) EXT_ATTACHED_MBUF |> <| shinfo := shinfo' |>).

Definition rte_pktmbuf_attach (mi m : Z) : M unit :=
  b ← load m;
  (if RTE_MBUF_HAS_EXTBUF b then
     rte_mbuf_ext_refcnt_update (shinfo b) 1 ;;
     update mi (fun x => x <| ol_flags := ol_flags b |> <| shinfo := shinfo b |>)
   else
     rte_mbuf_refcnt_update (rte_mbuf_from_indirect b) 1 ;;
     update mi (fun x => x <| priv_size := priv_size b |>
                           <| ol_flags := Z.lor (ol_flags b) IND_ATTACHED_MBUF |>)) ;;
  b ← load m;
  update mi (fun x =>
    x <| buf_iova := buf_iova b |> <| buf_addr := buf_addr b |> <| buf_len := buf_len b |>
      <| data_off := data_off b |> <| data_len := data_len b |> <| port := port b |>
      <| vlan_tci := vlan_tci b |> <| vlan_tci_outer := vlan_tci_outer b |>
      <| tx_offload := tx_offload b |> <| hash := hash b |>
      <| next := NULL |> <| pkt_len := data_len b |> <| nb_segs := 1 |>
      <| packet_type := packet_type b |> <| timestamp := timestamp b |>).

Definition __rte_pktmbuf_free_extbuf (p : Z) : M unit :=
  m ← load p;
  r ← rte_mbuf_ext_refcnt_update (shinfo m) (-1);
  if r =? 0 then
    i ← load_ext (shinfo m);
    modify (fun s => s <| freed_ext := freed_ext s ++ [(free_cb i, buf_addr m, fcb_opaque i)] |>)
  else mret tt.

Definition __rte_pktmbuf_free_direct (p : Z) : M unit :=
  m ← load p;
  let md := rte_mbuf_from_indirect m in
  r ← rte_mbuf_refcnt_update md (-1);
  if r =? 0 then
    update md (fun m => m <| next := NULL |> <| nb_segs := 1 |>) ;;
    rte_mbuf_refcnt_set md 1 ;;
    rte_mbuf_raw_free md
  else mret tt.

Definition rte_pktmbuf_detach (p : Z) : M unit :=
  m ← load p;
  let mp := pool m in
  (if RTE_MBUF_HAS_EXTBUF m then __rte_pktmbuf_free_extbuf p
   else __rte_pktmbuf_free_direct p) ;;
  psz ← rte_pktmbuf_priv_size mp;
  let mbuf_size := u32 (sizeof_rte_mbuf + psz) in
  blen ← rte_pktmbuf_data_room_size mp;
  s ← get;
  update p (fun m =>
    let m := m <| priv_size := psz |> <| buf_addr := p +[64] mbuf_size |>
               <| buf_iova := mp_virt2iova (pools s) p +[64] mbuf_size |>
               <| buf_len := u16 blen |> in
    (rte_pktmbuf_reset_headroom m) <| data_len := 0 |> <| ol_flags := 0 |>).

(** The part of [rte_pktmbuf_prefree_seg] both branches share. *)
Definition prefree_release (p : Z) : M unit :=
  m ← load p;
  (if negb (RTE_MBUF_DIRECT m) then rte_pktmbuf_detach p else mret tt) ;;
  m ← load p;
  if negb (next m =? NULL)
  then update p (fun m => m <| next := NULL |> <| nb_segs := 1 |>) else mret tt.

Definition rte_pktmbuf_prefree_seg (p : Z) : M Z :=
  r ← rte_mbuf_refcnt_read p;
  if r =? 1 then prefree_release p ;; mret p
  else
    r ← __rte_mbuf_refcnt_update p (-1);
    if r =? 0 then prefree_release p ;; rte_mbuf_refcnt_set p 1 ;; mret p
    else mret NULL.

Definition rte_pktmbuf_free_seg (p : Z) : M unit :=
  m ← rte_pktmbuf_prefree_seg p;
  if negb (m =? NULL) then rte_mbuf_raw_free m else mret tt.

Definition rte_pktmbuf_free (fuel : nat) (p : Z) : M unit :=
  comp_loop (fun p =>
    if negb (p =? NULL) then
      m ← load p; rte_pktmbuf_free_seg p ;; mret (inl (next m))
    else mret (inr tt)) fuel p.

(** The loop of [rte_pktmbuf_clone]: the segment being copied, the copy, the
    address of the mbuf whose [next] field is [*prev], and the count; it
    leaves with the last [prev], the count and the last [mi]. *)
Definition clone_loop (fuel : nat) (mp : Z) : Z * Z * Z * Z -> M (Z * Z * Z) :=
  comp_loop (fun '(md, mi, prev, nseg) =>
    let nseg := nseg +[16] 1 in
    rte_pktmbuf_attach mi md ;;
    update prev (fun m => m <| next := mi |>) ;;
    let prev := mi in
    b ← load md;
    let md := next b in
    if negb (md =? NULL) then
      mi ← rte_pktmbuf_alloc mp;
      if negb (mi =? NULL) then mret (inl (md, mi, prev, nseg))
      else mret (inr (prev, nseg, mi))
    else mret (inr (prev, nseg, mi))) fuel.

Definition rte_pktmbuf_clone (fuel : nat) (md mp : Z) : M Z :=
  mc ← rte_pktmbuf_alloc mp;
  if mc =? NULL then mret NULL else
  b ← load md;
  let pktlen := pkt_len b in
  '(prev, nseg, mi) ← clone_loop fuel mp (md, mc, mc, 0);
  update prev (fun m => m <| next := NULL |>) ;;
  update mc (fun m => m <| nb_segs := nseg |> <| pkt_len := pktlen |>) ;;
  if mi =? NULL then rte_pktmbuf_free fuel mc ;; mret NULL
  else mret mc.

Definition rte_pktmbuf_refcnt_update (fuel : nat) (p v : Z) : M unit :=
  comp_loop (fun p =>
    rte_mbuf_refcnt_update p v ;;
    m ← load p;
    if negb (next m =? NULL) then mret (inl (next m)) else mret (inr tt)) fuel p.

(** *** Data room operations *)

Definition rte_pktmbuf_lastseg (fuel : nat) (p : Z) : M Z :=
  comp_loop (fun p =>
    m ← load p;
    if negb (next m =? NULL) then mret (inl (next m)) else mret (inr p)) fuel p.

Definition rte_pktmbuf_prepend (p len : Z) : M Z :=
  m ← load p;
  if rte_pktmbuf_headroom m <? len then mret NULL else
  update p (fun m =>
    m <| data_off := data_off m -[16] len |> <| data_len := data_len m +[16] len |>
      <| pkt_len := pkt_len m +[32] len |>) ;;
  m ← load p;
  mret (u64 (buf_addr m + data_off m)).

Definition rte_pktmbuf_append (fuel : nat) (p len : Z) : M Z :=
  last ← rte_pktmbuf_lastseg fuel p;
  m_last ← load last;
  if rte_pktmbuf_tailroom m_last <? len then mret NULL else
  let tail := u64 (buf_addr m_last + data_off m_last + data_len m_last) in
  update last (fun m => m <| data_len := data_len m +[16] len |>) ;;
  update p (fun m => m <| pkt_len := pkt_len m +[32] len |>) ;;
  mret tail.

Definition rte_pktmbuf_adj (p len : Z) : M Z :=
  m ← load p;
  if data_len m <? len then mret NULL else
  update p (fun m =>
    m <| data_len := data_len m -[16] len |> <| data_off := data_off m +[16] len |>
      <| pkt_len := pkt_len m -[32] len |>) ;;
  m ← load p;
  mret (u64 (buf_addr m + data_off m)).

Definition rte_pktmbuf_trim (fuel : nat) (p len : Z) : M Z :=
  last ← rte_pktmbuf_lastseg fuel p;
  m_last ← load last;
  if data_len m_last <? len then mret (-1) else
  update last (fun m => m <| data_len := data_len m -[16] len |>) ;;
  update p (fun m => m <| pkt_len := pkt_len m -[32] len |>) ;;
  mret 0.

Definition rte_pktmbuf_chain (fuel : nat) (head tail : Z) : M Z :=
  h ← load head;
  t ← load tail;
  if RTE_MBUF_MAX_NB_SEGS <? nb_segs h + nb_segs t then mret (- EOVERFLOW) else
  cur_tail ← rte_pktmbuf_lastseg fuel head;
  update cur_tail (fun m => m <| next := tail |>) ;;
  t ← load tail;
  update head (fun m => m <| nb_segs := nb_segs m +[16] nb_segs t |>
                          <| pkt_len := pkt_len m +[32] pkt_len t |>) ;;
  update tail (fun m => m <| pkt_len := data_len m |>) ;;
  mret 0.

(** [rte_memcpy] *)
Definition memcpy (dst src n : Z) : M unit :=
  modify (fun s => s <| mem := mem_copy (mem s) dst src n |>).

(** The loops of [__rte_pktmbuf_read]: finding the segment, then copying. *)
Definition read_seek (fuel : nat) : Z * Z -> M (Z * Z) :=
  comp_loop (fun '(seg, off) =>
    m ← load seg;
    if data_len m <=? off then mret (inl (next m, off -[32] data_len m))
    else mret (inr (seg, off))) fuel.

Definition read_copy (fuel : nat) (buf : Z) : Z * Z * Z * Z -> M Z :=
  comp_loop (fun '(seg, off, len, buf_off) =>
    if 0 <? len then
      m ← load seg;
      let copy_len := data_len m -[32] off in
      let copy_len := if len <? copy_len then len else copy_len in
      memcpy (u64 (buf + buf_off)) (rte_pktmbuf_mtod_offset m off) copy_len ;;
      mret (inl (next m, 0, len -[32] copy_len, buf_off +[32] copy_len))
    else mret (inr buf)) fuel.

Definition __rte_pktmbuf_read (fuel : nat) (p off len buf : Z) : M Z :=
  m ← load p;
  if pkt_len m <? off +[32] len then mret NULL else
  '(seg, off) ← read_seek fuel (p, off);
  m ← load seg;
  if off +[32] len <=? data_len m then mret (rte_pktmbuf_mtod_offset m off)
  else read_copy fuel buf (seg, off, len, 0).

Definition rte_pktmbuf_read (fuel : nat) (p off len buf : Z) : M Z :=
  m ← load p;
  if off +[32] len <=? data_len m then mret (rte_pktmbuf_mtod_offset m off)
  else __rte_pktmbuf_read fuel p off len buf.

Definition linearize_loop (fuel : nat) : Z * Z -> M unit :=
  comp_loop (fun '(m, buffer) =>
    if negb (m =? NULL) then
      seg ← load m;
      let m_next := next seg in
      let seg_len := data_len seg in
      memcpy buffer (rte_pktmbuf_mtod_offset seg 0) seg_len ;;
      rte_pktmbuf_free_seg m ;;
      mret (inl (m_next, u64 (buffer + seg_len)))
    else mret (inr tt)) fuel.

Definition rte_pktmbuf_linearize (fuel : nat) (mbuf : Z) : M Z :=
  m ← load mbuf;
  if rte_pktmbuf_is_contiguous m then mret 0 else
  let copy_len := pkt_len m -[32] data_len m in
  if rte_pktmbuf_tailroom m <? copy_len then mret (-1) else
  let buffer := rte_pktmbuf_mtod_offset m (data_len m) in
  update mbuf (fun m => m <| data_len := u16 (pkt_len m) |>) ;;
  linearize_loop fuel (next m, buffer) ;;
  update mbuf (fun m => m <| next := NULL |> <| nb_segs := 1 |>) ;;
  mret 0.

(** *** Sanity check *)

Definition sanity_loop (fuel : nat) : Z * Z * Z -> M (Z * Z) :=
  comp_loop (fun '(p, nb, len) =>
    m ← load p;
    let nb := nb -[32] 1 in
    let len := len -[32] data_len m in
    if negb (next m =? NULL) then mret (inl (next m, nb, len)) else mret (inr (nb, len))) fuel.

Definition rte_mbuf_sanity_check (fuel : nat) (p is_header : Z) : M unit :=
  if p =? NULL then panic else
  m ← load p;
  if pool m =? NULL then panic else
  if buf_iova m =? 0 then panic else
  if buf_addr m =? NULL then panic else
  if (refcnt m =? 0) || (refcnt m =? 65535) then panic else
  if is_header =? 0 then mret tt else
  if pkt_len m <? data_len m then panic else
  '(nb, len) ← sanity_loop fuel (p, nb_segs m, pkt_len m);
  if negb (nb =? 0) then panic else
  if negb (len =? 0) then panic else mret tt.
End MbufCode.

(** ** Slice offsets *)

(** [m->slice_off.slice<i>] *)
Definition slice_off (m : rte_mbuf) (i : Z) : Z := Z.land (Z.shiftr (udata64 m) (8 * i)) 255.
Definition set_slice_off (i v : Z) (m : rte_mbuf) : rte_mbuf :=
  m <| udata64 := Z.lor (Z.land (udata64 m) (Z.lnot (Z.shiftl 255 (8 * i))))
                        (Z.shiftl (u8 v) (8 * i)) |>.

(** [rte_pktmbuf_set_slice] *)
Definition rte_pktmbuf_set_slice (slice_number : Z) (m : rte_mbuf) : rte_mbuf :=
  if (0 <=? slice_number) && (slice_number <=? 7)
  then m <| data_off := slice_off m slice_number *[16] 64 |>
  else m <| data_off := RTE_PKTMBUF_HEADROOM |>.

(** [rte_pktmbuf_slice_init] with the hash function (Haswell, no [UNCORE]):
    the assignments of the slices [i], [i+1], ...; [None] when a search does
    not end within the fuel. *)
Fixpoint slice_init_hash (fuel n : nat) (i : Z) (m : rte_mbuf) : option rte_mbuf :=
  match n with
  | O => Some m
  | S n' =>
      offset ← sliceFinder_HF_haswell fuel (buf_iova m) i;
      slice_init_hash fuel n' (i + 1) (set_slice_off i (offset / 64) m)
  end.
Definition rte_pktmbuf_slice_init (fuel : nat) (m : rte_mbuf) : option rte_mbuf :=
  slice_init_hash fuel 8 0 m.

(** [rte_pktmbuf_slice_init] with [UNCORE]: the loop's local variables. *)
Record slice_scan := SliceScan {
  slices_found : Z;
  current_slice : Z;
  scan_offset : Z;
  found_offsets : list Z;
}.

(** The Skylake table from slices to cores; a wrong slice only warns, and
    [current_slice] keeps its value. *)
Definition core_of_slice (slice current : Z) : Z :=
  if (slice =? 0) || (slice =? 2) || (slice =? 6) then 0
  else if (slice =? 4) || (slice =? 1) then 1
  else if (slice =? 8) || (slice =? 11) then 2
  else if (slice =? 12) || (slice =? 13) then 3
  else if (slice =? 10) || (slice =? 7) || (slice =? 9) then 4
  else if (slice =? 14) || (slice =? 16) then 5
  else if (slice =? 3) || (slice =? 5) then 6
  else if (slice =? 15) || (slice =? 17) then 7
  else current.

(** One round after the slice of the line at [scan_offset] is known; [None]
    is the write past the end of [found_offsets[8]]. *)
Definition slice_scan_step (cs : Z) (st : slice_scan) : option slice_scan :=
  if Z.land (slices_found st) (Z.shiftl 1 cs) =? 0 then
    let offset := if RTE_PKTMBUF_HEADROOM <? scan_offset st
                  then RTE_PKTMBUF_HEADROOM else scan_offset st in
    if cs <? 8 then
      Some (SliceScan (u8 (Z.lor (slices_found st) (Z.shiftl 1 cs))) cs
              (offset +[64] LINE) (<[Z.to_nat cs := u16 offset]> (found_offsets st)))
    else None
  else Some (SliceScan (slices_found st) cs (scan_offset st +[64] LINE) (found_offsets st)).

(** The eight final assignments. *)
Definition store_slices (found : list Z) (m : rte_mbuf) : rte_mbuf :=
  foldl (fun m i => set_slice_off i (default 0 (found !! Z.to_nat i) / 64) m) m (seqZ 0 8).

Section SliceInitUncore.
Context {W : Type} `{!MsrOs W}.

Definition slice_scan_body (a : cpu_arch) (addr : Z) (st : slice_scan)
  : comp (msr_state W) (slice_scan + list Z) :=
  if negb (slices_found st =? 255) then
    slice ← calculateSlice_uncore a (addr +[64] scan_offset st);
    let cs := match a with
              | HASWELL => slice
              | SKYLAKE => core_of_slice slice (current_slice st)
              end in
    match slice_scan_step cs st with Some st' => mret (inl st') | None => ub end
  else mret (inr (found_offsets st)).

(** The verification loop of the Haswell variant only prints. *)
Definition rte_pktmbuf_slice_init_uncore (a : cpu_arch) (fuel : nat) (m : rte_mbuf)
  : comp (msr_state W) rte_mbuf :=
  found ← comp_loop (slice_scan_body a (buf_addr m)) fuel
            (SliceScan 0 0 0 (replicate 8 0));
  mret (store_slices found m).
End SliceInitUncore.

Section MbufInit.
Context {P : Type} `{!MempoolOps P}.

(** [rte_pktmbuf_init], the constructor of the objects of an mbuf pool
    (Haswell, no [UNCORE]). *)
Definition rte_pktmbuf_init (fuel : nat) (mp m : Z) : comp (store P) unit :=
  psz ← rte_pktmbuf_priv_size mp;
  let mbuf_size := u32 (sizeof_rte_mbuf + psz) in
  blen ← rte_pktmbuf_data_room_size mp;
  s ← get;
  let x := RteMbuf (m +[64] mbuf_size) (mp_virt2iova (pools s) m +[64] mbuf_size)
             (Z.min RTE_PKTMBUF_HEADROOM (u16 blen)) 0 0 0 0 0 0 0 0 0 0 (u16 blen)
             0 0 0 0 0 (u16 psz) 0 in
  match rte_pktmbuf_slice_init fuel x with
  | None => no_fuel
  | Some x =>
      modify (fun s => s <| mbufs := <[m := x <| pool := mp |> <| nb_segs := 1 |>
        <| port := MBUF_INVALID_PORT |> <| refcnt := 1 |> <| next := NULL |>]> (mbufs s) |>)
  end.
End MbufInit.

(** ** A reference memory pool

    Pools as the number of objects that are out and the list of free objects, last
    put first taken, all with 2048-byte data rooms and the objects' IO addresses
    equal to their addresses. *)

Abbreviation list_pools := (gmap Z (nat * list Z)).

Definition list_pool (p : list_pools) (mp : Z) : nat * list Z := default (0%nat, []) (p !! mp).

#[export] Instance list_pools_ops : MempoolOps list_pools := {
  mp_get p mp :=
    match list_pool p mp with
    | (k, x :: l) => (<[mp := (S k, l)]> p, Some x)
    | (_, []) => (p, None)
    end;
  mp_get_bulk p mp n :=
    let '(k, l) := list_pool p mp in
    if (0 <=? n) && (n <=? Z.of_nat (length l))
    then (<[mp := ((Z.to_nat n + k)%nat, drop (Z.to_nat n) l)]> p, inl (take (Z.to_nat n) l))
    else (p, inr (- ENOENT));
  mp_put p mp x := let '(k, l) := list_pool p mp in <[mp := (pred k, x :: l)]> p;
  mp_priv _ _ := PoolPrivate 2048 0;
  mp_virt2iova _ m := m;
}.

Lemma list_pool_insert (p : list_pools) mp v mp' :
  list_pool (<[mp := v]> p) mp' = if decide (mp = mp') then v else list_pool p mp'.
Proof. unfold list_pool. destruct (decide (mp = mp')) as [->|]; [by rewrite lookup_insert_eq|by rewrite lookup_insert_ne]. Qed.

#[export] Instance list_pools_laws : MempoolLaws list_pools.
Proof.
  assert (forall (p : list_pools) mp v mp', mp' <> mp -> list_pool (<[mp := v]> p) mp' = list_pool p mp') as Hne
    by (intros p mp v mp' ?; rewrite list_pool_insert; by rewrite decide_False).
  refine {| mp_valid _ := True; mp_avail p mp := (list_pool p mp).2; mp_room p mp := (list_pool p mp).1 |}.
  - intros p mp p' x _. simpl. destruct (list_pool p mp) as [k [|y l]]; [done|]. intros [= <- <-].
    rewrite list_pool_insert, decide_True by done. split_and!; try done. intros mp' H. by rewrite Hne.
  - intros p mp p' _. simpl. destruct (list_pool p mp) as [k [|y l]]; [|done]. by intros [= <-].
  - intros p mp _. simpl. destruct (list_pool p mp) as [k [|y l]]; [done|]. eauto.
  - intros p mp n p' r _ Hn. simpl. destruct (list_pool p mp) as [k l] eqn:E.
    destruct (Z.leb_spec 0 n), (Z.leb_spec n (Z.of_nat (length l)));
      simpl; intros [= <- <-]; (split; [done|]); try (split; [done|unfold ENOENT; rewrite E; split; [lia|done]]).
    split; [intros mp' H'; by rewrite Hne|].
    rewrite list_pool_insert, decide_True by done. simpl. rewrite take_drop, length_take.
    split_and!; [lia|done|lia].
  - intros p mp x _. simpl. destruct (list_pool p mp) as [k l]. simpl. intros Hk. split; [done|].
    rewrite list_pool_insert, decide_True by done. split_and!; [done|simpl; lia|]. intros mp' H'. by rewrite Hne.
  - intros p mp p' o. done.
  - intros p mp x. done.
Defined.

(** A direct mbuf at [p] of a reference pool. *)
Definition example_mbuf (p off len nb total nxt rc : Z) : rte_mbuf :=
  RteMbuf (p + 128) (p + 128) off rc nb 0 0 0 total len 0 0 0 2048 0 0 1 nxt 0 0 0.

(** A packet of two segments, of 10 and 20 bytes. *)
Definition example_store : store list_pools :=
  Store {[ 4096 := example_mbuf 4096 832 10 2 30 8192 1;
           8192 := example_mbuf 8192 100 20 1 20 0 1 ]} ∅ (fun a => a mod 256) {[ 1 := (2%nat, []) ]} [].
