(* ===== verification/MbufSlice.v ===== *)
(** * Slice steering of packet buffers

    The properties of the slice offsets of [Mbuf]: after [rte_pktmbuf_init] has
    filled them, [rte_pktmbuf_set_slice] steers the packet data to the wanted
    LLC slice; the hash and the performance-counter variants agree. *)

From S2P Require Import Prelude Effects Slice Msr Mbuf.

(** ** Slice offsets: properties *)

Lemma udata64_set_slice_off i v m :
  udata64 (set_slice_off i v m)
  = Z.lor (Z.land (udata64 m) (Z.lnot (Z.shiftl 255 (8 * i)))) (Z.shiftl (u8 v) (8 * i)).
Proof. reflexivity. Qed.

Lemma slice_off_set m i j v :
  0 <= i < 8 -> 0 <= j < 8 ->
  slice_off (set_slice_off i v m) j = if i =? j then u8 v else slice_off m j.
Proof.
  intros Hi Hj. unfold slice_off. rewrite udata64_set_slice_off.
  apply Z.bits_inj'. intros k Hk.
  rewrite !Z.land_spec, !Z.shiftr_spec, !Z.lor_spec, !Z.land_spec, Z.lnot_spec,
    !Z.shiftl_spec by lia.
  change 255 with (Z.ones 8).
  destruct (Z.ltb_spec k 8) as [Hk8|Hk8].
  - rewrite (Z.ones_spec_low 8 k) by lia. rewrite andb_true_r.
    destruct (Z.eqb_spec i j) as [->|Hne].
    + replace (k + 8 * j - 8 * j) with k by lia. rewrite (Z.ones_spec_low 8 k) by lia.
      by rewrite andb_false_r, orb_false_l.
    + rewrite Z.land_spec, Z.shiftr_spec, (Z.ones_spec_low 8 k), andb_true_r by lia.
      destruct (Z.ltb_spec (k + 8 * j - 8 * i) 0).
      * rewrite (Z.testbit_neg_r (Z.ones 8)), (Z.testbit_neg_r (u8 v)) by lia.
        by rewrite andb_true_r, orb_false_r.
      * rewrite (Z.ones_spec_high 8), wrap_testbit by lia.
        destruct (Z.ltb_spec (k + 8 * j - 8 * i) 8); [lia|].
        by rewrite andb_true_r, orb_false_r.
  - rewrite (Z.ones_spec_high 8 k) by lia. rewrite andb_false_r.
    destruct (Z.eqb_spec i j).
    + rewrite wrap_testbit by lia. by destruct (Z.ltb_spec k 8); [lia|].
    + by rewrite Z.land_spec, (Z.ones_spec_high 8 k), andb_false_r by lia.
Qed.

(** The other fields of the mbuf are untouched. *)
Lemma slice_init_hash_spec fuel n i m :
  in_range 64 (buf_iova m) -> (15 <= fuel)%nat -> 0 <= i -> i + Z.of_nat n <= 8 ->
  exists m', slice_init_hash fuel n i m = Some m'
    /\ m' = m <| udata64 := udata64 m' |>
    /\ forall j, 0 <= j < 8 ->
         slice_off m' j = if (i <=? j) && (j <? i + Z.of_nat n)
                          then slice_distance (buf_iova m) j else slice_off m j.
Proof.
  intros Hio Hf. revert i m Hio. induction n as [|n IH]; intros i m Hio Hi Hn.
  { exists m. split_and!; [done|by destruct m|]. intros j Hj.
    destruct (Z.leb_spec i j), (Z.ltb_spec j (i + Z.of_nat 0)); done || lia. }
  simpl. rewrite (sliceFinder_HF_result (buf_iova m) i fuel) by (done || lia). simpl.
  destruct (slice_distance_spec (buf_iova m) i) as (Hd & _); [apply Hio|lia|].
  rewrite Z.mul_comm, Z.div_mul by done.
  destruct (IH (i + 1) (set_slice_off i (slice_distance (buf_iova m) i) m))
    as (m' & Hrun & Hm' & Hoff); [done|lia|lia|].
  exists m'. split; [done|]. split; [by rewrite Hm' at 1|].
  intros j Hj. rewrite Hoff, slice_off_set by lia. cbn.
  rewrite (wrap_small 8) by (unfold in_range; lia).
  destruct (Z.leb_spec (i + 1) j), (Z.ltb_spec j (i + 1 + Z.of_nat n)), (Z.leb_spec i j),
    (Z.ltb_spec j (i + Z.of_nat (S n))), (Z.eqb_spec i j); subst; simpl; done || lia.
Qed.

Lemma slice_init_runs m fuel :
  in_range 64 (buf_iova m) -> (15 <= fuel)%nat ->
  exists m', rte_pktmbuf_slice_init fuel m = Some m' /\ m' = m <| udata64 := udata64 m' |>.
Proof.
  intros Hio Hf. destruct (slice_init_hash_spec fuel 8 0 m Hio Hf) as (m' & Hrun & Hm' & _); [done..|].
  by exists m'.
Qed.

(** C1. CacheDirector's steering: after the slice initialisation of an mbuf,
    choosing slice [s] with [rte_pktmbuf_set_slice] moves the start of the
    packet data to a cache line that the LLC slice [s] holds, at most 896 bytes
    into the buffer; no other field of the mbuf changes. *)
Theorem slice_steering m fuel :
  in_range 64 (buf_iova m) -> (15 <= fuel)%nat ->
  exists m', rte_pktmbuf_slice_init fuel m = Some m'
    /\ m' = m <| udata64 := udata64 m' |>
    /\ forall s, 0 <= s < 8 ->
         let m2 := rte_pktmbuf_set_slice s m' in
         calculateSlice_HF_haswell (rte_pktmbuf_iova_offset m2 0) = s
         /\ data_off m2 mod LINE = 0 /\ 0 <= data_off m2 <= 896
         /\ m2 = m' <| data_off := data_off m2 |>.
Proof.
  intros Hio Hf.
  destruct (slice_init_hash_spec fuel 8 0 m Hio Hf) as (m' & Hrun & Hm' & Hoff); [done..|].
  exists m'. split_and!; [done..|]. intros s Hs.
  destruct (slice_distance_spec (buf_iova m) s) as (Hd & Hhit & _); [apply Hio|done|].
  assert (slice_off m' s = slice_distance (buf_iova m) s) as Hso.
  { rewrite Hoff by done. by destruct (Z.leb_spec 0 s), (Z.ltb_spec s (0 + Z.of_nat 8)); lia || done. }
  assert (buf_iova m' = buf_iova m) as Hbuf by (by rewrite Hm').
  unfold rte_pktmbuf_set_slice.
  destruct (Z.leb_spec 0 s), (Z.leb_spec s 7); try lia. cbn [andb].
  rewrite Hso. replace (slice_distance (buf_iova m) s *[16] 64)
    with (64 * slice_distance (buf_iova m) s) by (rewrite Z.mul_comm; symmetry; apply wrap_small;
      unfold in_range; lia).
  unfold rte_pktmbuf_iova_offset. simpl. rewrite Hbuf, Z.add_0_r.
  rewrite slice_at_offset by (apply Hio || lia). split_and!; try done; try lia.
  unfold LINE. rewrite Z.mul_comm. by apply Z.mod_mul.
Qed.

(** *** The scan through the performance counters *)

Lemma all_bits_255 x :
  in_range 8 x -> (forall s, 0 <= s < 8 -> Z.testbit x s = true) -> x = 255.
Proof.
  intros Hx Hall. change 255 with (Z.ones 8). apply Z.bits_inj'. intros i Hi.
  destruct (Z.ltb_spec i 8).
  - rewrite Hall, Z.ones_spec_low by lia. done.
  - rewrite (in_range_testbit 8 x), Z.ones_spec_high by (done || lia). done.
Qed.

Lemma testbit_shiftl1 x cs : 0 <= cs -> (Z.land x (Z.shiftl 1 cs) =? 0) = negb (Z.testbit x cs).
Proof.
  intros Hcs. rewrite Z.shiftl_1_l. destruct (Z.testbit x cs) eqn:E; simpl.
  - apply Z.eqb_neq. intros H. apply (f_equal (fun z => Z.testbit z cs)) in H.
    by rewrite Z.land_spec, E, Z.pow2_bits_true, Z.testbit_0_l in H.
  - apply Z.eqb_eq. zbits. destruct (Z.eq_dec i cs) as [->|Hne].
    + by rewrite E.
    + by rewrite Z.pow2_bits_false, andb_false_r.
Qed.

(** The state of the scan before line [k] of the buffer at [pa]. *)
Definition scan_inv (pa k : Z) (st : slice_scan) : Prop :=
  scan_offset st = 64 * k /\ in_range 8 (slices_found st)
  /\ length (found_offsets st) = 8%nat
  /\ forall s, 0 <= s < 8 ->
       Z.testbit (slices_found st) s = (slice_distance pa s <? k)
       /\ found_offsets st !! Z.to_nat s
          = Some (if slice_distance pa s <? k then 64 * slice_distance pa s else 0).

Lemma slice_scan_step_inv pa k st :
  0 <= pa -> 0 <= k <= 14 ->
  (forall s, 0 <= s < 8 -> slice_distance pa s <= 13) -> scan_inv pa k st ->
  exists st', slice_scan_step (line_slice (pa / 64 + k)) st = Some st'
    /\ scan_inv pa (k + 1) st'.
Proof.
  intros Hpa Hk H13 (Hoff & Hr & Hlen & Hs). set (cs := line_slice (pa / 64 + k)).
  assert (0 <= cs < 8) as Hcs by apply calculateSlice_range.
  pose proof (slice_distance_own pa k Hpa (proj1 Hk)) as Hown. fold cs in Hown.
  destruct (Hs cs Hcs) as [Hbit _]. pose proof (H13 cs Hcs) as Hd13.
  destruct (slice_distance_spec pa cs Hpa Hcs) as (Hd0 & _ & _).
  assert (forall s, 0 <= s < 8 -> slice_distance pa s = k -> s = cs) as Huniq.
  { intros s Hs8 Hd. destruct (slice_distance_spec pa s Hpa Hs8) as (_ & Hhit & _).
    rewrite Hd in Hhit. by rewrite <- Hhit. }
  unfold slice_scan_step. rewrite testbit_shiftl1, Hbit by lia. rewrite Hoff.
  destruct (Z.ltb_spec (slice_distance pa cs) k) as [Hlt|Hge]; simpl.
  - eexists. split; [reflexivity|]. split_and!; simpl; [unfold LINE; clia|done|done|].
    intros s Hs8. destruct (Hs s Hs8) as [-> ->].
    assert (slice_distance pa s <> k) by (intros Hd; rewrite (Huniq s Hs8 Hd) in Hd; lia).
    destruct (Z.ltb_spec (slice_distance pa s) k), (Z.ltb_spec (slice_distance pa s) (k + 1));
      done || lia.
  - assert (slice_distance pa cs = k) as Hdk by lia.
    unfold RTE_PKTMBUF_HEADROOM. destruct (Z.ltb_spec 832 (64 * k)); [lia|].
    destruct (Z.ltb_spec cs 8); [|lia]. eexists. split; [reflexivity|].
    split_and!; simpl; [unfold LINE; clia|apply wrap_range; lia|by rewrite length_insert|].
    intros s Hs8. destruct (Hs s Hs8) as [Hb Hf].
    rewrite wrap_testbit, Z.lor_spec, Z.shiftl_1_l, Hb by lia.
    destruct (Z.ltb_spec s 8); [|lia]. cbn [andb].
    destruct (Z.eq_dec s cs) as [->|Hne].
    + rewrite Z.pow2_bits_true, orb_true_r by lia.
      rewrite list_lookup_insert_eq by lia. rewrite Hdk.
      destruct (Z.ltb_spec k (k + 1)); [|lia]. split; [done|].
      f_equal. apply wrap_small. unfold in_range. lia.
    + rewrite Z.pow2_bits_false, orb_false_r by lia.
      rewrite list_lookup_insert_ne by lia. rewrite Hf.
      assert (slice_distance pa s <> k) by (intros Hd; by apply Hne, Huniq).
      destruct (Z.ltb_spec (slice_distance pa s) k), (Z.ltb_spec (slice_distance pa s) (k + 1));
        done || lia.
Qed.

Lemma slice_init_hash_fold fuel n i m pa :
  buf_iova m = pa -> in_range 64 pa -> (15 <= fuel)%nat -> 0 <= i -> i + Z.of_nat n <= 8 ->
  slice_init_hash fuel n i m
  = Some (foldl (fun m i => set_slice_off i (slice_distance pa i) m) m (seqZ i (Z.of_nat n))).
Proof.
  revert i m. induction n as [|n IH]; intros i m Hm Hpa Hf Hi Hn; [done|].
  simpl. rewrite Hm, (sliceFinder_HF_result pa i fuel) by (done || lia). simpl.
  rewrite Z.mul_comm, Z.div_mul by done. rewrite seqZ_cons by lia.
  replace (Z.pred (Z.of_nat (S n))) with (Z.of_nat n) by lia. simpl.
  by rewrite (IH (Z.succ i)) by (done || lia).
Qed.

Section ScanAgreement.
Context {W : Type} `{OS : !MsrOs W} `{HW : !CboCounters W HASWELL}.
Context (v2p : Z -> Z) (va : Z).
Hypothesis owner_hash : forall v,
  hw_owner (a := HASWELL) v = Z.to_nat (calculateSlice_HF_haswell (v2p v)).
Hypothesis contiguous : forall o, 0 <= o <= 896 -> v2p (va +[64] o) = v2p va +[64] o.
Hypothesis pa_range : in_range 64 (v2p va).
(** The buffer's first 512-byte boundary is no odd multiple of 64 MiB. *)
Hypothesis no_boundary : (v2p va / 512 + 1) mod 2 ^ 18 <> 2 ^ 17.

Lemma distances s : 0 <= s < 8 -> slice_distance (v2p va) s <= 13.
Proof using no_boundary pa_range. intros Hs. by apply slice_distance_13. Qed.

Lemma scan_body_step k st (w : msr_state W) :
  0 <= k <= 14 -> scan_inv (v2p va) k st -> slices_found st <> 255 ->
  exists w' st', slice_scan_body HASWELL va st w = (w', Ret (inl st'))
    /\ scan_inv (v2p va) (k + 1) st'.
Proof using HW owner_hash contiguous pa_range no_boundary.
  intros Hk Hinv Hne. destruct Hinv as (Hoff & Hrest).
  destruct (calculateSlice_uncore_hash v2p owner_hash (va +[64] scan_offset st) w)
    as (w' & E).
  rewrite Hoff, contiguous, slice_at_offset in E by (apply pa_range || lia).
  destruct (slice_scan_step_inv (v2p va) k st) as (st' & Hstep & Hinv');
    [apply pa_range|done|exact distances|by split|].
  exists w', st'. split; [|done]. unfold slice_scan_body.
  destruct (Z.eqb_spec (slices_found st) 255); [done|]. simpl.
  rewrite Hoff, (bind_ret _ _ _ _ _ E). by rewrite Hstep.
Qed.

Lemma scan_complete k st :
  scan_inv (v2p va) k st -> slices_found st <> 255 -> k <= 13.
Proof using no_boundary pa_range.
  intros (_ & Hr & _ & Hs) Hne. destruct (Z.le_gt_cases k 13); [done|].
  exfalso. apply Hne, all_bits_255; [done|]. intros s Hs8.
  destruct (Hs s Hs8) as [-> _]. pose proof (distances s Hs8).
  by destruct (Z.ltb_spec (slice_distance (v2p va) s) k); [|lia].
Qed.

Lemma scan_run k st fuel (w : msr_state W) :
  0 <= k <= 14 -> scan_inv (v2p va) k st -> (Z.to_nat (14 - k) < fuel)%nat ->
  exists w' found, comp_loop (slice_scan_body HASWELL va) fuel st w = (w', Ret found)
    /\ forall s, 0 <= s < 8 ->
         found !! Z.to_nat s = Some (64 * slice_distance (v2p va) s).
Proof using HW owner_hash contiguous pa_range no_boundary.
  remember (Z.to_nat (14 - k)) as n eqn:Hn. revert k Hn st fuel w.
  induction n as [|n IH]; intros k Hn st fuel w Hk Hinv Hf; (destruct fuel as [|fuel]; [lia|]);
    (destruct (decide (slices_found st = 255)) as [Hfull|Hne]).
  2: { pose proof (scan_complete k st Hinv Hne). lia. }
  3: { destruct (scan_body_step k st w Hk Hinv Hne) as (w' & st' & E & Hinv').
       pose proof (scan_complete k st Hinv Hne).
       simpl. rewrite (bind_ret _ _ _ _ _ E). apply (IH (k + 1)); lia || done. }
  all: exists w, (found_offsets st); split.
  1, 3: simpl; unfold slice_scan_body; rewrite Hfull; reflexivity.
  all: intros s Hs; destruct Hinv as (_ & _ & _ & Hall); destruct (Hall s Hs) as [Hbit ->].
  all: rewrite Hfull in Hbit.
  all: assert (Z.testbit 255 s = true) as Hone by
         (apply (forallb_seqZ (Z.testbit 255) 0 8); [reflexivity|lia]).
  all: by rewrite <- Hbit, Hone.
Qed.

(** With [UNCORE] defined, [rte_pktmbuf_slice_init] measures the slices of
    the buffer's lines instead of hashing them; on a physically contiguous
    buffer that meets no odd multiple of 64 MiB it terminates and stores the
    same eight offsets. *)
Theorem slice_init_uncore_agrees m fuel (w : msr_state W) :
  buf_addr m = va -> buf_iova m = v2p va -> (15 <= fuel)%nat ->
  exists w' m', rte_pktmbuf_slice_init_uncore HASWELL fuel m w = (w', Ret m')
    /\ rte_pktmbuf_slice_init fuel m = Some m'.
Proof using HW owner_hash contiguous pa_range no_boundary.
  intros Hva Hpa Hf.
  destruct (scan_run 0 (SliceScan 0 0 0 (replicate 8 0)) fuel w)
    as (w' & found & E & Hfound); [lia| |lia|].
  { split_and!; [done|by vm_compute|done|]. intros s Hs.
    destruct (slice_distance_spec (v2p va) s) as (Hd & _); [apply pa_range|done|].
    destruct (Z.ltb_spec (slice_distance (v2p va) s) 0); [lia|].
    rewrite Z.testbit_0_l. split; [done|]. apply lookup_replicate. split; [done|lia]. }
  exists w', (store_slices found m). split.
  - unfold rte_pktmbuf_slice_init_uncore. by rewrite Hva, (bind_ret _ _ _ _ _ E).
  - unfold rte_pktmbuf_slice_init. rewrite (slice_init_hash_fold _ _ _ _ (v2p va))
      by (done || lia). f_equal. unfold store_slices. change (Z.of_nat 8) with 8.
    assert (Forall (fun s => 0 <= s < 8) (seqZ 0 8)) as Hall.
    { apply Forall_forall. intros s Hs. apply elem_of_seqZ in Hs. lia. }
    clear Hva Hpa E. revert m. induction Hall as [|s l Hs _ IH]; intros m; [done|].
    simpl. rewrite Hfound by done. simpl. rewrite Z.mul_comm, Z.div_mul by done. apply IH.
Qed.
End ScanAgreement.

Example slice_steering_witness :
  exists m', rte_pktmbuf_slice_init 15 (example_mbuf 4096 832 0 1 0 0 1) = Some m'
    /\ calculateSlice_HF_haswell (rte_pktmbuf_iova_offset (rte_pktmbuf_set_slice 3 m') 0) = 3.
Proof.
  destruct (slice_steering (example_mbuf 4096 832 0 1 0 0 1) 15) as (m' & Hrun & _ & Hs).
  - unfold in_range. simpl. lia.
  - lia.
  - exists m'. split; [exact Hrun|]. apply (Hs 3). lia.
Defined.

Example slice_init_uncore_agrees_witness :
  exists w' m', rte_pktmbuf_slice_init_uncore HASWELL 15 (example_mbuf 4096 832 0 1 0 0 1)
                  (msr_init (fun _ : Z => 0)) = (w', Ret m')
    /\ rte_pktmbuf_slice_init 15 (example_mbuf 4096 832 0 1 0 0 1) = Some m'.
Proof.
  apply (slice_init_uncore_agrees (fun v => v) 4224); try done; try lia.
Defined.
