(* ===== verification/MbufData.v ===== *)
(** * Packet data operations

    Chains of segments as lists, the contents of a packet as a list of bytes,
    and the data-room operations of [Mbuf] against that abstraction. *)

From S2P Require Import Prelude Effects Bytes Mbuf.

(** ** Chains of segments *)

(** The segments of the chain that starts at [p] are [l], in order. *)
Fixpoint seg_list (h : gmap Z rte_mbuf) (p : Z) (l : list Z) : Prop :=
  match l with
  | [] => p = NULL
  | x :: l' => p = x /\ x <> NULL /\ exists m, h !! x = Some m /\ seg_list h (next m) l'
  end.

Definition segs (h : gmap Z rte_mbuf) (l : list Z) : list rte_mbuf := omap (fun x => h !! x) l.

Definition seg_bytes (mm : Z -> Z) (m : rte_mbuf) : list Z :=
  range_bytes mm (buf_addr m + data_off m) (data_len m).
Definition pkt_bytes (mm : Z -> Z) (ms : list rte_mbuf) : list Z := concat (seg_bytes mm <$> ms).
Definition total_len (ms : list rte_mbuf) : Z := foldr (fun m n => data_len m + n) 0 ms.

(** The data of a segment lies inside its buffer. *)
Record seg_ok (m : rte_mbuf) : Prop := SegOk {
  seg_off : 0 <= data_off m;
  seg_len : 0 <= data_len m;
  seg_room : data_off m + data_len m <= buf_len m;
  seg_buf : buf_len m < 2 ^ 16;
  seg_addr : 0 <= buf_addr m /\ buf_addr m + buf_len m < 2 ^ 64;
}.

(** A well-formed packet: the invariant that the debug sanity check tests. *)
Record pkt_ok (h : gmap Z rte_mbuf) (p : Z) (l : list Z) : Prop := PktOk {
  pkt_chain : seg_list h p l;
  pkt_nonempty : l <> [];
  pkt_nodup : NoDup l;
  pkt_segs_ok : Forall seg_ok (segs h l);
  pkt_head : exists m, h !! p = Some m
    /\ nb_segs m = Z.of_nat (length l) /\ nb_segs m < 2 ^ 16
    /\ pkt_len m = total_len (segs h l) /\ pkt_len m < 2 ^ 32;
}.

Section ChainLemmas.
Context {P : Type} `{!MempoolOps P}.
Implicit Types (s : store P) (h : gmap Z rte_mbuf) (m : rte_mbuf).

Lemma load_ok p m s : mbufs s !! p = Some m -> load p s = (s, Ret m).
Proof. intros H. unfold load, get, mbind, comp_bind. by rewrite H. Qed.

Lemma update_ok p f m s :
  mbufs s !! p = Some m ->
  update p f s = (s <| mbufs := <[p := f m]> (mbufs s) |>, Ret tt).
Proof. intros H. unfold update. by rewrite (bind_ret _ _ _ _ _ (load_ok _ _ _ H)). Qed.

Lemma seg_list_insert h p l x m m' :
  h !! x = Some m -> next m' = next m -> seg_list h p l -> seg_list (<[x := m']> h) p l.
Proof.
  intros Hx Hn. revert p. induction l as [|y l IH]; intros p; [done|].
  simpl. intros (-> & Hy & my & Hmy & Hl). split_and!; [done..|].
  destruct (decide (x = y)) as [->|Hne].
  - exists m'. rewrite lookup_insert_eq. split; [done|]. simplify_eq. rewrite Hn. auto.
  - exists my. rewrite lookup_insert_ne by done. auto.
Qed.

Lemma seg_list_fresh h p l x m :
  x ∉ l -> seg_list h p l -> seg_list (<[x := m]> h) p l.
Proof.
  revert p. induction l as [|y l IH]; intros p Hx; [done|].
  apply not_elem_of_cons in Hx as [Hxy Hx].
  simpl. intros (-> & Hy & my & Hmy & Hl). split_and!; [done..|].
  exists my. rewrite lookup_insert_ne by done. auto.
Qed.

Lemma segs_app h l1 l2 : segs h (l1 ++ l2) = segs h l1 ++ segs h l2.
Proof. apply omap_app. Qed.

Lemma segs_cons h x l m : h !! x = Some m -> segs h (x :: l) = m :: segs h l.
Proof. intros H. unfold segs. simpl. by rewrite H. Qed.

Lemma segs_step h x l :
  segs h (x :: l) = match h !! x with Some m => m :: segs h l | None => segs h l end.
Proof. reflexivity. Qed.

Lemma segs_fresh h l x m : x ∉ l -> segs (<[x := m]> h) l = segs h l.
Proof.
  induction l as [|y l IH]; [done|]. intros [Hxy Hx]%not_elem_of_cons.
  rewrite !segs_step, lookup_insert_ne by done. by rewrite IH.
Qed.

Lemma total_len_app ms1 ms2 : total_len (ms1 ++ ms2) = total_len ms1 + total_len ms2.
Proof. induction ms1 as [|m ms IH]; [done|]. simpl. rewrite IH. lia. Qed.

Lemma pkt_bytes_app mm ms1 ms2 :
  pkt_bytes mm (ms1 ++ ms2) = pkt_bytes mm ms1 ++ pkt_bytes mm ms2.
Proof. unfold pkt_bytes. by rewrite fmap_app, concat_app. Qed.

Lemma length_seg_bytes mm m : 0 <= data_len m -> Z.of_nat (length (seg_bytes mm m)) = data_len m.
Proof. intros H. unfold seg_bytes, range_bytes. rewrite length_fmap, length_seqZ. lia. Qed.

Lemma total_len_nonneg ms : Forall seg_ok ms -> 0 <= total_len ms.
Proof. induction 1 as [|m ms [] _ IH]; simpl; lia. Qed.

(** The last segment of a non-empty chain. *)
Lemma seg_list_snoc h p l :
  seg_list h p l -> l <> [] ->
  exists l1 x m, l = l1 ++ [x] /\ h !! x = Some m /\ next m = NULL /\ x <> NULL.
Proof.
  revert p. induction l as [|y l IH]; intros p; [done|]. intros (-> & Hy & m & Hm & Hl) _.
  destruct l as [|z l].
  - exists [], y, m. done.
  - destruct (IH _ Hl ltac:(done)) as (l1 & x & mx & -> & Hx).
    exists (y :: l1), x, mx. done.
Qed.

Lemma lastseg_run fuel p l1 x s :
  seg_list (mbufs s) p (l1 ++ [x]) -> (length l1 < fuel)%nat ->
  rte_pktmbuf_lastseg fuel p s = (s, Ret x).
Proof.
  revert p l1. induction fuel as [|fuel IH]; intros p l1 Hl Hf; [lia|].
  unfold rte_pktmbuf_lastseg. simpl. destruct l1 as [|y l1]; simpl in Hl.
  - destruct Hl as (-> & Hx & m & Hm & Hn). unfold mbind, comp_bind.
    rewrite (load_ok _ _ _ Hm). by rewrite Hn.
  - destruct Hl as (-> & Hy & m & Hm & Hl). unfold mbind, comp_bind.
    rewrite (load_ok _ _ _ Hm). destruct (Z.eqb_spec (next m) NULL) as [Hn|Hn].
    + rewrite Hn in Hl. destruct l1; simpl in Hl; intuition congruence.
    + simpl. apply (IH (next m) l1); [done|simpl in Hf; lia].
Qed.

(** [rte_pktmbuf_lastseg] terminates on every chain and returns its last
    segment. *)
Theorem lastseg_correct fuel p l s :
  seg_list (mbufs s) p l -> l <> [] -> (length l <= fuel)%nat ->
  exists x, last l = Some x /\ rte_pktmbuf_lastseg fuel p s = (s, Ret x).
Proof.
  intros Hl Hne Hf. destruct (seg_list_snoc _ _ _ Hl Hne) as (l1 & x & m & -> & _).
  exists x. rewrite last_snoc. split; [done|]. rewrite length_app in Hf; simpl in Hf.
  apply (lastseg_run fuel p l1); [done|lia].
Qed.
End ChainLemmas.

(** ** Prepend, append, adjust, trim *)

Section DataOps.
Context {P : Type} `{!MempoolOps P}.
Implicit Types (s : store P) (h : gmap Z rte_mbuf) (m : rte_mbuf).

Definition with_mbuf (p : Z) (m : rte_mbuf) (s : store P) : store P :=
  s <| mbufs := <[p := m]> (mbufs s) |>.

(** The first segment of a well-formed packet. *)
Lemma pkt_ok_head h p l :
  pkt_ok h p l ->
  exists m l', l = p :: l' /\ h !! p = Some m /\ p <> NULL /\ seg_ok m /\ p ∉ l'
    /\ segs h l = m :: segs h l' /\ seg_list h (next m) l' /\ Forall seg_ok (segs h l')
    /\ pkt_len m = data_len m + total_len (segs h l') /\ pkt_len m < 2 ^ 32.
Proof.
  intros [Hc Hne Hnd Hok (m & Hm & _ & _ & Hlen & Hlt)].
  destruct l as [|x l']; [done|]. simpl in Hc. destruct Hc as (<- & Hp & m0 & Hm0 & Hl).
  assert (m0 = m) as -> by congruence. apply NoDup_cons in Hnd as [Hx _].
  rewrite (segs_cons _ _ _ _ Hm) in *. apply Forall_cons in Hok as [Hm' Hl'].
  exists m, l'. done.
Qed.

(** Replacing the first segment by one of another length. *)
Lemma pkt_ok_set_head h p l' m m' :
  pkt_ok h p (p :: l') -> h !! p = Some m -> next m' = next m -> nb_segs m' = nb_segs m ->
  seg_ok m' -> pkt_len m' = data_len m' + total_len (segs h l') -> pkt_len m' < 2 ^ 32 ->
  pkt_ok (<[p := m']> h) p (p :: l')
  /\ segs (<[p := m']> h) (p :: l') = m' :: segs h l'.
Proof.
  intros Hok Hm Hn Hnb Hm' Hlen Hlt.
  destruct (pkt_ok_head _ _ _ Hok) as (m0 & l0 & [= <-] & Hm0 & Hp & _ & Hnotin & _ & Hl & Hall & _).
  destruct Hok as [Hc _ Hnd _ (m1 & Hm1 & Hseg & Hseglt & _)].
  assert (m0 = m) as -> by congruence. assert (m1 = m) as -> by congruence.
  assert (segs (<[p := m']> h) (p :: l') = m' :: segs h l') as Hsegs.
  { rewrite (segs_cons _ _ _ m') by apply lookup_insert_eq. by rewrite segs_fresh. }
  split; [|done]. split; [|done|done| |].
  - by apply (seg_list_insert _ _ _ _ m).
  - rewrite Hsegs. by constructor.
  - exists m'. rewrite lookup_insert_eq, Hsegs. split_and!; try done; congruence.
Qed.

(** Moving the start of the data of the first segment by [k] bytes: [adj] for
    [k >= 0], [prepend] for [k <= 0]. *)
Definition shift_head (k : Z) (m : rte_mbuf) : rte_mbuf :=
  m <| data_off := data_off m + k |> <| data_len := data_len m - k |>
    <| pkt_len := pkt_len m - k |>.

Lemma shift_head_inv k m : shift_head (- k) (shift_head k m) = m.
Proof. destruct m; unfold shift_head; rset; f_equal; lia. Qed.

Lemma with_mbuf_undo p m m' s :
  mbufs s !! p = Some m -> with_mbuf p m (with_mbuf p m' s) = s.
Proof.
  intros H. unfold with_mbuf. destruct s; simpl in *. by rewrite insert_insert_eq, insert_id.
Qed.

Lemma shift_head_ok h p l m k :
  pkt_ok h p l -> h !! p = Some m -> - data_off m <= k <= data_len m -> pkt_len m - k < 2 ^ 32 ->
  exists l', l = p :: l' /\ seg_ok m /\ 0 <= pkt_len m - k
    /\ pkt_ok (<[p := shift_head k m]> h) p l
    /\ segs h l = m :: segs h l'
    /\ segs (<[p := shift_head k m]> h) l = shift_head k m :: segs h l'.
Proof.
  intros Hok Hm Hk Hlt.
  destruct (pkt_ok_head _ _ _ Hok) as (m0 & l' & -> & Hm0 & Hp & Hmok & Hnotin & Hsegs & Hl & Hall
    & Hplen & Hplt).
  assert (m0 = m) as -> by congruence.
  pose proof (total_len_nonneg _ Hall) as Htl. pose proof Hmok as [Ho Hd Hr Hb Ha].
  exists l'. destruct (pkt_ok_set_head _ _ _ _ (shift_head k m) Hok Hm) as [Hok' Hsegs'];
    try done; try (simpl; lia).
  { split; simpl; lia. }
  split_and!; try done. lia.
Qed.

Lemma adj_run p len m s :
  mbufs s !! p = Some m -> seg_ok m -> 0 <= len <= data_len m -> data_len m <= pkt_len m < 2 ^ 32 ->
  rte_pktmbuf_adj p len s
    = (with_mbuf p (shift_head len m) s, Ret (buf_addr m + data_off m + len)).
Proof.
  intros Hm [] Hlen Hp. unfold rte_pktmbuf_adj. rewrite (bind_ret _ _ _ _ _ (load_ok _ _ _ Hm)).
  destruct (Z.ltb_spec (data_len m) len); [lia|].
  rewrite (bind_ret _ _ _ _ _ (update_ok _ _ _ _ Hm)).
  rewrite !(wrap_small 16), !(wrap_small 32) by (unfold in_range; lia).
  change (m <| data_len := data_len m - len |> <| data_off := data_off m + len |>
            <| pkt_len := pkt_len m - len |>) with (shift_head len m).
  fold (with_mbuf p (shift_head len m) s).
  rewrite (bind_ret _ _ _ _ _ (load_ok p (shift_head len m) (with_mbuf p (shift_head len m) s)
             (lookup_insert_eq _ _ _))).
  unfold mret, comp_ret. simpl. rewrite wrap_small by (unfold in_range; lia). do 2 f_equal. lia.
Qed.

Lemma prepend_run p len m s :
  mbufs s !! p = Some m -> seg_ok m -> 0 <= len <= data_off m -> 0 <= pkt_len m ->
  pkt_len m + len < 2 ^ 32 ->
  rte_pktmbuf_prepend p len s
    = (with_mbuf p (shift_head (- len) m) s, Ret (buf_addr m + data_off m - len)).
Proof.
  intros Hm [] Hlen Hp Hp'. unfold rte_pktmbuf_prepend, rte_pktmbuf_headroom.
  rewrite (bind_ret _ _ _ _ _ (load_ok _ _ _ Hm)).
  destruct (Z.ltb_spec (data_off m) len); [lia|].
  rewrite (bind_ret _ _ _ _ _ (update_ok _ _ _ _ Hm)).
  rewrite !(wrap_small 16), !(wrap_small 32) by (unfold in_range; lia).
  replace (m <| data_off := data_off m - len |> <| data_len := data_len m + len |>
            <| pkt_len := pkt_len m + len |>) with (shift_head (- len) m)
    by (unfold shift_head; destruct m; rset; f_equal; lia).
  fold (with_mbuf p (shift_head (- len) m) s).
  rewrite (bind_ret _ _ _ _ _ (load_ok p (shift_head (- len) m)
             (with_mbuf p (shift_head (- len) m) s) (lookup_insert_eq _ _ _))).
  unfold mret, comp_ret. simpl. rewrite wrap_small by (unfold in_range; lia). do 2 f_equal. lia.
Qed.

(** [rte_pktmbuf_adj] removes [len] bytes from the front of the packet when
    the first segment holds that many, and otherwise returns NULL and changes
    nothing; a removed prefix can be put back with [rte_pktmbuf_prepend]. *)
Theorem adj_correct p l len s :
  pkt_ok (mbufs s) p l -> 0 <= len ->
  exists m, mbufs s !! p = Some m /\
  if data_len m <? len then rte_pktmbuf_adj p len s = (s, Ret NULL)
  else let s' := with_mbuf p (shift_head len m) s in
    rte_pktmbuf_adj p len s = (s', Ret (buf_addr m + data_off m + len))
    /\ pkt_ok (mbufs s') p l
    /\ pkt_bytes (mem s') (segs (mbufs s') l)
       = drop (Z.to_nat len) (pkt_bytes (mem s) (segs (mbufs s) l))
    /\ rte_pktmbuf_prepend p len s' = (s, Ret (buf_addr m + data_off m)).
Proof.
  intros Hok Hlen. destruct (pkt_ok_head _ _ _ Hok) as (m & l' & _ & Hm & _ & _ & _ & _ & _ & Hall
    & Hplen & Hlt).
  pose proof (total_len_nonneg _ Hall).
  exists m. split; [done|]. destruct (Z.ltb_spec (data_len m) len) as [Hgt|Hle].
  - unfold rte_pktmbuf_adj. rewrite (bind_ret _ _ _ _ _ (load_ok _ _ _ Hm)).
    by destruct (Z.ltb_spec (data_len m) len); [|lia].
  - destruct (shift_head_ok _ _ _ _ len Hok Hm) as (l2 & _ & Hmok & Hnn & Hok' & Hsegs & Hsegs');
      [destruct (pkt_ok_head _ _ _ Hok) as (? & ? & _ & ? & _ & [] & _); simplify_eq; lia|lia|].
    pose proof Hmok as [Ho Hd Hr Hb Ha]. split_and!.
    + apply adj_run; [done|done|lia|lia].
    + done.
    + change (mbufs (with_mbuf p (shift_head len m) s)) with (<[p := shift_head len m]> (mbufs s)).
      rewrite Hsegs, Hsegs'. unfold pkt_bytes. simpl. unfold seg_bytes. simpl.
      replace (data_len m) with (len + (data_len m - len)) at 2 by lia.
      rewrite range_bytes_app, <- app_assoc by lia.
      rewrite drop_app_length' by (rewrite length_range_bytes; lia). by rewrite Z.add_assoc.
    + rewrite (prepend_run p len (shift_head len m));
        [|apply lookup_insert_eq|split; simpl; lia|simpl; lia..].
      rewrite shift_head_inv, with_mbuf_undo by done. simpl. do 2 f_equal. lia.
Qed.

(** [rte_pktmbuf_prepend] adds [len] bytes of the headroom in front of the
    packet when the headroom is large enough, and otherwise returns NULL and
    changes nothing. *)
Theorem prepend_correct p l len s :
  pkt_ok (mbufs s) p l -> 0 <= len ->
  total_len (segs (mbufs s) l) + len < 2 ^ 32 ->
  exists m, mbufs s !! p = Some m /\
  if rte_pktmbuf_headroom m <? len then rte_pktmbuf_prepend p len s = (s, Ret NULL)
  else let s' := with_mbuf p (shift_head (- len) m) s in
    let new := buf_addr m + data_off m - len in
    rte_pktmbuf_prepend p len s = (s', Ret new)
    /\ pkt_ok (mbufs s') p l
    /\ pkt_bytes (mem s') (segs (mbufs s') l)
       = range_bytes (mem s) new len ++ pkt_bytes (mem s) (segs (mbufs s) l).
Proof.
  intros Hok Hlen Htot.
  destruct (pkt_ok_head _ _ _ Hok) as (m & l' & _ & Hm & _ & _ & _ & Hs1 & _ & Hall & Hplen & Hlt).
  pose proof (total_len_nonneg _ Hall). rewrite Hs1 in Htot. simpl in Htot.
  exists m. split; [done|]. destruct (Z.ltb_spec (rte_pktmbuf_headroom m) len) as [Hgt|Hle].
  - unfold rte_pktmbuf_prepend. rewrite (bind_ret _ _ _ _ _ (load_ok _ _ _ Hm)).
    by destruct (Z.ltb_spec (rte_pktmbuf_headroom m) len); [|lia].
  - unfold rte_pktmbuf_headroom in Hle.
    destruct (shift_head_ok _ _ _ _ (- len) Hok Hm) as (l2 & _ & Hmok & Hnn & Hok' & Hsegs & Hsegs');
      [destruct (pkt_ok_head _ _ _ Hok) as (? & ? & _ & ? & _ & [] & _); simplify_eq; lia|lia|].
    pose proof Hmok as [Ho Hd Hr Hb Ha]. split_and!.
    + apply prepend_run; [done|done|lia..].
    + done.
    + change (mbufs (with_mbuf p (shift_head (- len) m) s))
        with (<[p := shift_head (- len) m]> (mbufs s)).
      rewrite Hsegs, Hsegs'. unfold pkt_bytes. simpl. unfold seg_bytes. simpl.
      replace (data_len m - - len) with (len + data_len m) by lia.
      rewrite range_bytes_app, <- app_assoc by lia.
      replace (buf_addr m + (data_off m + - len) + len) with (buf_addr m + data_off m) by lia.
      by replace (buf_addr m + (data_off m + - len)) with (buf_addr m + data_off m - len) by lia.
Qed.
End DataOps.

(** ** Segments with the same data *)

(** Two structures that describe the same data: the equivalence up to which the
    contents of a packet are defined. *)
Definition seg_eqv (m m' : rte_mbuf) : Prop :=
  buf_addr m = buf_addr m' /\ data_off m = data_off m' /\ data_len m = data_len m'
  /\ buf_len m = buf_len m'.

#[export] Instance seg_eqv_equivalence : Equivalence seg_eqv.
Proof.
  split; unfold seg_eqv.
  - by intros x.
  - intros x y (-> & -> & -> & ->). done.
  - intros x y z (-> & -> & -> & ->) (-> & -> & -> & ->). done.
Qed.

#[export] Instance seg_ok_proper : Proper (seg_eqv ==> iff) seg_ok.
Proof.
  intros m m' (Ha & Ho & Hd & Hb).
  split; intros []; split; rewrite ?Ha, ?Ho, ?Hd, ?Hb in *; done.
Qed.

#[export] Instance seg_bytes_proper mm : Proper (seg_eqv ==> eq) (seg_bytes mm).
Proof. intros m m' (Ha & Ho & Hd & Hb). unfold seg_bytes. by rewrite Ha, Ho, Hd. Qed.

#[export] Instance pkt_bytes_proper mm : Proper (Forall2 seg_eqv ==> eq) (pkt_bytes mm).
Proof.
  intros l1 l2 H. unfold pkt_bytes. induction H as [|m m' l l' Hm _ IH]; [done|].
  rewrite !fmap_cons. simpl. by rewrite Hm, IH.
Qed.

#[export] Instance total_len_proper : Proper (Forall2 seg_eqv ==> eq) total_len.
Proof.
  intros l1 l2. induction 1 as [|m m' l l' (_ & _ & Hd & _) _ IH]; [done|].
  simpl. by rewrite Hd, IH.
Qed.

#[export] Instance segs_ok_proper : Proper (Forall2 seg_eqv ==> iff) (Forall seg_ok).
Proof.
  intros l1 l2. induction 1 as [|m m' l l' Hm _ IH]; [done|].
  by rewrite !Forall_cons, Hm, IH.
Qed.

Section Alter.
Implicit Types (h : gmap Z rte_mbuf) (f g : rte_mbuf -> rte_mbuf).

Lemma seg_list_alter h p l x f :
  (forall m, next (f m) = next m) -> seg_list h p l -> seg_list (alter f x h) p l.
Proof.
  intros Hf. revert p. induction l as [|y l IH]; intros p; [done|]. simpl.
  intros (-> & Hy & m & Hm & Hl). split_and!; [done..|]. destruct (decide (x = y)) as [->|Hne].
  - exists (f m). rewrite lookup_alter_eq, Hm, Hf. auto.
  - exists m. rewrite lookup_alter_ne by done. auto.
Qed.

Lemma segs_alter_fresh h l x f : x ∉ l -> segs (alter f x h) l = segs h l.
Proof.
  induction l as [|y l IH]; [done|]. intros [Hxy Hx]%not_elem_of_cons.
  rewrite !segs_step, lookup_alter_ne by done. by rewrite IH.
Qed.

Lemma segs_alter_eqv h l x f :
  (forall m, seg_eqv (f m) m) -> Forall2 seg_eqv (segs (alter f x h) l) (segs h l).
Proof.
  intros Hf. induction l as [|y l IH]; [constructor|]. rewrite !segs_step.
  destruct (decide (x = y)) as [->|Hne].
  - rewrite lookup_alter_eq. destruct (h !! y); simpl; [|done]. by constructor.
  - rewrite lookup_alter_ne by done. destruct (h !! y); [|done]. by constructor.
Qed.

Lemma alter_insert h x f m : h !! x = Some m -> alter f x h = <[x := f m]> h.
Proof.
  intros H. apply map_eq. intros i. destruct (decide (x = i)) as [->|Hne].
  - by rewrite lookup_alter_eq, lookup_insert_eq, H.
  - by rewrite lookup_alter_ne, lookup_insert_ne.
Qed.
End Alter.

(** ** Append and trim *)

Section TailOps.
Context {P : Type} `{!MempoolOps P}.
Implicit Types (s : store P) (h : gmap Z rte_mbuf) (m : rte_mbuf).

Definition set_mbufs (h : gmap Z rte_mbuf) (s : store P) : store P := s <| mbufs := h |>.

Lemma update_alter p f g m s :
  mbufs s !! p = Some m -> f m = g m ->
  update p f s = (set_mbufs (alter g p (mbufs s)) s, Ret tt).
Proof.
  intros Hm Hfg. rewrite (update_ok _ _ _ _ Hm), Hfg. unfold set_mbufs.
  by rewrite (alter_insert _ _ _ _ Hm).
Qed.

Definition grow_seg (k : Z) (m : rte_mbuf) : rte_mbuf := m <| data_len := data_len m + k |>.
Definition grow_pkt (k : Z) (m : rte_mbuf) : rte_mbuf := m <| pkt_len := pkt_len m + k |>.
(** The last segment [x] of packet [p] grows by [k] bytes (shrinks if negative). *)
Definition resize_tail (p x k : Z) (s : store P) : store P :=
  set_mbufs (alter (grow_pkt k) p (alter (grow_seg k) x (mbufs s))) s.

Lemma pkt_ok_last h p l :
  pkt_ok h p l -> exists l1 x m, l = l1 ++ [x] /\ h !! x = Some m /\ seg_ok m
    /\ next m = NULL /\ segs h l = segs h l1 ++ [m] /\ Forall seg_ok (segs h l1).
Proof.
  intros [Hc Hne Hnd Hall _]. destruct (seg_list_snoc _ _ _ Hc Hne) as (l1 & x & m & -> & Hm & Hn & _).
  assert (segs h (l1 ++ [x]) = segs h l1 ++ [m]) as Hs
    by (rewrite segs_app; by rewrite (segs_cons _ _ _ _ Hm)).
  rewrite Hs in Hall. apply Forall_app in Hall as [Hl1 Hx]. apply Forall_cons in Hx as [Hx _].
  by exists l1, x, m.
Qed.

(** The packet after its last segment has changed its length. *)
Lemma resize_tail_ok s p l1 x m k :
  pkt_ok (mbufs s) p (l1 ++ [x]) -> mbufs s !! x = Some m ->
  seg_ok (grow_seg k m) -> total_len (segs (mbufs s) (l1 ++ [x])) + k < 2 ^ 32 ->
  pkt_ok (mbufs (resize_tail p x k s)) p (l1 ++ [x])
  /\ pkt_bytes (mem s) (segs (mbufs (resize_tail p x k s)) (l1 ++ [x]))
     = pkt_bytes (mem s) (segs (mbufs s) l1) ++ seg_bytes (mem s) (grow_seg k m).
Proof.
  intros [Hc Hne Hnd Hall (mp & Hmp & Hnb & Hnblt & Hlen & Hlt)] Hm Hok Htot.
  set (h1 := alter (grow_seg k) x (mbufs s)).
  assert (segs h1 (l1 ++ [x]) = segs (mbufs s) l1 ++ [grow_seg k m]) as Hs1.
  { rewrite segs_app. apply NoDup_app in Hnd as (_ & Hd & _). unfold h1. f_equal.
    - apply segs_alter_fresh. intros Hin. apply (Hd x Hin). by constructor.
    - unfold segs. simpl. rewrite lookup_alter_eq, Hm. done. }
  assert (Forall2 seg_eqv (segs (mbufs (resize_tail p x k s)) (l1 ++ [x])) (segs h1 (l1 ++ [x])))
    as Heqv by (apply segs_alter_eqv; done).
  assert (segs (mbufs s) (l1 ++ [x]) = segs (mbufs s) l1 ++ [m]) as Hs
    by (rewrite segs_app; by rewrite (segs_cons _ _ _ _ Hm)).
  rewrite Hs, total_len_app in *. simpl in Htot, Hlen.
  assert (exists mp1, h1 !! p = Some mp1 /\ nb_segs mp1 = nb_segs mp /\ pkt_len mp1 = pkt_len mp)
    as (mp1 & Hmp1 & Hn1 & Hp1).
  { unfold h1. destruct (decide (x = p)) as [->|Hxp].
    - exists (grow_seg k mp). by rewrite lookup_alter_eq, Hmp.
    - exists mp. by rewrite lookup_alter_ne. }
  split.
  - split; [|done|done| |].
    + by do 2 (apply seg_list_alter; [done|]).
    + rewrite Heqv, Hs1. apply Forall_app in Hall as [Hl1 _]. apply Forall_app_2; [done|].
      by apply Forall_singleton.
    + exists (grow_pkt k mp1). split.
      { unfold resize_tail, set_mbufs. simpl. fold h1. by rewrite lookup_alter_eq, Hmp1. }
      rewrite Heqv, Hs1, total_len_app. simpl. lia.
  - rewrite Heqv, Hs1, pkt_bytes_app. unfold pkt_bytes at 2. simpl. by rewrite app_nil_r.
Qed.

(** The two updates that [rte_pktmbuf_append] and [rte_pktmbuf_trim] share. *)
Lemma resize_run s p x m mp k fx fp :
  mbufs s !! x = Some m -> mbufs s !! p = Some mp ->
  (fx m = grow_seg k m) -> (forall y, pkt_len y = pkt_len mp -> fp y = grow_pkt k y) ->
  (update x fx ;; update p fp) s = (resize_tail p x k s, Ret tt).
Proof.
  intros Hm Hmp Hfx Hfp.
  rewrite (bind_ret _ _ _ _ _ (update_alter x fx (grow_seg k) m s Hm Hfx)).
  destruct (decide (x = p)) as [->|Hne].
  - assert (m = mp) as -> by congruence.
    rewrite (update_alter p fp (grow_pkt k) (grow_seg k mp)); [done| |by apply Hfp].
    simpl. by rewrite lookup_alter_eq, Hm.
  - rewrite (update_alter p fp (grow_pkt k) mp); [done| |by apply Hfp].
    simpl. by rewrite lookup_alter_ne.
Qed.

Lemma tailroom_ok m : seg_ok m -> rte_pktmbuf_tailroom m = buf_len m - data_off m - data_len m.
Proof.
  intros []. unfold rte_pktmbuf_tailroom, rte_pktmbuf_headroom. apply wrap_small.
  unfold in_range. lia.
Qed.

Lemma resize_tail_inv p x k s : resize_tail p x (- k) (resize_tail p x k s) = s.
Proof.
  unfold resize_tail, set_mbufs. destruct s as [h si mm po fr].
  unfold RecordSettersUsingExistingGetters.set. simpl. f_equal.
  apply map_eq. intros i.
  assert (forall y, grow_pkt (- k) (grow_pkt k y) = y) as Hp
    by (intros []; unfold grow_pkt; rset; f_equal; lia).
  assert (forall y, grow_seg (- k) (grow_seg k y) = y) as Hs
    by (intros []; unfold grow_seg; rset; f_equal; lia).
  assert (forall y, grow_seg (- k) (grow_pkt k y) = grow_pkt k (grow_seg (- k) y)) as Hc
    by (intros []; reflexivity).
  destruct (decide (p = i)) as [->|Hpi]; destruct (decide (x = i)) as [->|Hxi];
    repeat first [rewrite lookup_alter_eq | rewrite lookup_alter_ne by done];
    destruct (h !! i) as [y|]; simpl; rewrite ?Hc, ?Hs, ?Hp; done.
Qed.

Lemma pkt_len_bound h p l m :
  pkt_ok h p l -> h !! p = Some m -> pkt_len m = total_len (segs h l) /\ 0 <= pkt_len m < 2 ^ 32.
Proof.
  intros [_ _ _ Hall (m' & Hm' & _ & _ & Hl & Hlt)] Hm. assert (m' = m) as -> by congruence.
  pose proof (total_len_nonneg _ Hall). lia.
Qed.

Lemma trim_run fuel p l1 x m len s :
  pkt_ok (mbufs s) p (l1 ++ [x]) -> mbufs s !! x = Some m -> seg_ok m ->
  0 <= len <= data_len m -> (length l1 < fuel)%nat ->
  rte_pktmbuf_trim fuel p len s = (resize_tail p x (- len) s, Ret 0).
Proof.
  intros Hok Hm Hmok Hlen Hf. pose proof Hok as [Hc Hne Hnd Hall (mp & Hmp & _)].
  destruct (pkt_len_bound _ _ _ _ Hok Hmp) as [Hpl Hpb]. destruct Hmok.
  rewrite segs_app, (segs_cons _ _ _ _ Hm), total_len_app in Hpl. simpl in Hpl.
  rewrite segs_app in Hall. apply Forall_app in Hall as [Hl1 _].
  pose proof (total_len_nonneg _ Hl1).
  unfold rte_pktmbuf_trim. rewrite (bind_ret _ _ _ _ _ (lastseg_run _ _ _ _ _ Hc Hf)).
  rewrite (bind_ret _ _ _ _ _ (load_ok _ _ _ Hm)).
  destruct (Z.ltb_spec (data_len m) len); [lia|].
  rewrite <- bind_assoc. erewrite bind_ret; [done|]. apply (resize_run _ _ _ m mp); [done..| |].
  - unfold grow_seg. rewrite wrap_small by (unfold in_range; lia). f_equal.
  - intros y Hy. unfold grow_pkt. rewrite wrap_small by (unfold in_range; lia). f_equal.
Qed.

Lemma append_run fuel p l1 x m len s :
  pkt_ok (mbufs s) p (l1 ++ [x]) -> mbufs s !! x = Some m -> seg_ok m ->
  0 <= len <= buf_len m - data_off m - data_len m -> (length l1 < fuel)%nat ->
  total_len (segs (mbufs s) (l1 ++ [x])) + len < 2 ^ 32 ->
  rte_pktmbuf_append fuel p len s
    = (resize_tail p x len s, Ret (buf_addr m + data_off m + data_len m)).
Proof.
  intros Hok Hm Hmok Hlen Hf Htot. pose proof Hok as [Hc Hne Hnd Hall (mp & Hmp & _)].
  destruct (pkt_len_bound _ _ _ _ Hok Hmp) as [Hpl Hpb].
  unfold rte_pktmbuf_append. rewrite (bind_ret _ _ _ _ _ (lastseg_run _ _ _ _ _ Hc Hf)).
  rewrite (bind_ret _ _ _ _ _ (load_ok _ _ _ Hm)), tailroom_ok by done. destruct Hmok.
  destruct (Z.ltb_spec (buf_len m - data_off m - data_len m) len); [lia|].
  rewrite <- bind_assoc. erewrite bind_ret.
  - unfold mret, comp_ret. rewrite wrap_small by (unfold in_range; lia). done.
  - apply (resize_run _ _ _ m mp); [done..| |].
    + unfold grow_seg. by rewrite wrap_small by (unfold in_range; lia).
    + intros y Hy. unfold grow_pkt. by rewrite wrap_small by (unfold in_range; lia).
Qed.

(** [rte_pktmbuf_append] adds [len] bytes of the tailroom of the last
    segment at the end of the packet when it is large enough, and otherwise
    returns NULL and changes nothing; [rte_pktmbuf_trim] undoes it. *)
Theorem append_correct fuel p l len s :
  pkt_ok (mbufs s) p l -> 0 <= len -> total_len (segs (mbufs s) l) + len < 2 ^ 32 ->
  (length l <= fuel)%nat ->
  exists x m, last l = Some x /\ mbufs s !! x = Some m /\
  if rte_pktmbuf_tailroom m <? len then rte_pktmbuf_append fuel p len s = (s, Ret NULL)
  else let s' := resize_tail p x len s in
    let tail := buf_addr m + data_off m + data_len m in
    rte_pktmbuf_append fuel p len s = (s', Ret tail)
    /\ pkt_ok (mbufs s') p l
    /\ pkt_bytes (mem s') (segs (mbufs s') l)
       = pkt_bytes (mem s) (segs (mbufs s) l) ++ range_bytes (mem s) tail len
    /\ rte_pktmbuf_trim fuel p len s' = (s, Ret 0).
Proof.
  intros Hok Hlen Htot Hf.
  destruct (pkt_ok_last _ _ _ Hok) as (l1 & x & m & -> & Hm & Hmok & Hn & Hs & Hl1).
  pose proof Hok as [Hc _ Hnd _ _].
  rewrite length_app in Hf. simpl in Hf. exists x, m. rewrite last_snoc. split_and!; [done..|].
  destruct (Z.ltb_spec (rte_pktmbuf_tailroom m) len) as [Hgt|Hle].
  { unfold rte_pktmbuf_append. rewrite (bind_ret _ _ _ _ _ (lastseg_run fuel _ _ _ _ Hc ltac:(lia))).
    rewrite (bind_ret _ _ _ _ _ (load_ok _ _ _ Hm)).
    by destruct (Z.ltb_spec (rte_pktmbuf_tailroom m) len); [|lia]. }
  rewrite tailroom_ok in Hle by done. pose proof Hmok as [].
  destruct (resize_tail_ok s p l1 x m len Hok Hm) as [Hok' Hb]; [split; simpl; lia|done|].
  split_and!.
  - apply (append_run fuel p l1 x m); [done|done|done|lia|lia|done].
  - done.
  - change (mem (resize_tail p x len s)) with (mem s).
    rewrite Hb, Hs, pkt_bytes_app, <- app_assoc. f_equal. unfold pkt_bytes, seg_bytes. simpl.
    rewrite !app_nil_r. by rewrite range_bytes_app by lia.
  - assert (exists m', mbufs (resize_tail p x len s) !! x = Some m' /\ seg_eqv m' (grow_seg len m))
      as (m' & Hm' & Heqv).
    { unfold resize_tail, set_mbufs. simpl. destruct (decide (p = x)) as [->|Hpx].
      - rewrite !lookup_alter_eq, Hm. by eexists.
      - rewrite lookup_alter_ne, lookup_alter_eq, Hm by done. by eexists. }
    rewrite (trim_run fuel p l1 x m'); [by rewrite resize_tail_inv|done|done| | |lia].
    + rewrite Heqv. split; simpl; lia.
    + destruct Heqv as (_ & _ & -> & _). simpl. lia.
Qed.

(** [rte_pktmbuf_trim] removes [len] bytes from the end of the packet when
    the last segment holds that many, and otherwise returns -1 and changes
    nothing. *)
Theorem trim_correct fuel p l len s :
  pkt_ok (mbufs s) p l -> 0 <= len -> (length l <= fuel)%nat ->
  exists x m, last l = Some x /\ mbufs s !! x = Some m /\
  if data_len m <? len then rte_pktmbuf_trim fuel p len s = (s, Ret (-1))
  else let s' := resize_tail p x (- len) s in
    rte_pktmbuf_trim fuel p len s = (s', Ret 0)
    /\ pkt_ok (mbufs s') p l
    /\ exists cut, Z.of_nat (length cut) = len
       /\ pkt_bytes (mem s) (segs (mbufs s) l) = pkt_bytes (mem s') (segs (mbufs s') l) ++ cut.
Proof.
  intros Hok Hlen Hf.
  destruct (pkt_ok_last _ _ _ Hok) as (l1 & x & m & -> & Hm & Hmok & Hn & Hs & Hl1).
  pose proof Hok as [Hc _ Hnd _ (mp & Hmp & _)]. pose proof (pkt_len_bound _ _ _ _ Hok Hmp).
  rewrite length_app in Hf. simpl in Hf. exists x, m. rewrite last_snoc. split_and!; [done..|].
  destruct (Z.ltb_spec (data_len m) len) as [Hgt|Hle].
  { unfold rte_pktmbuf_trim. rewrite (bind_ret _ _ _ _ _ (lastseg_run fuel _ _ _ _ Hc ltac:(lia))).
    rewrite (bind_ret _ _ _ _ _ (load_ok _ _ _ Hm)).
    by destruct (Z.ltb_spec (data_len m) len); [|lia]. }
  pose proof Hmok as []. destruct (resize_tail_ok s p l1 x m (- len) Hok Hm) as [Hok' Hb];
    [split; simpl; lia|lia|].
  split_and!.
  - apply (trim_run fuel p l1 x m); [done..|lia|lia].
  - done.
  - set (cut := range_bytes (mem s) (buf_addr m + data_off m + (data_len m - len)) len).
    exists cut. split; [unfold cut; rewrite length_range_bytes by lia; lia|].
    change (mem (resize_tail p x (- len) s)) with (mem s).
    rewrite Hb, Hs, pkt_bytes_app, <- app_assoc. f_equal. unfold pkt_bytes, seg_bytes. simpl.
    rewrite !app_nil_r. replace (data_len m + - len) with (data_len m - len) by lia.
    unfold cut. rewrite <- range_bytes_app by lia. f_equal; lia.
Qed.
End TailOps.

(** ** Instances *)

Lemma example_pkt_ok : pkt_ok (mbufs example_store) 4096 [4096; 8192].
Proof.
  split.
  - simpl. split_and!; [done|done|]. eexists. split; [reflexivity|].
    split_and!; [done|done|]. eexists. split; reflexivity.
  - done.
  - apply (bool_decide_unpack _). by vm_compute.
  - change (segs (mbufs example_store) [4096; 8192])
      with [example_mbuf 4096 832 10 2 30 8192 1; example_mbuf 8192 100 20 1 20 0 1].
    repeat constructor; simpl; lia.
  - eexists. split; [reflexivity|]. split_and!; reflexivity.
Qed.

Example lastseg_correct_witness :
  rte_pktmbuf_lastseg 2 4096 example_store = (example_store, Ret 8192).
Proof.
  destruct (lastseg_correct 2 4096 [4096; 8192] example_store) as (x & Hx & Hrun);
    [apply example_pkt_ok|done|simpl; lia|]. injection Hx as <-. exact Hrun.
Defined.

Example adj_correct_witness :
  exists s', rte_pktmbuf_adj 4096 4 example_store = (s', Ret 5060)
    /\ rte_pktmbuf_prepend 4096 4 s' = (example_store, Ret 5056).
Proof.
  destruct (adj_correct 4096 [4096; 8192] 4 example_store example_pkt_ok) as (m & Hm & H); [lia|].
  injection Hm as <-. destruct H as (Hrun & _ & _ & Hback). eexists. split; [exact Hrun|exact Hback].
Defined.

Example prepend_correct_witness :
  exists s', rte_pktmbuf_prepend 4096 32 example_store = (s', Ret 5024).
Proof.
  destruct (prepend_correct 4096 [4096; 8192] 32 example_store example_pkt_ok) as (m & Hm & H);
    [lia|vm_compute; reflexivity|].
  injection Hm as <-. destruct H as (Hrun & _). eexists. exact Hrun.
Defined.

Example append_correct_witness :
  exists s', rte_pktmbuf_append 2 4096 60 example_store = (s', Ret 8440)
    /\ rte_pktmbuf_trim 2 4096 60 s' = (example_store, Ret 0).
Proof.
  destruct (append_correct 2 4096 [4096; 8192] 60 example_store example_pkt_ok)
    as (x & m & Hx & Hm & H); [lia|vm_compute; reflexivity|simpl; lia|].
  injection Hx as <-. injection Hm as <-. destruct H as (Hrun & _ & _ & Hback).
  eexists. split; [exact Hrun|exact Hback].
Defined.

Example trim_correct_witness :
  rte_pktmbuf_trim 2 4096 21 example_store = (example_store, Ret (-1)).
Proof.
  destruct (trim_correct 2 4096 [4096; 8192] 21 example_store example_pkt_ok)
    as (x & m & Hx & Hm & H); [lia|simpl; lia|].
  injection Hx as <-. injection Hm as <-. exact H.
Defined.
