(* ===== verification/MbufChain.v ===== *)
(** * Chains of packet buffers

    Joining two packets, reading across segments, and the life cycle of the
    structures: freeing a chain and the reference counts of indirect buffers. *)

From S2P Require Import Prelude Effects Bytes Mbuf MbufData.

(** ** Joining two packets *)

Section Chain.
Context {P : Type} `{!MempoolOps P}.
Implicit Types (s : store P) (h : gmap Z rte_mbuf) (m : rte_mbuf).

Lemma seg_list_head h p l : seg_list h p l -> l <> [] -> exists l', l = p :: l'.
Proof. destruct l; [done|]. simpl. intros (-> & _) _. eauto. Qed.

(** Linking the last segment [x] of a chain to the chain [l2]. *)
Lemma seg_list_link h p l0 x l2 t :
  seg_list h p (l0 ++ [x]) -> seg_list h t l2 -> x ∉ l0 -> x ∉ l2 ->
  seg_list (alter (fun m => m <| next := t |>) x h) p (l0 ++ x :: l2).
Proof.
  intros Hc Ht Hx0 Hx2. revert p Hc. induction l0 as [|y l0 IH]; intros p; simpl.
  - intros (-> & Hx & m & Hm & _). split_and!; [done..|].
    exists (m <| next := t |>). rewrite lookup_alter_eq, Hm. split; [done|]. simpl.
    clear Hx0 Hm. revert t Ht. induction l2 as [|z l2 IH2]; intros t; [done|].
    apply not_elem_of_cons in Hx2 as [Hxz Hx2]. simpl. intros (-> & Hz & mz & Hmz & Hl).
    split_and!; [done..|]. exists mz. rewrite lookup_alter_ne by done. split; [done|].
    clear IH2. revert Hl. generalize (next mz). clear - Hx2. induction l2 as [|w l2 IH]; [done|].
    apply not_elem_of_cons in Hx2 as [Hxw Hx2]. simpl.
    intros q (-> & Hw & mw & Hmw & Hl). split_and!; [done..|]. exists mw.
    rewrite lookup_alter_ne by done. auto.
  - apply not_elem_of_cons in Hx0 as [Hxy Hx0]. intros (-> & Hy & m & Hm & Hl).
    split_and!; [done..|]. exists m. rewrite lookup_alter_ne by done. auto.
Qed.

Lemma segs_alter3_eqv h l x y z f g k :
  (forall m, seg_eqv (f m) m) -> (forall m, seg_eqv (g m) m) -> (forall m, seg_eqv (k m) m) ->
  Forall2 seg_eqv (segs (alter k z (alter g y (alter f x h))) l) (segs h l).
Proof.
  intros Hf Hg Hk. etrans; [by apply segs_alter_eqv|]. etrans; [by apply segs_alter_eqv|].
  by apply segs_alter_eqv.
Qed.

(** The store after a successful [rte_pktmbuf_chain]. *)
Definition chained (head tail x : Z) (t : rte_mbuf) (s : store P) : store P :=
  set_mbufs (alter (fun m => m <| pkt_len := data_len m |>) tail
    (alter (fun m => m <| nb_segs := nb_segs m + nb_segs t |>
                       <| pkt_len := pkt_len m + pkt_len t |>) head
      (alter (fun m => m <| next := tail |>) x (mbufs s)))) s.

Lemma chain_run fuel head tail l0 x l2 s mh mt :
  pkt_ok (mbufs s) head (l0 ++ [x]) -> pkt_ok (mbufs s) tail l2 ->
  (forall y, y ∈ l0 ++ [x] -> y ∉ l2) -> (length l0 < fuel)%nat ->
  mbufs s !! head = Some mh -> mbufs s !! tail = Some mt ->
  nb_segs mh + nb_segs mt <= RTE_MBUF_MAX_NB_SEGS -> pkt_len mh + pkt_len mt < 2 ^ 32 ->
  rte_pktmbuf_chain fuel head tail s = (chained head tail x mt s, Ret 0).
Proof.
  intros Hok1 Hok2 Hdis Hf Hmh Hmt Hnb Hlen. unfold RTE_MBUF_MAX_NB_SEGS in Hnb.
  destruct (pkt_ok_last _ _ _ Hok1) as (? & ? & mx & Heq & Hmx & _).
  apply app_inj_tail in Heq as [<- <-].
  destruct (seg_list_head _ _ _ (pkt_chain _ _ _ Hok1) ltac:(by destruct l0)) as [l1' El1].
  destruct (seg_list_head _ _ _ (pkt_chain _ _ _ Hok2) (pkt_nonempty _ _ _ Hok2)) as [l2' ->].
  assert (head <> tail) as Hht by (intros ->; apply (Hdis tail); [rewrite El1|]; by constructor).
  assert (x <> tail) as Hxt
    by (intros ->; apply (Hdis tail); [apply elem_of_app; right|]; by constructor).
  pose proof (pkt_len_bound _ _ _ _ Hok1 Hmh) as [_ Hb1].
  pose proof (pkt_len_bound _ _ _ _ Hok2 Hmt) as [_ Hb2].
  destruct (pkt_head _ _ _ Hok1) as (? & ? & Hn1 & _).
  destruct (pkt_head _ _ _ Hok2) as (? & ? & Hn2 & _). simplify_eq.
  unfold rte_pktmbuf_chain. rewrite (bind_ret _ _ _ _ _ (load_ok _ _ _ Hmh)).
  rewrite (bind_ret _ _ _ _ _ (load_ok _ _ _ Hmt)).
  destruct (Z.ltb_spec RTE_MBUF_MAX_NB_SEGS (nb_segs mh + nb_segs mt));
    [unfold RTE_MBUF_MAX_NB_SEGS in *; lia|].
  rewrite (bind_ret _ _ _ _ _ (lastseg_run _ _ _ _ _ (pkt_chain _ _ _ Hok1) Hf)).
  rewrite (bind_ret _ _ _ _ _ (update_alter x _ (fun m => m <| next := tail |>) mx s Hmx eq_refl)).
  set (s1 := set_mbufs _ s).
  assert (mbufs s1 !! tail = Some mt) as Hmt1 by (simpl; by rewrite lookup_alter_ne).
  rewrite (bind_ret _ _ _ _ _ (load_ok _ _ _ Hmt1)).
  assert (exists mh1, mbufs s1 !! head = Some mh1 /\ nb_segs mh1 = nb_segs mh
    /\ pkt_len mh1 = pkt_len mh) as (mh1 & Hmh1 & En & Ep).
  { simpl. destruct (decide (x = head)) as [->|Hxh].
    - rewrite lookup_alter_eq, Hmh. by eexists.
    - rewrite lookup_alter_ne by done. by eexists. }
  erewrite bind_ret; [|apply (update_alter head _ (fun m =>
    m <| nb_segs := nb_segs m + nb_segs mt |> <| pkt_len := pkt_len m + pkt_len mt |>) mh1 s1 Hmh1);
    by rewrite !wrap_small by (unfold in_range; simpl; lia)].
  set (s2 := set_mbufs _ s1).
  assert (mbufs s2 !! tail = Some mt) as Hmt2 by (simpl; by rewrite !lookup_alter_ne).
  by rewrite (bind_ret _ _ _ _ _ (update_alter tail _ (fun m => m <| pkt_len := data_len m |>) mt s2
    Hmt2 eq_refl)).
Qed.

(** C13. [rte_pktmbuf_chain] joins two disjoint packets: the result is
    well-formed, its segments and its bytes are those of the head followed by
    those of the tail; with more than 65535 segments it returns -EOVERFLOW and
    changes nothing. *)
Theorem chain_correct fuel head tail l1 l2 s :
  pkt_ok (mbufs s) head l1 -> pkt_ok (mbufs s) tail l2 -> (forall y, y ∈ l1 -> y ∉ l2) ->
  total_len (segs (mbufs s) l1) + total_len (segs (mbufs s) l2) < 2 ^ 32 ->
  (length l1 <= fuel)%nat ->
  if RTE_MBUF_MAX_NB_SEGS <? Z.of_nat (length l1) + Z.of_nat (length l2)
  then rte_pktmbuf_chain fuel head tail s = (s, Ret (- EOVERFLOW))
  else exists s', rte_pktmbuf_chain fuel head tail s = (s', Ret 0)
    /\ mem s' = mem s /\ pkt_ok (mbufs s') head (l1 ++ l2)
    /\ pkt_bytes (mem s') (segs (mbufs s') (l1 ++ l2))
       = pkt_bytes (mem s) (segs (mbufs s) l1) ++ pkt_bytes (mem s) (segs (mbufs s) l2).
Proof.
  intros Hok1 Hok2 Hdis Htot Hf.
  destruct (pkt_head _ _ _ Hok1) as (mh & Hmh & Hn1 & Hb1 & Hp1 & _).
  destruct (pkt_head _ _ _ Hok2) as (mt & Hmt & Hn2 & Hb2 & Hp2 & _).
  destruct (Z.ltb_spec RTE_MBUF_MAX_NB_SEGS (Z.of_nat (length l1) + Z.of_nat (length l2))) as [Hgt|Hle].
  { unfold rte_pktmbuf_chain. rewrite (bind_ret _ _ _ _ _ (load_ok _ _ _ Hmh)).
    rewrite (bind_ret _ _ _ _ _ (load_ok _ _ _ Hmt)).
    by destruct (Z.ltb_spec RTE_MBUF_MAX_NB_SEGS (nb_segs mh + nb_segs mt)); [|lia]. }
  destruct (pkt_ok_last _ _ _ Hok1) as (l0 & x & mx & -> & Hmx & _).
  exists (chained head tail x mt s). rewrite length_app in Hf. simpl in Hf.
  split_and!; [apply (chain_run fuel _ _ l0 x l2 s mh); try done; lia|done| |].
  - pose proof Hok1 as [Hc1 Hne1 Hnd1 Hall1 _]. pose proof Hok2 as [Hc2 _ Hnd2 Hall2 _].
    apply NoDup_app in Hnd1 as (Hnd0 & Hx0 & _).
    assert (Forall2 seg_eqv (segs (mbufs (chained head tail x mt s)) ((l0 ++ [x]) ++ l2))
              (segs (mbufs s) ((l0 ++ [x]) ++ l2))) as Heqv by (by apply segs_alter3_eqv).
    split.
    + do 2 (apply seg_list_alter; [done|]). rewrite <- app_assoc.
      apply seg_list_link; [done..| |].
      * intros Hin. apply (Hx0 x Hin). by constructor.
      * apply Hdis, elem_of_app. right. by constructor.
    + by destruct l0.
    + apply NoDup_app. split_and!; [by apply (pkt_nodup _ _ _ Hok1)|done|done].
    + rewrite Heqv, segs_app. by apply Forall_app_2.
    + assert (head <> tail) as Hht.
      { intros ->. destruct (seg_list_head _ _ _ Hc1 Hne1) as [? El].
        destruct (seg_list_head _ _ _ Hc2 (pkt_nonempty _ _ _ Hok2)) as [? ->].
        apply (Hdis tail); [rewrite El|]; by constructor. }
      assert (exists mh1, alter (fun m => m <| next := tail |>) x (mbufs s) !! head = Some mh1
        /\ nb_segs mh1 = nb_segs mh /\ pkt_len mh1 = pkt_len mh) as (mh1 & Hmh1 & En & Ep).
      { destruct (decide (x = head)) as [->|Hxh].
        - rewrite lookup_alter_eq, Hmh. by eexists.
        - rewrite lookup_alter_ne by done. by eexists. }
      eexists. split.
      { simpl. rewrite lookup_alter_ne, lookup_alter_eq, Hmh1 by done. reflexivity. }
      rewrite Heqv, segs_app, total_len_app. simpl. rewrite En, Ep, !length_app in *.
      unfold RTE_MBUF_MAX_NB_SEGS in *. simpl in *. lia.
  - change (mem (chained head tail x mt s)) with (mem s). rewrite <- pkt_bytes_app, <- segs_app.
    apply pkt_bytes_proper. by apply segs_alter3_eqv.
Qed.
End Chain.

(** ** Reading across segments *)

Section Read.
Context {P : Type} `{!MempoolOps P}.
Implicit Types (s : store P) (h : gmap Z rte_mbuf) (m : rte_mbuf).

(** The buffer [[buf, buf + n)] is apart from the data of [m]. *)
Definition apart (buf n : Z) (m : rte_mbuf) : Prop :=
  buf + n <= buf_addr m + data_off m \/ buf_addr m + data_off m + data_len m <= buf.

Lemma pkt_bytes_frame mm mm' buf n ms :
  (forall x, ~ (buf <= x < buf + n) -> mm' x = mm x) -> Forall (apart buf n) ms ->
  pkt_bytes mm' ms = pkt_bytes mm ms.
Proof.
  intros Hmm. unfold pkt_bytes. induction 1 as [|m ms Hm _ IH]; [done|].
  rewrite !fmap_cons. simpl. rewrite IH. f_equal. apply range_bytes_ext. intros x Hx.
  apply Hmm. destruct Hm; lia.
Qed.

Lemma length_pkt_bytes mm ms :
  Forall seg_ok ms -> Z.of_nat (length (pkt_bytes mm ms)) = total_len ms.
Proof.
  unfold pkt_bytes. induction 1 as [|m ms [] _ IH]; [done|].
  rewrite fmap_cons. simpl. rewrite length_app, Nat2Z.inj_add, length_seg_bytes by lia. lia.
Qed.

(** Reading within the segment at the head of the list. *)
Lemma sub_seg mm m ms off len :
  seg_ok m -> 0 <= off -> 0 <= len -> off + len <= data_len m ->
  take (Z.to_nat len) (drop (Z.to_nat off) (pkt_bytes mm (m :: ms)))
  = range_bytes mm (buf_addr m + data_off m + off) len.
Proof.
  intros [] Ho Hl Hol. unfold pkt_bytes. rewrite fmap_cons. simpl.
  pose proof (length_seg_bytes mm m ltac:(done)).
  rewrite drop_app_le, take_app_le by (rewrite ?length_drop; lia). by apply sub_range.
Qed.

Lemma read_seek_step fuel y off m s :
  mbufs s !! y = Some m ->
  read_seek (S fuel) (y, off) s
  = if data_len m <=? off then read_seek fuel (next m, off -[32] data_len m) s
    else (s, Ret (y, off)).
Proof.
  intros Hm. unfold read_seek. simpl. rewrite bind_assoc, (bind_ret _ _ _ _ _ (load_ok _ _ _ Hm)).
  by destruct (data_len m <=? off).
Qed.

Lemma read_seek_run fuel p l off s :
  seg_list (mbufs s) p l -> Forall seg_ok (segs (mbufs s) l) ->
  0 <= off < total_len (segs (mbufs s) l) -> off < 2 ^ 32 -> (length l <= fuel)%nat ->
  exists l0 x l2 m off', l = l0 ++ x :: l2 /\ mbufs s !! x = Some m
    /\ seg_list (mbufs s) x (x :: l2)
    /\ off = total_len (segs (mbufs s) l0) + off' /\ 0 <= off' < data_len m
    /\ read_seek fuel (p, off) s = (s, Ret (x, off')).
Proof.
  revert p l off. induction fuel as [|fuel IH]; intros p l off Hc Hok Hoff Hlt Hf.
  { destruct l; [simpl in Hoff; lia|simpl in Hf; lia]. }
  destruct l as [|y l]; [simpl in Hoff; lia|]. pose proof Hc as (-> & Hy & m & Hm & Hl).
  rewrite (segs_cons _ _ _ _ Hm) in *. apply Forall_cons in Hok as [Hmok Hlok].
  pose proof Hmok as []. simpl in Hoff.
  rewrite (read_seek_step _ _ _ _ _ Hm).
  destruct (Z.leb_spec (data_len m) off) as [Hle|Hgt].
  - rewrite wrap_small by (unfold in_range; lia).
    destruct (IH (next m) l (off - data_len m)) as (l0 & x & l2 & mx & off' & -> & Hx & Hc2 & Eo & Hb & ->);
      [done|done|lia|lia|simpl in Hf; lia|].
    exists (y :: l0), x, l2, mx, off'. rewrite (segs_cons _ _ _ _ Hm).
    split_and!; first [done | simpl; lia].
  - exists [], y, l, m, off. split_and!; first [done | simpl; lia].
Qed.

Lemma read_copy_step fuel buf x m off len bo s :
  mbufs s !! x = Some m -> 0 < len ->
  read_copy (S fuel) buf (x, off, len, bo) s
  = (let n := data_len m -[32] off in let n := if len <? n then len else n in
     read_copy fuel buf (next m, 0, len -[32] n, bo +[32] n)
       (s <| mem := mem_copy (mem s) (u64 (buf + bo)) (rte_pktmbuf_mtod_offset m off) n |>)).
Proof.
  intros Hm Hlen. unfold read_copy at 1. simpl.
  destruct (Z.ltb_spec 0 len); [|lia].
  by rewrite bind_assoc, (bind_ret _ _ _ _ _ (load_ok _ _ _ Hm)).
Qed.

(** The bytes from [off] on: those left in the head segment, then the rest. *)
Lemma take_drop_seg mm m ms off len n :
  seg_ok m -> 0 <= off <= data_len m -> 0 <= n <= len ->
  (n = len \/ n = data_len m - off) -> n <= data_len m - off ->
  take (Z.to_nat len) (drop (Z.to_nat off) (pkt_bytes mm (m :: ms)))
  = range_bytes mm (buf_addr m + data_off m + off) n ++ take (Z.to_nat (len - n)) (pkt_bytes mm ms).
Proof.
  intros Hok Hoff Hn Hc Hle. pose proof Hok as [H1 H2 _ _ _].
  pose proof (length_seg_bytes mm m ltac:(lia)) as Hls.
  unfold pkt_bytes at 1. rewrite fmap_cons. simpl. fold (pkt_bytes mm ms).
  rewrite drop_app_le by lia.
  assert (range_bytes mm (buf_addr m + data_off m + off) n
          = take (Z.to_nat n) (drop (Z.to_nat off) (seg_bytes mm m))) as ->
    by (unfold seg_bytes; by rewrite sub_range by lia).
  destruct Hc as [-> | ->].
  - rewrite Z.sub_diag. simpl. rewrite app_nil_r. apply take_app_le. rewrite length_drop. lia.
  - rewrite take_app_ge by (rewrite length_drop; lia). f_equal.
    + symmetry. apply take_ge. rewrite length_drop. lia.
    + f_equal. rewrite length_drop. lia.
Qed.

Lemma read_copy_run fuel buf p l off len bo s :
  seg_list (mbufs s) p l -> Forall seg_ok (segs (mbufs s) l) ->
  Forall (apart (buf + bo) len) (segs (mbufs s) l) ->
  0 <= off -> 0 <= len -> 0 <= bo -> 0 <= buf -> buf + bo + len < 2 ^ 64 -> bo + len < 2 ^ 32 ->
  off + len <= total_len (segs (mbufs s) l) ->
  match segs (mbufs s) l with m :: _ => off <= data_len m | [] => True end ->
  (length l < fuel)%nat ->
  exists mm', read_copy fuel buf (p, off, len, bo) s = (s <| mem := mm' |>, Ret buf)
    /\ range_bytes mm' (buf + bo) len
       = take (Z.to_nat len) (drop (Z.to_nat off) (pkt_bytes (mem s) (segs (mbufs s) l)))
    /\ forall a, ~ (buf + bo <= a < buf + bo + len) -> mm' a = mem s a.
Proof.
  revert p l off len bo s. induction fuel as [|fuel IH];
    intros p l off len bo s Hc Hok Hap Ho Hl Hbo Hbuf H64 H32 Htot Hhd Hf; [lia|].
  destruct (decide (len = 0)) as [->|Hne].
  { exists (mem s). split_and!; [by destruct s|done|done]. }
  destruct l as [|x l]; [simpl in Htot; lia|]. destruct Hc as (-> & Hx & m & Hm & Hc).
  rewrite (segs_cons _ _ _ _ Hm) in *.
  apply Forall_cons in Hok as [Hmok Hok]. apply Forall_cons in Hap as [Hapm Hap].
  pose proof Hmok as [H1 H2 H3 H4 [H5 H6]]. simpl in Htot.
  rewrite (read_copy_step fuel buf x m off len bo s Hm) by lia.
  rewrite (wrap_small 32 (data_len m - off)) by (unfold in_range; lia). cbv zeta.
  set (n := if len <? data_len m - off then len else data_len m - off).
  assert (0 <= n <= len /\ n <= data_len m - off /\ (n = len \/ n = data_len m - off)) as (Hn & Hn' & Hc1)
    by (unfold n; destruct (Z.ltb_spec len (data_len m - off)); lia).
  clearbody n. rewrite !(wrap_small 32), wrap_small by (unfold in_range; lia).
  set (src := rte_pktmbuf_mtod_offset m off).
  assert (src = buf_addr m + data_off m + off) as Esrc
    by (apply wrap_small; unfold in_range; lia).
  set (mm1 := mem_copy (mem s) (buf + bo) src n).
  assert (forall a, ~ (buf + bo <= a < buf + bo + n) -> mm1 a = mem s a) as Hout
    by (intros a; apply mem_copy_frame).
  pose proof (total_len_nonneg _ Hok) as Htn.
  destruct (IH (next m) l 0 (len - n) (bo + n) (s <| mem := mm1 |>)) as (mm' & -> & Hb & Hfr);
    [done|done| |lia|lia|lia|lia|lia|lia|simpl; lia| |simpl in Hf; lia|].
  { eapply Forall_impl; [apply Hap|]. intros y [Hy|Hy]; [left|right]; lia. }
  { simpl. clear Hap. destruct Hok as [|? ? []]; [done|lia]. }
  exists mm'. split; [done|]. simpl in Hb, Hfr.
  replace (buf + (bo + n)) with (buf + bo + n) in * by lia. split.
  - rewrite (take_drop_seg _ m _ off len n), <- Esrc by lia || done.
    replace len with (n + (len - n)) at 1 by lia. rewrite range_bytes_app by lia. f_equal.
    + rewrite <- (mem_copy_bytes (mem s) (buf + bo)). apply range_bytes_ext. intros a Ha.
      apply Hfr. lia.
    + rewrite Hb. change (drop (Z.to_nat 0) ?x) with x. f_equal.
      apply (pkt_bytes_frame _ _ (buf + bo) len); [|done]. intros a Ha. apply Hout. lia.
  - intros a Ha. rewrite Hfr by lia. apply Hout. lia.
Qed.

(** C12. [rte_pktmbuf_read] of [len > 0] bytes at offset [off] (with [off + len]
    below 2^32) returns NULL and changes nothing when the packet is shorter, and
    otherwise a pointer to exactly those bytes of the packet: in place when
    they lie in one segment, in the caller's buffer, written nowhere else,
    when they do not. *)
Theorem read_correct fuel p l off len buf s :
  pkt_ok (mbufs s) p l -> (length l < fuel)%nat ->
  0 <= off -> 0 < len -> off + len < 2 ^ 32 -> 0 <= buf -> buf + len < 2 ^ 64 ->
  Forall (apart buf len) (segs (mbufs s) l) ->
  let ms := segs (mbufs s) l in
  if total_len ms <? off + len then rte_pktmbuf_read fuel p off len buf s = (s, Ret NULL)
  else exists mm' r, rte_pktmbuf_read fuel p off len buf s = (s <| mem := mm' |>, Ret r)
    /\ range_bytes mm' r len
       = take (Z.to_nat len) (drop (Z.to_nat off) (pkt_bytes (mem s) ms))
    /\ (r = buf \/ mm' = mem s)
    /\ forall a, ~ (buf <= a < buf + len) -> mm' a = mem s a.
Proof.
  intros Hok Hf Ho Hl Hol Hb Hbl Hap ms.
  destruct (pkt_ok_head _ _ _ Hok) as (m & l' & El & Hm & Hp & Hmok & _ & Hs & _ & Hall & Hpl & Hlt).
  pose proof (pkt_len_bound _ _ _ _ Hok Hm) as [Htl _]. fold ms in Htl.
  pose proof (total_len_nonneg _ Hall). pose proof Hmok as [H1 H2 H3 H4 [H5 H6]].
  assert (s = s <| mem := mem s |>) as Es by (by destruct s).
  unfold rte_pktmbuf_read. rewrite (bind_ret _ _ _ _ _ (load_ok _ _ _ Hm)).
  rewrite (wrap_small 32) by (unfold in_range; lia).
  destruct (Z.leb_spec (off + len) (data_len m)) as [Hin|Hout].
  { destruct (Z.ltb_spec (total_len ms) (off + len)); [lia|].
    exists (mem s), (buf_addr m + data_off m + off). rewrite <- Es.
    unfold rte_pktmbuf_mtod_offset. rewrite wrap_small by (unfold in_range; lia).
    split_and!; [done| |by right|done]. unfold ms. rewrite Hs. rewrite sub_seg by lia || done. done. }
  unfold __rte_pktmbuf_read. rewrite (bind_ret _ _ _ _ _ (load_ok _ _ _ Hm)).
  rewrite (wrap_small 32) by (unfold in_range; lia). rewrite Htl.
  destruct (Z.ltb_spec (total_len ms) (off + len)) as [Hlong|Hshort]; [done|].
  destruct (read_seek_run fuel p l off s) as (l0 & x & l2 & mx & o & El0 & Hx & Hc & Eo & Hob & Hrun);
    [apply Hok|apply Hok|fold ms; lia|lia|lia|].
  rewrite (bind_ret _ _ _ _ _ Hrun), (bind_ret _ _ _ _ _ (load_ok _ _ _ Hx)).
  assert (Forall seg_ok ms) as Hmsok by apply Hok.
  unfold ms in *. rewrite El0, segs_app, (segs_cons _ _ _ _ Hx) in *.
  rewrite total_len_app in Hshort. simpl in Hshort.
  apply Forall_app in Hap as [_ Hap]. apply Forall_app in Hmsok as [Hok0 Hmsok].
  pose proof (total_len_nonneg _ Hok0). pose proof Hmsok as [[J1 J2 J3 J4 [J5 J6]] Hok2]%Forall_cons.
  assert (drop (Z.to_nat off) (pkt_bytes (mem s) (segs (mbufs s) l0 ++ mx :: segs (mbufs s) l2))
    = drop (Z.to_nat o) (pkt_bytes (mem s) (mx :: segs (mbufs s) l2))) as ->.
  { rewrite pkt_bytes_app, drop_app_ge;
      pose proof (length_pkt_bytes (mem s) _ Hok0); [f_equal; lia|lia]. }
  rewrite (wrap_small 32) by (unfold in_range; lia).
  destruct (Z.leb_spec (o + len) (data_len mx)).
  - exists (mem s), (buf_addr mx + data_off mx + o). rewrite <- Es.
    unfold rte_pktmbuf_mtod_offset. rewrite wrap_small by (unfold in_range; lia).
    split_and!; [done| |by right|done]. rewrite sub_seg by lia || (by split). done.
  - destruct (read_copy_run fuel buf x (x :: l2) o len 0 s) as (mm' & -> & Hbytes & Hfr);
      rewrite ?(segs_cons _ _ _ _ Hx), ?Z.add_0_r in *; try done; try (simpl; lia).
    { rewrite length_app in Hf. simpl in Hf |- *. lia. }
    exists mm', buf. split_and!; [done|done|by left|done].
Qed.

(** Reading zero bytes at the end of a packet of several segments walks
    past the last segment: the behaviour is undefined. *)
Lemma read_empty_at_end p q m m' s fuel buf :
  mbufs s !! p = Some m -> mbufs s !! q = Some m' -> mbufs s !! NULL = None ->
  next m = q -> next m' = NULL -> (3 <= fuel)%nat ->
  0 <= data_len m < 2 ^ 16 -> 0 < data_len m' < 2 ^ 16 -> pkt_len m = data_len m + data_len m' ->
  rte_pktmbuf_read fuel p (pkt_len m) 0 buf s = (s, UB).
Proof.
  intros Hm Hm' Hnull Hn Hn' Hf Hd Hd' Hp. unfold rte_pktmbuf_read, __rte_pktmbuf_read.
  rewrite (bind_ret _ _ _ _ _ (load_ok _ _ _ Hm)).
  rewrite (wrap_small 32), Z.add_0_r by (unfold in_range; lia).
  destruct (Z.leb_spec (pkt_len m) (data_len m)); [lia|].
  rewrite (bind_ret _ _ _ _ _ (load_ok _ _ _ Hm)), Z.ltb_irrefl.
  destruct fuel as [|[|[|fuel]]]; [lia..|].
  rewrite <- Hn in Hm'.
  assert (read_seek (S (S (S fuel))) (p, pkt_len m) s = (s, UB)) as Hseek.
  { rewrite (read_seek_step _ _ _ _ _ Hm).
    destruct (Z.leb_spec (data_len m) (pkt_len m)); [|lia].
    rewrite (wrap_small 32) by (unfold in_range; lia).
    rewrite (read_seek_step _ _ _ _ _ Hm').
    destruct (Z.leb_spec (data_len m') (pkt_len m - data_len m)); [|lia]. rewrite Hn'.
    unfold read_seek. simpl. unfold load, mbind, comp_bind, get, mret, comp_ret, ub.
    by rewrite Hnull. }
  unfold mbind at 1, comp_bind at 1. by rewrite Hseek.
Qed.
End Read.

(** ** Freeing a chain *)

Section Free.
Context {P : Type} `{OPS : !MempoolOps P} `{LAWS : !MempoolLaws P}.
Implicit Types (s : store P) (h : gmap Z rte_mbuf) (m : rte_mbuf).

(** What freeing does to the structure of one direct segment. *)
Definition freed_seg (m : rte_mbuf) : rte_mbuf :=
  if refcnt m =? 1 then
    if next m =? NULL then m else m <| next := NULL |> <| nb_segs := 1 |>
  else m <| refcnt := refcnt m - 1 |>.

Definition put_back (mp x : Z) (s : store P) : store P :=
  s <| pools := mp_put (pools s) mp x |>.

(** A direct segment that is in use. *)
Definition direct_used (m : rte_mbuf) : Prop :=
  RTE_MBUF_DIRECT m = true /\ 1 <= refcnt m < 2 ^ 16.

Lemma with_mbuf_id x m s : mbufs s !! x = Some m -> with_mbuf x m s = s.
Proof. intros H. unfold with_mbuf. destruct s; simpl in *. by rewrite insert_id. Qed.

Lemma update_run p f m s :
  mbufs s !! p = Some m -> update p f s = (with_mbuf p (f m) s, Ret tt).
Proof. apply update_ok. Qed.

Lemma with_mbuf_lookup x m s : mbufs (with_mbuf x m s) !! x = Some m.
Proof. apply lookup_insert_eq. Qed.

Lemma with_mbuf_lookup_ne x y m s : x <> y -> mbufs (with_mbuf x m s) !! y = mbufs s !! y.
Proof. intros H. by apply lookup_insert_ne. Qed.

Lemma with_mbuf_twice x m m' s : with_mbuf x m (with_mbuf x m' s) = with_mbuf x m s.
Proof.
  unfold with_mbuf. destruct s as [h si mm po fr].
  unfold RecordSettersUsingExistingGetters.set. simpl. by rewrite insert_insert_eq.
Qed.

Lemma raw_free_run x m s :
  mbufs s !! x = Some m -> rte_mbuf_raw_free x s = (put_back (pool m) x s, Ret tt).
Proof.
  intros Hm. unfold rte_mbuf_raw_free. by rewrite (bind_ret _ _ _ _ _ (load_ok _ _ _ Hm)).
Qed.

(** The release of a direct segment: its links are reset. *)
Lemma prefree_release_direct x m s :
  mbufs s !! x = Some m -> RTE_MBUF_DIRECT m = true ->
  prefree_release x s = (with_mbuf x (if next m =? NULL then m
    else m <| next := NULL |> <| nb_segs := 1 |>) s, Ret tt).
Proof.
  intros Hm Hd. unfold prefree_release. rewrite (bind_ret _ _ _ _ _ (load_ok _ _ _ Hm)), Hd.
  cbn [negb]. cbv iota. rewrite bind_ret with (s' := s) (a := tt) by done.
  rewrite (bind_ret _ _ _ _ _ (load_ok _ _ _ Hm)).
  destruct (Z.eqb_spec (next m) NULL) as [Hn|Hn]; cbn [negb]; cbv iota.
  - by rewrite with_mbuf_id.
  - by rewrite (update_run _ _ _ _ Hm).
Qed.

Lemma free_seg_run x m s :
  mbufs s !! x = Some m -> x <> NULL -> direct_used m ->
  rte_pktmbuf_free_seg x s
  = (let s1 := with_mbuf x (freed_seg m) s in
     if refcnt m =? 1 then put_back (pool m) x s1 else s1, Ret tt).
Proof.
  intros Hm Hx [Hd Hr]. unfold rte_pktmbuf_free_seg, rte_pktmbuf_prefree_seg, rte_mbuf_refcnt_read.
  rewrite !bind_assoc, (bind_ret _ _ _ _ _ (load_ok _ _ _ Hm)).
  rewrite bind_ret with (s' := s) (a := refcnt m) by done. unfold freed_seg.
  destruct (Z.eqb_spec (refcnt m) 1) as [H1|H1].
  - rewrite bind_assoc, (bind_ret _ _ _ _ _ (prefree_release_direct _ _ _ Hm Hd)).
    set (m' := if next m =? NULL then m else _).
    rewrite bind_ret with (s' := with_mbuf x m' s) (a := x) by done.
    destruct (Z.eqb_spec x NULL) as [|_]; [done|]. cbn [negb]. cbv iota.
    rewrite (raw_free_run x m') by apply with_mbuf_lookup.
    do 2 f_equal. unfold m'. by destruct (next m =? NULL).
  - unfold __rte_mbuf_refcnt_update.
    rewrite !bind_assoc, (bind_ret _ _ _ _ _ (update_run _ _ _ _ Hm)).
    rewrite !wrap_small by (unfold in_range; lia).
    change (refcnt m + -1) with (refcnt m - 1).
    rewrite !bind_assoc.
    rewrite (bind_ret _ _ _ _ _ (load_ok _ _ _ (with_mbuf_lookup x _ s))).
    rewrite bind_ret with (s' := with_mbuf x (m <| refcnt := refcnt m - 1 |>) s) (a := refcnt m - 1)
      by done.
    destruct (Z.eqb_spec (refcnt m - 1) 0); [lia|]. done.
Qed.

(** The segments of [l] that freeing returns to pool [mp]. *)
Definition released (h : gmap Z rte_mbuf) (mp : Z) (l : list Z) : list Z :=
  filter (fun x => match h !! x with
                   | Some m => (refcnt m =? 1) && (pool m =? mp) | None => false end = true) l.

Lemma released_fresh h mp l x m : x ∉ l -> released (<[x := m]> h) mp l = released h mp l.
Proof.
  intros Hx. unfold released. induction l as [|y l IH]; [done|].
  apply not_elem_of_cons in Hx as [Hxy Hx]. rewrite !filter_cons, lookup_insert_ne by done.
  by rewrite IH.
Qed.

(** [rte_pktmbuf_free] of a chain of direct segments ends; it gives each
    segment whose reference count was 1 back to its own pool, once, with its
    links reset, takes one reference off every other segment, and touches
    nothing else. *)
Lemma free_run fuel p l s :
  seg_list (mbufs s) p l -> NoDup l -> Forall direct_used (segs (mbufs s) l) ->
  (length l < fuel)%nat ->
  mp_valid (pools s) -> (forall mp, length (released (mbufs s) mp l) <= mp_room (pools s) mp)%nat ->
  exists s', rte_pktmbuf_free fuel p s = (s', Ret tt) /\ mp_valid (pools s')
    /\ mem s' = mem s /\ shinfos s' = shinfos s /\ freed_ext s' = freed_ext s
    /\ (forall x, mbufs s' !! x = if decide (x ∈ l) then freed_seg <$> mbufs s !! x else mbufs s !! x)
    /\ forall mp, mp_avail (pools s') mp ≡ₚ released (mbufs s) mp l ++ mp_avail (pools s) mp
         /\ (mp_room (pools s') mp + length (released (mbufs s) mp l))%nat = mp_room (pools s) mp.
Proof using LAWS.
  revert p l s. induction fuel as [|fuel IH]; intros p l s Hc Hnd Hdir Hf Hval Hroom; [lia|].
  destruct l as [|x l].
  { simpl in Hc. subst p. exists s. split_and!; done. }
  destruct Hc as (-> & Hx & m & Hm & Hc). apply NoDup_cons in Hnd as [Hxl Hnd].
  rewrite (segs_cons _ _ _ _ Hm) in Hdir. apply Forall_cons in Hdir as [Hdm Hdir].
  set (s1 := with_mbuf x (freed_seg m) s).
  set (s2 := if refcnt m =? 1 then put_back (pool m) x s1 else s1).
  assert (mbufs s2 = <[x := freed_seg m]> (mbufs s)) as Hmb by (unfold s2; by destruct (refcnt m =? 1)).
  set (gives := fun mp => (refcnt m =? 1) && (pool m =? mp)).
  assert (mp_valid (pools s2) /\ forall mp, mp_avail (pools s2) mp ≡ₚ (if gives mp then [x] else []) ++ mp_avail (pools s) mp
    /\ (mp_room (pools s2) mp + if gives mp then 1 else 0)%nat = mp_room (pools s) mp) as [Hval2 Hput].
  { unfold gives. specialize (Hroom (pool m)). unfold released in Hroom. rewrite filter_cons, Hm in Hroom. rewrite Z.eqb_refl in Hroom.
    unfold s2. destruct (Z.eqb_spec (refcnt m) 1) as [H1|H1]; cbn [andb]; [|split; [done|intros mp; split; [done|simpl; lia]]].
    simpl in Hroom. destruct (mp_put_avail (pools s) (pool m) x Hval) as (Hv & Hput & Hr & Hother); [lia|]. simpl.
    split; [done|]. intros mp.
    destruct (Z.eqb_spec (pool m) mp) as [<-|Hmp]; [split; [done|lia]|]. destruct (Hother mp) as [Ho1 Ho2]; [congruence|].
    rewrite Ho1, Ho2. split; [done|lia]. }
  assert (forall mp, length (released (mbufs s) mp (x :: l)) =
    ((if gives mp then 1 else 0) + length (released (mbufs s) mp l))%nat) as Hrel.
  { intros mp. unfold released. rewrite filter_cons, Hm. fold (gives mp). by destruct (gives mp). }
  destruct (IH (next m) l s2) as (s' & Hrun & Hv' & Hmem & Hsh & Hfe & Hpt & Hav);
    [rewrite Hmb; by apply seg_list_fresh|done|by rewrite Hmb, segs_fresh|simpl in Hf; lia|done| |].
  { intros mp. specialize (Hroom mp). rewrite Hrel in Hroom. destruct (Hput mp) as [_ Hr].
    rewrite Hmb, released_fresh by done. lia. }
  exists s'. split.
  { unfold rte_pktmbuf_free in *. simpl. destruct (Z.eqb_spec x NULL) as [|_]; [done|]. simpl.
    rewrite !bind_assoc, (bind_ret _ _ _ _ _ (load_ok _ _ _ Hm)).
    rewrite !bind_assoc, (bind_ret _ _ _ _ _ (free_seg_run _ _ _ Hm Hx Hdm)).
    rewrite bind_ret with (s' := s2) (a := inl (next m)) by done. exact Hrun. }
  assert (mem s2 = mem s /\ shinfos s2 = shinfos s /\ freed_ext s2 = freed_ext s) as (E1 & E2 & E3)
    by (unfold s2; by destruct (refcnt m =? 1)).
  split_and!; [done|congruence|congruence|congruence| |].
  - intros y. rewrite Hpt, Hmb. destruct (decide (x = y)) as [<-|Hne].
    + rewrite lookup_insert_eq, Hm. rewrite decide_False by done.
      by rewrite decide_True by constructor.
    + rewrite lookup_insert_ne by done.
      destruct (decide (y ∈ l)) as [Hy|Hy], (decide (y ∈ x :: l)) as [Hy'|Hy']; try done.
      * exfalso. apply Hy'. by constructor.
      * exfalso. apply elem_of_cons in Hy' as [|]; congruence.
  - intros mp. destruct (Hav mp) as [Hav1 Hav2], (Hput mp) as [Hput1 Hput2].
    rewrite Hmb, released_fresh in Hav1, Hav2 by done. rewrite Hrel. split; [|lia]. rewrite Hav1, Hput1.
    unfold released at 2. rewrite filter_cons, Hm. fold (released (mbufs s) mp l). fold (gives mp).
    destruct (gives mp); [|by rewrite decide_False]. simpl. by rewrite Permutation_middle.
Qed.
End Free.

(** ** Indirect buffers *)

Section Attach.
Context {P : Type} `{OPS : !MempoolOps P}.
Implicit Types (s : store P) (h : gmap Z rte_mbuf) (m : rte_mbuf).

(** A direct buffer with its data right behind the structure, as
    [rte_pktmbuf_init] lays it out. *)
Definition laid_out (p : Z) (m : rte_mbuf) : Prop :=
  RTE_MBUF_DIRECT m = true /\ buf_addr m = p + sizeof_rte_mbuf + priv_size m
  /\ 0 <= p < 2 ^ 64.

Lemma refcnt_update_run p m v s :
  mbufs s !! p = Some m -> 1 <= refcnt m < 2 ^ 16 -> - 1 <= v <= 1 -> 0 <= refcnt m + v < 2 ^ 16 ->
  rte_mbuf_refcnt_update p v s
  = (with_mbuf p (m <| refcnt := refcnt m + v |>) s, Ret (refcnt m + v)).
Proof.
  intros Hm Hr Hv Hrv. unfold rte_mbuf_refcnt_update, rte_mbuf_refcnt_read.
  rewrite bind_assoc, (bind_ret _ _ _ _ _ (load_ok _ _ _ Hm)).
  rewrite bind_ret with (s' := s) (a := refcnt m) by done.
  destruct (Z.eqb_spec (refcnt m) 1) as [H1|H1].
  - assert (sgn 16 (v + 1) = v + 1) as ->.
    { unfold sgn. rewrite wrap_small by (unfold in_range; lia). cbv zeta.
      destruct (Z.ltb_spec (v + 1) (2 ^ (16 - 1))) as [|Hb]; [done|].
      change (2 ^ (16 - 1)) with 32768 in Hb. lia. }
    unfold rte_mbuf_refcnt_set. rewrite !wrap_wrap.
    rewrite wrap_small by (unfold in_range; lia).
    rewrite (bind_ret _ _ _ _ _ (update_run _ _ _ _ Hm)). rewrite H1, (Z.add_comm 1 v). done.
  - unfold __rte_mbuf_refcnt_update. rewrite (bind_ret _ _ _ _ _ (update_run _ _ _ _ Hm)).
    rewrite wrap_small by (unfold in_range; lia).
    by rewrite (bind_ret _ _ _ _ _ (load_ok _ _ _ (with_mbuf_lookup p _ s))).
Qed.

(** The indirect buffer that [rte_pktmbuf_attach] makes of [x] for [b]. *)
Definition attached (x b : rte_mbuf) : rte_mbuf :=
  x <| priv_size := priv_size b |> <| ol_flags := Z.lor (ol_flags b) IND_ATTACHED_MBUF |>
    <| buf_iova := buf_iova b |> <| buf_addr := buf_addr b |> <| buf_len := buf_len b |>
    <| data_off := data_off b |> <| data_len := data_len b |> <| port := port b |>
    <| vlan_tci := vlan_tci b |> <| vlan_tci_outer := vlan_tci_outer b |>
    <| tx_offload := tx_offload b |> <| hash := hash b |>
    <| next := NULL |> <| pkt_len := data_len b |> <| nb_segs := 1 |>
    <| packet_type := packet_type b |> <| timestamp := timestamp b |>.

Lemma laid_out_baddr p m : laid_out p m -> rte_mbuf_from_indirect m = p.
Proof.
  intros (_ & Hb & Hp). unfold rte_mbuf_from_indirect. rewrite Hb.
  rewrite wrap_small by (unfold in_range; lia). lia.
Qed.

Lemma direct_not_ext m : RTE_MBUF_DIRECT m = true -> RTE_MBUF_HAS_EXTBUF m = false.
Proof.
  unfold RTE_MBUF_DIRECT, RTE_MBUF_HAS_EXTBUF. intros H%Z.eqb_eq.
  rewrite Z.land_lor_distr_r in H. apply Z.lor_eq_0_iff in H as [_ ->]. done.
Qed.

Lemma attached_flags x b :
  RTE_MBUF_DIRECT b = true ->
  RTE_MBUF_DIRECT (attached x b) = false /\ RTE_MBUF_HAS_EXTBUF (attached x b) = false.
Proof.
  intros Hd. pose proof (direct_not_ext _ Hd) as He. unfold RTE_MBUF_HAS_EXTBUF, RTE_MBUF_DIRECT in *.
  change (ol_flags (attached x b)) with (Z.lor (ol_flags b) IND_ATTACHED_MBUF).
  rewrite !Z.land_lor_distr_l. split.
  - apply Z.eqb_neq. intros H. apply Z.lor_eq_0_iff in H as [_ H]. discriminate.
  - apply negb_false_iff, Z.eqb_eq in He. rewrite He. done.
Qed.

Lemma attach_run mi p x b s :
  mbufs s !! mi = Some x -> mbufs s !! p = Some b -> mi <> p -> laid_out p b ->
  1 <= refcnt b < 2 ^ 16 - 1 ->
  rte_pktmbuf_attach mi p s
  = (with_mbuf mi (attached x b) (with_mbuf p (b <| refcnt := refcnt b + 1 |>) s), Ret tt).
Proof.
  intros Hx Hb Hne Hl Hr. unfold rte_pktmbuf_attach.
  rewrite (bind_ret _ _ _ _ _ (load_ok _ _ _ Hb)), (direct_not_ext b) by apply Hl. cbv iota.
  rewrite (laid_out_baddr _ _ Hl), !bind_assoc.
  rewrite (bind_ret _ _ _ _ _ (refcnt_update_run _ _ 1 _ Hb ltac:(lia) ltac:(lia) ltac:(lia))).
  set (b1 := b <| refcnt := refcnt b + 1 |>).
  assert (mbufs (with_mbuf p b1 s) !! mi = Some x) as Hx1 by (by rewrite with_mbuf_lookup_ne).
  rewrite (bind_ret _ _ _ _ _ (update_run _ _ _ _ Hx1)).
  set (x1 := x <| priv_size := _ |> <| ol_flags := _ |>).
  assert (mbufs (with_mbuf mi x1 (with_mbuf p b1 s)) !! p = Some b1) as Hb1
    by (rewrite with_mbuf_lookup_ne by done; apply with_mbuf_lookup).
  rewrite (bind_ret _ _ _ _ _ (load_ok _ _ _ Hb1)).
  rewrite (update_run _ _ _ _ (with_mbuf_lookup mi x1 _)), with_mbuf_twice. done.
Qed.

(** The structure of [mi] after it is detached: its own buffer again. *)
Definition own_buffer (s : store P) (mi : Z) (y : rte_mbuf) : rte_mbuf :=
  let psz := mbuf_priv_size (mp_priv (pools s) (pool y)) in
  let mbuf_size := u32 (sizeof_rte_mbuf + psz) in
  (rte_pktmbuf_reset_headroom
     (y <| priv_size := psz |> <| buf_addr := mi +[64] mbuf_size |>
        <| buf_iova := mp_virt2iova (pools s) mi +[64] mbuf_size |>
        <| buf_len := u16 (mbuf_data_room_size (mp_priv (pools s) (pool y))) |>))
    <| data_len := 0 |> <| ol_flags := 0 |>.

Lemma detach_run mi p y b s :
  mbufs s !! mi = Some y -> mbufs s !! p = Some b -> mi <> p ->
  RTE_MBUF_HAS_EXTBUF y = false -> rte_mbuf_from_indirect y = p -> 2 <= refcnt b < 2 ^ 16 ->
  rte_pktmbuf_detach mi s
  = (with_mbuf mi (own_buffer s mi y) (with_mbuf p (b <| refcnt := refcnt b - 1 |>) s), Ret tt).
Proof.
  intros Hy Hb Hne He Hp Hr. unfold rte_pktmbuf_detach.
  rewrite (bind_ret _ _ _ _ _ (load_ok _ _ _ Hy)), He. cbv iota.
  unfold __rte_pktmbuf_free_direct. rewrite !bind_assoc, (bind_ret _ _ _ _ _ (load_ok _ _ _ Hy)), Hp.
  rewrite !bind_assoc.
  rewrite (bind_ret _ _ _ _ _ (refcnt_update_run _ _ (-1) _ Hb ltac:(lia) ltac:(lia) ltac:(lia))).
  change (refcnt b + -1) with (refcnt b - 1).
  destruct (Z.eqb_spec (refcnt b - 1) 0); [lia|].
  set (s1 := with_mbuf p _ s). rewrite bind_ret with (s' := s1) (a := tt) by done.
  unfold rte_pktmbuf_priv_size, rte_pktmbuf_data_room_size.
  rewrite !bind_assoc. rewrite bind_ret with (s' := s1) (a := s1) by done.
  rewrite bind_ret with (s' := s1) (a := mbuf_priv_size (mp_priv (pools s1) (pool y))) by done.
  rewrite !bind_assoc. rewrite bind_ret with (s' := s1) (a := s1) by done.
  rewrite bind_ret with (s' := s1) (a := mbuf_data_room_size (mp_priv (pools s1) (pool y))) by done.
  rewrite bind_ret with (s' := s1) (a := s1) by done.
  assert (mbufs s1 !! mi = Some y) as Hy1 by (unfold s1; by rewrite with_mbuf_lookup_ne).
  by rewrite (update_run _ _ _ _ Hy1).
Qed.

Lemma with_mbuf_comm x y m m' s :
  x <> y -> with_mbuf x m (with_mbuf y m' s) = with_mbuf y m' (with_mbuf x m s).
Proof.
  intros H. unfold with_mbuf. destruct s as [h si mm po fr].
  unfold RecordSettersUsingExistingGetters.set. simpl. by rewrite insert_insert_ne.
Qed.

(** Taking a reference and giving it back leaves [p] as it was. *)
Lemma restore_store mi p o y b s :
  mi <> p -> mbufs s !! p = Some b ->
  let b1 := b <| refcnt := refcnt b + 1 |> in
  with_mbuf mi o (with_mbuf p (b1 <| refcnt := refcnt b1 - 1 |>)
    (with_mbuf mi y (with_mbuf p b1 s))) = with_mbuf mi o s.
Proof.
  intros Hne Hb b1. assert (b1 <| refcnt := refcnt b1 - 1 |> = b) as ->
    by (unfold b1; destruct b; rset; f_equal; lia).
  rewrite (with_mbuf_comm p mi), !with_mbuf_twice by done. by rewrite (with_mbuf_id p b).
Qed.

(** C11. Attaching [mi] to a direct buffer takes one reference on it and makes
    [mi] describe the same bytes; freeing [mi] then gives the reference back,
    leaving the direct buffer exactly as it was, points [mi] at its own buffer
    again and returns it to its pool. *)
Theorem attach_free_roundtrip mi p x b s :
  mbufs s !! mi = Some x -> mbufs s !! p = Some b -> mi <> p -> mi <> NULL -> laid_out p b ->
  1 <= refcnt b < 2 ^ 16 - 1 -> refcnt x = 1 ->
  exists s1, rte_pktmbuf_attach mi p s = (s1, Ret tt)
    /\ mbufs s1 !! p = Some (b <| refcnt := refcnt b + 1 |>)
    /\ (exists y, mbufs s1 !! mi = Some y /\ seg_eqv y b /\ RTE_MBUF_DIRECT y = false)
    /\ rte_pktmbuf_free_seg mi s1
       = (put_back (pool x) mi (with_mbuf mi (own_buffer s mi (attached x b)) s), Ret tt).
Proof.
  intros Hx Hb Hne Hmi Hl Hr Hrx. pose proof (attach_run _ _ _ _ _ Hx Hb Hne Hl Hr) as Hatt.
  set (s1 := with_mbuf mi _ _) in Hatt. exists s1. split; [done|].
  assert (mbufs s1 !! mi = Some (attached x b)) as Hy by apply with_mbuf_lookup.
  assert (mbufs s1 !! p = Some (b <| refcnt := refcnt b + 1 |>)) as Hb1
    by (unfold s1; rewrite with_mbuf_lookup_ne by done; apply with_mbuf_lookup).
  destruct (attached_flags x b) as [Hind Hext]; [apply Hl|].
  split; [done|]. split; [by exists (attached x b)|].
  unfold rte_pktmbuf_free_seg, rte_pktmbuf_prefree_seg, rte_mbuf_refcnt_read.
  rewrite !bind_assoc, (bind_ret _ _ _ _ _ (load_ok _ _ _ Hy)).
  rewrite bind_ret with (s' := s1) (a := 1) by (change (refcnt (attached x b)) with (refcnt x);
    by rewrite Hrx).
  change (1 =? 1) with true. cbv iota. unfold prefree_release.
  rewrite !bind_assoc, (bind_ret _ _ _ _ _ (load_ok _ _ _ Hy)), Hind. cbn [negb]. cbv iota.
  assert (rte_mbuf_from_indirect (attached x b) = p) as Hfi by (by apply (laid_out_baddr p b)).
  rewrite !bind_assoc, (bind_ret _ _ _ _ _ (detach_run _ _ _ _ _ Hy Hb1 Hne Hext Hfi
    ltac:(simpl; lia))).
  set (s2 := with_mbuf mi (own_buffer s1 mi (attached x b)) _).
  assert (mbufs s2 !! mi = Some (own_buffer s1 mi (attached x b))) as Hown by apply with_mbuf_lookup.
  rewrite !bind_assoc, (bind_ret _ _ _ _ _ (load_ok _ _ _ Hown)).
  change (next (own_buffer s1 mi (attached x b)) =? NULL) with true. cbn [negb]. cbv iota.
  rewrite bind_ret with (s' := s2) (a := tt) by done.
  rewrite bind_ret with (s' := s2) (a := mi) by done.
  destruct (Z.eqb_spec mi NULL) as [|_]; [done|]. cbn [negb]. cbv iota.
  rewrite (raw_free_run _ _ _ Hown). do 2 f_equal.
  change (own_buffer s1 mi (attached x b)) with (own_buffer s mi (attached x b)) in s2.
  unfold s2, s1. by apply restore_store.
Qed.
End Attach.

(** ** Instances *)

(** A second packet, in one segment, next to the example packet. *)
Definition example_store2 : store list_pools :=
  with_mbuf 16384 (example_mbuf 16384 832 5 1 5 0 3) example_store.

Lemma example2_pkt_ok : pkt_ok (mbufs example_store2) 4096 [4096; 8192].
Proof.
  split.
  - apply seg_list_fresh; [|apply example_pkt_ok]. apply (bool_decide_unpack _). by vm_compute.
  - done.
  - apply (bool_decide_unpack _). by vm_compute.
  - change (segs (mbufs example_store2) [4096; 8192])
      with [example_mbuf 4096 832 10 2 30 8192 1; example_mbuf 8192 100 20 1 20 0 1].
    repeat constructor; simpl; lia.
  - eexists. split; [reflexivity|]. split_and!; reflexivity.
Qed.

Lemma example2_pkt2_ok : pkt_ok (mbufs example_store2) 16384 [16384].
Proof.
  split.
  - simpl. split_and!; [done|done|]. eexists. split; reflexivity.
  - done.
  - apply (bool_decide_unpack _). by vm_compute.
  - change (segs (mbufs example_store2) [16384]) with [example_mbuf 16384 832 5 1 5 0 3].
    repeat constructor; simpl; lia.
  - eexists. split; [reflexivity|]. split_and!; reflexivity.
Qed.

Example chain_correct_witness :
  exists s', rte_pktmbuf_chain 2 4096 16384 example_store2 = (s', Ret 0)
    /\ pkt_ok (mbufs s') 4096 [4096; 8192; 16384].
Proof.
  destruct (chain_correct 2 4096 16384 [4096; 8192] [16384] example_store2 example2_pkt_ok
    example2_pkt2_ok) as (s' & Hrun & _ & Hok & _).
  - intros y Hy ->%list_elem_of_singleton. revert Hy. apply (bool_decide_unpack _). by vm_compute.
  - vm_compute; reflexivity.
  - simpl; lia.
  - exists s'. split; [exact Hrun|exact Hok].
Defined.

Example read_correct_witness :
  exists mm', rte_pktmbuf_read 3 4096 6 10 65536 example_store
    = (example_store <| mem := mm' |>, Ret 65536).
Proof.
  destruct (read_correct 3 4096 [4096; 8192] 6 10 65536 example_store example_pkt_ok)
    as (mm' & r & Hrun & _); try (simpl; lia).
  - change (segs (mbufs example_store) [4096; 8192])
      with [example_mbuf 4096 832 10 2 30 8192 1; example_mbuf 8192 100 20 1 20 0 1].
    do 2 (apply Forall_cons_2; [right; simpl; lia|]). constructor.
  - assert (snd (rte_pktmbuf_read 3 4096 6 10 65536 example_store) = Ret 65536) as Hr
      by (vm_compute; reflexivity).
    rewrite Hrun in Hr. injection Hr as ->. exists mm'. exact Hrun.
Defined.

Example attach_free_roundtrip_witness :
  exists s1 s2, rte_pktmbuf_attach 4096 16384 example_store2 = (s1, Ret tt)
    /\ rte_pktmbuf_free_seg 4096 s1 = (s2, Ret tt)
    /\ mbufs s2 !! 16384 = mbufs example_store2 !! 16384.
Proof.
  destruct (attach_free_roundtrip 4096 16384 (example_mbuf 4096 832 10 2 30 8192 1)
    (example_mbuf 16384 832 5 1 5 0 3) example_store2) as (s1 & H1 & _ & _ & H2);
    try reflexivity; try discriminate; try (simpl; lia).
  - split_and!; [reflexivity|reflexivity|lia|lia].
  - exists s1. eexists. split; [exact H1|]. split; [exact H2|reflexivity].
Defined.
