(* ===== verification/Kvs.v ===== *)
(** * The emulated key-value store

    Models [examples/KVS/main.c]: the slice-aware array of 64-byte values
    ([create_array], with [SLICE] and [HASWELL] defined) and the processing of
    request packets in [lcore_main]. *)

From S2P Require Import Prelude Effects Bytes Slice Mbuf MbufData.

Definition NB_KEYS : Z := 1024 * 1024 * 1024 / 64.
Definition READ_PERCENT : Z := 100.
Definition BURST_SIZE : Z := 32.

(** ** Building the array *)

(** The local state of [create_array]: [array], [array_iova], and memory. *)
Record array_state := ArrayState {
  array : list Z;
  array_iova : list Z;
  amem : Z -> Z;
}.

(** The addresses of chunk [i], from those of chunk [i-1]. *)
Definition next_chunk (fuel : nat) (slice mem_virtual mem_iova offset : Z) (i : nat)
  (st : array_state) : option (Z * Z) :=
  match i with
  | O => Some (mem_virtual +[64] offset, mem_iova +[64] offset)
  | S j =>
      va ← array st !! j;
      iova ← array_iova st !! j;
      d ← sliceFinder_HF_haswell fuel (iova +[64] 64) slice;
      Some (va +[64] (64 + d), iova +[64] (64 + d))
  end.

Fixpoint create_loop (fuel n : nat) (slice mem_virtual mem_iova offset : Z) (i : nat)
  (st : array_state) : option array_state :=
  match n with
  | O => Some st
  | S n =>
      '(va, iova) ← next_chunk fuel slice mem_virtual mem_iova offset i st;
      create_loop fuel n slice mem_virtual mem_iova offset (S i)
        (ArrayState (array st ++ [va]) (array_iova st ++ [iova])
           (store64 (amem st) va (Z.of_nat i *[64] 2)))
  end.

(** [mem_virtual] and [mem_iova] are what [rte_calloc(0, nb_keys*8, 64, 0)] and
    [rte_malloc_virt2iova] returned; the closing loop only prints. *)
Definition create_array (fuel : nat) (nb_keys slice mem_virtual mem_iova : Z) (mm : Z -> Z)
  : option array_state :=
  offset ← sliceFinder_HF_haswell fuel mem_iova slice;
  create_loop fuel (Z.to_nat nb_keys) slice mem_virtual mem_iova offset 0 (ArrayState [] [] mm).

(** ** Request processing *)

Definition read_key_from_packet (mm : Z -> Z) (data : Z) : Z := be64toh (load64 mm (data + 65)).
Definition write_value_to_packet (mm : Z -> Z) (data found_value : Z) : Z -> Z :=
  mem_copy mm (data + 65) found_value 64.
(** The temporary [tmpa] is a local array. *)
Definition ether_mirror (mm : Z -> Z) (eth : Z) : Z -> Z :=
  let tmpa := range_bytes mm eth 6 in
  let mm := mem_copy mm eth (eth + 6) 6 in
  store_bytes mm (eth + 6) tmpa.

(** What the packet loop of [lcore_main] works on. *)
Record kvs (P : Type) := Kvs {
  values : list Z;
  read_counter : Z;
  pkts : store P;
}.
Arguments Kvs {P}.
Arguments values {P}.
Arguments read_counter {P}.
Arguments pkts {P}.

Section LcoreMain.
Context {P : Type} `{!MempoolOps P}.
Local Notation M := (comp (kvs P)).

Definition kmem (s : kvs P) : Z -> Z := mem (pkts s).
Definition set_kmem (mm : Z -> Z) (s : kvs P) : kvs P :=
  s <| pkts := (pkts s) <| mem := mm |> |>.
Definition with_pkts {A} (c : comp (store P) A) : M A := fun s =>
  let '(st, r) := c (pkts s) in (s <| pkts := st |>, r).

(** The body of the loop over the received packets, for the packet data at
    [data]; the write branch goes through the uninitialised [value]. *)
Definition process_packet (nb_keys data : Z) : M unit :=
  s ← get;
  let key := read_key_from_packet (kmem s) data in
  if key <? nb_keys then
    value ← (if read_counter s <? READ_PERCENT then aread (values s) (Z.to_nat key)
             else v ← aread (values s) (Z.to_nat key);
                  modify (fun s => set_kmem (store64 (kmem s) v key) s) ;; ub);
    modify (fun s => set_kmem (store64 (kmem s) value (htobe64 (load64 (kmem s) value))) s) ;;
    modify (fun s => set_kmem (write_value_to_packet (kmem s) data value) s) ;;
    modify (fun s => s <| read_counter := (read_counter s +[64] 1) mod 100 |>) ;;
    modify (fun s => set_kmem (ether_mirror (kmem s) data) s)
  else mret tt.

Fixpoint process_packets (nb_keys : Z) (bufs : list Z) : M unit :=
  match bufs with
  | [] => mret tt
  | p :: bufs =>
      m ← with_pkts (load p);
      process_packet nb_keys (rte_pktmbuf_mtod_offset m 0) ;;
      process_packets nb_keys bufs
  end.

Fixpoint free_unsent (fuel : nat) (bufs : list Z) : M unit :=
  match bufs with
  | [] => mret tt
  | p :: bufs => with_pkts (rte_pktmbuf_free fuel p) ;; free_unsent fuel bufs
  end.

(** One round of the main loop on one port: [bufs] were received, [tx_burst]
    says how many of them the driver takes. *)
Definition lcore_round (fuel : nat) (nb_keys : Z) (tx_burst : store P -> list Z -> store P * Z)
  (bufs : list Z) : M unit :=
  match bufs with
  | [] => mret tt
  | _ =>
      process_packets nb_keys bufs ;;
      nb_tx ← (fun s => let '(st, n) := tx_burst (pkts s) bufs in (s <| pkts := st |>, Ret n));
      if nb_tx <? Z.of_nat (length bufs)
      then free_unsent fuel (drop (Z.to_nat nb_tx) bufs) else mret tt
  end.
End LcoreMain.

(** ** The chunks of the array *)

(** The line of slice [s] in the 512-byte block [h], as a line number. *)
Definition slice_line (h s : Z) : Z := 8 * h + Z.lxor (block_slice h) s.

(** The block that holds chunk [i] of an array that starts at line [q0]. *)
Definition chunk_block (q0 s : Z) (i : nat) : Z :=
  q0 / 8 + Z.of_nat i + (if q0 mod 8 <=? Z.lxor (block_slice (q0 / 8)) s then 0 else 1).
(** The offset of chunk [i] from the start of the allocation. *)
Definition chunk_offset (q0 s : Z) (i : nat) : Z :=
  64 * (slice_line (chunk_block q0 s i) s - q0).

Section Chunks.
Context (q0 s : Z).
Context (Hq0 : 0 <= q0) (Hs : 0 <= s < 8).

Lemma slice_line_range h : 8 * h <= slice_line h s < 8 * h + 8.
Proof using Hs.
  unfold slice_line. pose proof (lxor3_range _ _ (block_slice_range h) Hs). lia.
Qed.

Lemma slice_line_slice h : line_slice (slice_line h s) = s.
Proof using Hs.
  unfold slice_line. rewrite (Z.mul_comm 8), line_in_block, lxor_cancel; [done|].
  apply lxor3_range; [apply block_slice_range|done].
Qed.

Lemma slice_distance_first :
  q0 + slice_distance (64 * q0) s = slice_line (chunk_block q0 s 0) s.
Proof using Hq0 Hs.
  unfold slice_distance, chunk_block, slice_line, next_line.
  rewrite (Z.mul_comm 64), Z.div_mul by lia.
  pose proof (Z.div_mod q0 8 ltac:(lia)). rewrite Z.add_0_r.
  destruct (Z.leb_spec (q0 mod 8) (Z.lxor (block_slice (q0 / 8)) s)); rewrite ?Z.add_0_r; lia.
Qed.

Lemma slice_distance_next h :
  0 <= h ->
  slice_line h s + 1 + slice_distance (64 * slice_line h s + 64) s = slice_line (h + 1) s.
Proof using Hs.
  intros Hh. pose proof (slice_line_range h) as Hr.
  pose proof (lxor3_range _ _ (block_slice_range h) Hs) as Hp.
  pose proof (lxor3_range _ _ (block_slice_range (h + 1)) Hs) as Hp'.
  unfold slice_distance, next_line.
  replace (64 * slice_line h s + 64) with ((slice_line h s + 1) * 64) by lia.
  rewrite Z.div_mul by lia. unfold slice_line in *.
  destruct (Z.eq_dec (Z.lxor (block_slice h) s) 7) as [H7|H7].
  - rewrite H7. replace (8 * h + 7 + 1) with ((h + 1) * 8) by lia.
    rewrite Z.div_mul, Z.mod_mul by lia.
    destruct (Z.leb_spec 0 (Z.lxor (block_slice (h + 1)) s)); lia.
  - set (p := Z.lxor (block_slice h) s) in *.
    replace (8 * h + p + 1) with (h * 8 + (p + 1)) by lia.
    rewrite Z.div_add_l, (Z.div_small (p + 1)), Z.add_0_r by lia.
    rewrite (Z.add_comm (h * 8)), Z_mod_plus_full, (Z.mod_small (p + 1)) by lia.
    fold p. destruct (Z.leb_spec (p + 1) p); lia.
Qed.

Lemma chunk_block_succ i : chunk_block q0 s (S i) = chunk_block q0 s i + 1.
Proof using. unfold chunk_block. lia. Qed.

Lemma chunk_block_nonneg i : 0 <= chunk_block q0 s i.
Proof using Hq0.
  unfold chunk_block. pose proof (Z.div_pos q0 8 Hq0 ltac:(lia)).
  destruct (q0 mod 8 <=? _); lia.
Qed.

Lemma chunk_offset_range i :
  0 <= chunk_offset q0 s i < 512 * (Z.of_nat i + 2).
Proof using Hq0 Hs.
  unfold chunk_offset. pose proof (slice_line_range (chunk_block q0 s i)) as Hr.
  pose proof (Z.div_mod q0 8 ltac:(lia)). pose proof (Z.mod_pos_bound q0 8 ltac:(lia)).
  unfold chunk_block, slice_line in *.
  destruct (Z.leb_spec (q0 mod 8) (Z.lxor (block_slice (q0 / 8)) s)) as [Hle|Hgt]; [|lia].
  split; [|lia]. destruct i; [rewrite !Z.add_0_r in *; lia|lia].
Qed.

Lemma chunk_offset_spread i j : (i < j)%nat -> chunk_offset q0 s i + 64 <= chunk_offset q0 s j.
Proof using Hs.
  intros Hij. unfold chunk_offset.
  pose proof (slice_line_range (chunk_block q0 s i)).
  pose proof (slice_line_range (chunk_block q0 s j)). unfold chunk_block in *. lia.
Qed.
End Chunks.

Section CreateArray.
Context (fuel : nat) (nb q0 s mv : Z) (mm : Z -> Z).
Context (Hq0 : 0 <= q0) (Hs : 0 <= s < 8) (Hmv : 0 <= mv) (Hnb : 0 <= nb).
Context (Hio : 64 * q0 + 512 * (nb + 2) < 2 ^ 64) (Hva : mv + 512 * (nb + 2) < 2 ^ 64).
Context (Hf : (15 <= fuel)%nat).

Local Notation off := (chunk_offset q0 s).

(** The state after [i] rounds. *)
Record array_inv (i : nat) (st : array_state) : Prop := ArrayInv {
  inv_array : array st = (fun k => mv + off k) <$> seq 0 i;
  inv_iova : array_iova st = (fun k => 64 * q0 + off k) <$> seq 0 i;
  inv_values : forall k, (k < i)%nat -> load64 (amem st) (mv + off k) = 2 * Z.of_nat k;
  inv_frame : forall a, (forall k, (k < i)%nat -> ~ (mv + off k <= a < mv + off k + 8)) ->
                amem st a = mm a;
}.

Lemma chunk_first : sliceFinder_HF_haswell fuel (64 * q0) s = Some (off 0).
Proof using Hf Hio Hnb Hq0 Hs.
  rewrite sliceFinder_HF_result by (done || (unfold in_range; lia)). f_equal.
  unfold chunk_offset. rewrite <- (slice_distance_first q0 s) by done. lia.
Qed.

Lemma chunk_step i :
  Z.of_nat i + 1 < nb ->
  sliceFinder_HF_haswell fuel ((64 * q0 + off i) +[64] 64) s = Some (off (S i) - off i - 64).
Proof using Hf Hio Hnb Hq0 Hs.
  intros Hi. pose proof (chunk_offset_range q0 s Hq0 Hs i).
  rewrite wrap_small by (unfold in_range; lia).
  rewrite sliceFinder_HF_result by (done || (unfold in_range; lia)). f_equal.
  unfold chunk_offset. rewrite (chunk_block_succ q0 s i).
  rewrite <- (slice_distance_next s Hs (chunk_block q0 s i)) by (by apply chunk_block_nonneg).
  replace (64 * q0 + 64 * (slice_line (chunk_block q0 s i) s - q0) + 64)
    with (64 * slice_line (chunk_block q0 s i) s + 64) by lia. lia.
Qed.

Lemma next_chunk_run i st :
  array_inv i st -> Z.of_nat i < nb ->
  next_chunk fuel s mv (64 * q0) (off 0) i st = Some (mv + off i, 64 * q0 + off i).
Proof using All.
  intros [Ha Hi _ _] Hlt. pose proof (chunk_offset_range q0 s Hq0 Hs i).
  destruct i as [|j]; simpl.
  - by rewrite !wrap_small by (unfold in_range; lia).
  - assert (seq 0 (S j) !! j = Some j) as Hj by (apply lookup_seq; lia).
    rewrite Ha, Hi, !list_lookup_fmap, Hj. simpl. rewrite chunk_step by lia. simpl.
    pose proof (chunk_offset_spread q0 s Hs j (S j) ltac:(lia)).
    pose proof (chunk_offset_range q0 s Hq0 Hs j).
    rewrite !wrap_small by (unfold in_range; lia). do 2 f_equal; lia.
Qed.

Lemma array_inv_step i st :
  array_inv i st -> Z.of_nat i < nb ->
  array_inv (S i) (ArrayState (array st ++ [mv + off i]) (array_iova st ++ [64 * q0 + off i])
    (store64 (amem st) (mv + off i) (Z.of_nat i *[64] 2))).
Proof using All.
  intros [Ha Hi Hv Hfr] Hlt. split; cbn [array array_iova amem].
  - by rewrite Ha, seq_S, fmap_app.
  - by rewrite Hi, seq_S, fmap_app.
  - intros k Hk. destruct (decide (k = i)) as [->|Hne].
    + rewrite load64_store64, wrap_wrap, wrap_small by (unfold in_range; lia). lia.
    + rewrite <- (Hv k) by lia. apply load64_ext. intros x Hx.
      pose proof (chunk_offset_spread q0 s Hs k i ltac:(lia)). apply store64_frame. lia.
  - intros a Hout. rewrite store64_frame by (apply Hout; lia).
    apply Hfr. intros k Hk. apply Hout. lia.
Qed.

Lemma create_loop_run n i st :
  array_inv i st -> Z.of_nat (i + n) <= nb ->
  exists st', create_loop fuel n s mv (64 * q0) (off 0) i st = Some st' /\ array_inv (i + n) st'.
Proof using All.
  revert i st. induction n as [|n IH]; intros i st Hinv Hle.
  - exists st. by rewrite Nat.add_0_r.
  - simpl. rewrite next_chunk_run by (done || lia). simpl.
    destruct (IH (S i) _ (array_inv_step i st Hinv ltac:(lia)) ltac:(lia)) as (st' & -> & Hinv').
    exists st'. split; [done|]. by replace (i + S n)%nat with (S i + n)%nat by lia.
Qed.
End CreateArray.

(** C4. [create_array] ends; chunk [i] of the array lies on a cache line of the
    wanted slice, at the same offset from both base addresses and at least 64
    bytes after chunk [i-1]; it holds the value [2*i], and no other memory
    changes. *)
Theorem create_array_correct fuel nb q0 slice mem_virtual mm :
  0 <= q0 -> 0 <= slice < 8 -> 0 <= mem_virtual -> 0 <= nb ->
  64 * q0 + 512 * (nb + 2) < 2 ^ 64 -> mem_virtual + 512 * (nb + 2) < 2 ^ 64 ->
  (15 <= fuel)%nat ->
  exists st, create_array fuel nb slice mem_virtual (64 * q0) mm = Some st
    /\ length (array st) = Z.to_nat nb
    /\ (forall i, Z.of_nat i < nb ->
         array st !! i = Some (mem_virtual + chunk_offset q0 slice i)
         /\ array_iova st !! i = Some (64 * q0 + chunk_offset q0 slice i)
         /\ calculateSlice_HF_haswell (64 * q0 + chunk_offset q0 slice i) = slice
         /\ load64 (amem st) (mem_virtual + chunk_offset q0 slice i) = 2 * Z.of_nat i)
    /\ (forall i, chunk_offset q0 slice i + 64 <= chunk_offset q0 slice (S i))
    /\ forall a, (forall i, Z.of_nat i < nb -> ~ (0 <= a - mem_virtual - chunk_offset q0 slice i < 8)) ->
         amem st a = mm a.
Proof.
  intros Hq0 Hs Hmv Hnb Hio Hva Hf. unfold create_array.
  rewrite (chunk_first fuel nb q0 slice) by done. simpl.
  destruct (create_loop_run fuel nb q0 slice mem_virtual mm Hq0 Hs Hmv Hnb Hio Hva Hf (Z.to_nat nb) 0
    (ArrayState [] [] mm)) as (st & -> & [Ha Hi Hv Hfr]); [split; simpl; try done; lia|lia|].
  exists st. split; [done|]. split; [by rewrite Ha, length_fmap, length_seq|]. split_and!.
  - intros i Hi'. assert (seq 0 (0 + Z.to_nat nb) !! i = Some i) as Hlk by (apply lookup_seq; lia).
    rewrite Ha, Hi, !list_lookup_fmap, Hlk. simpl. split_and!; [done|done| |apply Hv; lia].
    unfold chunk_offset.
    replace (64 * q0 + 64 * (slice_line (chunk_block q0 slice i) slice - q0))
      with (slice_line (chunk_block q0 slice i) slice * 64) by lia.
    by apply slice_line_slice.
  - intros i. apply chunk_offset_spread; [done|lia].
  - intros a Hout. apply Hfr. intros k Hk Hin. apply (Hout k); lia.
Qed.

(** Every chunk lies inside the [nb * 512] bytes that [create_array]
    allocates exactly when the first block's line of the slice is at or after
    the start of the allocation, or the last block's line is before its end;
    an allocation that starts at a 512-byte boundary is always large enough. *)
Theorem create_array_in_bounds q0 slice nb :
  0 <= q0 -> 0 <= slice < 8 -> 0 < nb ->
  (forall i, Z.of_nat i < nb -> chunk_offset q0 slice i + 64 <= 512 * nb)
  <-> q0 mod 8 <= Z.lxor (block_slice (q0 / 8)) slice
      \/ Z.lxor (block_slice (q0 / 8 + nb)) slice < q0 mod 8.
Proof.
  intros Hq0 Hs Hnb. pose proof (Z.div_mod q0 8 ltac:(lia)) as Hdm.
  pose proof (Z.mod_pos_bound q0 8 ltac:(lia)).
  set (p0 := Z.lxor (block_slice (q0 / 8)) slice).
  set (pn := Z.lxor (block_slice (q0 / 8 + nb)) slice).
  assert (chunk_offset q0 slice (Z.to_nat (nb - 1))
    = if q0 mod 8 <=? p0
      then 64 * (8 * (nb - 1) + Z.lxor (block_slice (q0 / 8 + (nb - 1))) slice - q0 mod 8)
      else 64 * (8 * nb + pn - q0 mod 8)) as Hlast.
  { unfold chunk_offset, slice_line, chunk_block. fold p0. rewrite Z2Nat.id by lia.
    destruct (Z.leb_spec (q0 mod 8) p0); rewrite ?Z.add_0_r; [lia|].
    replace (q0 / 8 + (nb - 1) + 1) with (q0 / 8 + nb) by lia. fold pn. lia. }
  assert ((forall i, Z.of_nat i < nb -> chunk_offset q0 slice i + 64 <= 512 * nb)
    <-> chunk_offset q0 slice (Z.to_nat (nb - 1)) + 64 <= 512 * nb) as ->.
  { split; [intros H'; apply H'; lia|]. intros H' i Hi.
    destruct (decide (i = Z.to_nat (nb - 1))) as [->|Hne]; [done|].
    pose proof (chunk_offset_spread q0 slice Hs i (Z.to_nat (nb - 1)) ltac:(lia)). lia. }
  rewrite Hlast. pose proof (lxor3_range _ _ (block_slice_range (q0 / 8 + (nb - 1))) Hs).
  destruct (Z.leb_spec (q0 mod 8) p0); [split; [by left|lia]|]. split; [right; lia|lia].
Qed.

(** An allocation that starts 64 bytes after a block boundary is too small: one
    chunk of slice 0 ends outside its 512 bytes. *)
Example create_array_overflow :
  exists st, create_array 15 1 0 4096 576 (fun _ => 0) = Some st
    /\ exists va, array st !! 0%nat = Some va /\ 4096 + 512 < va + 64.
Proof. eexists. split; [reflexivity|]. eexists. split; [reflexivity|vm_compute; reflexivity]. Qed.

(** ** Replies *)

(** Memory after a request for the value at [v] in the packet at [data]. *)
Definition kvs_reply (mm : Z -> Z) (data v : Z) : Z -> Z :=
  ether_mirror (write_value_to_packet (store64 mm v (htobe64 (load64 mm v))) data v) data.

Section Reply.
Context (mm : Z -> Z) (data v : Z).
(** The value is apart from the first 129 bytes of the packet. *)
Context (Hapart : v + 64 <= data \/ data + 129 <= v).

Local Notation m1 := (store64 mm v (htobe64 (load64 mm v))).
Local Notation m2 := (write_value_to_packet m1 data v).

Lemma mirror_frame m a : ~ (data <= a < data + 12) -> ether_mirror m data a = m a.
Proof using.
  intros Ha. unfold ether_mirror.
  rewrite store_bytes_frame by (rewrite length_range_bytes by lia; lia).
  apply mem_copy_frame. lia.
Qed.

Lemma mirror_dst m : range_bytes (ether_mirror m data) data 6 = range_bytes m (data + 6) 6.
Proof using.
  rewrite <- (mem_copy_bytes m data (data + 6) 6). apply range_bytes_ext. intros x Hx.
  apply store_bytes_frame. rewrite length_range_bytes by lia. lia.
Qed.

Lemma mirror_src m : range_bytes (ether_mirror m data) (data + 6) 6 = range_bytes m data 6.
Proof using.
  pose proof (store_bytes_read (mem_copy m data (data + 6) 6) (data + 6) (range_bytes m data 6)) as H.
  rewrite length_range_bytes in H by lia. exact H.
Qed.

Lemma reply_frame a :
  ~ (data <= a < data + 12) -> ~ (data + 65 <= a < data + 129) -> ~ (v <= a < v + 8) ->
  kvs_reply mm data v a = mm a.
Proof using.
  intros H1 H2 H3. unfold kvs_reply. rewrite mirror_frame by done.
  unfold write_value_to_packet. rewrite mem_copy_frame by lia. by apply store64_frame.
Qed.

Lemma reply_slot : load64 (kvs_reply mm data v) v = htobe64 (load64 mm v).
Proof using Hapart.
  rewrite (load64_ext _ m1), load64_store64.
  - apply wrap_small. apply (bswap_range 8).
  - intros x Hx. unfold kvs_reply. rewrite mirror_frame by lia.
    apply mem_copy_frame. lia.
Qed.

Lemma reply_copied i : 0 <= i < 64 -> kvs_reply mm data v (data + 65 + i) = m1 (v + i).
Proof using.
  intros Hi. unfold kvs_reply. rewrite mirror_frame by lia. by apply mem_copy_at.
Qed.

Lemma reply_value : load64 (kvs_reply mm data v) (data + 65) = htobe64 (load64 mm v).
Proof using.
  transitivity (load64 m1 v).
  - apply load64_shift. intros i Hi. apply reply_copied. lia.
  - rewrite load64_store64. apply wrap_small, (bswap_range 8).
Qed.

Lemma reply_rest : range_bytes (kvs_reply mm data v) (data + 73) 56 = range_bytes mm (v + 8) 56.
Proof using.
  apply range_bytes_shift. intros i Hi.
  replace (data + 73 + i) with (data + 65 + (8 + i)) by lia.
  rewrite reply_copied, store64_frame by lia. f_equal. lia.
Qed.

Lemma reply_mac :
  range_bytes (kvs_reply mm data v) data 6 = range_bytes mm (data + 6) 6
  /\ range_bytes (kvs_reply mm data v) (data + 6) 6 = range_bytes mm data 6.
Proof using Hapart.
  assert (forall x, data <= x < data + 12 -> m2 x = mm x) as Hm2.
  { intros x Hx. unfold write_value_to_packet. rewrite mem_copy_frame by lia.
    apply store64_frame. lia. }
  unfold kvs_reply. rewrite mirror_dst, mirror_src.
  split; apply range_bytes_ext; intros x Hx; apply Hm2; lia.
Qed.

Lemma reply_ok : (forall x, byte_ok (mm x)) -> forall x, byte_ok (kvs_reply mm data v x).
Proof using. intros Hok. unfold kvs_reply, ether_mirror, write_value_to_packet. auto 7 with cdb. Qed.
End Reply.

Section ProcessPacket.
Context {P : Type} `{!MempoolOps P}.
Implicit Types s : kvs P.

Definition kvs_ok (s : kvs P) : Prop :=
  0 <= read_counter s < READ_PERCENT /\ forall x, byte_ok (kmem s x).

(** Request number [k] in the packet at [data] for the value at [v]. *)
Definition request (nb_keys : Z) (s : kvs P) (data k v : Z) : Prop :=
  read_key_from_packet (kmem s) data = k /\ k < nb_keys /\ values s !! Z.to_nat k = Some v
  /\ (v + 64 <= data \/ data + 129 <= v).

Lemma process_run nb_keys s data k v :
  kvs_ok s -> request nb_keys s data k v ->
  exists s', process_packet nb_keys data s = (s', Ret tt)
    /\ values s' = values s /\ kmem s' = kvs_reply (kmem s) data v /\ kvs_ok s'.
Proof.
  intros [Hrc Hok] (Hk & Hlt & Hv & Hap). unfold process_packet.
  rewrite bind_ret with (s' := s) (a := s) by done. rewrite Hk.
  destruct (Z.ltb_spec k nb_keys); [|lia].
  destruct (Z.ltb_spec (read_counter s) READ_PERCENT); [|lia].
  unfold aread. rewrite Hv.
  rewrite bind_ret with (s' := s) (a := v) by done.
  eexists. split; [reflexivity|]. split; [done|]. split; [done|]. split.
  - change (0 <= (read_counter s +[64] 1) mod 100 < READ_PERCENT).
    apply Z.mod_pos_bound. done.
  - intros x. apply (reply_ok (kmem s) data v Hok).
Qed.

(** C14. A packet whose key is not below the number of keys changes nothing.  A request for
    a stored key is answered in place: bytes 65 to 128 of the packet data (the description
    of the program has the second 64 bytes, 64 to 127) become the stored value, its first
    eight bytes in network order, and the MAC addresses are swapped.  The conversion
    happens in the store: the first eight bytes of the stored value are byte-swapped as well,
    so that the next request for the key gets the swapped number.  No other memory
    changes.  The write branch, which would use an uninitialised pointer, is never taken. *)
Theorem process_packet_correct nb_keys s data :
  kvs_ok s ->
  (nb_keys <= read_key_from_packet (kmem s) data -> process_packet nb_keys data s = (s, Ret tt))
  /\ forall k v, request nb_keys s data k v ->
    exists s', process_packet nb_keys data s = (s', Ret tt) /\ kvs_ok s' /\ values s' = values s
      /\ read_key_from_packet (kmem s') data = load64 (kmem s) v
      /\ range_bytes (kmem s') (data + 73) 56 = range_bytes (kmem s) (v + 8) 56
      /\ range_bytes (kmem s') data 6 = range_bytes (kmem s) (data + 6) 6
      /\ range_bytes (kmem s') (data + 6) 6 = range_bytes (kmem s) data 6
      /\ load64 (kmem s') v = htobe64 (load64 (kmem s) v)
      /\ forall a, ~ (data <= a < data + 12) -> ~ (data + 65 <= a < data + 129) -> ~ (v <= a < v + 8) ->
           kmem s' a = kmem s a.
Proof.
  intros Hok. split.
  - intros Hkey. unfold process_packet. rewrite bind_ret with (s' := s) (a := s) by done.
    by destruct (Z.ltb_spec (read_key_from_packet (kmem s) data) nb_keys); [lia|].
  - intros k v Hreq. destruct (process_run _ _ _ _ _ Hok Hreq) as (s' & Hrun & Hval & Hmem & Hok').
    destruct Hreq as (_ & _ & _ & Hap). exists s'. rewrite Hmem.
    destruct (reply_mac (kmem s) data v Hap) as [Hd Hsrc]. split_and!; try done.
    + unfold read_key_from_packet. rewrite reply_value. apply bswap_involutive. apply load64_range, Hok.
    + apply reply_rest.
    + by apply reply_slot.
    + intros a. apply reply_frame.
Qed.

(** The reply swaps the bytes of the stored value in place, so two
    successive requests for one key receive different answers: the value, then
    its byte-swapped form. *)
Theorem process_packet_twice nb_keys s d1 d2 k v :
  kvs_ok s -> request nb_keys s d1 k v -> request nb_keys s d2 k v ->
  (d1 + 129 <= d2 \/ d2 + 129 <= d1) ->
  exists s1 s2, process_packet nb_keys d1 s = (s1, Ret tt)
    /\ process_packet nb_keys d2 s1 = (s2, Ret tt)
    /\ read_key_from_packet (kmem s2) d1 = load64 (kmem s) v
    /\ read_key_from_packet (kmem s2) d2 = htobe64 (load64 (kmem s) v)
    /\ load64 (kmem s2) v = load64 (kmem s) v.
Proof.
  intros Hok H1 H2 Hdis.
  destruct (process_run _ _ _ _ _ Hok H1) as (s1 & Hrun1 & Hval1 & Hmem1 & Hok1).
  destruct H1 as (_ & _ & _ & Hap1). destruct H2 as (Hk2 & Hlt & Hv & Hap2).
  assert (request nb_keys s1 d2 k v) as H2'.
  { split_and!; [|done|by rewrite Hval1|done]. rewrite <- Hk2. unfold read_key_from_packet. f_equal.
    rewrite Hmem1. apply load64_ext. intros x Hx. apply reply_frame; lia. }
  destruct (process_run _ _ _ _ _ Hok1 H2') as (s2 & Hrun2 & _ & Hmem2 & _).
  assert (0 <= load64 (kmem s) v < 256 ^ Z.of_nat 8) as Hr by apply load64_range, Hok.
  exists s1, s2. split; [done|]. split; [done|]. unfold read_key_from_packet. rewrite Hmem2. split_and!.
  - rewrite (load64_ext _ (kmem s1)) by (intros x Hx; apply reply_frame; lia).
    rewrite Hmem1, reply_value. by apply bswap_involutive.
  - rewrite reply_value, Hmem1, reply_slot by done. apply bswap_involutive. apply bswap_range.
  - rewrite reply_slot, Hmem1, reply_slot by done. by apply bswap_involutive.
Qed.

(** A packet with an unknown key is left as it is and, unlike the message
    printed for it says, not dropped: the round hands the whole burst to the
    driver, whatever the keys in it, and frees only what the driver refuses. *)
Theorem lcore_round_unknown_keys fuel nb_keys tx_burst bufs s :
  bufs <> [] ->
  (forall p, p ∈ bufs -> exists m, mbufs (pkts s) !! p = Some m
     /\ nb_keys <= read_key_from_packet (kmem s) (rte_pktmbuf_mtod_offset m 0)) ->
  tx_burst (pkts s) bufs = (pkts s, Z.of_nat (length bufs)) ->
  lcore_round fuel nb_keys tx_burst bufs s = (s, Ret tt).
Proof.
  intros Hne Hkeys Htx.
  assert (process_packets nb_keys bufs s = (s, Ret tt)) as Hp.
  { clear Htx Hne. induction bufs as [|p bufs IH]; [done|]. simpl.
    destruct (Hkeys p) as (m & Hm & Hk); [by constructor|].
    rewrite bind_ret with (s' := s) (a := m)
      by (unfold with_pkts; rewrite (load_ok _ _ _ Hm); by destruct s).
    rewrite bind_ret with (s' := s) (a := tt).
    - apply IH. intros q Hq. apply Hkeys. by constructor.
    - unfold process_packet. rewrite bind_ret with (s' := s) (a := s) by done.
      by destruct (Z.ltb_spec (read_key_from_packet (kmem s) (rte_pktmbuf_mtod_offset m 0)) nb_keys);
        [lia|]. }
  unfold lcore_round. destruct bufs as [|p bufs]; [done|].
  rewrite (bind_ret _ _ _ _ _ Hp).
  erewrite bind_ret; [|rewrite Htx; reflexivity].
  rewrite Z.ltb_irrefl. by destruct s.
Qed.
End ProcessPacket.

(** ** Instances *)

Definition example_kvs : kvs list_pools :=
  Kvs [65536] 0 (Store {[ 4096 := example_mbuf 4096 0 200 1 200 0 1 ]} ∅
    (fun a => if a =? 65536 then 7 else 0) ∅ []).

Lemma example_kvs_ok : kvs_ok example_kvs.
Proof.
  split; [unfold READ_PERCENT; simpl; lia|]. intros x. unfold kmem, byte_ok. simpl.
  destruct (x =? 65536); lia.
Qed.

Lemma example_request data : data + 129 <= 65536 -> 0 <= data ->
  read_key_from_packet (kmem example_kvs) data = 0 -> request 1 example_kvs data 0 65536.
Proof. intros H1 H2 H3. split_and!; [done|lia|reflexivity|lia]. Qed.

Example create_array_correct_witness :
  exists st, create_array 15 3 5 0 (64 * 64) (fun _ => 0) = Some st
    /\ length (array st) = Z.to_nat 3.
Proof.
  destruct (create_array_correct 15 3 64 5 0 (fun _ => 0)) as (st & Hst & Hlen & _); try lia.
  exists st. split; [exact Hst|exact Hlen].
Defined.

Example create_array_in_bounds_witness : chunk_offset 64 5 2 + 64 <= 512 * 3.
Proof.
  apply (create_array_in_bounds 64 5 3); [lia|lia|lia| |lia].
  left. vm_compute. discriminate.
Defined.

Example process_packet_correct_witness :
  exists s', process_packet 1 4224 example_kvs = (s', Ret tt)
    /\ read_key_from_packet (kmem s') 4224 = 7 /\ load64 (kmem s') 65536 = 7 * 2 ^ 56.
Proof.
  destruct (proj2 (process_packet_correct 1 example_kvs 4224 example_kvs_ok) 0 65536) as (s' & Hrun & _ & _ & Hv & _ & _ & _ & Hs & _).
  - apply example_request; [lia|lia|by vm_compute].
  - exists s'. split; [exact Hrun|]. rewrite Hv, Hs. split; vm_compute; reflexivity.
Defined.

Example process_packet_twice_witness :
  exists s1 s2, process_packet 1 4224 example_kvs = (s1, Ret tt)
    /\ process_packet 1 8192 s1 = (s2, Ret tt)
    /\ read_key_from_packet (kmem s2) 4224 = 7
    /\ read_key_from_packet (kmem s2) 8192 = 7 * 2 ^ 56.
Proof.
  destruct (process_packet_twice 1 example_kvs 4224 8192 0 65536 example_kvs_ok)
    as (s1 & s2 & H1 & H2 & Hv1 & Hv2 & _).
  - apply example_request; [lia|lia|by vm_compute].
  - apply example_request; [lia|lia|by vm_compute].
  - lia.
  - exists s1, s2. split; [exact H1|]. split; [exact H2|]. rewrite Hv1, Hv2.
    split; vm_compute; reflexivity.
Defined.

Example lcore_round_unknown_keys_witness :
  lcore_round 2 0 (fun st bufs => (st, Z.of_nat (length bufs))) [4096] example_kvs
  = (example_kvs, Ret tt).
Proof.
  apply lcore_round_unknown_keys; [done| |done].
  intros p ->%list_elem_of_singleton. eexists. split; [reflexivity|]. vm_compute. discriminate.
Defined.
