(* ===== verification/Mlx5Rx.v ===== *)
(** * The mlx5 receive path

    Models the single-packet receive queue of [drivers/net/mlx5]: filling the
    ring ([rxq_alloc_elts_sprq] of [mlx5_rxq.c]) and receiving a burst
    ([mlx5_rx_burst] of [mlx5_rxtx.c]) with the polling of plain and compressed
    completions, where CacheDirector moves each posted buffer to the LLC slice
    of its queue.

    The completion queue is its byte memory; its contents do not change under
    the burst.  The opcode constants come from the headers of rdma-core and are
    the class [Mlx5Prm].  [NDEBUG] is defined (no assertions), the soft counters
    are not, and the memory keys of the descriptors are left out. *)

From S2P Require Import Prelude Effects Bytes Slice Msr Mbuf MbufSlice MbufData MbufChain.

(** ** Packet types *)

Module RTE_PTYPE.
Definition UNKNOWN : Z := 0x0.
Definition L2_ETHER : Z := 0x1.
Definition L3_IPV4_EXT_UNKNOWN : Z := 0x90.
Definition L3_IPV6_EXT_UNKNOWN : Z := 0xe0.
Definition L4_TCP : Z := 0x100.
Definition L4_UDP : Z := 0x200.
Definition L4_FRAG : Z := 0x300.
Definition L4_NONFRAG : Z := 0x600.
Definition INNER_L3_IPV4_EXT_UNKNOWN : Z := 0x400000.
Definition INNER_L3_IPV6_EXT_UNKNOWN : Z := 0x600000.
Definition INNER_L4_TCP : Z := 0x1000000.
Definition INNER_L4_UDP : Z := 0x2000000.
Definition INNER_L4_FRAG : Z := 0x3000000.
Definition INNER_L4_NONFRAG : Z := 0x6000000.
Definition ALL_MASK : Z := 0xfffffff.
End RTE_PTYPE.
Import RTE_PTYPE.

Definition ptype (l : list Z) : Z := foldr Z.lor 0 l.

(** The assignments of [mlx5_set_ptype_table]; the other entries are
    [RTE_PTYPE_UNKNOWN], the last one keeps its initial value. *)
Definition ptype_entries : list (Z * Z) :=
  [(0x00, ptype [L2_ETHER]);
   (0x01, ptype [L2_ETHER; L3_IPV6_EXT_UNKNOWN; L4_NONFRAG]);
   (0x02, ptype [L2_ETHER; L3_IPV4_EXT_UNKNOWN; L4_NONFRAG]);
   (0x21, ptype [L2_ETHER; L3_IPV6_EXT_UNKNOWN; L4_FRAG]);
   (0x22, ptype [L2_ETHER; L3_IPV4_EXT_UNKNOWN; L4_FRAG]);
   (0x05, ptype [L2_ETHER; L3_IPV6_EXT_UNKNOWN; L4_TCP]);
   (0x06, ptype [L2_ETHER; L3_IPV4_EXT_UNKNOWN; L4_TCP]);
   (0x0d, ptype [L2_ETHER; L3_IPV6_EXT_UNKNOWN; L4_TCP]);
   (0x0e, ptype [L2_ETHER; L3_IPV4_EXT_UNKNOWN; L4_TCP]);
   (0x11, ptype [L2_ETHER; L3_IPV6_EXT_UNKNOWN; L4_TCP]);
   (0x12, ptype [L2_ETHER; L3_IPV4_EXT_UNKNOWN; L4_TCP]);
   (0x09, ptype [L2_ETHER; L3_IPV6_EXT_UNKNOWN; L4_UDP]);
   (0x0a, ptype [L2_ETHER; L3_IPV4_EXT_UNKNOWN; L4_UDP]);
   (0x81, ptype [L2_ETHER; L3_IPV6_EXT_UNKNOWN; L4_NONFRAG]);
   (0x82, ptype [L2_ETHER; L3_IPV4_EXT_UNKNOWN; L4_NONFRAG]);
   (0xa1, ptype [L2_ETHER; L3_IPV6_EXT_UNKNOWN; L4_FRAG]);
   (0xa2, ptype [L2_ETHER; L3_IPV4_EXT_UNKNOWN; L4_FRAG]);
   (0x85, ptype [L2_ETHER; L3_IPV6_EXT_UNKNOWN; L4_TCP]);
   (0x86, ptype [L2_ETHER; L3_IPV4_EXT_UNKNOWN; L4_TCP]);
   (0x8d, ptype [L2_ETHER; L3_IPV6_EXT_UNKNOWN; L4_TCP]);
   (0x8e, ptype [L2_ETHER; L3_IPV4_EXT_UNKNOWN; L4_TCP]);
   (0x91, ptype [L2_ETHER; L3_IPV6_EXT_UNKNOWN; L4_TCP]);
   (0x92, ptype [L2_ETHER; L3_IPV4_EXT_UNKNOWN; L4_TCP]);
   (0x89, ptype [L2_ETHER; L3_IPV6_EXT_UNKNOWN; L4_UDP]);
   (0x8a, ptype [L2_ETHER; L3_IPV4_EXT_UNKNOWN; L4_UDP]);
   (0x40, ptype [L2_ETHER; L3_IPV4_EXT_UNKNOWN]);
   (0x41, ptype [L2_ETHER; L3_IPV4_EXT_UNKNOWN; INNER_L3_IPV6_EXT_UNKNOWN; INNER_L4_NONFRAG]);
   (0x42, ptype [L2_ETHER; L3_IPV4_EXT_UNKNOWN; INNER_L3_IPV4_EXT_UNKNOWN; INNER_L4_NONFRAG]);
   (0xc0, ptype [L2_ETHER; L3_IPV6_EXT_UNKNOWN]);
   (0xc1, ptype [L2_ETHER; L3_IPV6_EXT_UNKNOWN; INNER_L3_IPV6_EXT_UNKNOWN; INNER_L4_NONFRAG]);
   (0xc2, ptype [L2_ETHER; L3_IPV6_EXT_UNKNOWN; INNER_L3_IPV4_EXT_UNKNOWN; INNER_L4_NONFRAG]);
   (0x61, ptype [L2_ETHER; L3_IPV4_EXT_UNKNOWN; INNER_L3_IPV6_EXT_UNKNOWN; INNER_L4_FRAG]);
   (0x62, ptype [L2_ETHER; L3_IPV4_EXT_UNKNOWN; INNER_L3_IPV4_EXT_UNKNOWN; INNER_L4_FRAG]);
   (0xe1, ptype [L2_ETHER; L3_IPV6_EXT_UNKNOWN; INNER_L3_IPV6_EXT_UNKNOWN; INNER_L4_FRAG]);
   (0xe2, ptype [L2_ETHER; L3_IPV6_EXT_UNKNOWN; INNER_L3_IPV4_EXT_UNKNOWN; INNER_L4_FRAG]);
   (0x45, ptype [L2_ETHER; L3_IPV4_EXT_UNKNOWN; INNER_L3_IPV6_EXT_UNKNOWN; INNER_L4_TCP]);
   (0x46, ptype [L2_ETHER; L3_IPV4_EXT_UNKNOWN; INNER_L3_IPV4_EXT_UNKNOWN; INNER_L4_TCP]);
   (0x4d, ptype [L2_ETHER; L3_IPV4_EXT_UNKNOWN; INNER_L3_IPV6_EXT_UNKNOWN; INNER_L4_TCP]);
   (0x4e, ptype [L2_ETHER; L3_IPV4_EXT_UNKNOWN; INNER_L3_IPV4_EXT_UNKNOWN; INNER_L4_TCP]);
   (0x51, ptype [L2_ETHER; L3_IPV4_EXT_UNKNOWN; INNER_L3_IPV6_EXT_UNKNOWN; INNER_L4_TCP]);
   (0x52, ptype [L2_ETHER; L3_IPV4_EXT_UNKNOWN; INNER_L3_IPV4_EXT_UNKNOWN; INNER_L4_TCP]);
   (0xc5, ptype [L2_ETHER; L3_IPV6_EXT_UNKNOWN; INNER_L3_IPV6_EXT_UNKNOWN; INNER_L4_TCP]);
   (0xc6, ptype [L2_ETHER; L3_IPV6_EXT_UNKNOWN; INNER_L3_IPV4_EXT_UNKNOWN; INNER_L4_TCP]);
   (0xcd, ptype [L2_ETHER; L3_IPV6_EXT_UNKNOWN; INNER_L3_IPV6_EXT_UNKNOWN; INNER_L4_TCP]);
   (0xce, ptype [L2_ETHER; L3_IPV6_EXT_UNKNOWN; INNER_L3_IPV4_EXT_UNKNOWN; INNER_L4_TCP]);
   (0xd1, ptype [L2_ETHER; L3_IPV6_EXT_UNKNOWN; INNER_L3_IPV6_EXT_UNKNOWN; INNER_L4_TCP]);
   (0xd2, ptype [L2_ETHER; L3_IPV6_EXT_UNKNOWN; INNER_L3_IPV4_EXT_UNKNOWN; INNER_L4_TCP]);
   (0x49, ptype [L2_ETHER; L3_IPV4_EXT_UNKNOWN; INNER_L3_IPV6_EXT_UNKNOWN; INNER_L4_UDP]);
   (0x4a, ptype [L2_ETHER; L3_IPV4_EXT_UNKNOWN; INNER_L3_IPV4_EXT_UNKNOWN; INNER_L4_UDP]);
   (0xc9, ptype [L2_ETHER; L3_IPV6_EXT_UNKNOWN; INNER_L3_IPV6_EXT_UNKNOWN; INNER_L4_UDP]);
   (0xca, ptype [L2_ETHER; L3_IPV6_EXT_UNKNOWN; INNER_L3_IPV4_EXT_UNKNOWN; INNER_L4_UDP])].

Definition assoc (l : list (Z * Z)) (k : Z) : option Z :=
  snd <$> head (filter (fun e => e.1 = k) l).

Definition mlx5_ptype_table (idx : Z) : Z :=
  if idx =? 0xff then ALL_MASK else default UNKNOWN (assoc ptype_entries idx).

(** ** Data *)

Class Mlx5Prm := {
  MLX5_CQE_OWNER_MASK : Z;
  MLX5_CQE_INVALID : Z;
  MLX5_CQE_RESP_ERR : Z;
}.

Definition MLX5_COMPRESSED : Z := 3.
Definition ETHER_CRC_LEN : Z := 4.
Definition ENOMEM : Z := 12.
Definition MLX5_VPMD_DESCS_PER_LOOP : nat := 4.
Definition MLX5_FLOW_MARK_DEFAULT : Z := 0xffffff.
Definition MLX5_CQE_VLAN_STRIPPED : Z := 1.
Definition MLX5_CQE_RX_L3_HDR_VALID : Z := Z.shiftl 1 9.
Definition MLX5_CQE_RX_L4_HDR_VALID : Z := Z.shiftl 1 10.
Definition PKT_RX_VLAN : Z := Z.shiftl 1 0.
Definition PKT_RX_RSS_HASH : Z := Z.shiftl 1 1.
Definition PKT_RX_FDIR : Z := Z.shiftl 1 2.
Definition PKT_RX_VLAN_STRIPPED : Z := Z.shiftl 1 6.
Definition PKT_RX_IP_CKSUM_GOOD : Z := Z.shiftl 1 7.
Definition PKT_RX_L4_CKSUM_GOOD : Z := Z.shiftl 1 8.
Definition PKT_RX_FDIR_ID : Z := Z.shiftl 1 13.
Definition PKT_RX_TIMESTAMP : Z := Z.shiftl 1 17.

Record rxq_zip := RxqZip {
  ai : Z;
  ca : Z;
  na : Z;
  zip_cq_ci : Z;
  zip_cqe_cnt : Z;
}.

(** [struct mlx5_rxq_data]: the fields of the receive path.  [cqes] is the
    memory of the completion queue, [wqe_addr] the address fields of the posted
    descriptors. *)
Record mlx5_rxq_data := RxqData {
  csum : bool;
  hw_timestamp : bool;
  vlan_strip : bool;
  crc_present : bool;
  sges_n : Z;
  cqe_n : Z;
  elts_n : Z;
  rss_hash : bool;
  mark : bool;
  rq_db : Z;
  cq_db : Z;
  port_id : Z;
  rq_ci : Z;
  cq_ci : Z;
  wqe_addr : list Z;
  cqes : Z -> Z;
  zip : rxq_zip;
  elts : list Z;
  rxq_mp : Z;
  idropped : Z;
  rx_nombuf : Z;
  mbuf_initializer : Z;
  queue_id : Z;
  tunnel : Z;
}.

(** Fields of the completion at byte [c] of the queue. *)
Definition cqe_field (off : Z) (n : nat) (q : Z -> Z) (c : Z) : Z :=
  le_value (range_bytes q (c + off) (Z.of_nat n)).
Definition pkt_info := cqe_field 0 1.
Definition rx_hash_res := cqe_field 12 4.
Definition hdr_type_etc := cqe_field 28 2.
Definition vlan_info := cqe_field 30 2.
Definition byte_cnt := cqe_field 44 4.
Definition cqe_timestamp := cqe_field 48 8.
Definition sop_drop_qpn := cqe_field 56 4.
Definition op_own := cqe_field 63 1.
(** [struct mlx5_mini_cqe8] at byte [c]. *)
Definition mini_rx_hash_result := cqe_field 0 4.
Definition mini_byte_cnt := cqe_field 4 4.
Definition sizeof_mlx5_cqe : Z := 64.

Section Poll.
Context `{!Mlx5Prm}.

Definition MLX5_CQE_OWNER (op : Z) : Z := Z.land op MLX5_CQE_OWNER_MASK.
Definition MLX5_CQE_FORMAT (op : Z) : Z := Z.shiftr (Z.land op 0xc) 2.
Definition MLX5_CQE_OPCODE (op : Z) : Z := Z.shiftr (Z.land op 0xf0) 4.
Definition MLX5_CQE_INVALIDATE : Z := Z.shiftl MLX5_CQE_INVALID 4.

(** [!!x] *)
Definition truth (x : Z) : Z := if x =? 0 then 0 else 1.

(** [check_cqe]: 1 when there is no completion. *)
Definition check_cqe (q : Z -> Z) (cqe cqes_n ci : Z) : Z :=
  let idx := u16 (Z.land (u16 ci) cqes_n) in
  let op := op_own q cqe in
  if negb (u8 (MLX5_CQE_OWNER op) =? truth idx) || (MLX5_CQE_OPCODE op =? MLX5_CQE_INVALID)
  then 1 else 0.

(** [while (idx != end) { cqes[idx & cqe_cnt].op_own = INVALIDATE; ++idx; }] on
    16-bit indices: [(end - idx) mod 2^16] rounds. *)
Fixpoint invalidate_n (n : nat) (idx cqe_cnt : Z) (q : Z -> Z) : Z -> Z :=
  match n with
  | O => q
  | S n =>
      invalidate_n n (idx +[16] 1) cqe_cnt
        (store_bytes q (sizeof_mlx5_cqe * Z.land idx cqe_cnt + 63) [u8 MLX5_CQE_INVALIDATE])
  end.
Definition invalidate (idx end_ cqe_cnt : Z) (q : Z -> Z) : Z -> Z :=
  invalidate_n (Z.to_nat (end_ -[16] idx)) idx cqe_cnt q.

(** [mlx5_rx_poll_len] for the completion at byte [cqe]; it returns the length
    and, for a compressed completion, the byte address of its mini CQE. *)
Definition mlx5_rx_poll_len (rxq : mlx5_rxq_data) (cqe cqe_cnt : Z)
  : mlx5_rxq_data * Z * option Z :=
  let z := zip rxq in
  if negb (ai z =? 0) then
    let mc := sizeof_mlx5_cqe * Z.land (ca z) cqe_cnt + 8 * Z.land (ai z) 7 in
    let len := s32 (bswap 4 (mini_byte_cnt (cqes rxq) mc)) in
    let z := z <| ai := ai z +[16] 1 |> in
    let rxq :=
      if Z.land (ai z) 7 =? 0
      then rxq <| cqes := invalidate (ca z) (na z) cqe_cnt (cqes rxq) |>
               <| zip := z <| ca := na z |> <| na := na z +[16] 8 |> |>
      else rxq <| zip := z |> in
    let z := zip rxq in
    let rxq :=
      if ai z =? zip_cqe_cnt z
      then rxq <| cqes := invalidate (ca z) (zip_cq_ci z) cqe_cnt (cqes rxq) |>
               <| cq_ci := zip_cq_ci z |> <| zip := z <| ai := 0 |> |>
      else rxq in
    (rxq, len, Some mc)
  else
    if check_cqe (cqes rxq) cqe (u16 (cqe_cnt + 1)) (cq_ci rxq) =? 1 then (rxq, 0, None) else
    let rxq := rxq <| cq_ci := cq_ci rxq +[32] 1 |> in
    let op := op_own (cqes rxq) cqe in
    let '(rxq, len, mcqe) :=
      if MLX5_CQE_FORMAT op =? MLX5_COMPRESSED then
        let mc := sizeof_mlx5_cqe * Z.land (cq_ci rxq) cqe_cnt in
        let cnt := bswap 4 (byte_cnt (cqes rxq) cqe) in
        let ca' := u16 (cq_ci rxq) in
        let rxq := rxq <| cq_ci := cq_ci rxq -[32] 1 |> in
        let len := s32 (bswap 4 (mini_byte_cnt (cqes rxq) mc)) in
        (rxq <| zip := RxqZip 1 ca' (ca' +[16] 7) (u16 (cq_ci rxq + cnt)) cnt |>, len, Some mc)
      else (rxq, s32 (bswap 4 (byte_cnt (cqes rxq) cqe)), None) in
    if MLX5_CQE_OPCODE op =? MLX5_CQE_RESP_ERR then (rxq, -1, mcqe) else (rxq, len, mcqe).
End Poll.

(** ** Filling in the packet *)

Definition rxq_cq_to_pkt_type (rxq : mlx5_rxq_data) (cqe : Z) : Z :=
  let pinfo := pkt_info (cqes rxq) cqe in
  let ptype := hdr_type_etc (cqes rxq) cqe in
  let idx := u8 (Z.lor (Z.shiftl (Z.land pinfo 3) 6) (Z.shiftr (Z.land ptype 0xfc00) 10)) in
  Z.lor (mlx5_ptype_table idx) (tunnel rxq *[32] truth (Z.land idx (Z.shiftl 1 6))).

Definition TRANSPOSE (val from to : Z) : Z :=
  if to <=? from then Z.land val from / (from / to) else Z.land val from * (to / from).

Definition rxq_cq_to_ol_flags (q : Z -> Z) (cqe : Z) : Z :=
  let flags := bswap 2 (hdr_type_etc q cqe) in
  Z.lor (TRANSPOSE flags MLX5_CQE_RX_L3_HDR_VALID PKT_RX_IP_CKSUM_GOOD)
        (TRANSPOSE flags MLX5_CQE_RX_L4_HDR_VALID PKT_RX_L4_CKSUM_GOOD).

Definition mlx5_flow_mark_get (val : Z) : Z := Z.shiftr val 8 -[32] 1.
(** [MLX5_FLOW_MARK_IS_VALID] on a little-endian machine *)
Definition MLX5_FLOW_MARK_IS_VALID (val : Z) : bool := negb (Z.land val 0xffffff00 =? 0).

Definition add_flags (f : Z) (m : rte_mbuf) : rte_mbuf := m <| ol_flags := Z.lor (ol_flags m) f |>.
(** [hash.rss] and [hash.fdir.hi] are the low and the high half of [hash]. *)
Definition set_hash_rss (v : Z) (m : rte_mbuf) : rte_mbuf :=
  m <| hash := Z.lor (Z.land (hash m) 0xffffffff00000000) v |>.
Definition set_hash_fdir_hi (v : Z) (m : rte_mbuf) : rte_mbuf :=
  m <| hash := Z.lor (Z.land (hash m) 0xffffffff) (Z.shiftl v 32) |>.

Definition rxq_cq_to_mbuf (rxq : mlx5_rxq_data) (cqe rss : Z) (pkt : rte_mbuf) : rte_mbuf :=
  let q := cqes rxq in
  let pkt := pkt <| packet_type := rxq_cq_to_pkt_type rxq cqe |> in
  let pkt := if negb (rss =? 0) && rss_hash rxq
             then add_flags PKT_RX_RSS_HASH (set_hash_rss rss pkt) else pkt in
  let pkt :=
    if mark rxq && MLX5_FLOW_MARK_IS_VALID (sop_drop_qpn q cqe) then
      let pkt := add_flags PKT_RX_FDIR pkt in
      if negb (sop_drop_qpn q cqe =? bswap 4 MLX5_FLOW_MARK_DEFAULT)
      then set_hash_fdir_hi (mlx5_flow_mark_get (sop_drop_qpn q cqe)) (add_flags PKT_RX_FDIR_ID pkt)
      else pkt
    else pkt in
  let pkt := if csum rxq then add_flags (rxq_cq_to_ol_flags q cqe) pkt else pkt in
  let pkt := if vlan_strip rxq
                && negb (Z.land (hdr_type_etc q cqe) (bswap 2 MLX5_CQE_VLAN_STRIPPED) =? 0)
             then (add_flags (Z.lor PKT_RX_VLAN PKT_RX_VLAN_STRIPPED) pkt)
                    <| vlan_tci := bswap 2 (vlan_info q cqe) |> else pkt in
  if hw_timestamp rxq
  then add_flags PKT_RX_TIMESTAMP (pkt <| timestamp := bswap 8 (cqe_timestamp q cqe) |>)
  else pkt.

(** ** Filling the ring *)

Record rx_state (P : Type) := RxState {
  rxq : mlx5_rxq_data;
  bufs : store P;
}.
Arguments RxState {P}.
Arguments rxq {P}.
Arguments bufs {P}.

Section Rx.
Context {P : Type} `{!MempoolOps P} `{!Mlx5Prm}.
Local Notation M := (comp (rx_state P)).

(** Operations on the packet buffers, and on the queue. *)
Definition on_bufs {A} (c : comp (store P) A) : M A := fun s =>
  let '(st, r) := c (bufs s) in (RxState (rxq s) st, r).
Definition set_rxq (f : mlx5_rxq_data -> mlx5_rxq_data) : M unit :=
  modify (fun s => RxState (f (rxq s)) (bufs s)).
Definition get_rxq : M mlx5_rxq_data := s ← get; mret (rxq s).

(** Entry [idx] of the array [rxq->elts], and [wqes[idx].addr]. *)
Definition get_elt (idx : Z) : M Z :=
  q ← get_rxq;
  match elts q !! Z.to_nat idx with Some p => mret p | None => ub end.
Definition set_elt (idx p : Z) : M unit :=
  q ← get_rxq;
  if (0 <=? idx) && (idx <? Z.of_nat (length (elts q)))
  then set_rxq (fun q => q <| elts := <[Z.to_nat idx := p]> (elts q) |>) else ub.
Definition set_wqe_addr (idx a : Z) : M unit :=
  q ← get_rxq;
  if (0 <=? idx) && (idx <? Z.of_nat (length (wqe_addr q)))
  then set_rxq (fun q => q <| wqe_addr := <[Z.to_nat idx := a]> (wqe_addr q) |>) else ub.

Definition slice_number (q : mlx5_rxq_data) : Z := queue_id q mod coreNumber.

(** The fields set in each buffer of the ring. *)
Definition init_elt (port_id off : Z) (m : rte_mbuf) : rte_mbuf :=
  let m := m <| data_off := off |> <| port := port_id |> in
  let m := m <| data_len := rte_pktmbuf_tailroom m |> in
  m <| pkt_len := data_len m |> <| nb_segs := 1 |>.

(** One round of the loop of [rxq_alloc_elts_sprq] (Haswell, no [UNCORE]);
    [true] when the pool is empty. *)
Definition alloc_elt (fuel : nat) (i : Z) : M bool :=
  q ← get_rxq;
  buf ← on_bufs (rte_pktmbuf_alloc (rxq_mp q));
  if buf =? NULL then mret true else
  (if negb (i mod Z.shiftl 1 (sges_n q) =? 0)
   then on_bufs (update buf (fun m => m <| data_off := 0 |>)) else mret tt) ;;
  m ← on_bufs (load buf);
  match sliceFinder_HF_haswell fuel (buf_iova m) (slice_number q) with
  | None => no_fuel
  | Some off =>
      on_bufs (update buf (init_elt (port_id q) off)) ;;
      set_elt i buf ;; mret false
  end.

(** The loop over the ring; the result is the index it stopped at. *)
Fixpoint alloc_elts (fuel n : nat) (i : Z) : M Z :=
  match n with
  | O => mret i
  | S n =>
      failed ← alloc_elt fuel i;
      if failed : bool then mret i else alloc_elts fuel n (i + 1)
  end.

(** The cleanup loop after [error:]. *)
Definition free_elt (i : nat) : M unit :=
  p ← get_elt (Z.of_nat i);
  (if negb (p =? NULL) then on_bufs (rte_pktmbuf_free_seg p) else mret tt) ;;
  set_elt (Z.of_nat i) NULL.
Definition free_elts (n : nat) : M unit := for_loop 0 n free_elt.

(** The padding of the ring when vectorized receive is on; [fake] is the
    address of [rxq->fake_mbuf], and [mbuf_initializer] holds its first eight
    bytes [data_off], [refcnt], [nb_segs], [port]. *)
Definition init_vector (fake : Z) : M unit :=
  q ← get_rxq;
  on_bufs (update fake (fun m => m <| data_off := RTE_PKTMBUF_HEADROOM |>)) ;;
  on_bufs (rte_mbuf_refcnt_set fake 1) ;;
  on_bufs (update fake (fun m => m <| nb_segs := 1 |> <| port := port_id q |>)) ;;
  m ← on_bufs (load fake);
  set_rxq (fun q => q <| mbuf_initializer :=
    data_off m + Z.shiftl (refcnt m) 16 + Z.shiftl (nb_segs m) 32 + Z.shiftl (port m) 48 |>) ;;
  for_loop 0 MLX5_VPMD_DESCS_PER_LOOP (fun j =>
    set_elt (Z.shiftl 1 (elts_n q) + Z.of_nat j) fake).

Definition rxq_alloc_elts_sprq (fuel : nat) (vec_support fake : Z) : M Z :=
  q ← get_rxq;
  let n := Z.shiftl 1 (elts_n q) in
  i ← alloc_elts fuel (Z.to_nat n) 0;
  if i <? n then free_elts (Z.to_nat i) ;; mret (- ENOMEM)
  else
    (if 0 <? vec_support then init_vector fake else mret tt) ;;
    mret 0.

(** ** Receiving a burst *)

(** The local variables of [mlx5_rx_burst]. *)
Record rx_locals := RxLocals {
  l_pkt : Z;
  l_seg : Z;
  l_rq_ci : Z;
  l_len : Z;
  l_pkts_n : Z;
  l_pkts : list Z;
}.

(** The loop that gives an incomplete packet back when the pool is empty. *)
Definition free_partial (fuel : nat) (pkt seg : Z) : M unit :=
  comp_loop (fun pkt =>
    if negb (pkt =? seg) then
      m ← on_bufs (load pkt);
      let rep := next m in
      on_bufs (update pkt (fun m => m <| next := NULL |>)) ;;
      on_bufs (update pkt (fun m => m <| nb_segs := 1 |>)) ;;
      on_bufs (rte_mbuf_raw_free pkt) ;;
      mret (inl rep)
    else mret (inr tt)) fuel pkt.

(** [skip:], aligning the consumer index to the next stride *)
Definition rx_skip (sges_n : Z) (l : rx_locals) : rx_locals :=
  l <| l_rq_ci := (Z.shiftr (l_rq_ci l) sges_n +[32] 1) <<[32] sges_n |>.

(** [rep] takes the place of the segment described by [s] in entry [idx] of the
    ring, on the slice of the queue, and is posted to the NIC. *)
Definition post_buffer (slice_number idx rep : Z) (s : rte_mbuf) : M unit :=
  on_bufs (update rep (fun m => m <| data_len := data_len s |> <| pkt_len := pkt_len s |>
                                  <| data_off := data_off s |> <| port := port s |>)) ;;
  set_elt idx rep ;;
  on_bufs (update rep (rte_pktmbuf_set_slice slice_number)) ;;
  r ← on_bufs (load rep);
  set_wqe_addr idx (bswap 8 (rte_pktmbuf_mtod_offset r 0)).

(** From the replacement of the buffer on: [rep] takes the place of [l_seg]. *)
Definition rx_replace (slice_number idx rep : Z) (l : rx_locals) : M (rx_locals + rx_locals) :=
  let seg := l_seg l in
  s ← on_bufs (load seg);
  post_buffer slice_number idx rep s ;;
  s ← on_bufs (load seg);
  q ← get_rxq;
  if data_len s <? l_len l then
    on_bufs (update (l_pkt l) (fun m => m <| nb_segs := nb_segs m +[16] 1 |>)) ;;
    mret (inl (l <| l_len := l_len l - data_len s |> <| l_rq_ci := l_rq_ci l +[32] 1 |>))
  else
    on_bufs (update seg (fun m => m <| data_len := u16 (l_len l) |>)) ;;
    mret (inl (rx_skip (sges_n q)
      (l <| l_pkts := l_pkts l ++ [l_pkt l] |> <| l_pkt := NULL |> <| l_pkts_n := l_pkts_n l - 1 |>))).

(** Polling the completion at byte [cqe]. *)
Definition poll_len (cqe cqe_cnt : Z) : M (Z * option Z) := fun s =>
  let '(q, len, mcqe) := mlx5_rx_poll_len (rxq s) cqe cqe_cnt in
  (RxState q (bufs s), Ret (len, mcqe)).

(** One round of [while (pkts_n)]. *)
Definition rx_round (fuel : nat) (l : rx_locals) : M (rx_locals + rx_locals) :=
  if l_pkts_n l =? 0 then mret (inr l) else
  q ← get_rxq;
  let wqe_cnt := Z.shiftl 1 (elts_n q) - 1 in
  let cqe_cnt := Z.shiftl 1 (cqe_n q) - 1 in
  let idx := Z.land (l_rq_ci l) wqe_cnt in
  rep ← get_elt idx;
  (if negb (l_pkt l =? NULL)
   then on_bufs (update (l_seg l) (fun m => m <| next := rep |>)) else mret tt) ;;
  let l := l <| l_seg := rep |> in
  rep ← on_bufs (rte_mbuf_raw_alloc (rxq_mp q));
  if rep =? NULL then
    set_rxq (fun q => q <| rx_nombuf := rx_nombuf q +[64] 1 |>) ;;
    (if l_pkt l =? NULL then mret tt else free_partial fuel (l_pkt l) (l_seg l)) ;;
    mret (inr l)
  else if l_pkt l =? NULL then
    let cqe := sizeof_mlx5_cqe * Z.land (cq_ci q) cqe_cnt in
    '(len, mcqe) ← poll_len cqe cqe_cnt;
    q' ← get_rxq;
    if len =? 0 then on_bufs (rte_mbuf_raw_free rep) ;; mret (inr (l <| l_len := len |>))
    else if len =? -1 then
      on_bufs (rte_mbuf_raw_free rep) ;;
      set_rxq (fun q => q <| idropped := idropped q +[64] 1 |>) ;;
      mret (inl (rx_skip (sges_n q) (l <| l_len := len |>)))
    else
      let pkt := l_seg l in
      on_bufs (update pkt (fun m => m <| ol_flags := 0 |>)) ;;
      let rss := bswap 4 (match mcqe with
                          | None => rx_hash_res (cqes q') cqe
                          | Some mc => mini_rx_hash_result (cqes q') mc
                          end) in
      on_bufs (update pkt (rxq_cq_to_mbuf q' cqe rss)) ;;
      let len := if crc_present q then len - ETHER_CRC_LEN else len in
      on_bufs (update pkt (fun m => m <| pkt_len := u32 len |>)) ;;
      rx_replace (slice_number q) idx rep (l <| l_pkt := pkt |> <| l_len := len |>)
  else rx_replace (slice_number q) idx rep l.

(** The packets received; their number is the return value. *)
Definition mlx5_rx_burst (fuel : nat) (pkts_n : Z) : M (list Z) :=
  q ← get_rxq;
  l ← comp_loop (rx_round fuel) fuel
        (RxLocals NULL NULL (rq_ci q <<[32] sges_n q) 0 pkts_n []);
  let rq_ci' := Z.shiftr (l_rq_ci l) (sges_n q) in
  if (Z.of_nat (length (l_pkts l)) =? 0) && (rq_ci' =? rq_ci q) then mret []
  else
    set_rxq (fun q => q <| rq_ci := rq_ci' |> <| cq_db := bswap 4 (cq_ci q) |>
                        <| rq_db := bswap 4 rq_ci' |>) ;;
    mret (l_pkts l).
End Rx.

(** ** Buffers that stay on their slice *)

(** The structure was initialised by [rte_pktmbuf_slice_init]. *)
Definition slice_ready (m : rte_mbuf) : Prop :=
  in_range 64 (buf_iova m)
  /\ forall s, 0 <= s < 8 -> slice_off m s = slice_distance (buf_iova m) s.

(** The data of the buffer starts on its line of slice [k]. *)
Definition steered (k : Z) (m : rte_mbuf) : Prop := data_off m = data_off (rte_pktmbuf_set_slice k m).

(** The fields that receiving never changes. *)
Definition same_buffer (m m' : rte_mbuf) : Prop :=
  buf_addr m = buf_addr m' /\ buf_iova m = buf_iova m' /\ udata64 m = udata64 m'.

#[export] Instance same_buffer_equivalence : Equivalence same_buffer.
Proof.
  split; unfold same_buffer.
  - by intros x.
  - by intros x y (-> & -> & ->).
  - by intros x y z (-> & -> & ->) (-> & -> & ->).
Qed.

#[export] Instance slice_ready_proper : Proper (same_buffer ==> iff) slice_ready.
Proof.
  intros m m' (Ha & Hi & Hu). unfold slice_ready, slice_off. by rewrite Hi, Hu.
Qed.

#[export] Instance set_slice_off_proper k :
  Proper (same_buffer ==> eq) (fun m => data_off (rte_pktmbuf_set_slice k m)).
Proof.
  intros m m' (Ha & Hi & Hu). unfold rte_pktmbuf_set_slice, slice_off. rewrite Hu.
  by destruct (_ && _).
Qed.

(** The address posted for a buffer on slice [k]. *)
Definition slice_addr (k : Z) (m : rte_mbuf) : Z :=
  bswap 8 (u64 (buf_addr m + data_off (rte_pktmbuf_set_slice k m) + 0)).

#[export] Instance slice_addr_proper k : Proper (same_buffer ==> eq) (slice_addr k).
Proof.
  intros m m' H. unfold slice_addr. rewrite (set_slice_off_proper k _ _ H).
  by destruct H as (-> & _).
Qed.

Lemma set_slice_same k m : same_buffer (rte_pktmbuf_set_slice k m) m.
Proof. unfold rte_pktmbuf_set_slice. by destruct (_ && _). Qed.

Lemma steered_slice k m :
  0 <= k < 8 -> slice_ready m -> steered k m ->
  calculateSlice_HF_haswell (rte_pktmbuf_iova_offset m 0) = k.
Proof.
  intros Hk [Hio Hs] Hst. unfold rte_pktmbuf_iova_offset. rewrite Hst, Z.add_0_r.
  unfold rte_pktmbuf_set_slice. destruct (Z.leb_spec 0 k), (Z.leb_spec k 7); try lia. simpl.
  destruct (slice_distance_spec (buf_iova m) k) as (Hd & Hhit & _); [apply Hio|done|].
  rewrite Hs by done. cbv iota. simpl data_off. rewrite (wrap_small 16) by (unfold in_range; lia).
  pose proof Hio as [Hio0 _]. rewrite (Z.mul_comm _ 64), slice_at_offset by lia. exact Hhit.
Qed.

(** ** The receive queue keeps its buffers on its slice *)

Section RxInvariant.
Context {P : Type} `{OPS : !MempoolOps P} `{PRM : !Mlx5Prm}.
Context (k : Z) (Hk : 0 <= k < 8).
Implicit Types (s : rx_state P) (m : rte_mbuf).

Definition steered_at (s : rx_state P) (p : Z) : Prop :=
  exists m, mbufs (bufs s) !! p = Some m /\ steered k m.

(** Every structure of the store is initialised, every buffer in the ring is on
    slice [k] and posted with its address there; so are the buffers of [l]. *)
Record rx_inv (l : list Z) (s : rx_state P) : Prop := RxInv {
  inv_slice : slice_number (rxq s) = k;
  inv_ready : forall p m, mbufs (bufs s) !! p = Some m -> slice_ready m;
  inv_ring : forall i p, elts (rxq s) !! i = Some p -> steered_at s p
    /\ exists m, mbufs (bufs s) !! p = Some m /\ wqe_addr (rxq s) !! i = Some (slice_addr k m);
  inv_list : forall p, p ∈ l -> steered_at s p;
}.

(** Changing structures without moving a buffer. *)
Lemma rx_inv_mbufs l s st' :
  rx_inv l s ->
  (forall p m', mbufs st' !! p = Some m' -> exists m, mbufs (bufs s) !! p = Some m
     /\ same_buffer m' m /\ data_off m' = data_off m) ->
  (forall p m, mbufs (bufs s) !! p = Some m -> is_Some (mbufs st' !! p)) ->
  rx_inv l (RxState (rxq s) st').
Proof using.
  intros [Hs Hr Hring Hl] Hback Hforw.
  assert (forall p, steered_at s p -> steered_at (RxState (rxq s) st') p) as Hst.
  { intros p (m & Hm & Hk'). destruct (Hforw _ _ Hm) as [m' Hm'].
    destruct (Hback _ _ Hm') as (m2 & Hm2 & Hsame & Hoff). simplify_eq.
    exists m'. split; [done|]. unfold steered in *. by rewrite Hoff, (set_slice_off_proper k _ _ Hsame). }
  split; simpl.
  - done.
  - intros p m' Hm'. destruct (Hback _ _ Hm') as (m & Hm & Hsame & _). rewrite Hsame. eauto.
  - intros i p Hi. destruct (Hring _ _ Hi) as (Hp & m & Hm & Ha). split; [by apply Hst|].
    destruct (Hforw _ _ Hm) as [m' Hm']. destruct (Hback _ _ Hm') as (m2 & Hm2 & Hsame & _).
    simplify_eq. exists m'. split; [done|]. by rewrite (slice_addr_proper k _ _ Hsame).
  - auto.
Qed.

Lemma update_step p f l :
  (forall m, same_buffer (f m) m /\ data_off (f m) = data_off m) ->
  hoare (rx_inv l) (on_bufs (update p f)) (fun _ => rx_inv l).
Proof using.
  intros Hf s s' [] Hinv Hrun. unfold on_bufs in Hrun.
  destruct (mbufs (bufs s) !! p) as [m|] eqn:Hm.
  - rewrite (update_ok _ _ _ _ Hm) in Hrun. injection Hrun as <-.
    apply rx_inv_mbufs; [done| |]; simpl.
    + intros q m'. destruct (decide (p = q)) as [->|Hne].
      * rewrite lookup_insert_eq. intros [= <-]. exists m. split; [done|apply Hf].
      * rewrite lookup_insert_ne by done. intros Hq. by exists m'.
    + intros q m'. destruct (decide (p = q)) as [->|Hne].
      * by rewrite lookup_insert_eq.
      * rewrite lookup_insert_ne by done. by intros ->.
  - unfold update, load, mbind, comp_bind, get in Hrun. by rewrite Hm in Hrun.
Qed.

(** Steps that leave the structures alone. *)
Lemma pools_step {A} (c : comp (store P) A) l :
  (forall st st' r, c st = (st', r) -> mbufs st' = mbufs st) ->
  hoare (rx_inv l) (on_bufs c) (fun _ => rx_inv l).
Proof using.
  intros Hc s s' a Hinv Hrun. unfold on_bufs in Hrun.
  destruct (c (bufs s)) as [st' r] eqn:E. injection Hrun as <- ->.
  specialize (Hc _ _ _ E). apply rx_inv_mbufs; [done| |]; rewrite Hc; eauto.
  intros p m' Hm. by exists m'.
Qed.

Lemma raw_alloc_step mp l : hoare (rx_inv l) (on_bufs (rte_mbuf_raw_alloc mp)) (fun _ => rx_inv l).
Proof using.
  apply pools_step. intros st st' r. unfold rte_mbuf_raw_alloc, mbind, comp_bind, get.
  destruct (mp_get (pools st) mp) as [p' o]. by intros [= <- <-].
Qed.

Lemma load_mbufs p (st st' : store P) r : load p st = (st', r) -> st' = st.
Proof using.
  unfold load, mbind, comp_bind, get. destruct (mbufs st !! p); by intros [= <- <-].
Qed.

Lemma raw_free_step p l : hoare (rx_inv l) (on_bufs (rte_mbuf_raw_free p)) (fun _ => rx_inv l).
Proof using.
  apply pools_step. intros st st' r. unfold rte_mbuf_raw_free, mbind, comp_bind.
  destruct (load p st) as [st1 o] eqn:E. apply load_mbufs in E as ->.
  by destruct o; intros [= <- <-].
Qed.

Lemma load_step p l :
  hoare (rx_inv l) (on_bufs (load p)) (fun m s => rx_inv l s /\ mbufs (bufs s) !! p = Some m).
Proof using.
  intros s s' m Hinv Hrun. unfold on_bufs in Hrun. destruct (load p (bufs s)) as [st r] eqn:E.
  pose proof (load_mbufs _ _ _ _ E) as ->. injection Hrun as <- ->.
  destruct s as [q st]. split; [done|]. unfold load, mbind, comp_bind, get, mret, comp_ret in E. simpl in *.
  destruct (mbufs st !! p) as [m0|]; [|done]. by injection E as ->.
Qed.

Lemma set_rxq_step f l :
  (forall q, slice_number (f q) = slice_number q /\ elts (f q) = elts q /\ wqe_addr (f q) = wqe_addr q) ->
  hoare (rx_inv l) (set_rxq f) (fun _ => rx_inv l).
Proof using.
  intros Hf. apply hoare_modify. intros s [H1 H2 H3 H4].
  destruct (Hf (rxq s)) as (E1 & E2 & E3). split; simpl; try done.
  - by rewrite E1.
  - intros i p. rewrite E2, E3. apply H3.
Qed.

Lemma get_rxq_step l :
  hoare (rx_inv l) get_rxq (fun q s => slice_number q = k /\ rx_inv l s).
Proof using. intros s s' q Hinv [= <- <-]. split; [by apply Hinv|done]. Qed.

Lemma get_elt_step idx l :
  hoare (rx_inv l) (get_elt idx) (fun p s => rx_inv l s /\ steered_at s p).
Proof using.
  intros s s' p Hinv Hrun. unfold get_elt, get_rxq, mbind, comp_bind, get, mret, comp_ret in Hrun.
  destruct (elts (rxq s) !! Z.to_nat idx) as [q|] eqn:E; [|done]. injection Hrun as <- <-.
  split; [done|]. by apply (inv_ring _ _ Hinv _ _ E).
Qed.

(** Polling does not touch the ring. *)
Lemma poll_keeps q cqe cnt q' len mc :
  mlx5_rx_poll_len q cqe cnt = (q', len, mc) ->
  slice_number q' = slice_number q /\ elts q' = elts q /\ wqe_addr q' = wqe_addr q.
Proof using.
  unfold mlx5_rx_poll_len. destruct (negb _).
  - intros [= <- _ _]. destruct (Z.land _ 7 =? 0); destruct (_ =? _); done.
  - destruct (check_cqe _ _ _ _ =? 1); [by intros [= <- _ _]|].
    destruct (MLX5_CQE_FORMAT _ =? _); destruct (MLX5_CQE_OPCODE _ =? _); by intros [= <- _ _].
Qed.

Lemma rx_inv_sub l l' s : (forall p, p ∈ l' -> p ∈ l) -> rx_inv l s -> rx_inv l' s.
Proof using. intros Hsub [H1 H2 H3 H4]. split; auto. Qed.

Lemma rx_inv_add l p s : rx_inv l s -> steered_at s p -> rx_inv (l ++ [p]) s.
Proof using.
  intros [H1 H2 H3 H4] Hp. split; try done.
  intros q [Hq|Hq%list_elem_of_singleton]%elem_of_app; [auto|by subst].
Qed.

Lemma update_inv p f (s s' : rx_state P) u :
  on_bufs (update p f) s = (s', Ret u) ->
  exists m, mbufs (bufs s) !! p = Some m /\ s' = RxState (rxq s) (with_mbuf p (f m) (bufs s)).
Proof using.
  unfold on_bufs. intros H. destruct (mbufs (bufs s) !! p) as [m|] eqn:Hm.
  - rewrite (update_ok _ _ _ _ Hm) in H. injection H as <- _. by exists m.
  - unfold update, load, mbind, comp_bind, get in H. by rewrite Hm in H.
Qed.

Lemma set_elt_inv i p (s s' : rx_state P) u :
  set_elt i p s = (s', Ret u) ->
  s' = RxState ((rxq s) <| elts := <[Z.to_nat i := p]> (elts (rxq s)) |>) (bufs s).
Proof using.
  unfold set_elt, get_rxq, mbind, comp_bind, get, mret, comp_ret.
  destruct (_ && _); [|done]. by intros [= <-].
Qed.

Lemma set_wqe_inv i a (s s' : rx_state P) u :
  set_wqe_addr i a s = (s', Ret u) ->
  0 <= i < Z.of_nat (length (wqe_addr (rxq s)))
  /\ s' = RxState ((rxq s) <| wqe_addr := <[Z.to_nat i := a]> (wqe_addr (rxq s)) |>) (bufs s).
Proof using.
  unfold set_wqe_addr, get_rxq, mbind, comp_bind, get, mret, comp_ret.
  destruct (Z.leb_spec 0 i), (Z.ltb_spec i (Z.of_nat (length (wqe_addr (rxq s)))));
    try done. by intros [= <-].
Qed.

(** The state after a buffer of structure [m] was posted in place [i]. *)
Lemma rx_inv_posted l s rep m f i :
  rx_inv l s -> mbufs (bufs s) !! rep = Some m -> same_buffer (f m) m ->
  0 <= i < Z.of_nat (length (wqe_addr (rxq s))) ->
  let m2 := rte_pktmbuf_set_slice k (f m) in
  rx_inv l (RxState
    ((rxq s) <| elts := <[Z.to_nat i := rep]> (elts (rxq s)) |>
           <| wqe_addr := <[Z.to_nat i := bswap 8 (rte_pktmbuf_mtod_offset m2 0)]> (wqe_addr (rxq s)) |>)
    (with_mbuf rep m2 (bufs s))).
Proof using.
  intros [H1 H2 H3 H4] Hm Hf Hlen m2.
  assert (same_buffer m2 m) as Hm2 by (unfold m2; by rewrite set_slice_same, Hf).
  assert (steered k m2) as Hst by (unfold steered, m2; by rewrite (set_slice_off_proper k _ _ (set_slice_same k (f m)))).
  assert (forall p, steered_at s p -> steered_at (RxState (rxq s) (with_mbuf rep m2 (bufs s))) p) as Hkeep.
  { intros p (mp & Hp & Hsp). destruct (decide (rep = p)) as [->|Hne].
    - exists m2. split; [apply lookup_insert_eq|done].
    - exists mp. split; [|done]. simpl. by rewrite lookup_insert_ne. }
  split; simpl.
  - done.
  - intros p mp. destruct (decide (rep = p)) as [->|Hne].
    + rewrite lookup_insert_eq. intros [= <-]. rewrite Hm2. eauto.
    + rewrite lookup_insert_ne by done. eauto.
  - intros j p Hj. destruct (decide (j = Z.to_nat i)) as [->|Hne].
    + apply list_lookup_insert_Some in Hj as [(_ & <- & _)|[]]; [|done]. split.
      * exists m2. split; [apply lookup_insert_eq|done].
      * exists m2. split; [apply lookup_insert_eq|]. rewrite list_lookup_insert_eq by lia.
        f_equal. unfold slice_addr, rte_pktmbuf_mtod_offset. by rewrite <- Hst.
    + rewrite list_lookup_insert_ne in Hj by done. destruct (H3 _ _ Hj) as (Hp & mp & Hmp & Ha).
      split; [by apply Hkeep|]. rewrite list_lookup_insert_ne by done.
      destruct (decide (rep = p)) as [->|Hnp].
      * exists m2. split; [apply lookup_insert_eq|]. simplify_eq.
        by rewrite (slice_addr_proper k _ _ Hm2).
      * exists mp. split; [|done]. by rewrite lookup_insert_ne.
  - intros p Hp. by apply Hkeep, H4.
Qed.

Lemma post_buffer_step i rep sm l :
  hoare (rx_inv l) (post_buffer k i rep sm) (fun _ => rx_inv l).
Proof using.
  intros s s' u Hinv Hrun. unfold post_buffer in Hrun.
  apply bind_ret_inv in Hrun as (s1 & u1 & H1 & Hrun).
  apply update_inv in H1 as (m & Hm & ->).
  apply bind_ret_inv in Hrun as (s2 & u2 & H2 & Hrun). apply set_elt_inv in H2 as ->.
  apply bind_ret_inv in Hrun as (s3 & u3 & H3 & Hrun).
  apply update_inv in H3 as (m1 & Hm1 & ->). simpl in Hm1.
  rewrite lookup_insert_eq in Hm1. injection Hm1 as <-. simpl rxq in Hrun.
  apply bind_ret_inv in Hrun as (s4 & r & H4 & Hrun).
  unfold on_bufs in H4. simpl bufs in H4. rewrite (load_ok _ _ _ (with_mbuf_lookup rep _ _)) in H4.
  injection H4 as <- <-. apply set_wqe_inv in Hrun as [Hlen ->]. simpl rxq in *. simpl bufs in *.
  rewrite with_mbuf_twice. apply (rx_inv_posted l s rep m (fun m => m <| data_len := data_len sm |>
    <| pkt_len := pkt_len sm |> <| data_off := data_off sm |> <| port := port sm |>)); try done.
Qed.

(** The buffers the loop holds: the packets received and the one in progress. *)
Definition held (l : rx_locals) : list Z :=
  l_pkts l ++ (if l_pkt l =? NULL then [] else [l_pkt l]).

Definition round_post (r : rx_locals + rx_locals) (s : rx_state P) : Prop :=
  match r with inl l | inr l => rx_inv (held l) s end.

Lemma rx_replace_step i rep l :
  hoare (rx_inv (l_pkts l ++ [l_pkt l])) (rx_replace k i rep l) round_post.
Proof using.
  unfold rx_replace.
  eapply hoare_bind; [apply load_step|]. intros sm.
  eapply hoare_bind; [intros s s' u [Hinv _]; by apply post_buffer_step|]. intros [].
  eapply hoare_bind; [apply load_step|]. intros sm2.
  eapply hoare_bind; [intros s s' q [Hinv _]; by apply get_rxq_step|]. intros q.
  destruct (data_len sm2 <? l_len l).
  - eapply hoare_bind; [intros s s' u [_ Hinv]; by apply update_step|]. intros [].
    apply hoare_ret. intros s. apply rx_inv_sub. unfold held. simpl.
    intros p. rewrite !elem_of_app. destruct (l_pkt l =? NULL); [|done].
    intros [|H%elem_of_nil]; [by left|done].
  - eapply hoare_bind; [intros s s' u [_ Hinv]; by apply update_step|]. intros [].
    apply hoare_ret. intros s. apply rx_inv_sub. unfold held. simpl.
    intros p. by rewrite app_nil_r.
Qed.

Lemma free_partial_step fuel pkt seg l :
  hoare (rx_inv l) (free_partial fuel pkt seg) (fun _ => rx_inv l).
Proof using.
  unfold free_partial. apply (hoare_loop (fun _ => rx_inv l)). intros x.
  destruct (negb _); [|by apply hoare_ret].
  eapply hoare_bind; [apply load_step|]. intros m.
  eapply hoare_bind; [intros s s' u [Hinv _]; by apply update_step|]. intros [].
  apply hoare_seq; [by apply update_step|]. intros [].
  apply hoare_seq; [apply raw_free_step|]. intros []. by apply hoare_ret.
Qed.

(** The fields that [rxq_cq_to_mbuf] sets do not move the buffer. *)
Lemma cq_to_mbuf_same q c rss m :
  same_buffer (rxq_cq_to_mbuf q c rss m) m
  /\ data_off (rxq_cq_to_mbuf q c rss m) = data_off m.
Proof using.
  unfold rxq_cq_to_mbuf, add_flags, set_hash_rss, set_hash_fdir_hi, same_buffer. cbv zeta.
  repeat match goal with |- context [if ?b then _ else _] => destruct b end; done.
Qed.

Lemma link_step l p seg :
  hoare (fun s => rx_inv l s /\ steered_at s seg)
    (if negb (l_pkt p =? NULL)
     then on_bufs (update (l_seg p) (fun m => m <| next := seg |>)) else mret tt)
    (fun _ => rx_inv (l ++ [seg])).
Proof using.
  apply (hoare_pre (rx_inv (l ++ [seg]))); [intros s []; by apply rx_inv_add|].
  destruct (negb _); [by apply update_step|by apply hoare_ret].
Qed.

Lemma poll_step l c n : hoare (rx_inv l) (poll_len c n) (fun _ => rx_inv l).
Proof using.
  intros s s' [len mc] Hinv Hrun. unfold poll_len in Hrun.
  destruct (mlx5_rx_poll_len _ _ _) as [[q' len'] mc'] eqn:E. injection Hrun as <- _ _.
  apply poll_keeps in E as (E1 & E2 & E3). destruct Hinv as [H1 H2 H3 H4]. split; simpl; try done.
  - by rewrite E1.
  - intros i p. rewrite E2, E3. apply H3.
Qed.

Lemma rx_round_step fuel l : hoare (rx_inv (held l)) (rx_round fuel l) round_post.
Proof using.
  unfold rx_round. destruct (l_pkts_n l =? 0); [by apply hoare_ret|].
  eapply hoare_bind; [apply get_rxq_step|]. intros q. apply hoare_pure. intros Hq.
  eapply hoare_bind; [apply get_elt_step|]. intros seg.
  eapply hoare_bind; [apply link_step|]. intros [].
  eapply hoare_bind; [apply raw_alloc_step|]. intros rep.
  assert (forall s, rx_inv (held l ++ [seg]) s -> rx_inv (held l) s) as Hdrop
    by (intros s; apply rx_inv_sub; intros p Hp; apply elem_of_app; by left).
  assert (forall q l' len, l_pkts l' = l_pkts l -> l_pkt l' = l_pkt l ->
    rx_inv (held l ++ [seg]) q -> rx_inv (held (l' <| l_len := len |>)) q) as Hheld.
  { intros s l' len E1 E2 Hs. apply Hdrop in Hs. unfold held in *. simpl. by rewrite E1, E2. }
  destruct (rep =? NULL).
  { apply hoare_seq; [by apply set_rxq_step|]. intros [].
    apply hoare_seq; [destruct (_ =? _); [by apply hoare_ret|apply free_partial_step]|].
    intros []. apply hoare_ret. intros s. apply Hdrop. }
  rewrite Hq. change (l_pkt (l <| l_seg := seg |>)) with (l_pkt l).
  assert (held l = l_pkts l ++ (if l_pkt l =? NULL then [] else [l_pkt l])) as Eheld by done.
  destruct (l_pkt l =? NULL).
  2: { eapply hoare_pre; [|apply rx_replace_step]. intros s Hs. simpl.
       rewrite <- Eheld. by apply Hdrop. }
  eapply hoare_bind; [apply poll_step|]. intros [len mcqe].
  eapply hoare_bind; [apply get_rxq_step|]. intros q'. apply hoare_pure. intros _.
  destruct (len =? 0).
  { apply hoare_seq; [apply raw_free_step|]. intros []. apply hoare_ret. intros s.
    by apply Hheld. }
  destruct (len =? -1).
  { apply hoare_seq; [apply raw_free_step|]. intros [].
    apply hoare_seq; [by apply set_rxq_step|]. intros []. apply hoare_ret. intros s.
    by apply (Hheld s (rx_skip (sges_n q) l) len). }
  apply hoare_seq; [by apply update_step|]. intros [].
  apply hoare_seq; [apply update_step; intros m; apply cq_to_mbuf_same|]. intros [].
  apply hoare_seq; [by apply update_step|]. intros [].
  eapply hoare_pre; [|apply rx_replace_step]. intros s. simpl.
  by rewrite Eheld, app_nil_r.
Qed.

Lemma rx_burst_step fuel n :
  hoare (rx_inv []) (mlx5_rx_burst fuel n) (fun pkts s => rx_inv pkts s).
Proof using.
  unfold mlx5_rx_burst. eapply hoare_bind; [apply get_rxq_step|]. intros q. apply hoare_pure. intros _.
  eapply hoare_bind.
  { apply (hoare_pre (rx_inv (held (RxLocals NULL NULL (rq_ci q <<[32] sges_n q) 0 n [])))); [done|].
    apply (hoare_loop (fun l => rx_inv (held l)) (fun l => rx_inv (held l))). intros l.
    apply rx_round_step. }
  intros l. cbv beta zeta.
  destruct ((Z.of_nat (length (l_pkts l)) =? 0) && _) eqn:E.
  - apply hoare_ret. intros s. apply rx_inv_sub. intros p Hp. by apply elem_of_nil in Hp.
  - apply hoare_seq; [by apply set_rxq_step|]. intros []. apply hoare_ret.
    intros s. apply rx_inv_sub. intros p Hp. apply elem_of_app. by left.
Qed.
End RxInvariant.

(** C2. CacheDirector's receive path: when every buffer structure was initialised
    and every buffer of the ring is posted on the LLC slice of the queue
    ([queue_id mod 8]), a burst, whatever the completions in the queue (plain,
    compressed or with errors, single or scattered packets, an empty pool),
    returns packets whose data starts on that slice, and leaves a ring whose
    buffers are all posted on that slice. *)
Theorem rx_burst_on_slice {P} `{!MempoolOps P} `{!Mlx5Prm} fuel n (s s' : rx_state P) pkts :
  let k := slice_number (rxq s) in
  rx_inv k [] s -> mlx5_rx_burst fuel n s = (s', Ret pkts) ->
  slice_number (rxq s') = k
  /\ (forall p, p ∈ pkts -> exists m, mbufs (bufs s') !! p = Some m
       /\ calculateSlice_HF_haswell (rte_pktmbuf_iova_offset m 0) = k)
  /\ forall i p, elts (rxq s') !! i = Some p -> exists m, mbufs (bufs s') !! p = Some m
       /\ calculateSlice_HF_haswell (rte_pktmbuf_iova_offset m 0) = k
       /\ wqe_addr (rxq s') !! i = Some (bswap 8 (rte_pktmbuf_mtod_offset m 0)).
Proof.
  intros k Hinv Hrun. pose proof (rx_burst_step k fuel n s s' pkts Hinv Hrun) as [H1 H2 H3 H4].
  assert (0 <= k < 8) as Hk by (unfold k, slice_number, coreNumber; by apply Z.mod_pos_bound).
  split; [done|]. split.
  - intros p Hp. destruct (H4 _ Hp) as (m & Hm & Hst). exists m. split; [done|].
    apply steered_slice; eauto.
  - intros i p Hi. destruct (H3 _ _ Hi) as ((m & Hm & Hst) & m' & Hm' & Ha). simplify_eq.
    exists m. split; [done|]. split; [apply steered_slice; eauto|].
    rewrite Ha. unfold slice_addr, rte_pktmbuf_mtod_offset. by rewrite <- Hst.
Qed.


(** ** Filling the ring *)

Lemma slice_ready_init fuel m m' :
  in_range 64 (buf_iova m) -> (15 <= fuel)%nat -> rte_pktmbuf_slice_init fuel m = Some m' ->
  slice_ready m'.
Proof.
  intros Hio Hf Hrun. destruct (slice_init_hash_spec fuel 8 0 m Hio Hf) as (m2 & Hrun2 & Hm2 & Hoff);
    [done..|].
  unfold rte_pktmbuf_slice_init in Hrun. rewrite Hrun2 in Hrun. injection Hrun as ->.
  assert (buf_iova m' = buf_iova m) as Hbuf by (by rewrite Hm2). split; [by rewrite Hbuf|].
  intros s Hs. rewrite Hoff, Hbuf by done.
  by destruct (Z.leb_spec 0 s), (Z.ltb_spec s (0 + Z.of_nat 8)); lia || done.
Qed.

Section Fill.
Context {P : Type} `{OPS : !MempoolOps P} `{LAWS : !MempoolLaws P} `{PRM : !Mlx5Prm}.
Context (fuel : nat) (Hf : (15 <= fuel)%nat).
Implicit Types (s : rx_state P) (st : store P) (m : rte_mbuf).

Lemma on_bufs_ret {A} (c : comp (store P) A) s st' a :
  c (bufs s) = (st', Ret a) -> on_bufs c s = (RxState (rxq s) st', Ret a).
Proof using. intros H. unfold on_bufs. by rewrite H. Qed.

Lemma alloc_run mp st p' x m :
  mp_get (pools st) mp = (p', Some x) -> x <> NULL -> mbufs st !! x = Some m ->
  rte_pktmbuf_alloc mp st = (with_mbuf x (reset_mbuf m) (st <| pools := p' |>), Ret x).
Proof using.
  intros Hget Hx Hm. unfold rte_pktmbuf_alloc.
  rewrite bind_ret with (s' := st <| pools := p' |>) (a := x)
    by (unfold rte_mbuf_raw_alloc, mbind, comp_bind, get, put, mret, comp_ret; by rewrite Hget).
  destruct (Z.eqb_spec x NULL); [done|]. cbn [negb]. cbv iota. unfold rte_pktmbuf_reset.
  by erewrite bind_ret; [|apply update_run; exact Hm].
Qed.

Lemma alloc_fail mp st p' :
  mp_get (pools st) mp = (p', None) -> rte_pktmbuf_alloc mp st = (st <| pools := p' |>, Ret NULL).
Proof using.
  intros Hget. unfold rte_pktmbuf_alloc.
  rewrite bind_ret with (s' := st <| pools := p' |>) (a := NULL)
    by (unfold rte_mbuf_raw_alloc, mbind, comp_bind, get, put, mret, comp_ret; by rewrite Hget).
  done.
Qed.

(** A buffer of the pool [mp] that is ready to be handed out. *)
Definition pool_buffer (mp : Z) (m : rte_mbuf) : Prop :=
  slice_ready m /\ pool m = mp /\ refcnt m = 1.

(** The structure of a buffer in the ring. *)
Definition ring_buffer (q : mlx5_rxq_data) (m : rte_mbuf) : rte_mbuf :=
  init_elt (port_id q) (64 * slice_distance (buf_iova m) (slice_number q)) (reset_mbuf m).

Lemma slice_number_range q : 0 <= slice_number q < 8.
Proof using. by apply Z.mod_pos_bound. Qed.

Lemma alloc_elt_run s i p' x m :
  let q := rxq s in
  mp_get (pools (bufs s)) (rxq_mp q) = (p', Some x) -> x <> NULL ->
  mbufs (bufs s) !! x = Some m -> slice_ready m -> 0 <= i < Z.of_nat (length (elts q)) ->
  alloc_elt fuel i s
  = (RxState (q <| elts := <[Z.to_nat i := x]> (elts q) |>)
       (with_mbuf x (ring_buffer q m) ((bufs s) <| pools := p' |>)), Ret false).
Proof using Hf.
  intros q Hget Hx Hm [Hio _] Hi. unfold alloc_elt.
  rewrite bind_ret with (s' := s) (a := q) by done.
  rewrite (bind_ret _ _ _ _ _ (on_bufs_ret _ _ _ _ (alloc_run _ _ _ _ _ Hget Hx Hm))).
  destruct (Z.eqb_spec x NULL); [done|]. fold q.
  set (st1 := with_mbuf x (reset_mbuf m) _). set (s1 := RxState q st1).
  assert (exists o, (if negb (i mod Z.shiftl 1 (sges_n q) =? 0)
    then on_bufs (update x (fun m => m <| data_off := 0 |>)) else mret tt) s1
    = (RxState q (with_mbuf x ((reset_mbuf m) <| data_off := o |>) st1), Ret tt)) as (o & Ho).
  { destruct (negb _).
    - exists 0. apply (on_bufs_ret _ s1), update_run. apply with_mbuf_lookup.
    - exists (data_off (reset_mbuf m)). unfold mret, comp_ret, s1, st1. by rewrite with_mbuf_twice. }
  rewrite (bind_ret _ _ _ _ _ Ho). unfold st1. rewrite with_mbuf_twice.
  set (m1 := (reset_mbuf m) <| data_off := o |>).
  set (st2 := with_mbuf x m1 _).
  assert (mbufs st2 !! x = Some m1) as Hm1 by apply with_mbuf_lookup.
  rewrite (bind_ret _ _ _ _ _ (on_bufs_ret (load x) (RxState q st2) _ _ (load_ok _ _ _ Hm1))).
  change (buf_iova m1) with (buf_iova m).
  rewrite sliceFinder_HF_result by (done || apply slice_number_range).
  rewrite (bind_ret _ _ _ _ _ (on_bufs_ret _ (RxState q st2) _ _ (update_run x _ m1 st2 Hm1))).
  unfold st2. rewrite with_mbuf_twice.
  unfold set_elt. rewrite bind_assoc. erewrite bind_ret; [|reflexivity].
  simpl rxq. destruct (Z.leb_spec 0 i), (Z.ltb_spec i (Z.of_nat (length (elts q)))); try lia.
  reflexivity.
Qed.

(** The pools are in order, and the free buffers of the queue's pool are distinct
    and initialised. *)
Definition pool_ready s : Prop :=
  let mp := rxq_mp (rxq s) in
  mp_valid (pools (bufs s))
  /\ NoDup (mp_avail (pools (bufs s)) mp)
  /\ forall p, p ∈ mp_avail (pools (bufs s)) mp ->
       p <> NULL /\ exists m, mbufs (bufs s) !! p = Some m /\ pool_buffer mp m.

(** After the buffers [taken] were put into the ring of [s0]. *)
Record filled s0 (taken : list Z) s : Prop := Filled {
  fi_valid : mp_valid (pools (bufs s));
  fi_rxq : rxq s = (rxq s0) <| elts := taken ++ drop (length taken) (elts (rxq s0)) |>;
  fi_avail : mp_avail (pools (bufs s0)) (rxq_mp (rxq s0))
             ≡ₚ taken ++ mp_avail (pools (bufs s)) (rxq_mp (rxq s0));
  fi_room : mp_room (pools (bufs s)) (rxq_mp (rxq s0))
            = (length taken + mp_room (pools (bufs s0)) (rxq_mp (rxq s0)))%nat;
  fi_other : forall p, p ∉ taken -> mbufs (bufs s) !! p = mbufs (bufs s0) !! p;
  fi_taken : forall p, p ∈ taken -> exists m, mbufs (bufs s0) !! p = Some m
    /\ pool_buffer (rxq_mp (rxq s0)) m
    /\ mbufs (bufs s) !! p = Some (ring_buffer (rxq s0) m);
}.

Lemma filled_step s0 taken s p' x :
  pool_ready s0 -> filled s0 taken s -> (length taken < length (elts (rxq s0)))%nat ->
  mp_get (pools (bufs s)) (rxq_mp (rxq s0)) = (p', Some x) ->
  exists s', alloc_elt fuel (Z.of_nat (length taken)) s = (s', Ret false)
    /\ filled s0 (taken ++ [x]) s'.
Proof using Hf LAWS.
  intros (_ & Hnd & Hready) [Hval Hq Hav Hroom Hoth Htk] Hlen Hget.
  destruct (mp_get_some _ _ _ _ Hval Hget) as (Hval' & Hperm & Hroom' & _).
  assert (x ∈ mp_avail (pools (bufs s0)) (rxq_mp (rxq s0))) as Hx0
    by (rewrite Hav, Hperm; apply elem_of_app; right; constructor).
  assert (x ∉ taken) as Hxt.
  { rewrite Hav, Hperm in Hnd. apply NoDup_app in Hnd as (_ & Hd & _). intros Hin.
    apply (Hd x Hin). constructor. }
  destruct (Hready x Hx0) as (Hxn & m & Hm & Hpb).
  assert (mbufs (bufs s) !! x = Some m) as Hms by (by rewrite Hoth).
  eexists. split.
  { apply (alloc_elt_run s (Z.of_nat (length taken)) p' x m); rewrite ?Hq; simpl; try done.
    - apply Hpb.
    - rewrite length_app, length_drop. lia. }
  rewrite Hq. simpl. split; simpl; [done|..].
  - rewrite Nat2Z.id. rewrite length_app. simpl.
    rewrite insert_app_r_alt by lia. rewrite Nat.sub_diag.
    destruct (lookup_lt_is_Some_2 (elts (rxq s0)) (length taken)) as [y Hy]; [lia|].
    rewrite (drop_S _ _ _ Hy). simpl. rewrite <- app_assoc, Nat.add_1_r. done.
  - rewrite Hav, Hperm, <- app_assoc. done.
  - rewrite Hroom', Hroom, length_app. simpl. lia.
  - intros p [Hp1 Hp2]%not_elem_of_app. rewrite lookup_insert_ne.
    + by apply Hoth.
    + intros ->. apply Hp2. constructor.
  - intros p [Hp|Hp%list_elem_of_singleton]%elem_of_app.
    + rewrite lookup_insert_ne by (intros ->; done). auto.
    + subst p. exists m. by rewrite lookup_insert_eq.
Qed.

Lemma alloc_elts_run n s0 taken s :
  pool_ready s0 -> filled s0 taken s -> (length taken + n <= length (elts (rxq s0)))%nat ->
  exists more s', filled s0 (taken ++ more) s' /\ (length more <= n)%nat
    /\ alloc_elts fuel n (Z.of_nat (length taken)) s
       = (s', Ret (Z.of_nat (length taken + length more)))
    /\ ((length more < n)%nat -> mp_avail (pools (bufs s')) (rxq_mp (rxq s0)) = []).
Proof using Hf LAWS.
  intros Hready. revert taken s. induction n as [|n IH]; intros taken s Hfill Hlen.
  { exists [], s. rewrite app_nil_r, Nat.add_0_r. simpl. split_and!; [done|lia|done|lia]. }
  simpl. assert (rxq_mp (rxq s) = rxq_mp (rxq s0)) as Hmp by (by rewrite (fi_rxq _ _ _ Hfill)).
  destruct (mp_get (pools (bufs s)) (rxq_mp (rxq s0))) as [p' [x|]] eqn:Hget.
  - destruct (filled_step s0 taken s p' x Hready Hfill ltac:(lia) Hget) as (s1 & Hrun & Hfill1).
    rewrite (bind_ret _ _ _ _ _ Hrun).
    destruct (IH (taken ++ [x]) s1 Hfill1) as (more & s' & Hfill' & Hle & Hrun' & Hemp);
      [rewrite length_app; simpl; lia|].
    rewrite <- app_assoc in Hfill'. exists (x :: more), s'. rewrite length_app in Hrun'. simpl in *.
    split_and!; [done|lia| |intros; apply Hemp; lia].
    replace (Z.of_nat (length taken) + 1) with (Z.of_nat (length taken + 1)) by lia.
    rewrite Hrun'. do 3 f_equal. lia.
  - exists [], (RxState (rxq s) ((bufs s) <| pools := p' |>)).
    pose proof (fi_valid _ _ _ Hfill) as Hval.
    destruct (mp_get_none _ _ _ Hval Hget) as [Hval' Hnone]. rewrite app_nil_r. simpl.
    assert (mp_avail p' (rxq_mp (rxq s0)) = []) as Hempty.
    { destruct (Hnone (rxq_mp (rxq s0))) as [Hnone' _]. apply Permutation_nil_r. rewrite Hnone'.
      destruct (mp_avail (pools (bufs s)) (rxq_mp (rxq s0))) as [|y l] eqn:E; [done|].
      destruct (mp_get_avail (pools (bufs s)) (rxq_mp (rxq s0))) as (p2 & z & Hget2);
        [done|by rewrite E|congruence]. }
    split_and!; [|lia| |done].
    + destruct Hfill as [_ H1 H2 H3 H4 H5], (Hnone (rxq_mp (rxq s0))) as [Hn1 Hn2]. split; simpl; try done; [by rewrite Hn1|by rewrite Hn2].
    + unfold alloc_elt. rewrite !bind_assoc. rewrite bind_ret with (s' := s) (a := rxq s) by done.
      rewrite Hmp, !bind_assoc.
      rewrite (bind_ret _ _ _ _ _ (on_bufs_ret _ _ _ _ (alloc_fail _ _ _ Hget))).
      rewrite Nat.add_0_r. reflexivity.
Qed.

Lemma init_elt_fields pid off m :
  buf_addr (init_elt pid off m) = buf_addr m /\ buf_iova (init_elt pid off m) = buf_iova m
  /\ udata64 (init_elt pid off m) = udata64 m /\ refcnt (init_elt pid off m) = refcnt m
  /\ pool (init_elt pid off m) = pool m /\ next (init_elt pid off m) = next m
  /\ ol_flags (init_elt pid off m) = ol_flags m /\ data_off (init_elt pid off m) = off
  /\ port (init_elt pid off m) = pid /\ nb_segs (init_elt pid off m) = 1
  /\ data_len (init_elt pid off m) = u16 (buf_len m - off - data_len m)
  /\ pkt_len (init_elt pid off m) = u16 (buf_len m - off - data_len m)
  /\ buf_len (init_elt pid off m) = buf_len m.
Proof using. repeat split. Qed.

Lemma reset_mbuf_fields m :
  buf_addr (reset_mbuf m) = buf_addr m /\ buf_iova (reset_mbuf m) = buf_iova m
  /\ udata64 (reset_mbuf m) = udata64 m /\ refcnt (reset_mbuf m) = refcnt m
  /\ pool (reset_mbuf m) = pool m /\ next (reset_mbuf m) = NULL
  /\ ol_flags (reset_mbuf m) = 0 /\ data_len (reset_mbuf m) = 0 /\ buf_len (reset_mbuf m) = buf_len m.
Proof using. repeat split. Qed.

Lemma ring_buffer_fields q m :
  same_buffer (ring_buffer q m) m /\ refcnt (ring_buffer q m) = refcnt m
  /\ pool (ring_buffer q m) = pool m /\ next (ring_buffer q m) = NULL
  /\ ol_flags (ring_buffer q m) = 0
  /\ data_off (ring_buffer q m) = 64 * slice_distance (buf_iova m) (slice_number q)
  /\ port (ring_buffer q m) = port_id q /\ nb_segs (ring_buffer q m) = 1
  /\ data_len (ring_buffer q m) = u16 (buf_len m - data_off (ring_buffer q m))
  /\ pkt_len (ring_buffer q m) = data_len (ring_buffer q m)
  /\ buf_len (ring_buffer q m) = buf_len m.
Proof using.
  unfold ring_buffer, same_buffer.
  destruct (init_elt_fields (port_id q) (64 * slice_distance (buf_iova m) (slice_number q))
    (reset_mbuf m)) as (-> & -> & -> & -> & -> & -> & -> & -> & -> & -> & -> & -> & ->).
  destruct (reset_mbuf_fields m) as (-> & -> & -> & -> & -> & -> & -> & -> & ->).
  rewrite Z.sub_0_r. split_and!; done.
Qed.

Lemma ring_buffer_used q m mp :
  pool_buffer mp m -> direct_used (ring_buffer q m) /\ freed_seg (ring_buffer q m) = ring_buffer q m
    /\ pool (ring_buffer q m) = mp /\ refcnt (ring_buffer q m) = 1.
Proof using.
  intros (_ & Hp & Hr). destruct (ring_buffer_fields q m) as (_ & Er & Ep & En & Eo & _).
  unfold direct_used, freed_seg, RTE_MBUF_DIRECT. rewrite Er, Hr, Ep, En, Eo.
  split_and!; first [done | lia].
Qed.

Lemma free_elt_run j p m mp s :
  elts (rxq s) !! j = Some p -> p <> NULL -> mbufs (bufs s) !! p = Some m ->
  direct_used m -> freed_seg m = m -> pool m = mp -> refcnt m = 1 ->
  free_elt j s = (RxState ((rxq s) <| elts := <[j := NULL]> (elts (rxq s)) |>)
                    (put_back mp p (bufs s)), Ret tt).
Proof using.
  clear Hf. intros Hj Hpn Hm Hused Hfreed Hpool Href. unfold free_elt, get_elt.
  rewrite !bind_assoc. rewrite bind_ret with (s' := s) (a := rxq s) by done.
  rewrite Nat2Z.id, Hj. rewrite bind_ret with (s' := s) (a := p) by done.
  destruct (Z.eqb_spec p NULL); [done|]. cbn [negb]. cbv iota.
  rewrite (bind_ret _ _ _ _ _ (on_bufs_ret _ _ _ _ (free_seg_run _ _ _ Hm Hpn Hused))).
  rewrite Hfreed, with_mbuf_id, Href, Hpool by done. cbv zeta. change (1 =? 1) with true. cbv iota.
  set (st := put_back mp p (bufs s)).
  unfold set_elt. rewrite bind_ret with (a := rxq s) (s' := RxState (rxq s) st) by done.
  apply lookup_lt_Some in Hj.
  destruct (Z.leb_spec 0 (Z.of_nat j)), (Z.ltb_spec (Z.of_nat j) (Z.of_nat (length (elts (rxq s)))));
    try lia.
  cbn [andb]. cbv iota. unfold set_rxq, modify. by rewrite Nat2Z.id.
Qed.

(** The cleanup gives every buffer back and clears the entries. *)
Lemma free_elts_run s0 taken s :
  pool_ready s0 -> filled s0 taken s -> (length taken <= length (elts (rxq s0)))%nat ->
  exists s', free_elts (length taken) s = (s', Ret tt) /\ mp_valid (pools (bufs s'))
    /\ mp_avail (pools (bufs s0)) (rxq_mp (rxq s0)) ≡ₚ mp_avail (pools (bufs s')) (rxq_mp (rxq s0))
    /\ forall i, (i < length taken)%nat -> elts (rxq s') !! i = Some NULL.
Proof using LAWS.
  clear Hf. intros (_ & Hnd & Hready) [Hval Hq Hav Hroom Hoth Htk] Hlen.
  set (I := fun j (s' : rx_state P) =>
    elts (rxq s') = replicate j NULL ++ drop j taken ++ drop (length taken) (elts (rxq s0))
    /\ mbufs (bufs s') = mbufs (bufs s)
    /\ mp_avail (pools (bufs s0)) (rxq_mp (rxq s0))
       ≡ₚ drop j taken ++ mp_avail (pools (bufs s')) (rxq_mp (rxq s0))
    /\ (mp_room (pools (bufs s')) (rxq_mp (rxq s0)) + j)%nat = mp_room (pools (bufs s)) (rxq_mp (rxq s0))
    /\ mp_valid (pools (bufs s'))).
  destruct (for_loop_inv I free_elt (length taken) 0 s) as (s' & Hrun & Hel & _ & Hav' & _ & Hval').
  - intros j x Hj (Hel & Hmb & Hperm & Hroomx & Hvalx).
    destruct (mp_put_avail (pools (bufs x)) (rxq_mp (rxq s0)) (default 0 (taken !! j)) Hvalx)
      as (Hvp & Havp & Hroomp & _); [lia|]. destruct (lookup_lt_is_Some_2 taken j) as [p Hp]; [lia|].
    rewrite Hp in Hvp, Havp, Hroomp. cbn [default from_option id] in Hvp, Havp, Hroomp.
    assert (p ∈ taken) as Hin by (by apply (list_elem_of_lookup_2 _ j)).
    destruct (Htk p Hin) as (m & Hm & Hpb & Hms).
    destruct (ring_buffer_used (rxq s0) m _ Hpb) as (Hused & Hfreed & Hpool & Href).
    assert (p <> NULL) as Hpn by (apply (Hready p); rewrite Hav; apply elem_of_app; by left).
    assert (elts (rxq x) !! j = Some p) as Hjx.
    { rewrite Hel, lookup_app_r by (rewrite length_replicate; lia).
      rewrite length_replicate, Nat.sub_diag, (drop_S _ _ _ Hp). done. }
    rewrite <- Hmb in Hms.
    eexists. split; [by apply (free_elt_run j p (ring_buffer (rxq s0) m) (rxq_mp (rxq s0)) x)|].
    split; [|split; [|split; [|split]]]; cbn [rxq bufs];
      try change (pools (put_back ?mp ?q ?st)) with (mp_put (pools st) mp q).
    + change (elts ((rxq x) <| elts := ?e |>)) with e.
      rewrite Hel, insert_app_r_alt by (rewrite length_replicate; lia).
      rewrite length_replicate, Nat.sub_diag, (drop_S _ _ _ Hp).
      change (replicate (S j) NULL) with (NULL :: replicate j NULL).
      rewrite replicate_cons_app, <- app_assoc. done.
    + exact Hmb.
    + rewrite Hperm, (drop_S _ _ _ Hp), Havp. simpl. by rewrite Permutation_middle.
    + lia.
    + exact Hvp.
  - split; [by rewrite Hq|]. split; [done|]. split; [by rewrite drop_0|]. split; [lia|done].
  - exists s'. simpl in *. rewrite drop_ge in Hel, Hav' by lia. simpl in *. split; [done|].
    do 2 (split; [done|]). intros i Hi. rewrite Hel, lookup_app_l by (rewrite length_replicate; lia).
    by apply lookup_replicate.
Qed.
(** What an entry of the filled ring is: the buffer is empty, unshared, and placed on
    the slice of the queue. *)
Record posted_on_slice (q : mlx5_rxq_data) (m : rte_mbuf) : Prop := {
  po_slice : calculateSlice_HF_haswell (rte_pktmbuf_iova_offset m 0) = slice_number q;
  po_steered : steered (slice_number q) m;
  po_len : data_len m = u16 (buf_len m - data_off m) /\ pkt_len m = data_len m;
  po_alone : nb_segs m = 1 /\ next m = NULL /\ refcnt m = 1;
  po_port : port m = port_id q }.

Lemma ring_buffer_posted q m mp : pool_buffer mp m -> posted_on_slice q (ring_buffer q m).
Proof using.
  clear Hf. intros (Hsr & Hpool & Hrc). pose proof (slice_number_range q) as Hk.
  destruct (ring_buffer_fields q m) as (Hsame & Er & _ & En & _ & Eoff & Eport & Enb & Edl & Epl & Ebl).
  assert (steered (slice_number q) (ring_buffer q m)) as Hst.
  { unfold steered. rewrite Eoff, (set_slice_off_proper _ _ _ Hsame). unfold rte_pktmbuf_set_slice.
    destruct (Z.leb_spec 0 (slice_number q)), (Z.leb_spec (slice_number q) 7); try lia. cbn [andb]. cbv iota.
    destruct Hsr as [Hio Hso]. simpl. rewrite Hso by done.
    destruct (slice_distance_spec (buf_iova m) (slice_number q)) as (Hd & _); [apply Hio|done|].
    rewrite wrap_small by (unfold in_range; lia). lia. }
  rewrite <- Hsame in Hsr. split; rewrite ?Edl, ?Epl, ?Ebl, ?Er; try done.
  by apply steered_slice.
Qed.

(** The run up to the test of the number of buffers. *)
Lemma alloc_elts_taken fake s :
  pool_ready s -> 0 <= elts_n (rxq s) -> 2 ^ elts_n (rxq s) <= Z.of_nat (length (elts (rxq s))) ->
  let n := 2 ^ elts_n (rxq s) in
  let avail s := mp_avail (pools (bufs s)) (rxq_mp (rxq s)) in
  exists taken s1, filled s taken s1
    /\ Z.of_nat (length taken) = Z.min n (Z.of_nat (length (avail s)))
    /\ rxq_alloc_elts_sprq fuel 0 fake s
       = (if Z.of_nat (length taken) <? n
          then free_elts (length taken) ;; mret (- ENOMEM) else mret 0) s1.
Proof using Hf LAWS.
  intros Hready He Hlen n avail. assert (0 < n) as Hn by (apply Z.pow_pos_nonneg; lia). fold n in Hlen.
  assert (filled s [] s) as Hfill0.
  { split; [apply Hready|simpl; by destruct (rxq s)|done|done|done|]. intros p Hp. by apply elem_of_nil in Hp. }
  destruct (alloc_elts_run (Z.to_nat n) s [] s Hready Hfill0) as
    (taken & s1 & Hfill & Hle & Hrun & Hempty); [simpl; lia|]. simpl in *.
  exists taken, s1. split; [done|].
  pose proof (Permutation_length (fi_avail _ _ _ Hfill)) as Hlav. rewrite length_app in Hlav. fold (avail s) in Hlav.
  split.
  - destruct (decide (length taken < Z.to_nat n)%nat) as [Hlt|]; [|lia].
    rewrite (Hempty Hlt) in Hlav. simpl in Hlav. lia.
  - unfold rxq_alloc_elts_sprq. rewrite bind_ret with (s' := s) (a := rxq s) by done.
    rewrite Z.shiftl_1_l. fold n. rewrite (bind_ret _ _ _ _ _ Hrun), Nat2Z.id.
    by destruct (Z.of_nat (length taken) <? n).
Qed.

(** With enough buffers the ring is filled. *)
Lemma alloc_elts_filled fake s :
  pool_ready s -> 0 <= elts_n (rxq s) -> 2 ^ elts_n (rxq s) <= Z.of_nat (length (elts (rxq s))) ->
  let mp := rxq_mp (rxq s) in
  let avail s := mp_avail (pools (bufs s)) mp in
  2 ^ elts_n (rxq s) <= Z.of_nat (length (avail s)) ->
  exists s', rxq_alloc_elts_sprq fuel 0 fake s = (s', Ret 0) /\ mp_valid (pools (bufs s'))
    /\ mp_room (pools (bufs s')) mp = (Z.to_nat (2 ^ elts_n (rxq s)) + mp_room (pools (bufs s)) mp)%nat
    /\ avail s ≡ₚ take (Z.to_nat (2 ^ elts_n (rxq s))) (elts (rxq s')) ++ avail s'
    /\ forall i, 0 <= i < 2 ^ elts_n (rxq s) -> exists p m,
         elts (rxq s') !! Z.to_nat i = Some p /\ mbufs (bufs s') !! p = Some m
         /\ posted_on_slice (rxq s) m.
Proof using Hf LAWS.
  intros Hready He Hlen mp avail Henough.
  destruct (alloc_elts_taken fake s Hready He Hlen) as (taken & s1 & Hfill & Htn & ->). fold mp in Htn.
  change (mp_avail (pools (bufs s)) mp) with (avail s) in Htn. rewrite Z.min_l in Htn by done.
  exists s1. rewrite Htn, Z.ltb_irrefl. split; [done|]. split; [apply (fi_valid _ _ _ Hfill)|].
  split; [pose proof (fi_room _ _ _ Hfill) as Hroom; fold mp in Hroom; lia|].
  assert (elts (rxq s1) = taken ++ drop (length taken) (elts (rxq s))) as Hel by (by rewrite (fi_rxq _ _ _ Hfill)).
  rewrite Hel. split; [rewrite take_app_length' by lia; apply (fi_avail _ _ _ Hfill)|].
  intros i Hi. destruct (lookup_lt_is_Some_2 taken (Z.to_nat i)) as [p Hp]; [lia|].
  destruct (fi_taken _ _ _ Hfill p) as (m & Hm & Hpb & Hms); [by apply (list_elem_of_lookup_2 _ (Z.to_nat i))|].
  exists p, (ring_buffer (rxq s) m). rewrite lookup_app_l by lia. split_and!; [done|done|by eapply ring_buffer_posted].
Qed.
End Fill.

(** C5. Filling the ring ends: with enough free buffers it returns 0 and entry
    [i] of the ring is a buffer taken from the pool, empty, unshared, and
    placed on the LLC slice of the queue ([queue_id mod 8]); with too few it
    returns -ENOMEM, every buffer is back in the pool and the entries it had
    set are NULL.  The queue does not use the vector receive path. *)
Theorem rxq_alloc_elts_on_slice {P} `{!MempoolOps P} `{!MempoolLaws P} `{!Mlx5Prm} fuel fake
  (s : rx_state P) :
  (15 <= fuel)%nat -> pool_ready s -> 0 <= elts_n (rxq s) ->
  2 ^ elts_n (rxq s) <= Z.of_nat (length (elts (rxq s))) ->
  let mp := rxq_mp (rxq s) in
  let avail s := mp_avail (pools (bufs s)) mp in
  exists s', mp_valid (pools (bufs s')) /\
  if 2 ^ elts_n (rxq s) <=? Z.of_nat (length (avail s)) then
    rxq_alloc_elts_sprq fuel 0 fake s = (s', Ret 0)
    /\ avail s ≡ₚ take (Z.to_nat (2 ^ elts_n (rxq s))) (elts (rxq s')) ++ avail s'
    /\ forall i, 0 <= i < 2 ^ elts_n (rxq s) -> exists p m,
         elts (rxq s') !! Z.to_nat i = Some p /\ mbufs (bufs s') !! p = Some m
         /\ posted_on_slice (rxq s) m
  else
    rxq_alloc_elts_sprq fuel 0 fake s = (s', Ret (- ENOMEM))
    /\ avail s ≡ₚ avail s'
    /\ forall i, (i < length (avail s))%nat -> elts (rxq s') !! i = Some NULL.
Proof.
  intros Hf Hready He Hlen mp avail.
  destruct (Z.leb_spec (2 ^ elts_n (rxq s)) (Z.of_nat (length (avail s)))) as [Henough|Hfew].
  - destruct (alloc_elts_filled fuel Hf fake s Hready He Hlen Henough) as (s' & H1 & H2 & _ & H3 & H4).
    by exists s'.
  - destruct (alloc_elts_taken fuel Hf fake s Hready He Hlen) as (taken & s1 & Hfill & Htn & Hrun). fold mp in Htn.
    change (mp_avail (pools (bufs s)) mp) with (avail s) in Htn. rewrite Z.min_r in Htn by lia.
    destruct (free_elts_run s taken s1 Hready Hfill) as (s2 & Hfree & Hv2 & Hav2 & Hnull); [lia|].
    exists s2. split; [done|]. rewrite Hrun. destruct (Z.ltb_spec (Z.of_nat (length taken)) (2 ^ elts_n (rxq s))); [|lia].
    rewrite (bind_ret _ _ _ _ _ Hfree). do 2 (split; [done|]).
    intros i Hi. apply Hnull. lia.
Qed.

(** ** Packet types *)

(** What the index says: the type of the innermost network header, its
    transport protocol, fragmentation, and the outer network header of a
    tunneled packet. *)
Definition ptype_spec (idx : Z) : Z :=
  let l3 := Z.land idx 3 in
  let l4 := Z.land (Z.shiftr idx 2) 7 in
  let frag := Z.testbit idx 5 in
  let tunneled := Z.testbit idx 6 in
  let outer_ipv6 := Z.testbit idx 7 in
  let l3_type v4 v6 := if l3 =? 1 then Some v6 else if l3 =? 2 then Some v4 else None in
  let l4_type nonfrag fr tcp udp :=
    if frag then (if l4 =? 0 then Some fr else None)
    else if l4 =? 0 then Some nonfrag
    else if (l4 =? 1) || (l4 =? 3) || (l4 =? 4) then Some tcp
    else if l4 =? 2 then Some udp else None in
  if idx =? 0xff then ALL_MASK
  else if tunneled then
    let outer := Z.lor L2_ETHER (if outer_ipv6 then L3_IPV6_EXT_UNKNOWN else L3_IPV4_EXT_UNKNOWN) in
    if Z.land idx 0x3f =? 0 then outer else
    match l3_type INNER_L3_IPV4_EXT_UNKNOWN INNER_L3_IPV6_EXT_UNKNOWN,
      l4_type INNER_L4_NONFRAG INNER_L4_FRAG INNER_L4_TCP INNER_L4_UDP with
    | Some a, Some b => Z.lor outer (Z.lor a b)
    | _, _ => UNKNOWN
    end
  else if idx =? 0 then L2_ETHER else
    match l3_type L3_IPV4_EXT_UNKNOWN L3_IPV6_EXT_UNKNOWN,
      l4_type L4_NONFRAG L4_FRAG L4_TCP L4_UDP with
    | Some a, Some b => Z.lor L2_ETHER (Z.lor a b)
    | _, _ => UNKNOWN
    end.

Lemma ptype_table_spec idx : 0 <= idx < 256 -> mlx5_ptype_table idx = ptype_spec idx.
Proof.
  intros Hi. apply Z.eqb_eq.
  apply (forallb_seqZ (fun i => mlx5_ptype_table i =? ptype_spec i) 0 256); [|done].
  vm_compute. reflexivity.
Qed.

(** The packet type of a completion is the decoding of its header fields:
    the 256-entry table holds, at every index, the type that the index bits
    describe, and the queue's tunnel type is added for tunneled packets. *)
Theorem pkt_type_decodes q c :
  let idx := u8 (Z.lor (Z.shiftl (Z.land (pkt_info (cqes q) c) 3) 6)
                       (Z.shiftr (Z.land (hdr_type_etc (cqes q) c) 0xfc00) 10)) in
  rxq_cq_to_pkt_type q c
  = Z.lor (ptype_spec idx) (if Z.testbit idx 6 then u32 (tunnel q) else 0).
Proof.
  intros idx. unfold rxq_cq_to_pkt_type. fold idx.
  assert (0 <= idx < 256) as Hidx by (unfold idx; apply (wrap_range 8); lia).
  rewrite ptype_table_spec by done. f_equal. unfold truth.
  assert ((Z.land idx (Z.shiftl 1 6) =? 0) = negb (Z.testbit idx 6)) as ->.
  { apply eqb_prop.
    apply (forallb_seqZ (fun i => eqb (Z.land i (Z.shiftl 1 6) =? 0) (negb (Z.testbit i 6))) 0 256);
      [vm_compute; reflexivity|done]. }
  destruct (Z.testbit idx 6); simpl; [by rewrite Z.mul_1_r|by rewrite Z.mul_0_r].
Qed.

(** ** Instances *)

#[export] Instance example_prm : Mlx5Prm := {
  MLX5_CQE_OWNER_MASK := 1; MLX5_CQE_INVALID := 15; MLX5_CQE_RESP_ERR := 14;
}.

(** An initialised buffer at [p], and the store of four of them. *)
Definition example_buf (p : Z) : rte_mbuf :=
  default (example_mbuf p 832 0 1 0 0 1) (rte_pktmbuf_slice_init 15 (example_mbuf p 832 0 1 0 0 1)).
Definition example_bufs (f : rte_mbuf -> rte_mbuf) (l : list Z) : store list_pools :=
  Store {[ 4096 := f (example_buf 4096); 8192 := f (example_buf 8192);
           12288 := f (example_buf 12288); 16384 := f (example_buf 16384) ]}
    ∅ (fun _ => 0) {[ 1 := ((4 - length l)%nat, l) ]} [].

(** A queue of two entries with one completion, for a packet of 100 bytes. *)
Definition example_rxq (elts wqe_addr : list Z) : mlx5_rxq_data :=
  RxqData false false false false 0 1 1 false false 0 0 7 0 0 wqe_addr
    (fun a => if a =? 63 then 0x20 else if a =? 47 then 100 else if a =? 127 then 0xf0 else 0)
    (RxqZip 0 0 0 0 0) elts 1 0 0 0 5 0.

Definition example_fill : rx_state list_pools :=
  RxState (example_rxq [0; 0] [0; 0]) (example_bufs (fun m => m) [4096; 8192; 12288; 16384]).
Definition example_posted (m : rte_mbuf) : rte_mbuf :=
  (rte_pktmbuf_set_slice 5 m) <| data_len := 1500 |>.
Definition example_rx : rx_state list_pools :=
  RxState (example_rxq [4096; 8192]
      [slice_addr 5 (example_buf 4096); slice_addr 5 (example_buf 8192)])
    (example_bufs example_posted [12288; 16384]).

Lemma example_buf_ready p : in_range 64 (p + 128) -> slice_ready (example_buf p).
Proof.
  intros Hp. unfold example_buf.
  destruct (slice_init_runs (example_mbuf p 832 0 1 0 0 1) 15) as (m' & Hrun & _); [done|lia|].
  rewrite Hrun. simpl. eapply slice_ready_init; [|reflexivity|exact Hrun]. done.
Qed.

Lemma example_lookup f l p m :
  mbufs (example_bufs f l) !! p = Some m ->
  m = f (example_buf p) /\ p ∈ [4096; 8192; 12288; 16384].
Proof.
  unfold example_bufs. cbn [mbufs]. rewrite !lookup_insert_Some, lookup_singleton_Some.
  intros [[<- <-]|[_ [[<- <-]|[_ [[<- <-]|[_ [<- <-]]]]]]];
    (split; [done|]); apply list_elem_of_In; simpl; tauto.
Qed.

Lemma example_addr p : p ∈ [4096; 8192; 12288; 16384] -> in_range 64 (p + 128).
Proof.
  intros H. apply list_elem_of_In in H. unfold in_range. simpl in H.
  destruct H as [<-|[<-|[<-|[<-|[]]]]]; lia.
Qed.

Lemma example_posted_same m : same_buffer (example_posted m) m.
Proof. by rewrite <- (set_slice_same 5 m) at 2. Qed.

Lemma example_posted_steered m : steered 5 (example_posted m).
Proof. symmetry. apply (set_slice_off_proper 5), example_posted_same. Qed.

Lemma example_found f l p :
  p ∈ [4096; 8192; 12288; 16384] -> mbufs (example_bufs f l) !! p = Some (f (example_buf p)).
Proof.
  intros Hp. unfold example_bufs. cbn [mbufs]. apply list_elem_of_In in Hp. simpl in Hp.
  destruct Hp as [<-|[<-|[<-|[<-|[]]]]];
    by repeat first [rewrite lookup_insert_eq | rewrite lookup_insert_ne by done
                    | rewrite lookup_singleton_eq].
Qed.

Lemma example_rx_inv : rx_inv 5 [] example_rx.
Proof.
  assert (forall p, p ∈ [4096; 8192] -> steered_at 5 example_rx p
    /\ exists m, mbufs (bufs example_rx) !! p = Some m
       /\ slice_addr 5 (example_buf p) = slice_addr 5 m) as Hp.
  { intros p Hp. assert (p ∈ [4096; 8192; 12288; 16384]) as Hp4
      by (apply (elem_of_app [4096; 8192]); by left).
    pose proof (example_found example_posted [12288; 16384] p Hp4) as Hm. split.
    - eexists. split; [exact Hm|apply example_posted_steered].
    - eexists. split; [exact Hm|]. symmetry. apply (slice_addr_proper 5), example_posted_same. }
  split.
  - reflexivity.
  - intros p m Hm. apply example_lookup in Hm as [-> Hin].
    rewrite example_posted_same. by apply example_buf_ready, example_addr.
  - intros i p Hi.
    assert (p ∈ [4096; 8192]) as Hin by (by apply (list_elem_of_lookup_2 _ i)).
    destruct (Hp p Hin) as (Hst & m & Hm & Ha). split; [done|]. exists m. split; [done|].
    rewrite <- Ha. destruct i as [|[|i]]; [| |done]; by injection Hi as <-.
  - intros p Hin. by apply elem_of_nil in Hin.
Qed.

Lemma example_fill_ready : pool_ready example_fill.
Proof.
  split; [exact I|]. split; [apply (bool_decide_unpack _); by vm_compute|].
  intros p Hp. change (p ∈ [4096; 8192; 12288; 16384]) in Hp.
  pose proof (example_addr p Hp) as Ha.
  split; [intros ->; revert Hp; apply (bool_decide_unpack _); by vm_compute|].
  exists (example_buf p). split.
  - by apply (example_found (fun m => m)).
  - split; [by apply example_buf_ready|]. unfold example_buf.
    destruct (slice_init_runs (example_mbuf p 832 0 1 0 0 1) 15) as (m' & -> & ->); [done|lia|].
    done.
Qed.

Example rx_burst_on_slice_witness :
  exists s', mlx5_rx_burst 5 2 example_rx = (s', Ret [4096])
    /\ exists m, mbufs (bufs s') !! 4096 = Some m
       /\ calculateSlice_HF_haswell (rte_pktmbuf_iova_offset m 0) = 5.
Proof.
  destruct (mlx5_rx_burst 5 2 example_rx) as [s' o] eqn:E.
  assert (o = Ret [4096]) as ->
    by (change o with (snd (s', o)); rewrite <- E; vm_compute; reflexivity).
  exists s'. split; [reflexivity|].
  destruct (rx_burst_on_slice 5 2 example_rx s' [4096] example_rx_inv E) as (_ & H & _).
  apply H. constructor.
Defined.

Example rxq_alloc_elts_on_slice_witness :
  exists s', rxq_alloc_elts_sprq 15 0 0 example_fill = (s', Ret 0).
Proof.
  destruct (rxq_alloc_elts_on_slice 15 0 example_fill) as (s' & _ & H);
    [lia|apply example_fill_ready|simpl; lia|simpl; lia|].
  exists s'. change (2 ^ elts_n (rxq example_fill) <=? _) with true in H. exact (proj1 H).
Defined.

(** A replacement buffer keeps the length of the buffer it replaces although its
    slice may start further in: the space posted to the NIC then ends past the
    buffer, here after 2176 of 2048 bytes. *)
Example rx_posts_past_end :
  let s0 := RxState ((rxq example_fill) <| queue_id := 2 |>) (bufs example_fill) in
  let s1 := fst (rxq_alloc_elts_sprq 15 0 0 s0) in
  let s2 := fst (mlx5_rx_burst 5 2 s1) in
  snd (mlx5_rx_burst 5 2 s1) = Ret [4096]
  /\ (p ← elts (rxq s2) !! 0%nat; m ← mbufs (bufs s2) !! p;
      Some (buf_len m, data_off m + data_len m)) = Some (2048, 2176).
Proof. split; vm_compute; reflexivity. Qed.
