(* ===== verification/Mlx5Burst.v ===== *)
(** * A burst of plain completions

    What [mlx5_rx_burst] does when nothing unusual happens: the packets fit in
    one buffer each, their completions are plain, and the pool has a buffer to replace
    each of them.  The burst then returns, with exactly the packets that are
    complete, in order, up to the number asked for. *)

From S2P Require Import Prelude Effects Bytes Slice Msr Mbuf MbufSlice MbufData MbufChain Mlx5Rx.

(** A completion for [len] bytes at index [ci] that owns its entry and is
    neither compressed nor an error. *)
Record completion `{!Mlx5Prm} (q : Z -> Z) (cqe_n ci len : Z) : Prop := {
  comp_valid : check_cqe q (sizeof_mlx5_cqe * Z.land ci (Z.shiftl 1 cqe_n - 1)) (u16 (Z.shiftl 1 cqe_n - 1 + 1)) ci = 0;
  comp_plain : MLX5_CQE_FORMAT (op_own q (sizeof_mlx5_cqe * Z.land ci (Z.shiftl 1 cqe_n - 1))) <> MLX5_COMPRESSED;
  comp_ok : MLX5_CQE_OPCODE (op_own q (sizeof_mlx5_cqe * Z.land ci (Z.shiftl 1 cqe_n - 1))) <> MLX5_CQE_RESP_ERR;
  comp_len : s32 (bswap 4 (byte_cnt q (sizeof_mlx5_cqe * Z.land ci (Z.shiftl 1 cqe_n - 1)))) = len;
  comp_pos : 0 < len }.

(** No completion at index [ci] yet. *)
Definition no_completion `{!Mlx5Prm} (q : Z -> Z) (cqe_n ci : Z) : Prop :=
  check_cqe q (sizeof_mlx5_cqe * Z.land ci (Z.shiftl 1 cqe_n - 1)) (u16 (Z.shiftl 1 cqe_n - 1 + 1)) ci = 1.

(** The length of the packet without the checksum the NIC may leave. *)
Definition frame_len (q : mlx5_rxq_data) (len : Z) : Z := if crc_present q then len - ETHER_CRC_LEN else len.

(** The structure of a packet of [L] bytes, described by the completion at [cqe]. *)
Definition described `{!Mlx5Prm} (q : mlx5_rxq_data) (cqe L : Z) (m : rte_mbuf) : rte_mbuf :=
  (rxq_cq_to_mbuf q cqe (bswap 4 (rx_hash_res (cqes q) cqe)) (m <| ol_flags := 0 |>)) <| pkt_len := u32 L |>.

(** The replacement for the buffer of structure [m]. *)
Definition posted (k : Z) (m r : rte_mbuf) : rte_mbuf :=
  rte_pktmbuf_set_slice k (r <| data_len := data_len m |> <| pkt_len := pkt_len m |>
                             <| data_off := data_off m |> <| port := port m |>).

Definition polled (q : mlx5_rxq_data) : mlx5_rxq_data := q <| cq_ci := cq_ci q +[32] 1 |>.

Definition reposted (idx rep a : Z) (q : mlx5_rxq_data) : mlx5_rxq_data :=
  q <| elts := <[Z.to_nat idx := rep]> (elts q) |> <| wqe_addr := <[Z.to_nat idx := a]> (wqe_addr q) |>.

Section Round.
Context {P : Type} `{OPS : !MempoolOps P} `{LAWS : !MempoolLaws P} `{PRM : !Mlx5Prm}.
Implicit Types (s : rx_state P) (st : store P) (m : rte_mbuf).

Lemma raw_alloc_run mp st p' o :
  mp_get (pools st) mp = (p', o) ->
  rte_mbuf_raw_alloc mp st = (st <| pools := p' |>, Ret (match o with Some x => x | None => NULL end)).
Proof using. intros Hget. unfold rte_mbuf_raw_alloc, mbind, comp_bind, get, put, mret, comp_ret. by rewrite Hget. Qed.

Lemma get_elt_run s idx p :
  elts (rxq s) !! Z.to_nat idx = Some p -> get_elt idx s = (s, Ret p).
Proof using. intros H. unfold get_elt. erewrite bind_ret; [|reflexivity]. by rewrite H. Qed.

Lemma poll_plain_run s len :
  ai (zip (rxq s)) = 0 -> completion (cqes (rxq s)) (cqe_n (rxq s)) (cq_ci (rxq s)) len ->
  poll_len (sizeof_mlx5_cqe * Z.land (cq_ci (rxq s)) (Z.shiftl 1 (cqe_n (rxq s)) - 1)) (Z.shiftl 1 (cqe_n (rxq s)) - 1) s
  = (RxState (polled (rxq s)) (bufs s), Ret (len, None)).
Proof using.
  intros Hai [Hv Hp Ho Hl _]. unfold poll_len, mlx5_rx_poll_len. rewrite Hai, Hv. cbn [Z.eqb negb]. cbv iota zeta.
  change (cqes ((rxq s) <| cq_ci := cq_ci (rxq s) +[32] 1 |>)) with (cqes (rxq s)).
  destruct (Z.eqb_spec (MLX5_CQE_FORMAT (op_own (cqes (rxq s))
    (sizeof_mlx5_cqe * Z.land (cq_ci (rxq s)) (Z.shiftl 1 (cqe_n (rxq s)) - 1)))) MLX5_COMPRESSED) as [E|_]; [done|].
  destruct (Z.eqb_spec (MLX5_CQE_OPCODE (op_own (cqes (rxq s))
    (sizeof_mlx5_cqe * Z.land (cq_ci (rxq s)) (Z.shiftl 1 (cqe_n (rxq s)) - 1)))) MLX5_CQE_RESP_ERR) as [E|_]; [done|].
  rewrite <- Hl. reflexivity.
Qed.

Lemma poll_none_run s :
  ai (zip (rxq s)) = 0 -> no_completion (cqes (rxq s)) (cqe_n (rxq s)) (cq_ci (rxq s)) ->
  poll_len (sizeof_mlx5_cqe * Z.land (cq_ci (rxq s)) (Z.shiftl 1 (cqe_n (rxq s)) - 1)) (Z.shiftl 1 (cqe_n (rxq s)) - 1) s
  = (s, Ret (0, None)).
Proof using.
  intros Hai Hn. unfold poll_len, mlx5_rx_poll_len. rewrite Hai. cbn [Z.eqb negb]. cbv iota zeta.
  unfold no_completion in Hn. rewrite Hn. by destruct s.
Qed.

Lemma update_bufs_run (q : mlx5_rxq_data) st p f m :
  mbufs st !! p = Some m -> on_bufs (update p f) (RxState q st) = (RxState q (with_mbuf p (f m) st), Ret tt).
Proof using. intros Hm. apply (on_bufs_ret _ (RxState q st)). by apply update_run. Qed.

Lemma load_bufs_run (q : mlx5_rxq_data) st p m :
  mbufs st !! p = Some m -> on_bufs (load p) (RxState q st) = (RxState q st, Ret m).
Proof using. intros Hm. apply (on_bufs_ret _ (RxState q st)). by apply load_ok. Qed.

Lemma post_buffer_run (q : mlx5_rxq_data) st k idx rep m r :
  mbufs st !! rep = Some r -> 0 <= idx < Z.of_nat (length (elts q)) -> idx < Z.of_nat (length (wqe_addr q)) ->
  post_buffer k idx rep m (RxState q st)
  = (RxState (reposted idx rep (bswap 8 (rte_pktmbuf_mtod_offset (posted k m r) 0)) q)
       (with_mbuf rep (posted k m r) st), Ret tt).
Proof using.
  intros Hr Hi Hw. unfold post_buffer. rewrite (bind_ret _ _ _ _ _ (update_bufs_run q st rep _ r Hr)).
  unfold set_elt. rewrite bind_assoc. erewrite bind_ret; [|reflexivity]. cbn [rxq].
  destruct (Z.leb_spec 0 idx), (Z.ltb_spec idx (Z.of_nat (length (elts q)))); try lia. cbn [andb]. cbv iota.
  erewrite bind_ret; [|reflexivity]. cbn [rxq bufs].
  rewrite (bind_ret _ _ _ _ _ (update_bufs_run _ _ rep _ _ (with_mbuf_lookup rep _ _))), with_mbuf_twice.
  rewrite (bind_ret _ _ _ _ _ (load_bufs_run _ _ rep _ (with_mbuf_lookup rep _ _))).
  unfold set_wqe_addr. erewrite bind_ret; [|reflexivity]. cbn [rxq].
  change (wqe_addr (q <| elts := <[Z.to_nat idx := rep]> (elts q) |>)) with (wqe_addr q).
  destruct (Z.leb_spec 0 idx), (Z.ltb_spec idx (Z.of_nat (length (wqe_addr q)))); try lia. reflexivity.
Qed.

Lemma clear_flags_run (q : mlx5_rxq_data) st p m cqe rss L :
  mbufs st !! p = Some m ->
  forall (k : comp (rx_state P) (rx_locals + rx_locals)),
  (on_bufs (update p (fun m => m <| ol_flags := 0 |>)) ;;
   on_bufs (update p (rxq_cq_to_mbuf q cqe rss)) ;;
   on_bufs (update p (fun m => m <| pkt_len := u32 L |>)) ;; k) (RxState q st)
  = k (RxState q (with_mbuf p ((rxq_cq_to_mbuf q cqe rss (m <| ol_flags := 0 |>)) <| pkt_len := u32 L |>) st)).
Proof using.
  intros Hm k. rewrite (bind_ret _ _ _ _ _ (update_bufs_run q st p _ m Hm)).
  rewrite (bind_ret _ _ _ _ _ (update_bufs_run q _ p _ _ (with_mbuf_lookup p _ _))), with_mbuf_twice.
  by rewrite (bind_ret _ _ _ _ _ (update_bufs_run q _ p _ _ (with_mbuf_lookup p _ _))), with_mbuf_twice.
Qed.

(** The segment holds the whole packet: it is delivered. *)
Lemma replace_last_run (q : mlx5_rxq_data) st k idx rep l m r :
  mbufs st !! l_seg l = Some m -> mbufs st !! rep = Some r -> rep <> l_seg l ->
  0 <= idx < Z.of_nat (length (elts q)) -> idx < Z.of_nat (length (wqe_addr q)) -> l_len l <= data_len m ->
  rx_replace k idx rep l (RxState q st)
  = (RxState (reposted idx rep (bswap 8 (rte_pktmbuf_mtod_offset (posted k m r) 0)) q)
       (with_mbuf (l_seg l) (m <| data_len := u16 (l_len l) |>) (with_mbuf rep (posted k m r) st)),
     Ret (inl (rx_skip (sges_n q)
       (l <| l_pkts := l_pkts l ++ [l_pkt l] |> <| l_pkt := NULL |> <| l_pkts_n := l_pkts_n l - 1 |>)))).
Proof using.
  intros Hm Hr Hne Hi Hw Hlen. unfold rx_replace.
  rewrite (bind_ret _ _ _ _ _ (load_bufs_run q st _ m Hm)).
  rewrite (bind_ret _ _ _ _ _ (post_buffer_run q st k idx rep m r Hr Hi Hw)).
  assert (mbufs (with_mbuf rep (posted k m r) st) !! l_seg l = Some m) as Hm'
    by (by rewrite with_mbuf_lookup_ne).
  rewrite (bind_ret _ _ _ _ _ (load_bufs_run _ _ _ m Hm')).
  erewrite bind_ret; [|reflexivity]. destruct (Z.ltb_spec (data_len m) (l_len l)); [lia|].
  rewrite (bind_ret _ _ _ _ _ (update_bufs_run _ _ _ _ m Hm')). reflexivity.
Qed.

Lemma described_same (q : mlx5_rxq_data) cqe L m : same_buffer (described q cqe L m) m.
Proof using.
  exact (proj1 (cq_to_mbuf_same q cqe (bswap 4 (rx_hash_res (cqes q) cqe)) (m <| ol_flags := 0 |>))).
Qed.

Lemma described_data_len (q : mlx5_rxq_data) cqe L m : data_len (described q cqe L m) = data_len m.
Proof using.
  unfold described, rxq_cq_to_mbuf, add_flags, set_hash_rss, set_hash_fdir_hi. cbv zeta.
  repeat match goal with |- context [if ?b then _ else _] => destruct b end; done.
Qed.

(** ** One round *)

Section OneRound.
Context (fuel : nat) (s : rx_state P) (l : rx_locals).
Let q := rxq s.
Let idx := Z.land (l_rq_ci l) (Z.shiftl 1 (elts_n q) - 1).
Let cqe := sizeof_mlx5_cqe * Z.land (cq_ci q) (Z.shiftl 1 (cqe_n q) - 1).
Context (p rep : Z) (m r : rte_mbuf) (p' : P).
Context (Hn : l_pkts_n l <> 0) (Hpkt : l_pkt l = NULL) (Hai : ai (zip q) = 0).
Context (Hseg : elts q !! Z.to_nat idx = Some p).
Context (Hget : mp_get (pools (bufs s)) (rxq_mp q) = (p', Some rep)) (Hrep : rep <> NULL).
Context (Hr : mbufs (bufs s) !! rep = Some r).

Let st1 := (bufs s) <| pools := p' |>.

(** Up to the poll: the segment of the ring is [p], its replacement [rep]. *)
Lemma round_start :
  rx_round fuel l s =
  ('(len, mcqe) ← poll_len cqe (Z.shiftl 1 (cqe_n q) - 1);
   q' ← get_rxq;
   if len =? 0 then on_bufs (rte_mbuf_raw_free rep) ;; mret (inr (l <| l_seg := p |> <| l_len := len |>))
   else if len =? -1 then
     on_bufs (rte_mbuf_raw_free rep) ;;
     set_rxq (fun q => q <| idropped := idropped q +[64] 1 |>) ;;
     mret (inl (rx_skip (sges_n q) (l <| l_seg := p |> <| l_len := len |>)))
   else
     on_bufs (update p (fun m => m <| ol_flags := 0 |>)) ;;
     on_bufs (update p (rxq_cq_to_mbuf q' cqe (bswap 4 (match mcqe with
                  | None => rx_hash_res (cqes q') cqe
                  | Some mc => mini_rx_hash_result (cqes q') mc
                  end)))) ;;
     on_bufs (update p (fun m => m <| pkt_len := u32 (frame_len q len) |>)) ;;
     rx_replace (slice_number q) idx rep
       (l <| l_seg := p |> <| l_pkt := p |> <| l_len := frame_len q len |>)) (RxState q st1).
Proof using All.
  unfold rx_round. destruct (Z.eqb_spec (l_pkts_n l) 0); [done|].
  erewrite bind_ret; [|reflexivity]. cbv zeta. fold q.
  rewrite (bind_ret _ _ _ _ _ (get_elt_run s _ p Hseg)).
  rewrite Hpkt. rewrite Z.eqb_refl. cbn [negb]. cbv iota.
  rewrite (bind_ret _ _ s s tt) by done.
  rewrite (bind_ret _ _ _ _ _ (on_bufs_ret _ _ _ _ (raw_alloc_run _ _ _ _ Hget))).
  destruct (Z.eqb_spec rep NULL); [done|].
  change (l_pkt (l <| l_seg := p |>)) with (l_pkt l). by rewrite Hpkt, Z.eqb_refl.
Qed.

(** A completion: the packet is delivered and its place is taken. *)
Lemma round_packet len :
  mbufs (bufs s) !! p = Some m -> rep <> p -> sges_n q = 0 ->
  0 <= idx < Z.of_nat (length (elts q)) -> idx < Z.of_nat (length (wqe_addr q)) ->
  completion (cqes q) (cqe_n q) (cq_ci q) len -> frame_len q len <= data_len m ->
  let m1 := described (polled q) cqe (frame_len q len) m in
  let r1 := posted (slice_number q) m1 r in
  rx_round fuel l s
  = (RxState (reposted idx rep (bswap 8 (rte_pktmbuf_mtod_offset r1 0)) (polled q))
       (with_mbuf p (m1 <| data_len := u16 (frame_len q len) |>) (with_mbuf rep r1 (with_mbuf p m1 st1))),
     Ret (inl (rx_skip 0 (l <| l_seg := p |> <| l_len := frame_len q len |> <| l_pkts := l_pkts l ++ [p] |>
                            <| l_pkt := NULL |> <| l_pkts_n := l_pkts_n l - 1 |>)))).
Proof using All.
  intros Hm Hne Hsg Hi Hw Hcomp Hlen m1 r1. rewrite round_start.
  pose proof (comp_pos _ _ _ _ Hcomp) as Hpos.
  rewrite (bind_ret _ _ _ _ _ (poll_plain_run (RxState q st1) len Hai Hcomp)).
  erewrite bind_ret; [|reflexivity]. cbn [rxq bufs].
  destruct (Z.eqb_spec len 0); [lia|]. destruct (Z.eqb_spec len (-1)); [lia|].
  rewrite (clear_flags_run (polled q) st1 p m) by done. fold (described (polled q) cqe (frame_len q len) m). fold m1.
  assert (data_len m1 = data_len m) as Hdl by apply described_data_len.
  rewrite (replace_last_run (polled q) (with_mbuf p m1 st1) (slice_number q) idx rep _ m1 r); try done.
  - cbn [l_seg l_len]. change (sges_n (polled q)) with (sges_n q). rewrite Hsg. reflexivity.
  - apply with_mbuf_lookup.
  - by rewrite with_mbuf_lookup_ne.
  - change (frame_len q len <= data_len m1). by rewrite Hdl.
Qed.

(** No completion: the replacement goes back to the pool. *)
Lemma round_empty :
  no_completion (cqes q) (cqe_n q) (cq_ci q) ->
  rx_round fuel l s
  = (RxState q (st1 <| pools := mp_put (pools st1) (pool r) rep |>), Ret (inr (l <| l_seg := p |> <| l_len := 0 |>))).
Proof using All.
  intros Hno. rewrite round_start.
  rewrite (bind_ret _ _ _ _ _ (poll_none_run (RxState q st1) Hai Hno)).
  erewrite bind_ret; [|reflexivity]. cbn [Z.eqb]. cbv iota.
  erewrite bind_ret; [reflexivity|]. apply (on_bufs_ret _ (RxState q st1)).
  unfold rte_mbuf_raw_free. by rewrite (bind_ret _ _ _ _ _ (load_ok rep r st1 Hr)).
Qed.
End OneRound.
End Round.

(** ** A run of rounds *)

Section Burst.
Context {P : Type} `{OPS : !MempoolOps P} `{LAWS : !MempoolLaws P} `{PRM : !Mlx5Prm}.
Implicit Types (s : rx_state P) (st : store P) (m : rte_mbuf) (l : list (Z * Z)).

(** The free buffers of the pool of the queue. *)
Definition avail s : list Z := mp_avail (pools (bufs s)) (rxq_mp (rxq s)).

Definition ring_idx (q : mlx5_rxq_data) (c : Z) : Z := Z.land c (Z.shiftl 1 (elts_n q) - 1).

(** From index [c] of the ring on, the buffers and the lengths of [l] are
    complete: each is in its place with a plain completion, fits its
    buffer, and can be replaced from the pool. *)
Record burst_ready (c : Z) l s : Prop := {
  br_valid : mp_valid (pools (bufs s));
  br_sges : sges_n (rxq s) = 0;
  br_zip : ai (zip (rxq s)) = 0;
  br_cq : in_range 32 (cq_ci (rxq s));
  br_range : in_range 32 c /\ 0 <= elts_n (rxq s) < 32;
  br_elts : 2 ^ elts_n (rxq s) <= Z.of_nat (length (elts (rxq s)));
  br_wqes : 2 ^ elts_n (rxq s) <= Z.of_nat (length (wqe_addr (rxq s)));
  br_fit : Z.of_nat (length l) <= 2 ^ elts_n (rxq s);
  br_ring : forall j p len, l !! j = Some (p, len) ->
    elts (rxq s) !! Z.to_nat (ring_idx (rxq s) (c +[32] Z.of_nat j)) = Some p
    /\ completion (cqes (rxq s)) (cqe_n (rxq s)) (cq_ci (rxq s) +[32] Z.of_nat j) len
    /\ exists m, mbufs (bufs s) !! p = Some m /\ frame_len (rxq s) len <= data_len m;
  br_nodup : NoDup l.*1;
  br_pool : forall x, x ∈ avail s ->
    x <> NULL /\ x ∉ l.*1 /\ exists m, mbufs (bufs s) !! x = Some m /\ pool m = rxq_mp (rxq s);
  br_avail : (length l <= length (avail s))%nat }.

(** The packet as the application gets it. *)
Definition delivered (q : mlx5_rxq_data) len m m' : Prop :=
  same_buffer m' m /\ pkt_len m' = u32 (frame_len q len) /\ data_len m' = u16 (frame_len q len).

(** What a round keeps of the queue. *)
Definition same_queue (q q' : mlx5_rxq_data) : Prop :=
  sges_n q' = sges_n q /\ zip q' = zip q /\ elts_n q' = elts_n q /\ cqe_n q' = cqe_n q /\ cqes q' = cqes q
  /\ crc_present q' = crc_present q /\ rxq_mp q' = rxq_mp q
  /\ length (elts q') = length (elts q) /\ length (wqe_addr q') = length (wqe_addr q).

#[local] Instance same_queue_preorder : PreOrder same_queue.
Proof.
  split; unfold same_queue.
  - by intros q.
  - intros q1 q2 q3 H1 H2. intuition congruence.
Qed.

Lemma ring_idx_mod q c : 0 <= elts_n q -> ring_idx q c = c mod 2 ^ elts_n q.
Proof using.
  intros He. unfold ring_idx. rewrite Z.shiftl_1_l. change (2 ^ elts_n q - 1) with (Z.pred (2 ^ elts_n q)).
  rewrite <- Z.ones_equiv. by apply Z.land_ones.
Qed.

Lemma ring_idx_wrap q c j : 0 <= elts_n q < 32 -> ring_idx q (c +[32] j) = (c + j) mod 2 ^ elts_n q.
Proof using.
  intros He. rewrite ring_idx_mod by lia. unfold wrap. apply Z.mod_mod_divide.
  exists (2 ^ (32 - elts_n q)). rewrite <- Z.pow_add_r by lia. f_equal. lia.
Qed.

Lemma ring_idx_range q c : 0 <= elts_n q < 32 -> 0 <= ring_idx q c < 2 ^ elts_n q.
Proof using. intros He. rewrite ring_idx_mod by lia. apply Z.mod_pos_bound. apply Z.pow_pos_nonneg; lia. Qed.

(** The place of a later packet is another one. *)
Lemma ring_idx_other q c j :
  0 <= elts_n q < 32 -> in_range 32 c -> 0 < j < 2 ^ elts_n q -> ring_idx q c <> ring_idx q (c +[32] j).
Proof using.
  intros He Hc Hj. rewrite ring_idx_wrap, ring_idx_mod by lia. intros Heq.
  assert ((c + j - c) mod 2 ^ elts_n q = 0) as Hz.
  { rewrite Zminus_mod, <- Heq, Z.sub_diag. apply Z.mod_0_l. lia. }
  replace (c + j - c) with j in Hz by lia. rewrite Z.mod_small in Hz by lia. lia.
Qed.

Lemma skip_run (l0 : rx_locals) : rx_skip 0 l0 = l0 <| l_rq_ci := l_rq_ci l0 +[32] 1 |>.
Proof using.
  unfold rx_skip. rewrite Z.shiftr_0_r, Z.shiftl_0_r, wrap_wrap. done.
Qed.

(** The pool hands out a buffer that is ready. *)
Lemma take_buffer c l s :
  burst_ready c l s -> (0 < length (avail s))%nat ->
  exists p' rep r, mp_get (pools (bufs s)) (rxq_mp (rxq s)) = (p', Some rep) /\ mp_valid p'
    /\ rep <> NULL /\ rep ∉ l.*1 /\ mbufs (bufs s) !! rep = Some r /\ pool r = rxq_mp (rxq s)
    /\ avail s ≡ₚ rep :: mp_avail p' (rxq_mp (rxq s)) /\ (0 < mp_room p' (rxq_mp (rxq s)))%nat.
Proof using.
  intros Hb Hlen. destruct (mp_get_avail (pools (bufs s)) (rxq_mp (rxq s)) (br_valid _ _ _ Hb)) as (p' & rep & Hget).
  { intros He. unfold avail in Hlen. rewrite He in Hlen. simpl in Hlen. lia. }
  destruct (mp_get_some _ _ _ _ (br_valid _ _ _ Hb) Hget) as (Hval & Hperm & Hroom & _). exists p', rep.
  destruct (br_pool c l s Hb rep) as (H0 & Hin & r & Hr & Hp).
  { unfold avail. rewrite Hperm. apply list_elem_of_here. }
  exists r. split_and!; try done. lia.
Qed.

Lemma wrap_next x j : (x +[32] 1) +[32] Z.of_nat j = x +[32] Z.of_nat (S j).
Proof using. rewrite wrap_add_l. f_equal. lia. Qed.

Lemma wrap_next_0 x : in_range 32 x -> x +[32] Z.of_nat 0 = x.
Proof using. intros Hx. change (Z.of_nat 0) with 0. rewrite Z.add_0_r. by apply wrap_small. Qed.

(** What the rounds for [l] did: the packets are delivered, the buffers [used]
    left the pool and stand in their places of the ring, and no other buffer and
    no other place changed. *)
Record burst_done (c : Z) l (used : list Z) s s' : Prop := {
  bd_queue : same_queue (rxq s) (rxq s');
  bd_cq : cq_ci (rxq s') = cq_ci (rxq s) +[32] Z.of_nat (length l);
  bd_pkts : forall p len, (p, len) ∈ l -> exists m m',
    mbufs (bufs s) !! p = Some m /\ mbufs (bufs s') !! p = Some m' /\ delivered (rxq s) len m m';
  bd_used : length used = length l /\ avail s ≡ₚ used ++ avail s';
  bd_ring : forall j x, used !! j = Some x ->
    elts (rxq s') !! Z.to_nat (ring_idx (rxq s) (c +[32] Z.of_nat j)) = Some x;
  bd_places : forall i, (forall j, (j < length l)%nat -> i <> Z.to_nat (ring_idx (rxq s) (c +[32] Z.of_nat j))) ->
    elts (rxq s') !! i = elts (rxq s) !! i;
  bd_frame : forall x, x ∉ l.*1 -> x ∉ avail s -> mbufs (bufs s') !! x = mbufs (bufs s) !! x }.

Lemma same_queue_polled idx rep a q : same_queue q (reposted idx rep a (polled q)).
Proof using. unfold same_queue, reposted, polled. simpl. rewrite !length_insert. done. Qed.

Lemma reposted_elts idx rep a q : elts (reposted idx rep a (polled q)) = <[Z.to_nat idx := rep]> (elts q).
Proof using. done. Qed.

(** The state after the round of the packet in [p]: the structures of [p] and of
    its replacement have changed, and one place of the ring. *)
Section Advance.
Context (c p len : Z) (l : list (Z * Z)) (s : rx_state P) (p' : P) (rep a : Z) (m m1 r r1 : rte_mbuf).
Context (Hb : burst_ready c ((p, len) :: l) s).
Context (Hm : mbufs (bufs s) !! p = Some m) (Hdel : delivered (rxq s) len m m1).
Context (Hr : mbufs (bufs s) !! rep = Some r) (Hpool : pool r1 = rxq_mp (rxq s)) (Hrep : rep ∉ p :: l.*1).
Context (Hperm : avail s ≡ₚ rep :: mp_avail p' (rxq_mp (rxq s))).
Context (s1 : rx_state P).
Context (Hq : rxq s1 = reposted (ring_idx (rxq s) c) rep a (polled (rxq s))).
Context (Hpl : pools (bufs s1) = p') (Hval : mp_valid p').
Context (Hmb : mbufs (bufs s1) = <[p := m1]> (<[rep := r1]> (mbufs (bufs s)))).

Lemma advance_queue : same_queue (rxq s) (rxq s1).
Proof using Hq. rewrite Hq. apply same_queue_polled. Qed.

Lemma advance_avail : avail s ≡ₚ rep :: avail s1.
Proof using Hperm Hpl Hq.
  unfold avail at 2. destruct advance_queue as (_ & _ & _ & _ & _ & _ & -> & _). by rewrite Hpl.
Qed.

Lemma advance_frame x : x <> p -> x <> rep -> mbufs (bufs s1) !! x = mbufs (bufs s) !! x.
Proof using Hmb. intros H1 H2. by rewrite Hmb, !lookup_insert_ne. Qed.

Lemma advance_elts i : i <> Z.to_nat (ring_idx (rxq s) c) -> elts (rxq s1) !! i = elts (rxq s) !! i.
Proof using Hq. intros Hi. rewrite Hq, reposted_elts. by rewrite list_lookup_insert_ne. Qed.

(** The places of the later packets are other ones. *)
Lemma advance_later j :
  (j < length l)%nat -> Z.to_nat (ring_idx (rxq s) (c +[32] Z.of_nat (S j))) <> Z.to_nat (ring_idx (rxq s) c).
Proof using Hb.
  intros Hj. destruct (br_range _ _ _ Hb) as [Hc He]. pose proof (br_fit _ _ _ Hb) as Hf. simpl in Hf.
  pose proof (ring_idx_other (rxq s) c (Z.of_nat (S j)) He Hc) as Hne.
  pose proof (ring_idx_range (rxq s) c He). pose proof (ring_idx_range (rxq s) (c +[32] Z.of_nat (S j)) He). lia.
Qed.

Lemma advance_place : elts (rxq s1) !! Z.to_nat (ring_idx (rxq s) c) = Some rep.
Proof using Hb Hq.
  rewrite Hq, reposted_elts. apply list_lookup_insert_eq.
  destruct (br_range _ _ _ Hb) as [_ He]. pose proof (ring_idx_range (rxq s) c He).
  pose proof (br_elts _ _ _ Hb). simpl. lia.
Qed.

Lemma advance_ring_idx c' : ring_idx (rxq s1) c' = ring_idx (rxq s) c'.
Proof using Hq. unfold ring_idx. by destruct advance_queue as (_ & _ & -> & _). Qed.

Lemma advance_ready : burst_ready (c +[32] 1) l s1.
Proof using All.
  destruct advance_queue as (E1 & E2 & E3 & E4 & E5 & E6 & E7 & E9 & E10).
  destruct Hb as [_ H1 H2 Hcq [H3 H3'] H4 H5 H6 H7 H8 H9 H10]. pose proof advance_later as Hlater.
  pose proof advance_avail as Hav. simpl in H8. apply NoDup_cons in H8 as [Hp H8].
  split; rewrite ?E1, ?E2, ?E3, ?E9, ?E10; try done.
  - by rewrite Hpl.
  - rewrite Hq. by apply (wrap_range 32).
  - split; [by apply (wrap_range 32)|done].
  - simpl in H6. lia.
  - intros j p2 len2 Hj. pose proof (lookup_lt_Some _ _ _ Hj) as Hjl.
    destruct (H7 (S j) p2 len2 Hj) as (He & Hcomp & m2 & Hm2 & Hfl).
    rewrite advance_ring_idx, E4, E5, wrap_next. split; [rewrite advance_elts; [done|by apply Hlater]|].
    split; [rewrite Hq; change (cq_ci (reposted ?a ?b ?d (polled ?q))) with (cq_ci q +[32] 1); by rewrite wrap_next|].
    exists m2. unfold frame_len in *. rewrite E6. split; [|done].
    assert (p2 ∈ l.*1) as Hin by (apply list_elem_of_fmap; exists (p2, len2); split; [done|by eapply list_elem_of_lookup_2]).
    rewrite advance_frame; [done| |]; intros ->; [done|]. apply Hrep. by apply list_elem_of_further.
  - intros x Hx. destruct (H9 x) as (Hx0 & Hxl & mx & Hmx & Hmp).
    { rewrite Hav. by apply list_elem_of_further. }
    split; [done|]. simpl in Hxl. split; [by intros Hin; apply Hxl; apply list_elem_of_further|]. rewrite E7.
    assert (x <> p) by (intros ->; apply Hxl; apply list_elem_of_here).
    destruct (decide (x = rep)) as [->|Hne].
    + exists r1. rewrite Hmb, lookup_insert_ne, lookup_insert_eq by done. done.
    + exists mx. by rewrite advance_frame.
  - apply Permutation_length in Hav. simpl in Hav, H10. lia.
Qed.

Lemma advance_later_packet q : q ∈ l.*1 -> mbufs (bufs s1) !! q = mbufs (bufs s) !! q.
Proof using Hb Hmb Hrep.
  intros Hin. pose proof (br_nodup _ _ _ Hb) as Hnd. simpl in Hnd. apply NoDup_cons in Hnd as [Hp _].
  apply advance_frame; intros ->; [done|]. apply Hrep. by apply list_elem_of_further.
Qed.

Lemma advance_done used s2 : burst_done (c +[32] 1) l used s1 s2 -> burst_done c ((p, len) :: l) (rep :: used) s s2.
Proof using All.
  intros [D1 D2 D3 [D4 D4'] D5 D6 D7]. pose proof advance_avail as Hav.
  destruct (br_range _ _ _ Hb) as [Hc _]. pose proof (br_nodup _ _ _ Hb) as Hnd. simpl in Hnd.
  apply NoDup_cons in Hnd as [Hpl' _].
  assert (crc_present (rxq s1) = crc_present (rxq s)) as Hcrc by apply advance_queue.
  assert (forall x, x ∉ avail s -> x ∉ avail s1) as Hsub.
  { intros x Hx Hin. apply Hx. rewrite Hav. by apply list_elem_of_further. }
  assert (p ∉ avail s) as Hpa.
  { intros Hin. destruct (br_pool _ _ _ Hb p Hin) as (_ & Hn & _). apply Hn. apply list_elem_of_here. }
  split.
  - by transitivity (rxq s1); [apply advance_queue|].
  - rewrite D2, Hq. change (cq_ci (reposted ?a ?b ?d (polled ?q))) with (cq_ci q +[32] 1). apply wrap_next.
  - intros x len0 [[= -> ->]|Hin]%elem_of_cons.
    + exists m, m1. rewrite D7 by auto. rewrite Hmb, lookup_insert_eq. done.
    + destruct (D3 x len0 Hin) as (mx & mx' & Hmx & Hmx' & Hd). exists mx, mx'.
      rewrite <- advance_later_packet by (apply list_elem_of_fmap; by exists (x, len0)).
      unfold delivered, frame_len in *. by rewrite <- Hcrc.
  - simpl. split; [by f_equal|]. by rewrite Hav, D4'.
  - intros [|j] x Hx; simpl in Hx.
    + injection Hx as <-. rewrite wrap_next_0 by done. rewrite D6; [apply advance_place|].
      intros j Hj. rewrite advance_ring_idx, wrap_next. symmetry. by apply advance_later.
    + rewrite <- wrap_next, <- advance_ring_idx. by apply D5.
  - intros i Hi. rewrite D6.
    + apply advance_elts. specialize (Hi 0%nat). rewrite wrap_next_0 in Hi by done. apply Hi. simpl. lia.
    + intros j Hj. rewrite advance_ring_idx, wrap_next. apply Hi. simpl. lia.
  - intros x Hx Hxa. simpl in Hx. apply not_elem_of_cons in Hx as [Hxp Hxl].
    rewrite D7 by auto. apply advance_frame; [done|]. intros ->. apply Hxa. rewrite Hav. apply list_elem_of_here.
Qed.
End Advance.

Lemma burst_done_nil c s : in_range 32 (cq_ci (rxq s)) -> burst_done c [] [] s s.
Proof using.
  intros Hci. split; try done.
  - by rewrite wrap_next_0.
  - intros p len Hp. by apply elem_of_nil in Hp.
Qed.

(** What the next round finds. *)
Definition burst_next s s1 (rep : Z) : Prop :=
  same_queue (rxq s) (rxq s1) /\ cq_ci (rxq s1) = cq_ci (rxq s) +[32] 1 /\ avail s ≡ₚ rep :: avail s1.

(** One round of the loop on a packet that is ready. *)
Lemma burst_round fuel c p len l s (L : rx_locals) :
  burst_ready c ((p, len) :: l) s -> l_rq_ci L = c -> l_pkt L = NULL -> l_pkts_n L <> 0 ->
  exists s1 rep,
    rx_round fuel L s = (s1, Ret (inl (rx_skip 0 (L <| l_seg := p |> <| l_len := frame_len (rxq s) len |>
      <| l_pkts := l_pkts L ++ [p] |> <| l_pkt := NULL |> <| l_pkts_n := l_pkts_n L - 1 |>))))
    /\ burst_ready (c +[32] 1) l s1
    /\ rq_ci (rxq s1) = rq_ci (rxq s) /\ burst_next s s1 rep
    /\ forall used s2, burst_done (c +[32] 1) l used s1 s2 -> burst_done c ((p, len) :: l) (rep :: used) s s2.
Proof using LAWS.
  intros Hb Hc Hpkt Hn. destruct (take_buffer c _ s Hb) as (p' & rep & r & Hget & Hval & H0 & Hin & Hr & Hpr & Hperm & _).
  { pose proof (br_avail _ _ _ Hb). simpl in *. lia. }
  destruct (br_range _ _ _ Hb) as [Hc32 He].
  destruct (br_ring _ _ _ Hb 0 p len eq_refl) as (Hel & Hcomp & m & Hm & Hlen).
  rewrite wrap_next_0 in Hel by done. rewrite wrap_next_0 in Hcomp by apply (br_cq _ _ _ Hb).
  assert (rep <> p) as Hne by (intros ->; apply Hin, list_elem_of_here).
  pose proof (ring_idx_range (rxq s) c He) as Hi. pose proof (br_elts _ _ _ Hb). pose proof (br_wqes _ _ _ Hb).
  unfold ring_idx in Hel, Hi. rewrite <- Hc in Hel, Hi.
  pose proof (round_packet fuel s L p rep m r p' Hn Hpkt (br_zip _ _ _ Hb) Hel Hget H0 Hr len Hm Hne (br_sges _ _ _ Hb)
    ltac:(lia) ltac:(lia) Hcomp Hlen) as Hrun. cbv zeta in Hrun.
  set (m1 := described (polled (rxq s)) _ (frame_len (rxq s) len) m) in Hrun. set (r1 := posted _ m1 r) in Hrun.
  assert (delivered (rxq s) len m (m1 <| data_len := u16 (frame_len (rxq s) len) |>)) as Hdel.
  { split; [|done]. apply (described_same (polled (rxq s))). }
  assert (pool r1 = rxq_mp (rxq s)) as Hpr1.
  { unfold r1, posted, rte_pktmbuf_set_slice. by destruct (_ <=? _), (_ <=? _). }
  assert (forall x y (mb : gmap Z rte_mbuf), <[p := x]> (<[rep := r1]> (<[p := y]> mb)) = <[p := x]> (<[rep := r1]> mb)) as Hins.
  { intros x y mb. by rewrite (insert_insert_ne mb rep p), insert_insert_eq by done. }
  match type of Hrun with _ = (?x, _) => set (s1 := x) in * end. exists s1, rep. split; [exact Hrun|].
  assert (rxq s1 = reposted (ring_idx (rxq s) c) rep (bswap 8 (rte_pktmbuf_mtod_offset r1 0)) (polled (rxq s))) as Hq
    by (unfold ring_idx; by rewrite <- Hc).
  assert (mbufs (bufs s1) = <[p := m1 <| data_len := u16 (frame_len (rxq s) len) |>]> (<[rep := r1]> (mbufs (bufs s)))) as Hmb
    by apply Hins.
  split; [by apply (advance_ready c p len l s p' rep _ m _ r r1 Hb Hm Hdel Hr Hpr1 Hin Hperm s1 Hq)|].
  split; [done|split; [split_and!; [apply same_queue_polled|done|by eapply (advance_avail c s p' rep _ Hperm s1 Hq)]|]].
  by apply (advance_done c p len l s p' rep _ m _ r r1 Hb Hm Hdel Hr Hpr1 Hin Hperm s1 Hq).
Qed.

(** Why the loop ends after the packets of [l]: the number asked for is
    reached, or there is no other completion. *)
Definition burst_stop l (n : Z) s : Prop :=
  n = Z.of_nat (length l)
  \/ Z.of_nat (length l) < n /\ (length l < length (avail s))%nat
     /\ no_completion (cqes (rxq s)) (cqe_n (rxq s)) (cq_ci (rxq s) +[32] Z.of_nat (length l)).

Lemma burst_stop_next e l n s s1 rep :
  burst_stop (e :: l) n s -> burst_next s s1 rep -> n <> 0 /\ burst_stop l (n - 1) s1.
Proof using.
  intros Hs ((_ & _ & _ & En & Eq & _) & Hci & Hav). apply Permutation_length in Hav. simpl in Hav.
  unfold burst_stop in *. rewrite Hci, wrap_next, En, Eq. cbn [length] in Hs |- *.
  destruct Hs as [->|(H1 & H2 & H3)]; [split; [lia|left; lia]|]. split; [lia|right]. split_and!; [lia|lia|done].
Qed.

(** The round that finds no completion. *)
Lemma burst_idle fuel c s (L : rx_locals) :
  burst_ready c [] s -> l_rq_ci L = c -> l_pkt L = NULL -> burst_stop [] (l_pkts_n L) s -> l_pkts_n L <> 0 ->
  exists s1 L1, rx_round fuel L s = (s1, Ret (inr L1)) /\ l_pkts L1 = l_pkts L /\ l_rq_ci L1 = c
    /\ rxq s1 = rxq s /\ burst_done c [] [] s s1.
Proof using LAWS.
  intros Hb Hc Hpkt [->|(_ & Hlen & Hno)] Hn; [done|]. pose proof (br_cq _ _ _ Hb) as Hcq.
  change (length []) with 0%nat in Hno. rewrite wrap_next_0 in Hno by done.
  destruct (take_buffer c _ s Hb Hlen) as (p' & rep & r & Hget & Hval & H0 & _ & Hr & Hpr & Hperm & Hroom).
  destruct (br_range _ _ _ Hb) as [_ He]. pose proof (ring_idx_range (rxq s) c He) as Hi. pose proof (br_elts _ _ _ Hb).
  destruct (lookup_lt_is_Some_2 (elts (rxq s)) (Z.to_nat (ring_idx (rxq s) c))) as [p Hp]; [lia|].
  unfold ring_idx in Hp. rewrite <- Hc in Hp.
  eexists _, _. split; [exact (round_empty fuel s L p rep r r p' Hn Hpkt (br_zip _ _ _ Hb) Hp Hget H0 Hr Hno)|].
  split_and!; try done. destruct (burst_done_nil c s Hcq) as [D1 D2 D3 D4 D5 D6 D7]. split; try done.
  split; [done|]. unfold avail at 2. cbn [rxq bufs pools].
  change (pools (?st <| pools := ?x |>)) with x. rewrite Hpr.
  destruct (mp_put_avail p' (rxq_mp (rxq s)) rep Hval Hroom) as (_ & -> & _). done.
Qed.

Lemma burst_run fuel n l c s (L : rx_locals) :
  burst_ready c l s -> l_rq_ci L = c -> l_pkt L = NULL -> burst_stop l (l_pkts_n L) s -> (length l < n)%nat ->
  exists s' L' used, comp_loop (rx_round fuel) n L s = (s', Ret L')
    /\ l_pkts L' = l_pkts L ++ l.*1 /\ l_rq_ci L' = c +[32] Z.of_nat (length l)
    /\ rq_ci (rxq s') = rq_ci (rxq s) /\ burst_done c l used s s'.
Proof using LAWS.
  revert n c s L. induction l as [|[p len] l IH]; intros n c s L Hb Hc Hpkt Hs Hn; destruct n as [|n]; try lia; simpl comp_loop.
  - destruct (br_range _ _ _ Hb) as [Hc32 _]. rewrite app_nil_r, wrap_next_0 by done.
    destruct (Z.eqb_spec (l_pkts_n L) 0) as [E|Hne].
    + exists s, L, []. rewrite (bind_ret _ _ s s (inr L)) by (unfold rx_round; by rewrite E).
      split_and!; try done. apply burst_done_nil, (br_cq _ _ _ Hb).
    + destruct (burst_idle fuel c s L Hb Hc Hpkt Hs Hne) as (s1 & L1 & Hrun & E1 & E2 & E3 & Hd).
      exists s1, L1, []. rewrite (bind_ret _ _ _ _ _ Hrun). split_and!; try done. by rewrite E3.
  - assert (l_pkts_n L <> 0) as Hne by (destruct Hs as [->|(? & _)]; simpl in *; lia).
    destruct (burst_round fuel c p len l s L Hb Hc Hpkt Hne) as (s1 & rep & Hrun & Hb1 & Hrq & Hnext & Hdone).
    destruct (burst_stop_next _ _ _ _ _ _ Hs Hnext) as [_ Hs1]. rewrite (bind_ret _ _ _ _ _ Hrun), skip_run.
    destruct (IH n (c +[32] 1) s1 ((L <| l_seg := p |> <| l_len := frame_len (rxq s) len |> <| l_pkts := l_pkts L ++ [p] |>
      <| l_pkt := NULL |> <| l_pkts_n := l_pkts_n L - 1 |>) <| l_rq_ci := l_rq_ci L +[32] 1 |>)) as (s' & L' & used & H1 & H2 & H3 & H4 & H5);
      [done|simpl; by rewrite Hc|done|done|simpl in Hn; lia|].
    exists s', L', (rep :: used). split; [exact H1|]. split; [rewrite H2; simpl; by rewrite <- app_assoc|].
    split; [by rewrite H3; apply wrap_next|]. split; [by rewrite H4|]. by apply Hdone.
Qed.
End Burst.

(** C15. A burst of plain completions: when the next completions are for [l],
    single-buffer packets with room in their buffers, the pool has a buffer for
    each, and the loop has a reason to stop after them (the number asked for, or no
    other completion), the burst ends and returns exactly these packets in order,
    each described by its completion with its length; their places of the ring hold
    the buffers taken from the pool, both consumer indices advance by the
    number of packets and their doorbells are rung if there are any, and every other
    buffer and place is unchanged. *)
Theorem rx_burst_plain {P} `{!MempoolOps P} `{!MempoolLaws P} `{!Mlx5Prm} fuel n (l : list (Z * Z)) (s : rx_state P) :
  burst_ready (rq_ci (rxq s)) l s -> burst_stop l n s -> (length l < fuel)%nat ->
  exists s' used, mlx5_rx_burst fuel n s = (s', Ret l.*1)
    /\ burst_done (rq_ci (rxq s)) l used s s'
    /\ rq_ci (rxq s') = rq_ci (rxq s) +[32] Z.of_nat (length l)
    /\ (l <> [] -> rq_db (rxq s') = bswap 4 (rq_ci (rxq s')) /\ cq_db (rxq s') = bswap 4 (cq_ci (rxq s'))).
Proof.
  intros Hb Hs Hf. destruct (br_range _ _ _ Hb) as [Hc _]. pose proof (br_sges _ _ _ Hb) as Hsg.
  assert (rq_ci (rxq s) <<[32] sges_n (rxq s) = rq_ci (rxq s)) as Hshift
    by (rewrite Hsg, Z.shiftl_0_r; by apply wrap_small).
  destruct (burst_run fuel fuel l (rq_ci (rxq s)) s (RxLocals NULL NULL (rq_ci (rxq s) <<[32] sges_n (rxq s)) 0 n []))
    as (s1 & L' & used & Hrun & Hp & Hci & Hrq & Hd); [done|done|done|done|done|].
  simpl in Hp. unfold mlx5_rx_burst. rewrite (bind_ret _ _ s s (rxq s)) by done.
  rewrite (bind_ret _ _ _ _ _ Hrun). cbv zeta. rewrite Hsg, Z.shiftr_0_r, Hci, Hp, length_fmap.
  destruct (decide (l = [])) as [->|Hne].
  - exists s1, used. change (length []) with 0%nat. rewrite wrap_next_0 by done. rewrite (Z.eqb_refl (rq_ci _)). by split_and!.
  - destruct (Z.eqb_spec (Z.of_nat (length l)) 0) as [E|_]; [by destruct l|]. cbn [andb].
    eexists _, used. split; [reflexivity|]. split; [|done].
    destruct Hd as [D1 D2 D3 D4 D5 D6 D7]. split; try done.
Qed.

Example rx_burst_plain_witness :
  exists s' used, mlx5_rx_burst 5 2 example_rx = (s', Ret [4096])
    /\ rq_ci (rxq s') = 1 /\ burst_done 0 [(4096, 100)] used example_rx s'.
Proof.
  destruct (rx_burst_plain 5 2 [(4096, 100)] example_rx) as (s' & used & H1 & H2 & H3 & _).
  - split; try done.
    + intros [|j] p len Hj; [|done]. injection Hj as <- <-. split; [done|]. split; [by split; vm_compute|].
      eexists. split; [by apply example_found, list_elem_of_here|]. vm_compute. done.
    + apply NoDup_singleton.
    + intros x Hx. change (x ∈ [12288; 16384]) in Hx. split; [|split].
      * intros ->. revert Hx. by apply (bool_decide_unpack _).
      * simpl. intros ->%list_elem_of_singleton. revert Hx. by apply (bool_decide_unpack _).
      * eexists. split; [apply example_found; apply list_elem_of_further, list_elem_of_further; done|].
        apply list_elem_of_In in Hx. destruct Hx as [<-|[<-|[]]]; reflexivity.
    + vm_compute. lia.
  - right. split; [simpl; lia|]. split; [vm_compute; lia|]. vm_compute. reflexivity.
  - simpl. lia.
  - exists s', used. done.
Defined.
