(* ===== verification/HashCrc.v ===== *)
(** * The CRC hash (lib/librte_hash/rte_hash_crc.h)

    The software and the hardware paths of [rte_hash_crc] over a byte memory.
    The reference is the bit-serial CRC32-C: one shift and one conditional
    exclusive or with the reflected polynomial per bit.  The x86 [crc32]
    instructions are assembler in the source; they are the class [Crc32Instr],
    with what the processor manual says of them in [Crc32InstrLaws]. *)

From S2P Require Export Bytes CrcTables.

(** ** The program *)

Definition crc_table (n : nat) (i : Z) : Z := nth (Z.to_nat i) (nth n crc32c_tables []) 0.

Definition CRC32_UPD (crc : Z) (n : nat) : Z :=
  Z.lxor (crc_table n (Z.land crc 0xFF))
         (crc_table (n - 1) (Z.land (Z.shiftr crc 8) 0xFF)).

Definition crc32c_1byte (data init_val : Z) : Z :=
  let crc := Z.lxor init_val data in
  Z.lxor (crc_table 0 (Z.land crc 0xff)) (Z.shiftr crc 8).

Definition crc32c_2bytes (data init_val : Z) : Z :=
  let crc := Z.lxor init_val data in
  Z.lxor (CRC32_UPD crc 1) (Z.shiftr crc 16).

Definition crc32c_1word (data init_val : Z) : Z :=
  let crc := Z.lxor init_val data in
  let term1 := CRC32_UPD crc 3 in
  let term2 := Z.shiftr crc 16 in
  Z.lxor term1 (CRC32_UPD term2 1).

(** [d.u32[0]] and [d.u32[1]] of the union on a little-endian machine. *)
Definition crc32c_2words (data init_val : Z) : Z :=
  let d0 := u32 data in
  let d1 := u32 (Z.shiftr data 32) in
  let crc := Z.lxor init_val d0 in
  let term1 := CRC32_UPD crc 7 in
  let term2 := Z.shiftr crc 16 in
  let crc := Z.lxor term1 (CRC32_UPD term2 5) in
  let term1 := CRC32_UPD d1 3 in
  let term2 := Z.shiftr d1 16 in
  Z.lxor crc (Z.lxor term1 (CRC32_UPD term2 1)).

Class Crc32Instr := {
  crc32b : Z -> Z -> Z;
  crc32w : Z -> Z -> Z;
  crc32l : Z -> Z -> Z;
  crc32q : Z -> Z -> Z;
}.

Definition CRC32_SW : Z := 1.
Definition CRC32_SSE42 : Z := 2.
Definition CRC32_x64 : Z := 4.
Definition CRC32_SSE42_x64 : Z := Z.lor CRC32_x64 CRC32_SSE42.

(** [em64t]: whether the processor has the 64-bit instructions. *)
Definition rte_hash_crc_set_alg (em64t : bool) (alg : Z) : Z :=
  if (alg =? CRC32_SSE42_x64) && negb em64t then CRC32_SSE42 else alg.

Section Program.
Context `{!Crc32Instr} (crc32_alg : Z).

Definition crc32c_sse42_u8 (data init_val : Z) : Z := crc32b data init_val.
Definition crc32c_sse42_u16 (data init_val : Z) : Z := crc32w data init_val.
Definition crc32c_sse42_u32 (data init_val : Z) : Z := crc32l data init_val.
Definition crc32c_sse42_u64 (data init_val : Z) : Z := u32 (crc32q data init_val).

Definition crc32c_sse42_u64_mimic (data init_val : Z) : Z :=
  let init_val := crc32c_sse42_u32 (u32 data) (u32 init_val) in
  let init_val := crc32c_sse42_u32 (u32 (Z.shiftr data 32)) (u32 init_val) in
  u32 init_val.

Definition rte_hash_crc_1byte (data init_val : Z) : Z :=
  if negb (Z.land crc32_alg CRC32_SSE42 =? 0) then crc32c_sse42_u8 data init_val
  else crc32c_1byte data init_val.

Definition rte_hash_crc_2byte (data init_val : Z) : Z :=
  if negb (Z.land crc32_alg CRC32_SSE42 =? 0) then crc32c_sse42_u16 data init_val
  else crc32c_2bytes data init_val.

Definition rte_hash_crc_4byte (data init_val : Z) : Z :=
  if negb (Z.land crc32_alg CRC32_SSE42 =? 0) then crc32c_sse42_u32 data init_val
  else crc32c_1word data init_val.

Definition rte_hash_crc_8byte (data init_val : Z) : Z :=
  if crc32_alg =? CRC32_SSE42_x64 then crc32c_sse42_u64 data init_val
  else if negb (Z.land crc32_alg CRC32_SSE42 =? 0) then crc32c_sse42_u64_mimic data init_val
  else crc32c_2words data init_val.

(** The [n]-byte little-endian value at [pd]. *)
Definition load_le (m : Z -> Z) (pd n : Z) : Z := le_value (range_bytes m pd n).

(** The loop over the 8-byte words. *)
Fixpoint crc_words (m : Z -> Z) (n : nat) (pd init_val : Z) : Z * Z :=
  match n with
  | O => (pd, init_val)
  | S n => crc_words m n (pd +[64] 8) (rte_hash_crc_8byte (load_le m pd 8) init_val)
  end.

Definition rte_hash_crc (m : Z -> Z) (data data_len init_val : Z) : Z :=
  let '(pd, init_val) := crc_words m (Z.to_nat (data_len / 8)) data init_val in
  let '(pd, init_val) :=
    if negb (Z.land data_len 4 =? 0)
    then (pd +[64] 4, rte_hash_crc_4byte (load_le m pd 4) init_val) else (pd, init_val) in
  let '(pd, init_val) :=
    if negb (Z.land data_len 2 =? 0)
    then (pd +[64] 2, rte_hash_crc_2byte (load_le m pd 2) init_val) else (pd, init_val) in
  if negb (Z.land data_len 1 =? 0) then rte_hash_crc_1byte (load_le m pd 1) init_val else init_val.
End Program.

(** ** The reference *)

Definition CRC32C_POLY : Z := 0x82F63B78.

Definition crc_bit (c : Z) : Z := Z.lxor (Z.shiftr c 1) (if Z.odd c then CRC32C_POLY else 0).

Definition crc_bits (n : nat) (c : Z) : Z := Nat.iter n crc_bit c.

Definition crc_byte (c b : Z) : Z := crc_bits 8 (Z.lxor c b).

(** The CRC32-C of a byte string, without the inversions at both ends that
    the caller may add. *)
Definition crc32c (init : Z) (l : list Z) : Z := foldl crc_byte init l.

(** The [crc32] instructions: the operand is shifted through the register,
    low bit first, with the CRC32-C polynomial. *)
Class Crc32InstrLaws `{!Crc32Instr} := {
  crc32b_spec d c : in_range 8 d -> in_range 32 c -> crc32b d c = crc_bits 8 (Z.lxor c d);
  crc32w_spec d c : in_range 16 d -> in_range 32 c -> crc32w d c = crc_bits 16 (Z.lxor c d);
  crc32l_spec d c : in_range 32 d -> in_range 32 c -> crc32l d c = crc_bits 32 (Z.lxor c d);
  crc32q_spec d c : in_range 64 d -> in_range 32 c -> crc32q d c = crc_bits 64 (Z.lxor c d);
}.

(** The check value of the catalogues: the CRC of the digits 1 to 9. *)
Example crc32c_check : Z.lxor (crc32c 0xFFFFFFFF (seqZ 0x31 9)) 0xFFFFFFFF = 0xE3069283.
Proof. reflexivity. Qed.

(** ** Linearity and the byte-wise decomposition *)

Lemma crc_bit_lxor a b : crc_bit (Z.lxor a b) = Z.lxor (crc_bit a) (crc_bit b).
Proof.
  unfold crc_bit. rewrite Z.shiftr_lxor, <- !Z.bit0_odd, Z.lxor_spec.
  destruct (Z.testbit a 0), (Z.testbit b 0); cbn [xorb]; apply Z.bits_inj'; intros i Hi;
    rewrite !Z.lxor_spec, ?Z.testbit_0_l; btauto.
Qed.

Lemma crc_bits_lxor n a b : crc_bits n (Z.lxor a b) = Z.lxor (crc_bits n a) (crc_bits n b).
Proof. unfold crc_bits. induction n as [|n IH]; [done|]. simpl. by rewrite IH, crc_bit_lxor. Qed.

Lemma crc_bits_add n k c : crc_bits (n + k) c = crc_bits n (crc_bits k c).
Proof. apply Nat.iter_add. Qed.

Lemma crc_bits_0 n : crc_bits n 0 = 0.
Proof. unfold crc_bits. induction n as [|n IH]; [done|]. simpl. by rewrite IH. Qed.

(** Clear low bits are shifted out. *)
Lemma crc_bits_shiftl n y : crc_bits n (Z.shiftl y (Z.of_nat n)) = y.
Proof.
  induction n as [|n IH]; [apply Z.shiftl_0_r|].
  replace (S n) with (n + 1)%nat at 1 by lia. rewrite crc_bits_add. rewrite <- IH at 2. f_equal.
  change (crc_bits 1 ?c) with (crc_bit c). unfold crc_bit.
  rewrite <- Z.bit0_odd, Z.shiftl_spec_low, Z.lxor_0_r by lia.
  rewrite Z.shiftr_shiftl_l by lia. f_equal. lia.
Qed.

Lemma lxor_range w a b : 0 <= w -> in_range w a -> in_range w b -> in_range w (Z.lxor a b).
Proof.
  intros Hw Ha Hb. replace (Z.lxor a b) with (wrap w (Z.lxor a b)); [by apply wrap_range|].
  rewrite <- (wrap_small w a), <- (wrap_small w b) by done. zbits. btauto.
Qed.

Lemma crc_bit_range c : in_range 32 c -> in_range 32 (crc_bit c).
Proof.
  intros Hc. unfold crc_bit. apply lxor_range; [lia|rewrite Z.shiftr_div_pow2 by lia; clia|].
  destruct (Z.odd c); unfold CRC32C_POLY; clia.
Qed.

Lemma crc_bits_range n c : in_range 32 c -> in_range 32 (crc_bits n c).
Proof. intros Hc. induction n; [done|]. by apply crc_bit_range. Qed.

(** A value is its low byte and the rest. *)
Lemma low_byte_split x : Z.lxor (Z.land x 0xff) (Z.shiftl (Z.shiftr x 8) 8) = x.
Proof.
  change 0xff with (Z.ones 8). rewrite <- Z.ldiff_ones_r by lia.
  apply Z.bits_inj'. intros i Hi. rewrite Z.lxor_spec, Z.land_spec, Z.ldiff_spec. btauto.
Qed.

(** The low byte comes out after [n + 1] bytes, the rest after [n]. *)
Lemma crc_bits_peel n x :
  crc_bits (8 * S n) x = Z.lxor (crc_bits (8 * S n) (Z.land x 0xff)) (crc_bits (8 * n) (Z.shiftr x 8)).
Proof.
  rewrite <- (low_byte_split x) at 1. rewrite crc_bits_lxor. f_equal.
  replace (8 * S n)%nat with (8 * n + 8)%nat by lia. rewrite crc_bits_add. f_equal.
  apply (crc_bits_shiftl 8).
Qed.

Lemma land_ff_range x : 0 <= Z.land x 0xff < 256.
Proof. change 0xff with (Z.ones 8). rewrite Z.land_ones by lia. by apply Z.mod_pos_bound. Qed.

(** ** The tables *)

(** Entry [i] of table [n] is the remainder of [i] after [n + 1] bytes. *)
Lemma crc_table_ok n i : (n < 8)%nat -> 0 <= i < 256 -> crc_table n i = crc_bits (8 * S n) i.
Proof.
  intros Hn Hi.
  assert (forallb (fun k => forallb (fun j => crc_table (Z.to_nat k) j =? crc_bits (8 * S (Z.to_nat k)) j) (seqZ 0 256))
    (seqZ 0 8) = true) as Hall by (vm_compute; reflexivity).
  pose proof (forallb_seqZ2 (fun k j => crc_table (Z.to_nat k) j =? crc_bits (8 * S (Z.to_nat k)) j) _ _ _ _ Hall
    (Z.of_nat n) i ltac:(lia) ltac:(lia)) as H.
  cbv beta in H. rewrite Nat2Z.id in H. by apply Z.eqb_eq.
Qed.

(** Two bytes of [x], from the tables [n] and [n - 1]. *)
Lemma CRC32_UPD_ok n x :
  (S n < 8)%nat ->
  crc_bits (8 * S (S n)) x = Z.lxor (CRC32_UPD x (S n)) (crc_bits (8 * n) (Z.shiftr x 16)).
Proof.
  intros Hn. rewrite (crc_bits_peel (S n) x), (crc_bits_peel n (Z.shiftr x 8)), Z.shiftr_shiftr by lia. unfold CRC32_UPD.
  rewrite !crc_table_ok by (try apply land_ff_range; lia). replace (S n - 1)%nat with n by lia.
  change (8 + 8) with 16. by rewrite <- Z.lxor_assoc.
Qed.

Section Software.
Context (c : Z) (Hc : in_range 32 c).

Lemma crc32c_1byte_ok d : crc32c_1byte d c = crc_bits 8 (Z.lxor c d).
Proof using.
  unfold crc32c_1byte. rewrite (crc_bits_peel 0).
  by rewrite crc_table_ok by (try apply land_ff_range; lia).
Qed.

Lemma crc32c_2bytes_ok d : crc32c_2bytes d c = crc_bits 16 (Z.lxor c d).
Proof using. unfold crc32c_2bytes. by rewrite (CRC32_UPD_ok 0) by lia. Qed.

(** Nothing is left of a 32-bit value after its fourth byte. *)
Lemma shiftr_32 x : in_range 32 x -> Z.shiftr (Z.shiftr x 16) 16 = 0.
Proof using. intros Hx. rewrite Z.shiftr_shiftr, Z.shiftr_div_pow2 by lia. apply Z.div_small. apply Hx. Qed.

Lemma crc32c_1word_ok d : in_range 32 d -> crc32c_1word d c = crc_bits 32 (Z.lxor c d).
Proof using Hc.
  intros Hd. unfold crc32c_1word. rewrite (CRC32_UPD_ok 2), (CRC32_UPD_ok 0) by lia.
  rewrite shiftr_32 by (by apply lxor_range).
  by rewrite Z.lxor_0_r.
Qed.

(** The high half joins the low half after it was shifted out. *)
Lemma crc_bits_halves d :
  in_range 64 d ->
  crc_bits 64 (Z.lxor c d) = crc_bits 32 (Z.lxor (crc_bits 32 (Z.lxor c (u32 d))) (u32 (Z.shiftr d 32))).
Proof using Hc.
  intros Hd. rewrite (crc_bits_add 32 32). f_equal.
  assert (d = Z.lxor (u32 d) (Z.shiftl (u32 (Z.shiftr d 32)) 32)) as Hs.
  { rewrite (wrap_small 32 (Z.shiftr d 32)) by (rewrite Z.shiftr_div_pow2 by lia; clia).
    rewrite wrap_land, <- Z.ldiff_ones_r by lia.
    apply Z.bits_inj'. intros i Hi. rewrite Z.lxor_spec, Z.land_spec, Z.ldiff_spec. btauto. }
  rewrite Hs at 1. rewrite <- Z.lxor_assoc, crc_bits_lxor. f_equal. apply (crc_bits_shiftl 32).
Qed.

Lemma crc32c_2words_ok d : in_range 64 d -> crc32c_2words d c = crc_bits 64 (Z.lxor c d).
Proof using Hc.
  intros Hd. rewrite (crc_bits_halves d Hd), crc_bits_lxor, <- crc_bits_add. cbn [Nat.add].
  unfold crc32c_2words. f_equal.
  - rewrite (CRC32_UPD_ok 6), (CRC32_UPD_ok 4) by lia.
    rewrite shiftr_32 by (apply lxor_range; [lia|done|by apply wrap_range]).
    by rewrite (crc_bits_0 (8 * 4)), Z.lxor_0_r.
  - rewrite (CRC32_UPD_ok 2), (CRC32_UPD_ok 0) by lia.
    rewrite shiftr_32 by by apply wrap_range. by rewrite Z.lxor_0_r.
Qed.
End Software.

(** ** Bytes *)

(** A value fed at once is its bytes fed one by one, low byte first. *)
Lemma crc32c_le_value l c : in_range 32 c -> Forall byte_ok l ->
  crc_bits (8 * length l) (Z.lxor c (le_value l)) = crc32c c l.
Proof.
  revert c. induction l as [|b l IH]; intros c Hc Hl; [apply Z.lxor_0_r|].
  apply Forall_cons in Hl as [Hb Hl]. cbn [length le_value foldr crc32c foldl].
  replace (8 * S (length l))%nat with (8 * length l + 8)%nat by lia.
  change (foldr _ 0 l) with (le_value l). change (foldl crc_byte ?x l) with (crc32c x l).
  rewrite <- IH; [|apply crc_bits_range, lxor_range; [lia|done|unfold byte_ok in Hb; clia]|done].
  rewrite crc_bits_add. f_equal. unfold crc_byte.
  replace (b + 256 * le_value l) with (Z.lxor (Z.shiftl (le_value l) 8) b)
    by (rewrite Z.shiftl_mul_pow2, <- split_lxor by (done || lia); change (2 ^ 8) with 256; lia).
  rewrite (Z.lxor_comm c), Z.lxor_assoc, (Z.lxor_comm b), crc_bits_lxor, Z.lxor_comm. f_equal.
  apply (crc_bits_shiftl 8).
Qed.

Lemma crc32c_app c l1 l2 : crc32c c (l1 ++ l2) = crc32c (crc32c c l1) l2.
Proof. apply foldl_app. Qed.

Lemma crc32c_range c l : in_range 32 c -> Forall byte_ok l -> in_range 32 (crc32c c l).
Proof.
  intros Hc Hl. rewrite <- crc32c_le_value by done. revert c Hc. induction Hl as [|b l Hb Hl IH]; intros c Hc.
  - by rewrite Z.lxor_0_r.
  - rewrite crc32c_le_value by (done || by constructor). cbn [crc32c foldl].
    change (foldl crc_byte ?x l) with (crc32c x l). rewrite <- crc32c_le_value; [apply IH| |done];
      apply crc_bits_range, lxor_range; (lia || done || unfold byte_ok in Hb; clia).
Qed.

(** ** Every path computes the CRC *)

Section Paths.
Context `{IN : !Crc32Instr} `{LAWS : !Crc32InstrLaws} (alg : Z) (c : Z) (Hc : in_range 32 c).

Lemma crc_bits_64_range d : in_range 64 d -> in_range 32 (crc_bits 64 (Z.lxor c d)).
Proof using Hc.
  intros Hd. rewrite (crc_bits_halves c Hc d Hd).
  apply crc_bits_range, lxor_range; [lia| |by apply wrap_range].
  apply crc_bits_range, lxor_range; [lia|done|by apply wrap_range].
Qed.

Lemma rte_hash_crc_1byte_ok d : in_range 8 d -> rte_hash_crc_1byte alg d c = crc_bits 8 (Z.lxor c d).
Proof using Hc LAWS. intros Hd. unfold rte_hash_crc_1byte. destruct (negb _); [by apply crc32b_spec|apply crc32c_1byte_ok]. Qed.

Lemma rte_hash_crc_2byte_ok d : in_range 16 d -> rte_hash_crc_2byte alg d c = crc_bits 16 (Z.lxor c d).
Proof using Hc LAWS. intros Hd. unfold rte_hash_crc_2byte. destruct (negb _); [by apply crc32w_spec|apply crc32c_2bytes_ok]. Qed.

Lemma rte_hash_crc_4byte_ok d : in_range 32 d -> rte_hash_crc_4byte alg d c = crc_bits 32 (Z.lxor c d).
Proof using Hc LAWS. intros Hd. unfold rte_hash_crc_4byte. destruct (negb _); [by apply crc32l_spec|by apply crc32c_1word_ok]. Qed.

Lemma rte_hash_crc_8byte_ok d : in_range 64 d -> rte_hash_crc_8byte alg d c = crc_bits 64 (Z.lxor c d).
Proof using Hc LAWS.
  intros Hd. unfold rte_hash_crc_8byte. destruct (_ =? _); [|destruct (negb _)].
  - unfold crc32c_sse42_u64. rewrite crc32q_spec by done. by apply wrap_small, crc_bits_64_range.
  - unfold crc32c_sse42_u64_mimic, crc32c_sse42_u32. rewrite (wrap_small 32 c) by done.
    rewrite (crc32l_spec (u32 d) c) by (done || by apply wrap_range).
    assert (in_range 32 (crc_bits 32 (Z.lxor c (u32 d)))) as Hr
      by (apply crc_bits_range, lxor_range; [lia|done|by apply wrap_range]).
    rewrite (wrap_small 32 (crc_bits 32 (Z.lxor c (u32 d)))) by done. rewrite crc32l_spec by (done || by apply wrap_range).
    rewrite <- (crc_bits_halves c Hc d Hd). by apply wrap_small, crc_bits_64_range.
  - by apply crc32c_2words_ok.
Qed.
End Paths.

Section Memory.
Context `{IN : !Crc32Instr} `{LAWS : !Crc32InstrLaws} (alg : Z) (m : Z -> Z) (Hm : forall x, byte_ok (m x)).

(** Loading [n] bytes and feeding them at once. *)
Lemma load_le_feed (n : nat) pd c :
  in_range 32 c ->
  in_range (8 * Z.of_nat n) (load_le m pd (Z.of_nat n)) /\
  crc_bits (8 * n) (Z.lxor c (load_le m pd (Z.of_nat n))) = crc32c c (range_bytes m pd (Z.of_nat n)).
Proof using Hm.
  intros Hc. pose proof (range_bytes_ok m pd (Z.of_nat n) Hm) as Hok.
  assert (length (range_bytes m pd (Z.of_nat n)) = n) as Hlen by (rewrite length_range_bytes; lia).
  unfold load_le. split.
  - pose proof (le_value_range _ Hok) as Hr. rewrite Hlen in Hr. unfold in_range.
    rewrite Z.pow_mul_r by lia. exact Hr.
  - rewrite <- crc32c_le_value by done. by rewrite Hlen.
Qed.

Lemma crc_words_ok n pd c :
  in_range 32 c -> 0 <= pd -> pd + 8 * Z.of_nat n < 2 ^ 64 ->
  crc_words alg m n pd c = (pd + 8 * Z.of_nat n, crc32c c (range_bytes m pd (8 * Z.of_nat n))).
Proof using LAWS Hm.
  revert pd c. induction n as [|n IH]; intros pd c Hc Hpd Hend.
  - cbn [crc_words]. rewrite Z.mul_0_r, Z.add_0_r. done.
  - cbn [crc_words]. destruct (load_le_feed 8 pd c Hc) as [Hr Hf].
    change (Z.of_nat 8) with 8 in *. rewrite rte_hash_crc_8byte_ok by done. change (8 * 8)%nat with 64%nat in Hf. rewrite Hf.
    rewrite wrap_small by (unfold in_range; lia).
    rewrite IH; [|by apply crc32c_range, range_bytes_ok|lia|lia].
    rewrite <- crc32c_app. replace (8 * Z.of_nat (S n)) with (8 + 8 * Z.of_nat n) by lia.
    rewrite range_bytes_app by lia. f_equal. lia.
Qed.

Lemma land_pow2_test x k : 0 <= k -> negb (Z.land x (2 ^ k) =? 0) = Z.testbit x k.
Proof using.
  intros Hk. destruct (Z.testbit x k) eqn:E; destruct (Z.eqb_spec (Z.land x (2 ^ k)) 0) as [H|H]; try done.
  - apply (f_equal (fun y => Z.testbit y k)) in H.
    rewrite Z.land_spec, Z.pow2_bits_true, E, Z.testbit_0_l in H by done. done.
  - destruct H. apply Z.bits_inj'. intros i Hi. rewrite Z.land_spec, Z.testbit_0_l.
    destruct (Z.eq_dec i k) as [->|]; [by rewrite E|]. rewrite Z.pow2_bits_false by done. apply andb_false_r.
Qed.

(** One optional tail access. *)
Lemma crc_tail (n : nat) (f : Z -> Z -> Z) (b : bool) pd c data len :
  (forall d c, in_range (8 * Z.of_nat n) d -> in_range 32 c -> f d c = crc_bits (8 * n) (Z.lxor c d)) ->
  in_range 32 c -> 0 <= data -> 0 <= len -> pd = data + len -> pd + Z.of_nat n < 2 ^ 64 ->
  (if b then (pd +[64] Z.of_nat n, f (load_le m pd (Z.of_nat n)) (crc32c c (range_bytes m data len)))
   else (pd, crc32c c (range_bytes m data len))) =
  (data + (len + Z.of_nat n * Z.b2z b), crc32c c (range_bytes m data (len + Z.of_nat n * Z.b2z b))).
Proof using Hm.
  intros Hf Hc H0 Hl -> Hend. destruct b; cbn [Z.b2z]; [|by rewrite Z.mul_0_r, !Z.add_0_r].
  assert (in_range 32 (crc32c c (range_bytes m data len))) as Hr by by apply crc32c_range, range_bytes_ok.
  destruct (load_le_feed n (data + len) _ Hr) as [Hv Hb]. rewrite Hf, Hb by done.
  rewrite wrap_small by (unfold in_range; lia). rewrite <- crc32c_app, Z.mul_1_r, range_bytes_app by lia.
  f_equal. lia.
Qed.
End Memory.

(** C22. For every choice of the algorithm, every length and every alignment
    the hash is the CRC32-C of the bytes: the eight tables, the two-table
    steps, the paths of 1, 2, 4 and 8 bytes and the processor's
    instructions agree with the bit-serial definition, and so with each other. *)
Theorem rte_hash_crc_correct `{IN : !Crc32Instr} `{LAWS : !Crc32InstrLaws} alg m data data_len init_val :
  (forall x, byte_ok (m x)) -> in_range 32 init_val -> 0 <= data_len < 2 ^ 32 ->
  0 <= data -> data + data_len + 8 < 2 ^ 64 ->
  rte_hash_crc alg m data data_len init_val = crc32c init_val (range_bytes m data data_len).
Proof.
  intros Hm Hc Hlen Hd Hend. unfold rte_hash_crc.
  rewrite (land_pow2_test data_len 2 ltac:(lia) : negb (Z.land data_len 4 =? 0) = _),
    (land_pow2_test data_len 1 ltac:(lia) : negb (Z.land data_len 2 =? 0) = _),
    (land_pow2_test data_len 0 ltac:(lia) : negb (Z.land data_len 1 =? 0) = _).
  pose proof (Z.testbit_spec' data_len 2 ltac:(lia)) as H2. pose proof (Z.testbit_spec' data_len 1 ltac:(lia)) as H1.
  pose proof (Z.testbit_spec' data_len 0 ltac:(lia)) as H0.
  change (2 ^ 2) with 4 in *. change (2 ^ 1) with 2 in *. change (2 ^ 0) with 1 in *.
  rewrite crc_words_ok by (done || lia || (rewrite Z2Nat.id by clia; clia)).
  rewrite Z2Nat.id by clia.
  set (b2 := Z.testbit data_len 2) in *. set (b1 := Z.testbit data_len 1) in *. set (b0 := Z.testbit data_len 0) in *.
  assert (data_len = 8 * (data_len / 8) + 4 * Z.b2z b2 + 2 * Z.b2z b1 + 1 * Z.b2z b0) as Hsum by clia.
  assert (0 <= Z.b2z b2 <= 1 /\ 0 <= Z.b2z b1 <= 1 /\ 0 <= Z.b2z b0 <= 1) as Hb by (destruct b2, b1, b0; cbn; lia).
  set (l8 := 8 * (data_len / 8)) in *. assert (0 <= l8) by (unfold l8; clia).
  pose proof (crc_tail m Hm 4 (rte_hash_crc_4byte alg) b2 (data + l8) init_val data l8
    ltac:(intros; by apply rte_hash_crc_4byte_ok) Hc Hd ltac:(lia) eq_refl ltac:(lia)) as E4.
  pose proof (crc_tail m Hm 2 (rte_hash_crc_2byte alg) b1 (data + (l8 + 4 * Z.b2z b2)) init_val data (l8 + 4 * Z.b2z b2)
    ltac:(intros; by apply rte_hash_crc_2byte_ok) Hc Hd ltac:(lia) eq_refl ltac:(lia)) as E2.
  pose proof (crc_tail m Hm 1 (rte_hash_crc_1byte alg) b0 (data + (l8 + 4 * Z.b2z b2 + 2 * Z.b2z b1)) init_val data (l8 + 4 * Z.b2z b2 + 2 * Z.b2z b1)
    ltac:(intros; by apply rte_hash_crc_1byte_ok) Hc Hd ltac:(lia) eq_refl ltac:(lia)) as Hlast.
  change (Z.of_nat 4) with 4 in *. change (Z.of_nat 2) with 2 in *. change (Z.of_nat 1) with 1 in *.
  rewrite E4, E2.
  apply (f_equal snd) in Hlast. cbn [snd] in Hlast. rewrite Hsum. rewrite <- Hlast. by destruct b0.
Qed.

(** ** Witness *)

(** Instructions that follow the manual. *)
Definition manual_instr : Crc32Instr := {|
  crc32b d c := crc_bits 8 (Z.lxor c d);
  crc32w d c := crc_bits 16 (Z.lxor c d);
  crc32l d c := crc_bits 32 (Z.lxor c d);
  crc32q d c := crc_bits 64 (Z.lxor c d) |}.

Lemma manual_laws : @Crc32InstrLaws manual_instr.
Proof. by split. Defined.

Definition digits (a : Z) : Z := (a + 0x31) mod 256.

(** Fifteen bytes take every branch; the three algorithms agree. *)
Example rte_hash_crc_correct_witness :
  @rte_hash_crc manual_instr CRC32_SW digits 0 15 0xFFFFFFFF = crc32c 0xFFFFFFFF (seqZ 0x31 15) /\
  @rte_hash_crc manual_instr CRC32_SSE42_x64 digits 0 15 0xFFFFFFFF = crc32c 0xFFFFFFFF (seqZ 0x31 15).
Proof.
  assert (forall x, byte_ok (digits x)) as Hd by (intros x; unfold byte_ok, digits; by apply Z.mod_pos_bound).
  split.
  - refine (eq_trans (@rte_hash_crc_correct manual_instr manual_laws CRC32_SW digits 0 15 0xFFFFFFFF Hd _ _ _ _) _);
      [clia|lia|lia|lia|reflexivity].
  - refine (eq_trans (@rte_hash_crc_correct manual_instr manual_laws CRC32_SSE42_x64 digits 0 15 0xFFFFFFFF Hd _ _ _ _) _);
      [clia|lia|lia|lia|reflexivity].
Defined.
