(* ===== verification/Ring.v ===== *)
(** * The lockless ring (lib/librte_ring)

    [rte_ring] is a table of [void *] slots with a producer and a consumer
    head/tail pair of 32-bit indices that wrap freely and are masked when a
    slot is accessed.  This file has the ring of rte_ring.h and
    rte_ring_generic.h as one thread runs it: creation, the moves of the heads,
    the copies with their unrolled and wrapping branches, the tail updates and
    the enqueue and dequeue entry points built from them.  The contract is a
    bounded first-in first-out list: [ring_repr r q] says that [r] holds [q].
    The file RingThreads interleaves the same steps between threads. *)

From S2P Require Export Effects.
From Stdlib Require String Ascii.

#[local] Open Scope Z_scope.

(** ** Constants *)

Definition ENOENT : Z := 2.
Definition ENOMEM : Z := 12.
Definition EINVAL : Z := 22.
Definition ENAMETOOLONG : Z := 36.
Definition ENOBUFS : Z := 105.
Definition RTE_MEMZONE_NAMESIZE : Z := 32.
Definition RING_F_SP_ENQ : Z := 1.
Definition RING_F_SC_DEQ : Z := 2.
Definition RING_F_EXACT_SZ : Z := 4.
Definition RTE_RING_SZ_MASK : Z := 0x7fffffff.
Definition IS_SP : Z := 1.
Definition IS_MP : Z := 0.
Definition IS_SC : Z := 1.
Definition IS_MC : Z := 0.

Inductive rte_ring_queue_behavior : Type :=
| RTE_RING_QUEUE_FIXED
| RTE_RING_QUEUE_VARIABLE.

(** ** State *)

Record rte_ring_headtail := mk_headtail {
  head : Z;
  tail : Z;
  single : Z }.

(** [slots] is the object table that follows the structure in memory,
    [&r[1]]; [memzone] is its pointer, 0 when there is none. *)
Record rte_ring := mk_ring {
  name : String.string;
  flags : Z;
  memzone : Z;
  size : Z;
  mask : Z;
  capacity : Z;
  prod : rte_ring_headtail;
  cons : rte_ring_headtail;
  slots : list Z }.

(** The memory a ring operation works on: the ring and the caller's table of
    object pointers. *)
Record ring_env := mk_env {
  ring : rte_ring;
  obj_table : list Z }.

Definition set_ring (f : rte_ring -> rte_ring) : comp ring_env unit :=
  modify (fun s => mk_env (f (ring s)) (obj_table s)).

Definition set_prod (f : rte_ring_headtail -> rte_ring_headtail) : comp ring_env unit :=
  set_ring (fun r => r <| prod := f (prod r) |>).

Definition set_cons (f : rte_ring_headtail -> rte_ring_headtail) : comp ring_env unit :=
  set_ring (fun r => r <| cons := f (cons r) |>).

(** ** Powers of two (rte_common.h) *)

Definition rte_combine32ms1b (x : Z) : Z :=
  let x := Z.lor x (Z.shiftr x 1) in
  let x := Z.lor x (Z.shiftr x 2) in
  let x := Z.lor x (Z.shiftr x 4) in
  let x := Z.lor x (Z.shiftr x 8) in
  let x := Z.lor x (Z.shiftr x 16) in
  x.

Definition rte_align32pow2 (x : Z) : Z :=
  let x := x -[32] 1 in
  let x := rte_combine32ms1b x in
  x +[32] 1.

Definition POWEROF2 (x : Z) : bool := Z.land (x -[32] 1) x =? 0.

(** ** Creation (rte_ring.c) *)

(** [sizeof(struct rte_ring)]: the configuration, the producer and the
    consumer on cache lines of their own, each followed by an empty line. *)
Definition sizeof_rte_ring : Z := 6 * RTE_CACHE_LINE_SIZE.

(** [RTE_ALIGN(v, a)] for a power of two [a] *)
Definition RTE_ALIGN (v a : Z) : Z := Z.land (v +[64] (a - 1)) (u64 (Z.lnot (a - 1))).

Definition rte_ring_get_memsize (count : Z) : Z :=
  if negb (POWEROF2 count) || (RTE_RING_SZ_MASK <? count) then - EINVAL
  else
    let sz := sizeof_rte_ring +[64] count *[64] 8 in
    RTE_ALIGN sz RTE_CACHE_LINE_SIZE.

(** The zeroed structure, in front of the same memory. *)
Definition zeroed (r : rte_ring) : rte_ring :=
  mk_ring String.EmptyString 0 0 0 0 0 (mk_headtail 0 0 0) (mk_headtail 0 0 0) (slots r).

(** [snprintf] writes at most [sizeof(r->name) - 1] characters of the name
    and returns the whole length. *)
Definition rte_ring_init (nm : String.string) (count flgs : Z) : comp ring_env Z :=
  set_ring zeroed ;;
  set_ring (fun r => r <| name := String.substring 0 (Z.to_nat (RTE_MEMZONE_NAMESIZE - 1)) nm |>) ;;
  if RTE_MEMZONE_NAMESIZE <=? Z.of_nat (String.length nm) then mret (- ENAMETOOLONG)
  else
    set_ring (fun r => r <| flags := flgs |>) ;;
    set_prod (fun p => p <| single := if Z.land flgs RING_F_SP_ENQ =? 0 then IS_MP else IS_SP |>) ;;
    set_cons (fun c => c <| single := if Z.land flgs RING_F_SC_DEQ =? 0 then IS_MC else IS_SC |>) ;;
    let finish :=
      set_prod (fun p => p <| head := 0 |>) ;;
      set_cons (fun c => c <| head := 0 |>) ;;
      set_prod (fun p => p <| tail := 0 |>) ;;
      set_cons (fun c => c <| tail := 0 |>) ;;
      mret 0 in
    if negb (Z.land flgs RING_F_EXACT_SZ =? 0) then
      set_ring (fun r => r <| size := rte_align32pow2 (count +[32] 1) |>) ;;
      set_ring (fun r => r <| mask := size r -[32] 1 |>) ;;
      set_ring (fun r => r <| capacity := count |>) ;;
      finish
    else if negb (POWEROF2 count) || (RTE_RING_SZ_MASK <? count) then mret (- EINVAL)
    else
      set_ring (fun r => r <| size := count |>) ;;
      set_ring (fun r => r <| mask := count -[32] 1 |>) ;;
      set_ring (fun r => r <| capacity := mask r |>) ;;
      finish.

(** What the ring library asks the environment layer for: memory for the list entry,
    and a zone of the given size, as its descriptor and the words that follow the
    ring structure in it, or the value of [rte_errno]. *)
Record ring_zones := mk_zones {
  zmalloc_ok : bool;
  memzone_reserve_aligned : Z -> (Z * (Z -> Z)) + Z }.

(** "RG_" *)
Definition RTE_RING_MZ_PREFIX : String.string :=
  String.string_of_list_ascii (Ascii.ascii_of_nat <$> [82; 71; 95]%nat).

(** The new ring, or the value left in [rte_errno] ([NULL]). *)
Definition rte_ring_create (z : ring_zones) (nm : String.string) (count flgs : Z) : rte_ring + Z :=
  let requested_count := count in
  let count := if negb (Z.land flgs RING_F_EXACT_SZ =? 0) then rte_align32pow2 (count +[32] 1) else count in
  let ring_size := rte_ring_get_memsize count in
  if ring_size <? 0 then inr ring_size
  else if RTE_MEMZONE_NAMESIZE <=? Z.of_nat (String.length (String.append RTE_RING_MZ_PREFIX nm))
  then inr ENAMETOOLONG
  else if negb (zmalloc_ok z) then inr ENOMEM
  else
    match memzone_reserve_aligned z ring_size with
    | inr e => inr e
    | inl (mz, words) =>
        let r := mk_ring String.EmptyString 0 0 0 0 0 (mk_headtail 0 0 0) (mk_headtail 0 0 0)
                   (words <$> seqZ 0 count) in
        let r := ring (fst (rte_ring_init nm requested_count flgs (mk_env r []))) in
        inl (r <| memzone := mz |>)
    end.

(** ** Moving the heads (rte_ring_generic.h) *)

(** [n] reduced to what is there: nothing or all of it, or as much as fits. *)
Definition clamp_n (behavior : rte_ring_queue_behavior) (n entries : Z) : Z :=
  if entries <? n then
    match behavior with RTE_RING_QUEUE_FIXED => 0 | RTE_RING_QUEUE_VARIABLE => entries end
  else n.

Definition free_entries (r : rte_ring) (old_head : Z) : Z :=
  u32 (capacity r + tail (cons r) - old_head).

Definition used_entries (r : rte_ring) (old_head : Z) : Z :=
  tail (prod r) -[32] old_head.

(** [rte_atomic32_cmpset] on the head of [ht] *)
Definition cmpset (old new : Z) (ht : rte_ring_headtail) : rte_ring_headtail * bool :=
  if head ht =? old then (ht <| head := new |>, true) else (ht, false).

(** The results: [n], [*old_head], [*new_head] (not assigned when [n] is 0)
    and the entries seen. *)
Definition moved : Type := Z * Z * option Z * Z.

Definition move_prod_body (is_sp max : Z) (behavior : rte_ring_queue_behavior) (_ : unit)
  : comp ring_env (unit + moved) :=
  s ← get;
  let old_head := head (prod (ring s)) in
  let entries := free_entries (ring s) old_head in
  let n := clamp_n behavior max entries in
  if n =? 0 then mret (inr (0, old_head, None, entries))
  else
    let new_head := old_head +[32] n in
    if negb (is_sp =? 0) then
      set_prod (fun p => p <| head := new_head |>) ;;
      mret (inr (n, old_head, Some new_head, entries))
    else
      s ← get;
      let '(p, success) := cmpset old_head new_head (prod (ring s)) in
      set_prod (fun _ => p) ;;
      if success : bool then mret (inr (n, old_head, Some new_head, entries))
      else mret (inl tt).

Definition rte_ring_move_prod_head (fuel : nat) (is_sp n : Z) (behavior : rte_ring_queue_behavior)
  : comp ring_env moved :=
  comp_loop (move_prod_body is_sp n behavior) fuel tt.

Definition move_cons_body (is_sc max : Z) (behavior : rte_ring_queue_behavior) (_ : unit)
  : comp ring_env (unit + moved) :=
  s ← get;
  let old_head := head (cons (ring s)) in
  let entries := used_entries (ring s) old_head in
  let n := clamp_n behavior max entries in
  if n =? 0 then mret (inr (0, old_head, None, entries))
  else
    let new_head := old_head +[32] n in
    if negb (is_sc =? 0) then
      set_cons (fun c => c <| head := new_head |>) ;;
      mret (inr (n, old_head, Some new_head, entries))
    else
      s ← get;
      let '(c, success) := cmpset old_head new_head (cons (ring s)) in
      set_cons (fun _ => c) ;;
      if success : bool then mret (inr (n, old_head, Some new_head, entries))
      else mret (inl tt).

Definition rte_ring_move_cons_head (fuel : nat) (is_sc n : Z) (behavior : rte_ring_queue_behavior)
  : comp ring_env moved :=
  comp_loop (move_cons_body is_sc n behavior) fuel tt.

(** [while (ht->tail != old_val) rte_pause(); ht->tail = new_val;], with the
    wait left out for a single producer or consumer *)
Definition update_tail (fuel : nat) (ht : rte_ring -> rte_ring_headtail)
  (set_ht : (rte_ring_headtail -> rte_ring_headtail) -> comp ring_env unit)
  (old_val new_val sgl : Z) : comp ring_env unit :=
  (if sgl =? 0 then
     comp_loop (fun _ : unit =>
       s ← get;
       if negb (tail (ht (ring s)) =? old_val) then mret (inl tt) else mret (inr tt)) fuel tt
   else mret tt) ;;
  set_ht (fun p => p <| tail := new_val |>).

(** ** Copying the objects (rte_ring.h) *)

(** [ring[idx++] = obj_table[i++]] and the other way round *)
Definition put1 (p : Z * Z) : comp ring_env (Z * Z) :=
  let '(i, idx) := p in
  s ← get;
  match obj_table s !! Z.to_nat i with
  | Some v =>
      if idx <? Z.of_nat (length (slots (ring s))) then
        set_ring (fun r => r <| slots := <[Z.to_nat idx := v]> (slots r) |>) ;;
        mret (i +[32] 1, idx +[32] 1)
      else ub
  | None => ub
  end.

Definition take1 (p : Z * Z) : comp ring_env (Z * Z) :=
  let '(i, idx) := p in
  s ← get;
  match slots (ring s) !! Z.to_nat idx with
  | Some v =>
      if i <? Z.of_nat (length (obj_table s)) then
        put (mk_env (ring s) (<[Z.to_nat i := v]> (obj_table s))) ;;
        mret (i +[32] 1, idx +[32] 1)
      else ub
  | None => ub
  end.

Section CopyPtrs.
Context (copy1 : Z * Z -> comp ring_env (Z * Z)) (fuel : nat).

(** Four objects at a time. *)
Definition copy4_loop (n : Z) : Z * Z -> comp ring_env (Z * Z) :=
  comp_loop (fun '(i, idx) =>
    if i <? Z.land n 0xfffffffc then
      copy1 (i, idx) ;;
      copy1 (i +[32] 1, idx +[32] 1) ;;
      copy1 (i +[32] 2, idx +[32] 2) ;;
      copy1 (i +[32] 3, idx +[32] 3) ;;
      mret (inl (i +[32] 4, idx +[32] 4))
    else mret (inr (i, idx))) fuel.

(** The switch on the remainder, with its fall through. *)
Definition copy_rest (n : Z) (p : Z * Z) : comp ring_env (Z * Z) :=
  let m := Z.land n 3 in
  p ← (if m =? 3 then copy1 p else mret p);
  p ← (if (m =? 3) || (m =? 2) then copy1 p else mret p);
  if (m =? 3) || (m =? 2) || (m =? 1) then copy1 p else mret p.

Definition copy_while (cond : Z * Z -> bool) : Z * Z -> comp ring_env (Z * Z) :=
  comp_loop (fun p =>
    if cond p then p' ← copy1 p; mret (inl p') else mret (inr p)) fuel.

Definition copy_ptrs (hd n : Z) : comp ring_env unit :=
  s ← get;
  let sz := size (ring s) in
  let idx := Z.land hd (mask (ring s)) in
  if idx +[32] n <? sz then
    p ← copy4_loop n (0, idx);
    copy_rest n p ;;
    mret tt
  else
    p ← copy_while (fun '(_, idx) => idx <? sz) (0, idx);
    copy_while (fun '(i, _) => i <? n) (p.1, 0) ;;
    mret tt.
End CopyPtrs.

Definition ENQUEUE_PTRS (fuel : nat) (prod_head n : Z) : comp ring_env unit :=
  copy_ptrs put1 fuel prod_head n.

Definition DEQUEUE_PTRS (fuel : nat) (cons_head n : Z) : comp ring_env unit :=
  copy_ptrs take1 fuel cons_head n.

(** ** Enqueue and dequeue *)

(** Returns the number of objects and [*free_space]. *)
Definition rte_ring_do_enqueue (fuel : nat) (n : Z) (behavior : rte_ring_queue_behavior) (is_sp : Z)
  : comp ring_env (Z * Z) :=
  '(n, prod_head, prod_next, entries) ← rte_ring_move_prod_head fuel is_sp n behavior;
  if n =? 0 then mret (n, entries -[32] n)
  else
    match prod_next with
    | None => ub
    | Some prod_next =>
        ENQUEUE_PTRS fuel prod_head n ;;
        update_tail fuel prod set_prod prod_head prod_next is_sp ;;
        mret (n, entries -[32] n)
    end.

(** Returns the number of objects and [*available]. *)
Definition rte_ring_do_dequeue (fuel : nat) (n : Z) (behavior : rte_ring_queue_behavior) (is_sc : Z)
  : comp ring_env (Z * Z) :=
  '(n, cons_head, cons_next, entries) ← rte_ring_move_cons_head fuel is_sc n behavior;
  if n =? 0 then mret (n, entries -[32] n)
  else
    match cons_next with
    | None => ub
    | Some cons_next =>
        DEQUEUE_PTRS fuel cons_head n ;;
        update_tail fuel cons set_cons cons_head cons_next is_sc ;;
        mret (n, entries -[32] n)
    end.

Section EntryPoints.
Context (fuel : nat).

Definition rte_ring_mp_enqueue_bulk (n : Z) := rte_ring_do_enqueue fuel n RTE_RING_QUEUE_FIXED IS_MP.
Definition rte_ring_sp_enqueue_bulk (n : Z) := rte_ring_do_enqueue fuel n RTE_RING_QUEUE_FIXED IS_SP.
Definition rte_ring_enqueue_bulk (n : Z) : comp ring_env (Z * Z) :=
  s ← get; rte_ring_do_enqueue fuel n RTE_RING_QUEUE_FIXED (single (prod (ring s))).
Definition rte_ring_mp_enqueue_burst (n : Z) := rte_ring_do_enqueue fuel n RTE_RING_QUEUE_VARIABLE IS_MP.
Definition rte_ring_sp_enqueue_burst (n : Z) := rte_ring_do_enqueue fuel n RTE_RING_QUEUE_VARIABLE IS_SP.
Definition rte_ring_enqueue_burst (n : Z) : comp ring_env (Z * Z) :=
  s ← get; rte_ring_do_enqueue fuel n RTE_RING_QUEUE_VARIABLE (single (prod (ring s))).
Definition rte_ring_mc_dequeue_bulk (n : Z) := rte_ring_do_dequeue fuel n RTE_RING_QUEUE_FIXED IS_MC.
Definition rte_ring_sc_dequeue_bulk (n : Z) := rte_ring_do_dequeue fuel n RTE_RING_QUEUE_FIXED IS_SC.
Definition rte_ring_dequeue_bulk (n : Z) : comp ring_env (Z * Z) :=
  s ← get; rte_ring_do_dequeue fuel n RTE_RING_QUEUE_FIXED (single (cons (ring s))).
Definition rte_ring_mc_dequeue_burst (n : Z) := rte_ring_do_dequeue fuel n RTE_RING_QUEUE_VARIABLE IS_MC.
Definition rte_ring_sc_dequeue_burst (n : Z) := rte_ring_do_dequeue fuel n RTE_RING_QUEUE_VARIABLE IS_SC.
Definition rte_ring_dequeue_burst (n : Z) : comp ring_env (Z * Z) :=
  s ← get; rte_ring_do_dequeue fuel n RTE_RING_QUEUE_VARIABLE (single (cons (ring s))).

(** [c] with the local variable [obj] as the object table: [&obj]. *)
Definition with_obj {A} (obj : Z) (c : comp ring_env A) : comp ring_env A := fun s =>
  let '(s', o) := c (mk_env (ring s) [obj]) in (mk_env (ring s') (obj_table s), o).

Definition rte_ring_mp_enqueue (obj : Z) : comp ring_env Z :=
  r ← with_obj obj (rte_ring_mp_enqueue_bulk 1); mret (if r.1 =? 0 then - ENOBUFS else 0).
Definition rte_ring_sp_enqueue (obj : Z) : comp ring_env Z :=
  r ← with_obj obj (rte_ring_sp_enqueue_bulk 1); mret (if r.1 =? 0 then - ENOBUFS else 0).
Definition rte_ring_enqueue (obj : Z) : comp ring_env Z :=
  r ← with_obj obj (rte_ring_enqueue_bulk 1); mret (if r.1 =? 0 then - ENOBUFS else 0).
Definition rte_ring_mc_dequeue : comp ring_env Z :=
  r ← rte_ring_mc_dequeue_bulk 1; mret (if r.1 =? 0 then - ENOENT else 0).
Definition rte_ring_sc_dequeue : comp ring_env Z :=
  r ← rte_ring_sc_dequeue_bulk 1; mret (if r.1 =? 0 then - ENOENT else 0).
Definition rte_ring_dequeue : comp ring_env Z :=
  r ← rte_ring_dequeue_bulk 1; mret (if r.1 =? 0 then - ENOENT else 0).
End EntryPoints.

(** ** Observers *)

Definition rte_ring_count (r : rte_ring) : Z :=
  let count := Z.land (tail (prod r) -[32] tail (cons r)) (mask r) in
  if capacity r <? count then capacity r else count.
Definition rte_ring_free_count (r : rte_ring) : Z := capacity r -[32] rte_ring_count r.
Definition rte_ring_full (r : rte_ring) : bool := rte_ring_free_count r =? 0.
Definition rte_ring_empty (r : rte_ring) : bool := rte_ring_count r =? 0.
Definition rte_ring_get_size (r : rte_ring) : Z := size r.
Definition rte_ring_get_capacity (r : rte_ring) : Z := capacity r.

(** An uninitialised ring in front of [n] slots. *)
Definition fresh (n : nat) (tbl : list Z) : ring_env :=
  mk_env (mk_ring String.EmptyString 0 0 0 0 0 (mk_headtail 0 0 0) (mk_headtail 0 0 0) (repeat 0 n)) tbl.

(** ** Powers of two: lemmas *)

(** The bits of [x] from [top - s + 1] to [top] are set, those above are clear. *)
Definition top_ones (top s x : Z) : Prop :=
  (forall i, top < i -> Z.testbit x i = false) /\
  (forall i, 0 <= i -> top - s < i <= top -> Z.testbit x i = true).

Lemma top_ones_step top s x :
  0 <= s -> 0 <= top -> top_ones top s x -> top_ones top (2 * s) (Z.lor x (Z.shiftr x s)).
Proof.
  intros Hs Ht [Hhi Hlo]. split; intros i.
  - intros Hi. rewrite Z.lor_spec, Z.shiftr_spec by lia. by rewrite !Hhi by lia.
  - intros Hi Hr. rewrite Z.lor_spec, Z.shiftr_spec by lia. apply orb_true_iff.
    destruct (Z_lt_le_dec (top - s) i); [left | right]; apply Hlo; lia.
Qed.

Lemma top_ones_all top x : 0 <= top < 32 -> top_ones top 32 x -> x = Z.ones (top + 1).
Proof.
  intros Ht [Hhi Hlo]. apply Z.bits_inj'. intros i Hi.
  destruct (Z_lt_le_dec top i).
  - rewrite Hhi, Z.ones_spec_high by lia. done.
  - rewrite Hlo, Z.ones_spec_low by lia. done.
Qed.

Lemma combine_ones x :
  0 < x < 2 ^ 32 -> rte_combine32ms1b x = Z.ones (Z.log2 x + 1).
Proof.
  intros Hx. pose proof (Z.log2_nonneg x).
  assert (Z.log2 x < 32) by (apply Z.log2_lt_pow2; lia).
  apply top_ones_all; [lia|]. unfold rte_combine32ms1b.
  apply (top_ones_step _ 16), (top_ones_step _ 8), (top_ones_step _ 4),
    (top_ones_step _ 2), (top_ones_step _ 1); try lia.
  split; intros i Hi; [by apply Z.bits_above_log2; lia|].
  intros Hr. replace i with (Z.log2 x) by lia. apply Z.bit_log2. lia.
Qed.

Lemma rte_align32pow2_spec x :
  1 <= x <= 2 ^ 31 ->
  exists k, 0 <= k <= 31 /\ rte_align32pow2 x = 2 ^ k /\ x <= 2 ^ k /\ (k = 0 \/ 2 ^ (k - 1) < x).
Proof.
  intros Hx. unfold rte_align32pow2. rewrite (wrap_small 32 (x - 1)) by clia.
  destruct (Z.eq_dec x 1) as [-> | Hne].
  { exists 0. split; [lia|]. split; [reflexivity|]. lia. }
  rewrite combine_ones by lia. exists (Z.log2 (x - 1) + 1).
  pose proof (Z.log2_spec (x - 1)) as Hl. pose proof (Z.log2_nonneg (x - 1)).
  assert (Z.log2 (x - 1) < 31) by (apply Z.log2_lt_pow2; lia).
  pose proof (Z.pow_le_mono_r 2 (Z.log2 (x - 1) + 1) 31).
  rewrite Z.ones_equiv. replace (Z.pred (2 ^ (Z.log2 (x - 1) + 1)) + 1) with (2 ^ (Z.log2 (x - 1) + 1)) by lia.
  rewrite wrap_small by (unfold in_range; lia).
  replace (Z.log2 (x - 1) + 1 - 1) with (Z.log2 (x - 1)) by lia. lia.
Qed.

Lemma POWEROF2_pow k : 0 <= k < 32 -> POWEROF2 (2 ^ k) = true.
Proof.
  intros Hk. unfold POWEROF2. pose proof (Z.pow_pos_nonneg 2 k). pose proof (Z.pow_lt_mono_r 2 k 32).
  rewrite wrap_small by (unfold in_range; lia). apply Z.eqb_eq.
  change (2 ^ k - 1) with (Z.pred (2 ^ k)).
  rewrite Z.land_comm, <- Z.ones_equiv, Z.land_ones by lia. apply Z.mod_same. lia.
Qed.

Lemma POWEROF2_inv x :
  0 < x < 2 ^ 32 -> POWEROF2 x = true -> exists k, 0 <= k < 32 /\ x = 2 ^ k.
Proof.
  unfold POWEROF2. intros Hx Hp. apply Z.eqb_eq in Hp. rewrite wrap_small in Hp by clia.
  pose proof (Z.log2_spec x ltac:(lia)) as Hl. pose proof (Z.log2_nonneg x) as Hn.
  assert (Z.log2 x < 32) by (apply Z.log2_lt_pow2; lia).
  exists (Z.log2 x). split; [lia|]. destruct (Z.eq_dec x (2 ^ Z.log2 x)) as [|Hne]; [done|].
  assert (Z.log2 (x - 1) = Z.log2 x) as He by (apply Z.log2_unique; lia).
  assert (Z.testbit (Z.land (x - 1) x) (Z.log2 x) = true) as Hb.
  { rewrite Z.land_spec, (Z.bit_log2 x) by lia. rewrite <- He, Z.bit_log2; [done|lia]. }
  rewrite Hp, Z.bits_0 in Hb. done.
Qed.

(** ** The contract: a bounded queue

    [ring_shape] is what creation establishes and no operation changes;
    [ring_repr r q] says that the ring at rest holds the list [q], oldest
    object first. *)

Record ring_shape (r : rte_ring) : Prop := {
  shape_size : exists k, 0 <= k <= 31 /\ size r = 2 ^ k;
  shape_mask : mask r = size r - 1;
  shape_capacity : 0 <= capacity r < size r;
  shape_slots : Z.of_nat (length (slots r)) = size r }.

(** The object at ring position [i] (an index before masking). *)
Definition slot_at (r : rte_ring) (i : Z) : option Z := slots r !! Z.to_nat (i mod size r).

Record ring_repr (r : rte_ring) (q : list Z) : Prop := {
  repr_shape : ring_shape r;
  repr_cons : in_range 32 (tail (cons r)) /\ head (cons r) = tail (cons r);
  repr_prod : tail (prod r) = tail (cons r) +[32] Z.of_nat (length q) /\ head (prod r) = tail (prod r);
  repr_bound : Z.of_nat (length q) <= capacity r;
  repr_items : forall i, (i < length q)%nat -> slot_at r (tail (cons r) + Z.of_nat i) = q !! i }.

(** What creation fixed. *)
Definition same_config (r r' : rte_ring) : Prop :=
  size r' = size r /\ mask r' = mask r /\ capacity r' = capacity r /\
  flags r' = flags r /\ name r' = name r /\ memzone r' = memzone r /\
  single (prod r') = single (prod r) /\ single (cons r') = single (cons r) /\
  length (slots r') = length (slots r).

(** The queue operations the ring promises, with the result the entry points
    return. *)
Definition fifo_enqueue (cap : Z) (behavior : rte_ring_queue_behavior) (n : Z) (objs q : list Z)
  : list Z * (Z * Z) :=
  let free := cap - Z.of_nat (length q) in
  let k := clamp_n behavior n free in
  (q ++ take (Z.to_nat k) objs, (k, free - k)).

Definition fifo_dequeue (behavior : rte_ring_queue_behavior) (n : Z) (q : list Z)
  : list Z * list Z * (Z * Z) :=
  let k := clamp_n behavior n (Z.of_nat (length q)) in
  (drop (Z.to_nat k) q, take (Z.to_nat k) q, (k, Z.of_nat (length q) - k)).

Section Shape.
Context (r : rte_ring) (Hr : ring_shape r).

Lemma shape_bounds : 0 < size r <= 2 ^ 31.
Proof using Hr.
  destruct (shape_size r Hr) as (k & Hk & ->). split; [lia|].
  apply Z.pow_le_mono_r; lia.
Qed.

Lemma land_mask_mod x : Z.land x (mask r) = x mod size r.
Proof using Hr.
  destruct (shape_size r Hr) as (k & Hk & He). rewrite (shape_mask r Hr), He.
  change (2 ^ k - 1) with (Z.pred (2 ^ k)). rewrite <- Z.ones_equiv. apply Z.land_ones. lia.
Qed.

(** The masked slot does not see the wrap-around of the index. *)
Lemma wrap_mod_size x : u32 x mod size r = x mod size r.
Proof using Hr.
  destruct (shape_size r Hr) as (k & Hk & ->). unfold wrap.
  apply Z.mod_mod_divide.
  exists (2 ^ (32 - k)). rewrite <- Z.pow_add_r by lia. f_equal. lia.
Qed.

Lemma slot_at_wrap x : slot_at r (u32 x) = slot_at r x.
Proof using Hr. unfold slot_at. by rewrite wrap_mod_size. Qed.
End Shape.

Section Observers.
Context (r : rte_ring) (q : list Z) (Hq : ring_repr r q).

Lemma repr_free : free_entries r (head (prod r)) = capacity r - Z.of_nat (length q).
Proof using Hq.
  destruct Hq as [Hs [Hc _] [Hp ->] Hb _]. pose proof (shape_bounds r Hs). pose proof (shape_capacity r Hs).
  unfold free_entries. rewrite Hp. rewrite wrap_sub_r.
  replace (_ - _) with (capacity r - Z.of_nat (length q)) by lia. apply wrap_small. clia.
Qed.

Lemma repr_used : used_entries r (head (cons r)) = Z.of_nat (length q).
Proof using Hq.
  destruct Hq as [Hs [Hc ->] [Hp _] Hb _]. pose proof (shape_bounds r Hs). pose proof (shape_capacity r Hs).
  unfold used_entries. rewrite Hp, wrap_sub_l.
  replace (_ - _) with (Z.of_nat (length q)) by lia. apply wrap_small. clia.
Qed.

Lemma repr_count : rte_ring_count r = Z.of_nat (length q).
Proof using Hq.
  pose proof Hq as [Hs _ _ Hb _]. pose proof (shape_bounds r Hs). pose proof (shape_capacity r Hs).
  pose proof repr_used as Hu. unfold used_entries in Hu. destruct Hq as [_ [_ Hch] _ _ _].
  rewrite Hch in Hu. unfold rte_ring_count. rewrite Hu, land_mask_mod by done.
  rewrite Z.mod_small by lia. zcases; lia.
Qed.
End Observers.

(** While the ring is at rest the observers tell the length of the queue
    and the room left: the count, the free count, full and empty, and they
    agree with the capacity for every position of the 32-bit indices. *)
Lemma ring_observers r q :
  ring_repr r q ->
  rte_ring_count r = Z.of_nat (length q)
  /\ rte_ring_free_count r = rte_ring_get_capacity r - Z.of_nat (length q)
  /\ rte_ring_empty r = bool_decide (q = [])
  /\ rte_ring_full r = bool_decide (Z.of_nat (length q) = rte_ring_get_capacity r)
  /\ rte_ring_get_capacity r < rte_ring_get_size r.
Proof.
  intros Hq. pose proof (repr_count r q Hq) as Hc. pose proof Hq as [Hs _ _ Hb _].
  pose proof (shape_bounds r Hs). pose proof (shape_capacity r Hs).
  assert (rte_ring_free_count r = capacity r - Z.of_nat (length q)) as Hf.
  { unfold rte_ring_free_count. rewrite Hc. apply wrap_small. clia. }
  unfold rte_ring_get_capacity, rte_ring_get_size, rte_ring_empty, rte_ring_full. rewrite Hf, Hc.
  repeat split; try lia; symmetry.
  - destruct q; [done|]. rewrite bool_decide_false by done. symmetry. apply Z.eqb_neq. simpl. lia.
  - destruct (Z.eqb_spec (capacity r - Z.of_nat (length q)) 0);
      [apply bool_decide_true | apply bool_decide_false]; lia.
Qed.

(** ** Creation *)

(** The number of slots a request for [count] objects makes. *)
Definition ring_slots (count flgs : Z) : Z :=
  if Z.land flgs RING_F_EXACT_SZ =? 0 then count else rte_align32pow2 (count + 1).

Definition count_ok (count flgs : Z) : Prop :=
  if Z.land flgs RING_F_EXACT_SZ =? 0
  then exists k, 0 <= k <= 30 /\ count = 2 ^ k
  else 0 <= count < 2 ^ 31.

Lemma ring_slots_pow count flgs :
  count_ok count flgs ->
  in_range 32 count /\
  exists k, 0 <= k <= 31 /\ ring_slots count flgs = 2 ^ k /\
    (if Z.land flgs RING_F_EXACT_SZ =? 0 then count - 1 else count) < 2 ^ k.
Proof.
  unfold count_ok, ring_slots. destruct (_ =? 0).
  - intros (k & Hk & ->). pose proof (Z.pow_pos_nonneg 2 k). pose proof (Z.pow_lt_mono_r 2 k 32).
    split; [unfold in_range; lia|]. exists k. repeat split; lia.
  - intros Hc. split; [clia|]. destruct (rte_align32pow2_spec (count + 1)) as (k & Hk & -> & Hle & _); [lia|].
    exists k. repeat split; lia.
Qed.

Lemma empty_repr nm flgs mz sz cap sp sc sl k :
  0 <= k <= 31 -> sz = 2 ^ k -> 0 <= cap < sz -> Z.of_nat (length sl) = sz ->
  ring_repr (mk_ring nm flgs mz sz (sz - 1) cap (mk_headtail 0 0 sp) (mk_headtail 0 0 sc) sl) [].
Proof.
  intros Hk -> Hcap Hl. split; simpl; try done; try lia.
  - split; simpl; eauto.
Qed.

Ltac init_run :=
  cbv [rte_ring_init set_ring set_prod set_cons modify get put mret comp_ret mbind comp_bind].

(** Initialising a ring of a supported size succeeds and gives an empty queue
    that holds [count - 1] objects, or exactly [count] with [RING_F_EXACT_SZ];
    the flags choose the single or multiple producer and consumer paths. *)
Lemma rte_ring_init_correct nm count flgs s :
  Z.of_nat (String.length nm) < RTE_MEMZONE_NAMESIZE -> count_ok count flgs ->
  Z.of_nat (length (slots (ring s))) = ring_slots count flgs ->
  exists s', rte_ring_init nm count flgs s = (s', Ret 0)
    /\ ring_repr (ring s') []
    /\ capacity (ring s') = (if Z.land flgs RING_F_EXACT_SZ =? 0 then count - 1 else count)
    /\ size (ring s') = ring_slots count flgs
    /\ single (prod (ring s')) = (if Z.land flgs RING_F_SP_ENQ =? 0 then IS_MP else IS_SP)
    /\ single (cons (ring s')) = (if Z.land flgs RING_F_SC_DEQ =? 0 then IS_MC else IS_SC)
    /\ memzone (ring s') = 0.
Proof.
  intros Hn Hc Hl. destruct (ring_slots_pow count flgs Hc) as (Hrng & k & Hk & Hsz & Hcap).
  pose proof (Z.pow_pos_nonneg 2 k ltac:(lia) ltac:(lia)). pose proof (Z.pow_le_mono_r 2 k 31 ltac:(lia) ltac:(lia)).
  eexists. split.
  { init_run. destruct (Z.leb_spec RTE_MEMZONE_NAMESIZE (Z.of_nat (String.length nm))); [lia|].
    instantiate (1 := mk_env (mk_ring (String.substring 0 (Z.to_nat (RTE_MEMZONE_NAMESIZE - 1)) nm) flgs 0
      (ring_slots count flgs) (ring_slots count flgs - 1)
      (if Z.land flgs RING_F_EXACT_SZ =? 0 then count - 1 else count)
      (mk_headtail 0 0 (if Z.land flgs RING_F_SP_ENQ =? 0 then IS_MP else IS_SP))
      (mk_headtail 0 0 (if Z.land flgs RING_F_SC_DEQ =? 0 then IS_MC else IS_SC)) (slots (ring s))) (obj_table s)).
    unfold count_ok, ring_slots in *. destruct (Z.land flgs RING_F_EXACT_SZ =? 0); cbn [negb]; cbv iota.
    - destruct Hc as (j & Hj & Hcj). rewrite Hcj, POWEROF2_pow by lia. rewrite <- Hcj.
      destruct (Z.ltb_spec RTE_RING_SZ_MASK count) as [Hlt|_]; [unfold RTE_RING_SZ_MASK in Hlt|].
      { pose proof (Z.pow_le_mono_r 2 j 30). lia. }
      cbn [negb orb]. cbv iota. cbn. by rewrite (wrap_small 32 (count - 1)) by clia.
    - cbn. rewrite (wrap_small 32 (count + 1)) by clia. by rewrite (wrap_small 32 (_ - 1)) by clia. }
  cbn [ring]. split; [|done]. apply (empty_repr _ _ _ _ _ _ _ _ k); [lia|lia| |done].
  unfold count_ok in Hc. destruct (_ =? 0); [destruct Hc as (j & ? & ?)|]; lia.
Qed.

Lemma memsize_pow k : 0 <= k <= 30 -> (rte_ring_get_memsize (2 ^ k) <? 0) = false.
Proof.
  intros Hk. unfold rte_ring_get_memsize. rewrite POWEROF2_pow by lia. cbn [negb orb].
  destruct (Z.ltb_spec RTE_RING_SZ_MASK (2 ^ k)) as [Hlt|_].
  { unfold RTE_RING_SZ_MASK in Hlt. pose proof (Z.pow_le_mono_r 2 k 30). lia. }
  apply Z.ltb_ge. unfold RTE_ALIGN. apply Z.land_nonneg. left. apply (wrap_range 64). lia.
Qed.

(** The sizes that are refused. *)
Lemma memsize_bad count :
  in_range 32 count -> count <> 0 -> ~ (exists k, 0 <= k <= 30 /\ count = 2 ^ k) ->
  negb (POWEROF2 count) || (RTE_RING_SZ_MASK <? count) = true /\ rte_ring_get_memsize count = - EINVAL.
Proof.
  intros Hrng H0 Hk.
  assert (negb (POWEROF2 count) || (RTE_RING_SZ_MASK <? count) = true) as He.
  { destruct (POWEROF2 count) eqn:Ep; [|done]. destruct (POWEROF2_inv count) as (k & ? & ->); [clia|done|].
    destruct (Z.ltb_spec RTE_RING_SZ_MASK (2 ^ k)) as [|Hle]; [done|]. destruct Hk. exists k. split; [|done].
    unfold RTE_RING_SZ_MASK in Hle. split; [lia|]. apply Z.lt_succ_r, (Z.pow_lt_mono_r_iff 2); lia. }
  unfold rte_ring_get_memsize. by rewrite He.
Qed.

(** The zone that is reserved. *)
Definition zone_size (count flgs : Z) : Z :=
  rte_ring_get_memsize (if Z.land flgs RING_F_EXACT_SZ =? 0 then count else rte_align32pow2 (count +[32] 1)).

(** Creation in terms of the size of the zone. *)
Lemma ring_create_steps z nm count flgs :
  rte_ring_create z nm count flgs =
  if zone_size count flgs <? 0 then inr (zone_size count flgs)
  else if 29 <=? Z.of_nat (String.length nm) then inr ENAMETOOLONG
  else if negb (zmalloc_ok z) then inr ENOMEM
  else
    match memzone_reserve_aligned z (zone_size count flgs) with
    | inr e => inr e
    | inl (mz, words) =>
        inl ((ring (fst (rte_ring_init nm count flgs (mk_env (mk_ring String.EmptyString 0 0 0 0 0 (mk_headtail 0 0 0)
          (mk_headtail 0 0 0) (words <$> seqZ 0 (if Z.land flgs RING_F_EXACT_SZ =? 0 then count else rte_align32pow2 (count +[32] 1)))) []))))
          <| memzone := mz |>)
    end.
Proof.
  unfold rte_ring_create, zone_size. change (String.length (String.append RTE_RING_MZ_PREFIX nm)) with (S (S (S (String.length nm)))).
  replace (RTE_MEMZONE_NAMESIZE <=? Z.of_nat (S (S (S (String.length nm))))) with (29 <=? Z.of_nat (String.length nm))
    by (unfold RTE_MEMZONE_NAMESIZE; destruct (Z.leb_spec 29 (Z.of_nat (String.length nm))); symmetry; [apply Z.leb_le|apply Z.leb_gt]; lia).
  by destruct (Z.land flgs RING_F_EXACT_SZ =? 0).
Qed.

(** Creating a ring of a supported size. *)
Lemma ring_create_ok nm count flgs z mz words :
  Z.of_nat (String.length nm) < 29 -> zmalloc_ok z = true -> memzone_reserve_aligned z (zone_size count flgs) = inl (mz, words) ->
  count_ok count flgs -> ring_slots count flgs < 2 ^ 31 ->
  exists r, rte_ring_create z nm count flgs = inl r
    /\ ring_repr r [] /\ memzone r = mz
    /\ capacity r = (if Z.land flgs RING_F_EXACT_SZ =? 0 then count - 1 else count)
    /\ single (prod r) = (if Z.land flgs RING_F_SP_ENQ =? 0 then IS_MP else IS_SP)
    /\ single (cons r) = (if Z.land flgs RING_F_SC_DEQ =? 0 then IS_MC else IS_SC).
Proof.
  intros Hn Hok Hz Hc Hs. rewrite ring_create_steps, Hz, Hok. unfold zone_size.
  destruct (ring_slots_pow count flgs Hc) as (Hrng & k & Hk & Hsz & _).
  assert ((if Z.land flgs RING_F_EXACT_SZ =? 0 then count else rte_align32pow2 (count +[32] 1)) = ring_slots count flgs) as ->.
  { unfold ring_slots, count_ok in *. destruct (_ =? 0); [done|]. by rewrite (wrap_small 32 (count + 1)) by clia. }
  rewrite Hsz in *. rewrite memsize_pow by (destruct (Z.eq_dec k 31) as [->|]; [done|lia]).
  destruct (Z.leb_spec 29 (Z.of_nat (String.length nm))); [lia|].
  destruct (rte_ring_init_correct nm count flgs (mk_env (mk_ring String.EmptyString 0 0 0 0 0 (mk_headtail 0 0 0)
    (mk_headtail 0 0 0) (words <$> seqZ 0 (2 ^ k))) [])) as (s' & -> & Hr & Hcap & _ & Hsp & Hsc & _);
    [unfold RTE_MEMZONE_NAMESIZE in *; lia|done| |].
  { cbn [ring slots]. rewrite length_fmap, length_seqZ, Hsz. apply Z2Nat.id. pose proof (Z.pow_pos_nonneg 2 k); lia. }
  cbn [negb fst]. eexists. split; [reflexivity|]. split; [|done].
  destruct Hr as [[? ? ? ?] ? ? ? ?]. by split.
Qed.

(** Any other size is refused before anything else is looked at. *)
Lemma ring_create_bad nm count flgs z :
  in_range 32 count -> Z.land flgs RING_F_EXACT_SZ = 0 -> ~ (exists k, 0 <= k <= 30 /\ count = 2 ^ k) -> count <> 0 ->
  rte_ring_create z nm count flgs = inr (- EINVAL).
Proof.
  intros Hrng Hf Hk H0. unfold rte_ring_create. rewrite Hf. cbn [Z.eqb negb]. by destruct (memsize_bad count) as [_ ->].
Qed.

(** *** Every count *)

(** Counts that give a ring. *)
Definition supported (count flgs : Z) : Prop :=
  if Z.land flgs RING_F_EXACT_SZ =? 0 then exists k, 0 <= k <= 30 /\ count = 2 ^ k else 0 <= count < 2 ^ 30.

(** Counts that give a ring without slots: zero is taken for a power of two, and the next
    power of two of a large count wraps to zero. *)
Definition slotless (count flgs : Z) : Prop :=
  if Z.land flgs RING_F_EXACT_SZ =? 0 then count = 0 else 2 ^ 31 <= count < 2 ^ 32.

Lemma supported_ok count flgs : supported count flgs -> count_ok count flgs /\ ring_slots count flgs < 2 ^ 31.
Proof.
  unfold supported, count_ok, ring_slots. destruct (_ =? 0).
  - intros (k & Hk & ->). split; [by exists k|]. apply Z.pow_lt_mono_r; lia.
  - intros Hc. split; [lia|]. destruct (rte_align32pow2_spec (count + 1)) as (k & Hk & -> & _ & [->|Hlt]); [lia|done|].
    apply Z.pow_lt_mono_r; [lia|lia|]. assert (k - 1 < 30) by (apply (Z.pow_lt_mono_r_iff 2); lia). lia.
Qed.

(** Beyond the largest power of two the rounding wraps. *)
Lemma align32pow2_wraps count : 2 ^ 31 <= count < 2 ^ 32 -> rte_align32pow2 (count +[32] 1) = 0.
Proof.
  intros Hc. unfold rte_align32pow2. rewrite wrap_sub_l. replace (count + 1 - 1) with count by lia.
  rewrite (wrap_small 32 count) by (unfold in_range; lia). rewrite combine_ones by lia.
  replace (Z.log2 count) with 31 by (symmetry; apply Z.log2_unique; lia). reflexivity.
Qed.

Lemma align32pow2_half count : 2 ^ 30 <= count < 2 ^ 31 -> rte_align32pow2 (count +[32] 1) = 2 ^ 31.
Proof.
  intros Hc. rewrite (wrap_small 32 (count + 1)) by clia.
  destruct (rte_align32pow2_spec (count + 1)) as (k & Hk & -> & Hle & _); [lia|].
  destruct (Z.le_gt_cases k 30); [|f_equal; lia]. pose proof (Z.pow_le_mono_r 2 k 30 ltac:(lia) ltac:(lia)). lia.
Qed.

Lemma zone_size_ok count flgs : supported count flgs \/ slotless count flgs -> (zone_size count flgs <? 0) = false.
Proof.
  unfold zone_size, supported, slotless. destruct (_ =? 0).
  - intros [(k & Hk & ->)| ->]; [by apply memsize_pow|reflexivity].
  - intros [Hc|Hc]; [|by rewrite align32pow2_wraps]. rewrite (wrap_small 32 (count + 1)) by clia.
    destruct (rte_align32pow2_spec (count + 1)) as (k & Hk & -> & _ & [->|Hlt]); [lia|reflexivity|]. apply memsize_pow.
    assert (k - 1 < 30) by (apply (Z.pow_lt_mono_r_iff 2); lia). lia.
Qed.

Lemma zone_size_bad count flgs : in_range 32 count -> ~ supported count flgs -> ~ slotless count flgs -> zone_size count flgs = - EINVAL.
Proof.
  unfold zone_size, supported, slotless, in_range. intros Hr. destruct (_ =? 0); intros Hs Hz; [by apply memsize_bad|].
  by rewrite align32pow2_half by lia.
Qed.

(** What every enqueue of an object does to a ring without slots. *)
Lemma slotless_enqueue fuel r v tbl :
  size r = 0 -> slots r = [] -> 0 < capacity r < 2 ^ 32 -> prod r = mk_headtail 0 0 (single (prod r)) -> tail (cons r) = 0 ->
  snd (rte_ring_sp_enqueue_bulk (S (S fuel)) 1 (mk_env r (v :: tbl))) = UB.
Proof.
  intros Hs Hl Hc Hp Ht. destruct r as [nm fl mz sz mk cap pr co sl]. cbn in Hs, Hl, Hc, Hp, Ht. subst sz sl.
  unfold rte_ring_sp_enqueue_bulk, rte_ring_do_enqueue, rte_ring_move_prod_head.
  destruct pr as [ph pt ps]. cbn [single] in Hp. injection Hp as -> ->.
  assert (forall s0, s0 = mk_env (mk_ring nm fl mz 0 mk cap (mk_headtail 0 0 ps) co []) (v :: tbl) ->
    move_prod_body IS_SP 1 RTE_RING_QUEUE_FIXED tt s0
    = (mk_env (mk_ring nm fl mz 0 mk cap (mk_headtail 1 0 ps) co []) (v :: tbl), Ret (inr (1, 0, Some 1, cap)))) as Hmove.
  { intros s0 ->. unfold move_prod_body. cbv [get mbind comp_bind]. unfold free_entries. cbn [ring prod cons capacity head].
    rewrite Ht, Z.add_0_r, Z.sub_0_r, (wrap_small 32 cap) by (unfold in_range; lia).
    unfold clamp_n. destruct (Z.ltb_spec cap 1); [lia|]. reflexivity. }
  cbn [comp_loop]. rewrite !bind_assoc. rewrite (bind_ret _ _ _ _ _ (Hmove _ eq_refl)). reflexivity.
Qed.

(** A count that gives a ring without slots. *)
Lemma ring_create_slotless nm count flgs z mz words fuel v tbl :
  Z.of_nat (String.length nm) < 29 -> zmalloc_ok z = true -> memzone_reserve_aligned z (zone_size count flgs) = inl (mz, words) ->
  slotless count flgs ->
  exists r, rte_ring_create z nm count flgs = inl r
    /\ size r = 0 /\ slots r = [] /\ capacity r = (if Z.land flgs RING_F_EXACT_SZ =? 0 then 2 ^ 32 - 1 else count)
    /\ snd (rte_ring_sp_enqueue_bulk (S (S fuel)) 1 (mk_env r (v :: tbl))) = UB.
Proof.
  intros Hn Hok Hz Hc. rewrite ring_create_steps, (zone_size_ok count flgs (or_intror Hc)), Hz, Hok.
  destruct (Z.leb_spec 29 (Z.of_nat (String.length nm))); [lia|]. cbn [negb]. cbv iota.
  assert ((if Z.land flgs RING_F_EXACT_SZ =? 0 then count else rte_align32pow2 (count +[32] 1)) = 0) as ->
    by (unfold slotless in Hc; destruct (_ =? 0); [done|by apply align32pow2_wraps]).
  eexists. split; [reflexivity|].
  assert (exists r, ring (fst (rte_ring_init nm count flgs (mk_env (mk_ring String.EmptyString 0 0 0 0 0 (mk_headtail 0 0 0)
    (mk_headtail 0 0 0) (words <$> seqZ 0 0)) []))) = r
    /\ size r = 0 /\ slots r = [] /\ capacity r = (if Z.land flgs RING_F_EXACT_SZ =? 0 then 2 ^ 32 - 1 else count)
    /\ prod r = mk_headtail 0 0 (single (prod r)) /\ tail (cons r) = 0) as (r & -> & H1 & H2 & H3 & H4 & H5).
  { eexists. split; [reflexivity|]. init_run. destruct (Z.leb_spec RTE_MEMZONE_NAMESIZE (Z.of_nat (String.length nm))); [unfold RTE_MEMZONE_NAMESIZE in *; lia|].
    unfold slotless in Hc. destruct (Z.land flgs RING_F_EXACT_SZ =? 0) eqn:Hf; cbn [negb]; cbv iota.
    - subst count. by split_and!.
    - cbn. split_and!; try done. by apply align32pow2_wraps. }
  cbn. do 3 (split; [done|]). apply slotless_enqueue; cbn; try done.
  rewrite H3. unfold slotless in Hc. destruct (_ =? 0); [lia|lia].
Qed.

(** C18. Creating a ring, for every 32-bit count.  A supported count gives, when the memory is
    there, an empty queue that holds [count - 1] objects, or exactly [count] with
    [RING_F_EXACT_SZ], with a slot for each index; the flags choose the single or multiple
    producer and consumer paths.  A count of zero, and with [RING_F_EXACT_SZ] a count of 2^31
    or more, gives a ring without slots whose first enqueue writes past its memory.  Every
    other count is refused, and [rte_errno] is then left negative, where the documentation has
    the positive [EINVAL].  A long name, a lack of memory and a zone that is not
    reserved are reported as the last cases say. *)
Theorem rte_ring_create_correct nm count flgs z (Hrange : in_range 32 count) :
  (forall mz words, Z.of_nat (String.length nm) < 29 -> zmalloc_ok z = true ->
     memzone_reserve_aligned z (zone_size count flgs) = inl (mz, words) ->
   (supported count flgs ->
    exists r, rte_ring_create z nm count flgs = inl r
      /\ ring_repr r [] /\ memzone r = mz
      /\ capacity r = (if Z.land flgs RING_F_EXACT_SZ =? 0 then count - 1 else count)
      /\ single (prod r) = (if Z.land flgs RING_F_SP_ENQ =? 0 then IS_MP else IS_SP)
      /\ single (cons r) = (if Z.land flgs RING_F_SC_DEQ =? 0 then IS_MC else IS_SC))
   /\ (slotless count flgs -> forall fuel v tbl,
    exists r, rte_ring_create z nm count flgs = inl r
      /\ size r = 0 /\ slots r = [] /\ capacity r = (if Z.land flgs RING_F_EXACT_SZ =? 0 then 2 ^ 32 - 1 else count)
      /\ snd (rte_ring_sp_enqueue_bulk (S (S fuel)) 1 (mk_env r (v :: tbl))) = UB))
  /\ (~ supported count flgs -> ~ slotless count flgs -> rte_ring_create z nm count flgs = inr (- EINVAL))
  /\ (supported count flgs \/ slotless count flgs ->
      (29 <= Z.of_nat (String.length nm) -> rte_ring_create z nm count flgs = inr ENAMETOOLONG)
      /\ (Z.of_nat (String.length nm) < 29 ->
          (zmalloc_ok z = false -> rte_ring_create z nm count flgs = inr ENOMEM)
          /\ forall e, zmalloc_ok z = true -> memzone_reserve_aligned z (zone_size count flgs) = inr e ->
               rte_ring_create z nm count flgs = inr e)).
Proof.
  split_and!.
  - intros mz words Hn Hok Hz. split.
    + intros Hs. destruct (supported_ok count flgs Hs) as [Hc Hl]. by apply (ring_create_ok nm count flgs z mz words).
    + intros Hs fuel v tbl. by apply (ring_create_slotless nm count flgs z mz words).
  - intros Hs Hz. rewrite ring_create_steps, (zone_size_bad count flgs) by done. done.
  - intros Hs. rewrite ring_create_steps, (zone_size_ok count flgs Hs). split.
    + intros Hn. destruct (Z.leb_spec 29 (Z.of_nat (String.length nm))); [done|lia].
    + intros Hn. destruct (Z.leb_spec 29 (Z.of_nat (String.length nm))); [lia|]. split; [by intros ->|by intros e -> ->].
Qed.

(** A name of 32 or more characters is refused with [-ENAMETOOLONG], and
    without the exact-size flag a count that is not a power of two, or above the size
    limit, with [-EINVAL]. *)
Lemma rte_ring_init_errors nm count flgs s :
  in_range 32 count ->
  (RTE_MEMZONE_NAMESIZE <= Z.of_nat (String.length nm) ->
     exists s', rte_ring_init nm count flgs s = (s', Ret (- ENAMETOOLONG))) /\
  (Z.of_nat (String.length nm) < RTE_MEMZONE_NAMESIZE -> Z.land flgs RING_F_EXACT_SZ = 0 -> count <> 0 ->
     ~ (exists k, 0 <= k <= 30 /\ count = 2 ^ k) ->
     (exists s', rte_ring_init nm count flgs s = (s', Ret (- EINVAL))) /\ rte_ring_get_memsize count = - EINVAL).
Proof.
  intros Hrng. split.
  - intros Hn. init_run. destruct (Z.leb_spec RTE_MEMZONE_NAMESIZE (Z.of_nat (String.length nm))); [|lia]. eauto.
  - intros Hn Hf H0 Hk.
    destruct (memsize_bad count) as [He Hms]; [done..|]. split; [|done].
    init_run. destruct (Z.leb_spec RTE_MEMZONE_NAMESIZE (Z.of_nat (String.length nm))); [lia|].
    rewrite Hf, He. cbn [negb Z.eqb]. cbv iota. eauto.
Qed.

(** A count of zero passes the power-of-two test: the ring is created
    with no slot at all and reports room for 2^32 - 1 objects, and the first
    enqueue writes past the end of its memory. *)
Theorem rte_ring_init_zero nm flgs s fuel :
  Z.of_nat (String.length nm) < RTE_MEMZONE_NAMESIZE -> Z.land flgs RING_F_EXACT_SZ = 0 ->
  slots (ring s) = [] -> obj_table s <> [] ->
  rte_ring_get_memsize 0 = sizeof_rte_ring /\
  exists s', rte_ring_init nm 0 flgs s = (s', Ret 0)
    /\ rte_ring_free_count (ring s') = 2 ^ 32 - 1
    /\ exists s'', rte_ring_sp_enqueue_bulk (S (S fuel)) 1 s' = (s'', UB).
Proof.
  intros Hn Hf Hs Ht. split; [reflexivity|].
  destruct s as [[nm0 fl0 mz0 sz0 mk0 cap0 p0 c0 sl] tbl]. cbn in Hs, Ht. subst sl.
  destruct tbl as [|v tbl]; [done|].
  eexists. split; [|split].
  { init_run. destruct (Z.leb_spec RTE_MEMZONE_NAMESIZE (Z.of_nat (String.length nm))); [lia|].
    rewrite Hf. cbn [negb Z.eqb]. cbv iota. cbn. reflexivity. }
  - reflexivity.
  - eexists. vm_compute. reflexivity.
Qed.

Example rte_ring_init_zero_witness :
  exists s', rte_ring_init String.EmptyString 0 0 (fresh 0 [7]) = (s', Ret 0)
    /\ exists s'', rte_ring_sp_enqueue_bulk 2 1 s' = (s'', UB).
Proof.
  destruct (rte_ring_init_zero String.EmptyString 0 (fresh 0 [7]) 0) as (_ & s' & H1 & _ & H2);
    [reflexivity|reflexivity|reflexivity|discriminate|]. eauto.
Defined.

Example rte_ring_create_correct_witness :
  (exists r, rte_ring_create (mk_zones true (fun _ => inl (4096, fun _ => 0))) String.EmptyString 5 RING_F_EXACT_SZ = inl r
    /\ ring_repr r [] /\ capacity r = 5)
  /\ (exists r, rte_ring_create (mk_zones true (fun _ => inl (4096, fun _ => 0))) String.EmptyString (2 ^ 32 - 1) RING_F_EXACT_SZ = inl r
    /\ size r = 0).
Proof.
  split.
  - destruct (rte_ring_create_correct String.EmptyString 5 RING_F_EXACT_SZ (mk_zones true (fun _ => inl (4096, fun _ => 0)))
      ltac:(unfold in_range; lia)) as [H _].
    destruct (H 4096 (fun _ => 0)) as [H' _]; [reflexivity|reflexivity|reflexivity|].
    destruct H' as (r & H1 & H2 & _ & H3 & _); [vm_compute; split; congruence|]. by exists r.
  - destruct (rte_ring_create_correct String.EmptyString (2 ^ 32 - 1) RING_F_EXACT_SZ (mk_zones true (fun _ => inl (4096, fun _ => 0)))
      ltac:(unfold in_range; lia)) as [H _].
    destruct (H 4096 (fun _ => 0)) as [_ H']; [reflexivity|reflexivity|reflexivity|].
    destruct (H' ltac:(vm_compute; split; congruence) 0%nat 0 []) as (r & H1 & H2 & _). by exists r.
Defined.

(** ** The copies *)

Lemma land_low3 x : in_range 32 x -> Z.land x 0xfffffffc = 4 * (x / 4).
Proof.
  intros Hx. replace (4 * (x / 4)) with (Z.ldiff x (Z.ones 2)).
  - change 0xfffffffc with (Z.ldiff (Z.ones 32) (Z.ones 2)).
    rewrite <- (wrap_small 32 x) at 2 by done. rewrite wrap_land by lia.
    apply Z.bits_inj'. intros i Hi. rewrite !Z.land_spec, !Z.ldiff_spec, Z.land_spec. btauto.
  - rewrite Z.ldiff_ones_r by lia. rewrite Z.shiftl_mul_pow2, Z.shiftr_div_pow2 by lia. change (2 ^ 2) with 4. lia.
Qed.

Lemma land_3 x : Z.land x 3 = x mod 4.
Proof. change 3 with (Z.ones 2). apply Z.land_ones. lia. Qed.

(** Both macros move the objects [0 .. n-1] of the table to or from the
    slots [head + 0 .. head + n-1], whatever branch runs: for a step [copy1]
    that keeps an invariant from one object to the next, the whole copy
    takes it from 0 to [n]. *)
Section CopyLemmas.
Context (copy1 : Z * Z -> comp ring_env (Z * Z)) (Inv : Z -> ring_env -> Prop).
Context (r0 : rte_ring) (Hr : ring_shape r0) (hd n : Z) (fuel : nat).
Context (Hn : 0 < n < size r0) (Hfuel : (Z.to_nat n < fuel)%nat).
Context (Hcfg : forall k s, Inv k s -> size (ring s) = size r0 /\ mask (ring s) = mask r0).
Context (Hstep : forall k idx s, Inv k s -> 0 <= k < n -> idx = (hd + k) mod size r0 ->
  exists s', copy1 (k, idx) s = (s', Ret (k +[32] 1, idx +[32] 1)) /\ Inv (k + 1) s').

(** One object, with the slot index a constant away from the object's: by
    [hd mod size] before the end of the slots and by [hd mod size - size] after. *)
Lemma copy_step off k s :
  off = hd mod size r0 \/ off = hd mod size r0 - size r0 ->
  Inv k s -> 0 <= k < n -> 0 <= k + off < size r0 ->
  exists s', copy1 (k, k + off) s = (s', Ret (k + 1, k + 1 + off)) /\ Inv (k + 1) s'.
Proof using All.
  intros Hoff HI Hk Hi. pose proof (shape_bounds r0 Hr).
  destruct (Hstep k (k + off) s HI Hk) as (s' & Hrun & HI').
  { pose proof (Z.div_mod hd (size r0)).
    destruct Hoff as [-> | ->].
    - apply (Z.mod_unique_pos _ _ (hd / size r0)); lia.
    - apply (Z.mod_unique_pos _ _ (hd / size r0 + 1)); lia. }
  exists s'. split; [|done]. rewrite Hrun. rewrite !wrap_small by clia. by replace (k + 1 + off) with (k + off + 1) by lia.
Qed.

Lemma copy4_loop_spec off s :
  off = hd mod size r0 -> off + n < size r0 -> Inv 0 s ->
  exists s', copy4_loop copy1 fuel n (0, off) s = (s', Ret (4 * (n / 4), 4 * (n / 4) + off))
    /\ Inv (4 * (n / 4)) s'.
Proof using All.
  intros Hoff Hw HI. pose proof (shape_bounds r0 Hr). pose proof (Z.mod_pos_bound hd (size r0) ltac:(lia)).
  assert (0 <= 4 * (n / 4) <= n /\ n < 4 * (n / 4) + 4) by (Z.div_mod_to_equations; lia).
  edestruct (comp_loop_total
    (fun '(i, idx) s => 0 <= i <= 4 * (n / 4) /\ i mod 4 = 0 /\ idx = i + off /\ Inv i s)
    (fun p s => p = (4 * (n / 4), 4 * (n / 4) + off) /\ Inv (4 * (n / 4)) s)
    (fun '(i, _) => Z.to_nat (n - i))) as (s' & r & Hrun & Hr').
  4: { exists s'. unfold copy4_loop. rewrite Hrun. destruct Hr' as [-> ?]. done. }
  2: { repeat split; try lia. done. }
  2: (cbn; lia).
  intros [i idx] s1 (Hi & Hm & -> & HI1). rewrite land_low3 by clia. zcases.
  - assert (i + 3 < n) by (Z.div_mod_to_equations; lia).
    destruct (copy_step off i s1) as (s2 & R2 & I2); [tauto|done|lia|lia|].
    destruct (copy_step off (i + 1) s2) as (s3 & R3 & I3); [tauto|done|lia|lia|].
    destruct (copy_step off (i + 1 + 1) s3) as (s4 & R4 & I4); [tauto|done|lia|lia|].
    destruct (copy_step off (i + 1 + 1 + 1) s4) as (s5 & R5 & I5); [tauto|done|lia|lia|].
    rewrite (bind_ret _ _ _ _ _ R2). rewrite !wrap_small by clia.
    replace (i + off + 1) with (i + 1 + off) by lia. rewrite (bind_ret _ _ _ _ _ R3).
    replace (i + 2) with (i + 1 + 1) by lia. replace (i + off + 2) with (i + 1 + 1 + off) by lia.
    rewrite (bind_ret _ _ _ _ _ R4).
    replace (i + 3) with (i + 1 + 1 + 1) by lia. replace (i + off + 3) with (i + 1 + 1 + 1 + off) by lia.
    rewrite (bind_ret _ _ _ _ _ R5). eexists _, _. split; [reflexivity|].
    replace (i + 1 + 1 + 1 + 1) with (i + 4) in I5 by lia.
    repeat split; try done; try lia; Z.div_mod_to_equations; lia.
  - replace i with (4 * (n / 4)) in * by lia. eexists _, _. split; [reflexivity|]. done.
Qed.

Lemma copy_rest_spec off s :
  off = hd mod size r0 -> off + n < size r0 -> Inv (4 * (n / 4)) s ->
  exists s' p, copy_rest copy1 n (4 * (n / 4), 4 * (n / 4) + off) s = (s', Ret p) /\ Inv n s'.
Proof using All.
  intros Hoff Hw HI. pose proof (shape_bounds r0 Hr). pose proof (Z.mod_pos_bound hd (size r0) ltac:(lia)).
  unfold copy_rest. rewrite land_3. set (k := 4 * (n / 4)) in *.
  assert (n = k + n mod 4 /\ 0 <= n mod 4 < 4) as [Hk Hm] by (unfold k; Z.div_mod_to_equations; lia).
  destruct (Z.eqb_spec (n mod 4) 3), (Z.eqb_spec (n mod 4) 2), (Z.eqb_spec (n mod 4) 1); try lia; cbn [orb]; cbv iota.
  - destruct (copy_step off k s) as (s2 & R2 & I2); [tauto|done|lia|lia|].
    destruct (copy_step off (k + 1) s2) as (s3 & R3 & I3); [tauto|done|lia|lia|].
    destruct (copy_step off (k + 1 + 1) s3) as (s4 & R4 & I4); [tauto|done|lia|lia|].
    rewrite (bind_ret _ _ _ _ _ R2), (bind_ret _ _ _ _ _ R3), R4.
    eexists _, _. split; [reflexivity|]. by replace n with (k + 1 + 1 + 1) by lia.
  - rewrite (bind_ret _ _ s s (k, k + off)) by done.
    destruct (copy_step off k s) as (s2 & R2 & I2); [tauto|done|lia|lia|].
    destruct (copy_step off (k + 1) s2) as (s3 & R3 & I3); [tauto|done|lia|lia|].
    rewrite (bind_ret _ _ _ _ _ R2), R3.
    eexists _, _. split; [reflexivity|]. by replace n with (k + 1 + 1) by lia.
  - rewrite (bind_ret _ _ s s (k, k + off)), (bind_ret _ _ s s (k, k + off)) by done.
    destruct (copy_step off k s) as (s2 & R2 & I2); [tauto|done|lia|lia|]. rewrite R2.
    eexists _, _. split; [reflexivity|]. by replace n with (k + 1) by lia.
  - rewrite (bind_ret _ _ s s (k, k + off)), (bind_ret _ _ s s (k, k + off)) by done.
    eexists _, _. split; [reflexivity|]. by replace n with k by lia.
Qed.

(** A plain loop runs from object [lo] to object [hi]. *)
Lemma copy_while_spec (cond : Z * Z -> bool) off lo hi s :
  off = hd mod size r0 \/ off = hd mod size r0 - size r0 ->
  0 <= lo <= hi -> hi <= n -> 0 <= lo + off -> hi + off <= size r0 ->
  (forall k, lo <= k <= hi -> cond (k, k + off) = (k <? hi)) ->
  Inv lo s ->
  exists s', copy_while copy1 fuel cond (lo, lo + off) s = (s', Ret (hi, hi + off)) /\ Inv hi s'.
Proof using All.
  intros Hoff Hlo Hhi H0 H1 Hc HI.
  edestruct (comp_loop_total
    (fun '(i, idx) s => lo <= i <= hi /\ idx = i + off /\ Inv i s)
    (fun p s => p = (hi, hi + off) /\ Inv hi s)
    (fun '(i, _) => Z.to_nat (hi - i))) as (s' & r & Hrun & Hr').
  4: { exists s'. unfold copy_while. rewrite Hrun. destruct Hr' as [-> ?]. done. }
  2: { repeat split; try lia. done. }
  2: (cbn; lia).
  intros [i idx] s1 (Hi & -> & HI1). rewrite Hc by lia. zcases.
  - destruct (copy_step off i s1) as (s2 & R2 & I2); [done|done|lia|lia|].
    rewrite (bind_ret _ _ _ _ _ R2). eexists _, _. split; [reflexivity|]. repeat split; try done; lia.
  - replace i with hi in * by lia. eexists _, _. split; [reflexivity|]. done.
Qed.

Lemma copy_ptrs_spec s :
  Inv 0 s -> exists s', copy_ptrs copy1 fuel hd n s = (s', Ret tt) /\ Inv n s'.
Proof using All.
  intros HI. pose proof (shape_bounds r0 Hr). pose proof (Z.mod_pos_bound hd (size r0) ltac:(lia)).
  destruct (Hcfg 0 s HI) as [Hs Hm].
  unfold copy_ptrs. rewrite (bind_ret _ _ _ _ _ (eq_refl : get s = (s, Ret s))).
  rewrite Hs, Hm, land_mask_mod by done. rewrite (wrap_small 32 (_ + n)) by clia. zcases.
  - destruct (copy4_loop_spec _ s eq_refl ltac:(lia) HI) as (s1 & R1 & I1).
    destruct (copy_rest_spec _ s1 eq_refl ltac:(lia) I1) as (s2 & p & R2 & I2).
    rewrite (bind_ret _ _ _ _ _ R1), (bind_ret _ _ _ _ _ R2). eexists. by split.
  - edestruct (copy_while_spec (fun '(_, idx) => idx <? size r0) (hd mod size r0) 0 (size r0 - hd mod size r0) s)
      as (s1 & R1 & I1); [tauto|lia..| |done|].
    { intros k Hk. zcases; lia. }
    rewrite Z.add_0_l in R1. rewrite (bind_ret _ _ _ _ _ R1). cbn [fst].
    edestruct (copy_while_spec (fun '(i, _) => i <? n) (hd mod size r0 - size r0) (size r0 - hd mod size r0) n s1)
      as (s2 & R2 & I2); [tauto|lia..| |done|].
    { intros k Hk. done. }
    replace (size r0 - hd mod size r0 + (hd mod size r0 - size r0)) with 0 in R2 by lia.
    rewrite (bind_ret _ _ _ _ _ R2). eexists. by split.
Qed.
End CopyLemmas.

(** ** Sequential correctness *)

Definition with_slots (r : rte_ring) (l : list Z) : rte_ring :=
  mk_ring (name r) (flags r) (memzone r) (size r) (mask r) (capacity r) (prod r) (cons r) l.
Definition with_prod (r : rte_ring) (p : rte_ring_headtail) : rte_ring :=
  mk_ring (name r) (flags r) (memzone r) (size r) (mask r) (capacity r) p (cons r) (slots r).
Definition with_cons (r : rte_ring) (c : rte_ring_headtail) : rte_ring :=
  mk_ring (name r) (flags r) (memzone r) (size r) (mask r) (capacity r) (prod r) c (slots r).

(** The state of an enqueue after [k] objects: the slots from [hd] on hold
    the first [k] objects of the table, the others what they held. *)
Definition enq_inv (r0 : rte_ring) (tbl : list Z) (hd k : Z) (s : ring_env) : Prop :=
  exists l, s = mk_env (with_slots r0 l) tbl /\ length l = length (slots r0) /\
  forall m, 0 <= m < size r0 ->
    l !! Z.to_nat m = let d := (m - hd) mod size r0 in
                      if d <? k then tbl !! Z.to_nat d else slots r0 !! Z.to_nat m.

(** The state of a dequeue after [k] objects: they are at the front of the table. *)
Definition deq_inv (r0 : rte_ring) (tbl : list Z) (hd k : Z) (s : ring_env) : Prop :=
  exists l, s = mk_env r0 l /\ length l = length tbl /\
  forall j, 0 <= j ->
    l !! Z.to_nat j = if j <? k then slot_at r0 (hd + j) else tbl !! Z.to_nat j.

Section Copies.
Context (r0 : rte_ring) (Hr : ring_shape r0) (tbl : list Z) (hd n : Z).
Context (Hn : 0 < n < size r0) (Ht : n <= Z.of_nat (length tbl)).

(** The distance of a slot from the head tells which object it gets. *)
Lemma slot_distance m k :
  0 <= m < size r0 -> 0 <= k < size r0 -> ((m - hd) mod size r0 = k <-> m = (hd + k) mod size r0).
Proof using All.
  intros Hm Hk. split.
  - intros <-. rewrite Zplus_mod_idemp_r. replace (hd + (m - hd)) with m by lia. by rewrite Z.mod_small.
  - intros ->. rewrite Zminus_mod_idemp_l. replace (hd + k - hd) with k by lia. by apply Z.mod_small.
Qed.

Lemma put1_step k idx s :
  enq_inv r0 tbl hd k s -> 0 <= k < n -> idx = (hd + k) mod size r0 ->
  exists s', put1 (k, idx) s = (s', Ret (k +[32] 1, idx +[32] 1)) /\ enq_inv r0 tbl hd (k + 1) s'.
Proof using All.
  intros (l & -> & Hl & Hs) Hk Hidx.
  pose proof (Z.mod_pos_bound (hd + k) (size r0) ltac:(lia)) as Hb. rewrite <- Hidx in Hb.
  pose proof (shape_slots r0 Hr).
  destruct (lookup_lt_is_Some_2 tbl (Z.to_nat k)) as [v Hv]; [lia|].
  eexists. split.
  { unfold put1. rewrite (bind_ret _ _ _ _ _ (eq_refl : get _ = (_, Ret _))).
    cbn [obj_table ring with_slots slots]. rewrite Hv, Hl. destruct (Z.ltb_spec idx (Z.of_nat (length (slots r0)))); [|lia]. reflexivity. }
  exists (<[Z.to_nat idx := v]> l). split; [reflexivity|]. rewrite length_insert. split; [done|].
  intros m Hm. cbv zeta. pose proof (slot_distance m k Hm ltac:(lia)) as Hd.
  destruct (Z.eq_dec m idx) as [->|Hne].
  - rewrite list_lookup_insert_eq by lia. replace ((idx - hd) mod size r0) with k by (symmetry; tauto).
    zcases; [done|lia].
  - rewrite list_lookup_insert_ne by lia. rewrite Hs by done. cbv zeta.
    assert ((m - hd) mod size r0 <> k) by (rewrite Hd; congruence). zcases; try lia; done.
Qed.

Lemma take1_step k idx s :
  deq_inv r0 tbl hd k s -> 0 <= k < n -> idx = (hd + k) mod size r0 ->
  exists s', take1 (k, idx) s = (s', Ret (k +[32] 1, idx +[32] 1)) /\ deq_inv r0 tbl hd (k + 1) s'.
Proof using All.
  intros (l & -> & Hl & Hs) Hk Hidx.
  pose proof (Z.mod_pos_bound (hd + k) (size r0) ltac:(lia)) as Hb. rewrite <- Hidx in Hb.
  pose proof (shape_slots r0 Hr).
  destruct (lookup_lt_is_Some_2 (slots r0) (Z.to_nat idx)) as [v Hv]; [lia|].
  eexists. split.
  { unfold take1. rewrite (bind_ret _ _ _ _ _ (eq_refl : get _ = (_, Ret _))).
    cbn [obj_table ring]. rewrite Hv, Hl. destruct (Z.ltb_spec k (Z.of_nat (length tbl))); [|lia]. reflexivity. }
  exists (<[Z.to_nat k := v]> l). split; [reflexivity|]. rewrite length_insert. split; [done|].
  intros j Hj. destruct (Z.eq_dec j k) as [->|Hne].
  - rewrite list_lookup_insert_eq by lia. unfold slot_at. rewrite <- Hidx, Hv. zcases; [done|lia].
  - rewrite list_lookup_insert_ne by lia. rewrite Hs by done. zcases; try lia; done.
Qed.

Lemma ENQUEUE_PTRS_spec fuel :
  (Z.to_nat n < fuel)%nat ->
  exists s', ENQUEUE_PTRS fuel hd n (mk_env r0 tbl) = (s', Ret tt) /\ enq_inv r0 tbl hd n s'.
Proof using All.
  intros Hf. apply (copy_ptrs_spec put1 (enq_inv r0 tbl hd) r0); try done.
  - by intros k s (l & -> & _).
  - intros k idx s. apply put1_step.
  - exists (slots r0). split; [by destruct r0|]. split; [done|]. intros m Hm. cbv zeta.
    pose proof (Z.mod_pos_bound (m - hd) (size r0)). zcases; [lia|done].
Qed.

Lemma DEQUEUE_PTRS_spec fuel :
  (Z.to_nat n < fuel)%nat ->
  exists s', DEQUEUE_PTRS fuel hd n (mk_env r0 tbl) = (s', Ret tt) /\ deq_inv r0 tbl hd n s'.
Proof using All.
  intros Hf. apply (copy_ptrs_spec take1 (deq_inv r0 tbl hd) r0); try done.
  - by intros k s (l & -> & _).
  - intros k idx s. apply take1_step.
  - exists tbl. split; [done|]. split; [done|]. intros j Hj. zcases; [lia|done].
Qed.
End Copies.

Section Moves.
Context (r : rte_ring) (q tbl : list Z) (Hq : ring_repr r q) (behavior : rte_ring_queue_behavior).
Context (fuel : nat) (n sgl : Z).

Lemma move_prod_head_spec :
  let free := capacity r - Z.of_nat (length q) in
  let k := clamp_n behavior n free in
  rte_ring_move_prod_head (S fuel) sgl n behavior (mk_env r tbl) =
    if k =? 0 then (mk_env r tbl, Ret (0, head (prod r), None, free))
    else (mk_env (with_prod r (mk_headtail (head (prod r) +[32] k) (tail (prod r)) (single (prod r)))) tbl,
          Ret (k, head (prod r), Some (head (prod r) +[32] k), free)).
Proof using All.
  intros free k. unfold rte_ring_move_prod_head, move_prod_body. simpl comp_loop.
  rewrite !bind_assoc. rewrite (bind_ret _ _ _ _ _ (eq_refl : get _ = (_, Ret _))). cbn [ring].
  rewrite (repr_free r q Hq). fold free. fold k. destruct (k =? 0); [done|].
  unfold cmpset, set_prod, set_ring. destruct (negb (sgl =? 0)).
  - rewrite bind_assoc. destruct r as [? ? ? ? ? ? [? ? ?] ? ?]. reflexivity.
  - rewrite bind_assoc. rewrite (bind_ret _ _ _ _ _ (eq_refl : get _ = (_, Ret _))). cbn [ring].
    rewrite Z.eqb_refl. rewrite bind_assoc. destruct r as [? ? ? ? ? ? [? ? ?] ? ?]. reflexivity.
Qed.

Lemma move_cons_head_spec :
  let entries := Z.of_nat (length q) in
  let k := clamp_n behavior n entries in
  rte_ring_move_cons_head (S fuel) sgl n behavior (mk_env r tbl) =
    if k =? 0 then (mk_env r tbl, Ret (0, head (cons r), None, entries))
    else (mk_env (with_cons r (mk_headtail (head (cons r) +[32] k) (tail (cons r)) (single (cons r)))) tbl,
          Ret (k, head (cons r), Some (head (cons r) +[32] k), entries)).
Proof using All.
  intros entries k. unfold rte_ring_move_cons_head, move_cons_body. simpl comp_loop.
  rewrite !bind_assoc. rewrite (bind_ret _ _ _ _ _ (eq_refl : get _ = (_, Ret _))). cbn [ring].
  rewrite (repr_used r q Hq). fold entries. fold k. destruct (k =? 0); [done|].
  unfold cmpset, set_cons, set_ring. destruct (negb (sgl =? 0)).
  - rewrite bind_assoc. destruct r as [? ? ? ? ? ? ? [? ? ?] ?]. reflexivity.
  - rewrite bind_assoc. rewrite (bind_ret _ _ _ _ _ (eq_refl : get _ = (_, Ret _))). cbn [ring].
    rewrite Z.eqb_refl. rewrite bind_assoc. destruct r as [? ? ? ? ? ? ? [? ? ?] ?]. reflexivity.
Qed.
End Moves.

Lemma clamp_n_bound behavior n e :
  0 <= n -> 0 <= e -> 0 <= clamp_n behavior n e <= e /\ clamp_n behavior n e <= n.
Proof. unfold clamp_n. intros Hn He. destruct behavior; zcases; lia. Qed.

(** Waiting for the tail ends at once when nobody is in between. *)
Lemma update_tail_spec fuel ht set_ht old new sgl s :
  tail (ht (ring s)) = old ->
  update_tail (S fuel) ht set_ht old new sgl s = set_ht (fun p => p <| tail := new |>) s.
Proof.
  intros Ht. unfold update_tail. rewrite (bind_ret _ _ s s tt); [done|].
  destruct (sgl =? 0); [|done]. simpl comp_loop. rewrite bind_assoc.
  rewrite (bind_ret _ _ _ _ _ (eq_refl : get _ = (_, Ret _))), Ht, Z.eqb_refl. reflexivity.
Qed.

Section Sequential.
Context (r : rte_ring) (q tbl : list Z) (Hq : ring_repr r q).

Let Hs : ring_shape r := repr_shape r q Hq.

Lemma index_distance i c :
  ((tail (cons r) + i) mod size r - u32 (tail (cons r) + c)) mod size r = (i - c) mod size r.
Proof using Hs.
  rewrite Zminus_mod_idemp_l, <- Zminus_mod_idemp_r. rewrite wrap_mod_size by done.
  rewrite Zminus_mod_idemp_r. f_equal. lia.
Qed.

Lemma enq_repr k l p :
  0 < k -> Z.of_nat (length q) + k <= capacity r -> k <= Z.of_nat (length tbl) ->
  length l = length (slots r) ->
  (forall m, 0 <= m < size r ->
    l !! Z.to_nat m = let d := (m - head (prod r)) mod size r in
                      if d <? k then tbl !! Z.to_nat d else slots r !! Z.to_nat m) ->
  p = mk_headtail (head (prod r) +[32] k) (head (prod r) +[32] k) (single (prod r)) ->
  ring_repr (with_slots (with_prod r p) l) (q ++ take (Z.to_nat k) tbl).
Proof using Hq Hs.
  intros Hk Hcap Htbl Hl Hm ->. pose proof (shape_bounds r Hs). pose proof (shape_capacity r Hs).
  assert (length (take (Z.to_nat k) tbl) = Z.to_nat k) as Hlt by (rewrite length_take; lia).
  pose proof Hq as [_ Hc [Hp Hph] _ Hit]. split; cbn - [length].
  - destruct Hs as [H1 H2 H3 H4]. split; cbn; try done. by rewrite Hl.
  - done.
  - rewrite length_app, Hlt, Hph, Hp, wrap_add_l by lia. split; [f_equal; lia|done].
  - rewrite length_app, Hlt. lia.
  - intros i Hi. rewrite length_app, Hlt in Hi. unfold slot_at. cbn.
    rewrite Hm by (apply Z.mod_pos_bound; lia). cbv zeta. rewrite Hph, Hp, index_distance.
    destruct (decide (i < length q)%nat) as [Hlo|Hhi].
    + replace ((Z.of_nat i - Z.of_nat (length q)) mod size r) with (Z.of_nat i - Z.of_nat (length q) + size r)
        by (apply (Z.mod_unique_pos _ _ (-1)); lia).
      zcases; [lia|]. rewrite lookup_app_l by done. by apply Hit.
    + rewrite Z.mod_small by lia. zcases; [|lia]. rewrite lookup_app_r by lia.
      rewrite lookup_take_lt by lia. f_equal. lia.
Qed.

Lemma deq_repr k c :
  0 < k <= Z.of_nat (length q) ->
  c = mk_headtail (head (cons r) +[32] k) (head (cons r) +[32] k) (single (cons r)) ->
  ring_repr (with_cons r c) (drop (Z.to_nat k) q).
Proof using Hq Hs.
  intros Hk ->. pose proof (shape_bounds r Hs). pose proof Hq as [_ [Hc Hch] [Hp Hph] Hb Hit].
  split; cbn - [length]; rewrite ?length_drop.
  - by destruct Hs as [H1 H2 H3 H4].
  - split; [apply wrap_range; lia|done].
  - split; [|done]. rewrite Hch, wrap_add_l, Hp by lia. f_equal. lia.
  - lia.
  - intros i Hi. rewrite lookup_drop. rewrite <- Hit by lia. rewrite Hch. unfold slot_at. cbn.
    rewrite <- Zplus_mod_idemp_l, wrap_mod_size, Zplus_mod_idemp_l by done. do 3 f_equal. lia.
Qed.

Lemma deq_table k l :
  0 < k <= Z.of_nat (length q) -> k <= Z.of_nat (length tbl) -> length l = length tbl ->
  (forall j, 0 <= j ->
    l !! Z.to_nat j = if j <? k then slot_at r (head (cons r) + j) else tbl !! Z.to_nat j) ->
  l = take (Z.to_nat k) q ++ drop (Z.to_nat k) tbl.
Proof using Hq Hs.
  intros Hk Htbl Hl Hj. pose proof Hq as [_ [_ Hch] _ _ Hit]. apply list_eq. intros i.
  pose proof (Hj (Z.of_nat i) ltac:(lia)) as Hi. rewrite Nat2Z.id in Hi. rewrite Hi, Hch.
  assert (length (take (Z.to_nat k) q) = Z.to_nat k) as Hlt by (rewrite length_take; lia). zcases.
  - rewrite lookup_app_l, lookup_take_lt by lia. apply Hit. lia.
  - rewrite lookup_app_r, lookup_drop by lia. f_equal. lia.
Qed.
End Sequential.

(** An enqueue by a thread that is alone on the ring is the enqueue of a
    bounded queue: it appends the first objects of the table, all [n] of them or
    none (bulk), or as many as there is room for (burst), and returns their number and
    the room left, whatever the position of the 32-bit indices and
    whichever of the copy branches runs. *)
Lemma do_enqueue_correct r q tbl behavior n is_sp fuel :
  ring_repr r q -> 0 <= n <= Z.of_nat (length tbl) -> (Z.to_nat n < fuel)%nat ->
  exists r', rte_ring_do_enqueue fuel n behavior is_sp (mk_env r tbl)
      = (mk_env r' tbl, Ret (fifo_enqueue (capacity r) behavior n tbl q).2)
    /\ ring_repr r' (fifo_enqueue (capacity r) behavior n tbl q).1
    /\ same_config r r'.
Proof.
  intros Hq Hn Hf. destruct fuel as [|fuel]; [lia|].
  pose proof Hq as [Hs _ [Hp Hph] Hb _]. pose proof (shape_bounds r Hs). pose proof (shape_capacity r Hs).
  unfold rte_ring_do_enqueue, fifo_enqueue. cbv zeta. set (free := capacity r - Z.of_nat (length q)).
  pose proof (clamp_n_bound behavior n free ltac:(lia) ltac:(lia)) as Hk.
  pose proof (move_prod_head_spec r q tbl Hq behavior fuel n is_sp) as Hmove. cbv zeta in Hmove. fold free in Hmove.
  set (k := clamp_n behavior n free) in *. destruct (Z.eqb_spec k 0) as [Hk0|Hk0]; rewrite (bind_ret _ _ _ _ _ Hmove).
  - cbn [Z.eqb fst snd]. rewrite Hk0. rewrite wrap_small by clia. rewrite app_nil_r.
    exists r. split; [done|]. split; [done|]. by repeat split.
  - destruct (Z.eqb_spec k 0); [done|]. cbn [fst snd].
    set (r1 := with_prod r _) in *.
    destruct (ENQUEUE_PTRS_spec r1 ltac:(by destruct Hs) tbl (head (prod r)) k ltac:(cbn; lia) ltac:(lia) (S fuel) ltac:(lia))
      as (s2 & R2 & l & -> & Hl & Hm).
    rewrite (bind_ret _ _ _ _ _ R2).
    eexists (with_slots (with_prod r (mk_headtail (head (prod r) +[32] k) (head (prod r) +[32] k) (single (prod r)))) l).
    split; [|split].
    + erewrite bind_ret; [|rewrite update_tail_spec; [reflexivity|cbn; congruence]].
      rewrite wrap_small by clia. reflexivity.
    + apply enq_repr; try done; lia.
    + repeat split. apply Hl.
Qed.

(** A dequeue by a thread that is alone on the ring is the dequeue of a
    bounded queue: it copies the oldest objects to the front of the table, in
    order, removes them, and returns their number and how many are left. *)
Lemma do_dequeue_correct r q tbl behavior n is_sc fuel :
  ring_repr r q -> 0 <= n <= Z.of_nat (length tbl) -> (Z.to_nat n < fuel)%nat ->
  exists r', let '(q', objs, res) := fifo_dequeue behavior n q in
    rte_ring_do_dequeue fuel n behavior is_sc (mk_env r tbl)
      = (mk_env r' (objs ++ drop (length objs) tbl), Ret res)
    /\ ring_repr r' q'
    /\ same_config r r'.
Proof.
  intros Hq Hn Hf. destruct fuel as [|fuel]; [lia|].
  pose proof Hq as [Hs [_ Hch] _ Hb _]. pose proof (shape_bounds r Hs). pose proof (shape_capacity r Hs).
  unfold rte_ring_do_dequeue, fifo_dequeue. cbv zeta.
  pose proof (clamp_n_bound behavior n (Z.of_nat (length q)) ltac:(lia) ltac:(lia)) as Hk.
  pose proof (move_cons_head_spec r q tbl Hq behavior fuel n is_sc) as Hmove. cbv zeta in Hmove.
  set (k := clamp_n behavior n (Z.of_nat (length q))) in *.
  rewrite length_take. destruct (Z.eqb_spec k 0) as [Hk0|Hk0]; rewrite (bind_ret _ _ _ _ _ Hmove).
  - cbn [Z.eqb]. rewrite Hk0. rewrite wrap_small by clia. exists r. split; [done|]. split; [done|]. by repeat split.
  - destruct (Z.eqb_spec k 0); [done|].
    set (r1 := with_cons r _) in *.
    destruct (DEQUEUE_PTRS_spec r1 ltac:(by destruct Hs) tbl (head (cons r)) k ltac:(cbn; lia) ltac:(lia) (S fuel) ltac:(lia))
      as (s2 & R2 & l & -> & Hl & Hm).
    rewrite (bind_ret _ _ _ _ _ R2).
    exists (with_cons r (mk_headtail (head (cons r) +[32] k) (head (cons r) +[32] k) (single (cons r)))).
    split; [|split].
    + erewrite bind_ret; [|rewrite update_tail_spec; [reflexivity|cbn; congruence]].
      rewrite wrap_small by clia. rewrite Nat.min_l by lia.
      rewrite <- (deq_table r q tbl Hq k l); try done; lia.
    + apply (deq_repr r q Hq); [lia|done].
    + by repeat split.
Qed.

(** C16. The bulk and burst enqueues for any kind of producer, by a thread that is
    alone on the ring, are the enqueue of a bounded queue: they append the first
    objects of the table, all [n] of them or none (bulk), or as many as there is
    room for (burst), and return their number and the room left, whatever the
    position of the 32-bit indices and whichever of the copy branches runs. *)
Theorem ring_enqueue_refines r q tbl op behavior n fuel :
  (op, behavior) ∈ [(rte_ring_mp_enqueue_bulk, RTE_RING_QUEUE_FIXED); (rte_ring_sp_enqueue_bulk, RTE_RING_QUEUE_FIXED);
    (rte_ring_enqueue_bulk, RTE_RING_QUEUE_FIXED); (rte_ring_mp_enqueue_burst, RTE_RING_QUEUE_VARIABLE);
    (rte_ring_sp_enqueue_burst, RTE_RING_QUEUE_VARIABLE); (rte_ring_enqueue_burst, RTE_RING_QUEUE_VARIABLE)] ->
  ring_repr r q -> 0 <= n <= Z.of_nat (length tbl) -> (Z.to_nat n < fuel)%nat ->
  exists r', op fuel n (mk_env r tbl)
      = (mk_env r' tbl, Ret (fifo_enqueue (capacity r) behavior n tbl q).2)
    /\ ring_repr r' (fifo_enqueue (capacity r) behavior n tbl q).1
    /\ same_config r r'.
Proof.
  intros Hop Hq Hn Hf.
  assert (exists is_sp, op fuel n (mk_env r tbl) = rte_ring_do_enqueue fuel n behavior is_sp (mk_env r tbl)) as [is_sp ->].
  { repeat (apply elem_of_cons in Hop as [[= -> ->]|Hop]; [eexists; reflexivity|]). by apply elem_of_nil in Hop. }
  by apply do_enqueue_correct.
Qed.

(** C17. The bulk and burst dequeues for any kind of consumer, by a thread that is
    alone on the ring, are the dequeue of a bounded queue: they copy the oldest
    objects to the front of the table, in order, remove them, and return their
    number and how many are left. *)
Theorem ring_dequeue_refines r q tbl op behavior n fuel :
  (op, behavior) ∈ [(rte_ring_mc_dequeue_bulk, RTE_RING_QUEUE_FIXED); (rte_ring_sc_dequeue_bulk, RTE_RING_QUEUE_FIXED);
    (rte_ring_dequeue_bulk, RTE_RING_QUEUE_FIXED); (rte_ring_mc_dequeue_burst, RTE_RING_QUEUE_VARIABLE);
    (rte_ring_sc_dequeue_burst, RTE_RING_QUEUE_VARIABLE); (rte_ring_dequeue_burst, RTE_RING_QUEUE_VARIABLE)] ->
  ring_repr r q -> 0 <= n <= Z.of_nat (length tbl) -> (Z.to_nat n < fuel)%nat ->
  exists r', let '(q', objs, res) := fifo_dequeue behavior n q in
    op fuel n (mk_env r tbl) = (mk_env r' (objs ++ drop (length objs) tbl), Ret res)
    /\ ring_repr r' q'
    /\ same_config r r'.
Proof.
  intros Hop Hq Hn Hf.
  assert (exists is_sc, op fuel n (mk_env r tbl) = rte_ring_do_dequeue fuel n behavior is_sc (mk_env r tbl)) as [is_sc ->].
  { repeat (apply elem_of_cons in Hop as [[= -> ->]|Hop]; [eexists; reflexivity|]). by apply elem_of_nil in Hop. }
  by apply do_dequeue_correct.
Qed.

(** Enqueuing and dequeuing one object through any of the entry points:
    0 and the object at the back or from the front of the queue, [-ENOBUFS] on a full
    ring and [-ENOENT] on an empty one, which then keep their contents. *)
Theorem ring_single_object fuel r q tbl obj enq deq :
  ring_repr r q -> (1 < fuel)%nat ->
  enq ∈ [rte_ring_mp_enqueue; rte_ring_sp_enqueue; rte_ring_enqueue] ->
  deq ∈ [rte_ring_mc_dequeue; rte_ring_sc_dequeue; rte_ring_dequeue] ->
  (exists r', enq fuel obj (mk_env r tbl)
      = (mk_env r' tbl, Ret (if rte_ring_full r then - ENOBUFS else 0))
    /\ ring_repr r' (if rte_ring_full r then q else q ++ [obj])) /\
  (tbl <> [] -> exists r', deq fuel (mk_env r tbl)
      = (mk_env r' (take 1 q ++ drop (length (take 1 q)) tbl), Ret (if rte_ring_empty r then - ENOENT else 0))
    /\ ring_repr r' (drop 1 q)).
Proof.
  intros Hq Hf Henq Hdeq. destruct (ring_observers r q Hq) as (_ & _ & -> & -> & _).
  unfold rte_ring_get_capacity. pose proof Hq as [_ _ _ Hb _]. split.
  - assert (exists is_sp, enq fuel obj (mk_env r tbl) = (r ← with_obj obj (rte_ring_do_enqueue fuel 1 RTE_RING_QUEUE_FIXED is_sp);
        mret (if r.1 =? 0 then - ENOBUFS else 0)) (mk_env r tbl)) as [is_sp ->].
    { repeat (apply elem_of_cons in Henq as [->|Henq]; [eexists; reflexivity|]). by apply elem_of_nil in Henq. }
    destruct (do_enqueue_correct r q [obj] RTE_RING_QUEUE_FIXED 1 is_sp fuel Hq) as (r' & Hrun & Hr' & _);
      [simpl length; lia|lia|].
    exists r'. erewrite bind_ret; [|unfold with_obj; cbn [ring]; rewrite Hrun; reflexivity].
    unfold fifo_enqueue, clamp_n in *. cbn [fst snd ring] in *. destruct (bool_decide_reflect (Z.of_nat (length q) = capacity r)).
    + destruct (Z.ltb_spec (capacity r - Z.of_nat (length q)) 1); [|lia]. by rewrite app_nil_r in Hr'.
    + destruct (Z.ltb_spec (capacity r - Z.of_nat (length q)) 1); [lia|]. done.
  - intros Htbl. assert (0 <= 1 <= Z.of_nat (length tbl)) as Hlen by (destruct tbl; [done|simpl length; lia]).
    assert (exists is_sc, deq fuel (mk_env r tbl) = (r ← rte_ring_do_dequeue fuel 1 RTE_RING_QUEUE_FIXED is_sc;
        mret (if r.1 =? 0 then - ENOENT else 0)) (mk_env r tbl)) as [is_sc ->].
    { repeat (apply elem_of_cons in Hdeq as [->|Hdeq]; [eexists; reflexivity|]). by apply elem_of_nil in Hdeq. }
    destruct (do_dequeue_correct r q tbl RTE_RING_QUEUE_FIXED 1 is_sc fuel Hq Hlen) as (r' & Hdo); [lia|].
    unfold fifo_dequeue, clamp_n in Hdo. exists r'.
    destruct q as [|x q]; cbn [length] in Hdo.
    + destruct Hdo as (Hrun & Hr' & _). by rewrite (bind_ret _ _ _ _ _ Hrun).
    + destruct (Z.ltb_spec (Z.of_nat (S (length q))) 1); [lia|]. destruct Hdo as (Hrun & Hr' & _).
      by rewrite (bind_ret _ _ _ _ _ Hrun).
Qed.

(** ** Witnesses *)

(** A ring of four slots whose indices are about to wrap: two objects are
    in it, at index 2^32 - 1 and 0. *)
Definition wrapping_ring : rte_ring :=
  mk_ring String.EmptyString 0 0 4 3 3 (mk_headtail 1 1 0) (mk_headtail (2 ^ 32 - 1) (2 ^ 32 - 1) 1) [11; 0; 0; 10].

Lemma wrapping_ring_repr : ring_repr wrapping_ring [10; 11].
Proof.
  split.
  - split; [exists 2; split; [lia|reflexivity]|reflexivity|cbn; lia|reflexivity].
  - split; [cbn; clia|reflexivity].
  - split; reflexivity.
  - simpl. lia.
  - intros [|[|i]] Hi; [reflexivity|reflexivity|simpl in Hi; lia].
Defined.

Example ring_enqueue_refines_witness :
  exists r', rte_ring_enqueue_burst 10 5 (mk_env wrapping_ring [1; 2; 3; 4; 5])
      = (mk_env r' [1; 2; 3; 4; 5], Ret (1, 0)) /\ ring_repr r' [10; 11; 1].
Proof.
  destruct (ring_enqueue_refines wrapping_ring [10; 11] [1; 2; 3; 4; 5] rte_ring_enqueue_burst RTE_RING_QUEUE_VARIABLE 5 10)
    as (r' & H1 & H2 & _); [set_solver|apply wrapping_ring_repr|cbn; lia|cbn; lia|]. by exists r'.
Defined.

Example ring_dequeue_refines_witness :
  exists r', rte_ring_sc_dequeue_bulk 10 2 (mk_env wrapping_ring [0; 0; 7])
      = (mk_env r' [10; 11; 7], Ret (2, 0)) /\ ring_repr r' [].
Proof.
  destruct (ring_dequeue_refines wrapping_ring [10; 11] [0; 0; 7] rte_ring_sc_dequeue_bulk RTE_RING_QUEUE_FIXED 2 10)
    as (r' & H); [set_solver|apply wrapping_ring_repr|cbn; lia|cbn; lia|].
  cbn in H. destruct H as (H1 & H2 & _). by exists r'.
Defined.

Example ring_single_object_witness :
  exists r', rte_ring_dequeue 2 (mk_env wrapping_ring [0]) = (mk_env r' [10], Ret 0) /\ ring_repr r' [11].
Proof.
  destruct (ring_single_object 2 wrapping_ring [10; 11] [0] 5 rte_ring_enqueue rte_ring_dequeue) as [_ H];
    [apply wrapping_ring_repr|lia|set_solver|set_solver|]. apply H. discriminate.
Defined.
