(* ===== verification/RingThreads.v ===== *)
(** * The ring between threads

    The multi-producer and multi-consumer paths of lib/librte_ring, one access
    to shared memory at a time: a thread loads its head, loads the other
    side's tail, moves the head by compare-and-set or starts again, copies its
    objects slot by slot, waits for the tail to reach its own start and moves
    the tail.  Accesses take effect in the order they are issued, as the
    barriers of rte_ring_generic.h ask for.

    The values in memory are the 32-bit ones of the code.  Beside them a
    configuration has history variables that no step reads: the objects
    reserved so far and the positions without wrap-around.  They say what the
    code assumes of a compare-and-set: between loading a head and comparing
    it a thread does not sleep through 2^32 objects ([in_window]). *)

From S2P Require Export Ring.

(** A 32-bit index and its position without wrap-around. *)
Record index := mk_index { val : Z; at_pos : Z }.

Inductive thread : Type :=
| Idle
| EStart (beh : rte_ring_queue_behavior) (objs : list Z)
| ELoaded (beh : rte_ring_queue_behavior) (objs : list Z) (old : index)
| EMove (beh : rte_ring_queue_behavior) (objs : list Z) (old : index) (n : Z)
| ECopy (objs : list Z) (old : index) (n k : Z)
| EPublish (objs : list Z) (old : index) (n : Z)
| DStart (beh : rte_ring_queue_behavior) (max : Z)
| DLoaded (beh : rte_ring_queue_behavior) (max : Z) (old : index)
| DMove (beh : rte_ring_queue_behavior) (max : Z) (old : index) (n : Z)
| DCopy (old : index) (n : Z) (out : list Z)
| DRelease (old : index) (n : Z) (out : list Z)
| DReturn (out : list Z).

(** [log] lists the objects of all successful moves of the producer head, in
    order; [pt], [ch] and [ct] are the positions of the producer tail and of
    the consumer head and tail. *)
Record config := mk_config {
  shared : rte_ring;
  log : list Z;
  pt : Z;
  ch : Z;
  ct : Z;
  threads : list thread }.

Definition ph (c : config) : Z := Z.of_nat (length (log c)).

(** What a step shows: an enqueue or a dequeue takes effect, a dequeue
    returns its objects. *)
Inductive label : Type :=
| Tau
| LEnq (objs : list Z)
| LDeq (t : nat) (n : Z)
| LRet (t : nat) (objs : list Z).

Definition goto (c : config) (t : nat) (T : thread) : config :=
  mk_config (shared c) (log c) (pt c) (ch c) (ct c) (<[t := T]> (threads c)).

Definition with_shared (c : config) (r : rte_ring) : config :=
  mk_config r (log c) (pt c) (ch c) (ct c) (threads c).

(** The slot of object [k] from the index [old]. *)
Definition slot_index (r : rte_ring) (old : index) (k : Z) : nat :=
  Z.to_nat (Z.land (val old +[32] k) (mask r)).

(** One access of thread [t]; [None] when it is idle, waits for the tail or
    would access memory outside the slots. *)
Definition thread_step (c : config) (t : nat) : option (label * config) :=
  let r := shared c in
  T ← threads c !! t;
  match T with
  | Idle => None
  | EStart beh objs => Some (Tau, goto c t (ELoaded beh objs (mk_index (head (prod r)) (ph c))))
  | ELoaded beh objs old =>
      let n := clamp_n beh (Z.of_nat (length objs)) (free_entries r (val old)) in
      Some (Tau, goto c t (if n =? 0 then Idle else EMove beh objs old n))
  | EMove beh objs old n =>
      let '(p, success) := cmpset (val old) (val old +[32] n) (prod r) in
      if success : bool then
        Some (Tau, mk_config (with_prod r p) (log c ++ take (Z.to_nat n) objs) (pt c) (ch c) (ct c)
                     (<[t := ECopy objs old n 0]> (threads c)))
      else Some (Tau, goto c t (EStart beh objs))
  | ECopy objs old n k =>
      if k <? n then
        v ← objs !! Z.to_nat k;
        _ ← slots r !! slot_index r old k;
        Some (Tau, goto (with_shared c (with_slots r (<[slot_index r old k := v]> (slots r)))) t (ECopy objs old n (k + 1)))
      else if tail (prod r) =? val old then Some (Tau, goto c t (EPublish objs old n))
      else None
  | EPublish objs old n =>
      Some (LEnq (take (Z.to_nat n) objs),
            mk_config (with_prod r (mk_headtail (head (prod r)) (val old +[32] n) (single (prod r))))
              (log c) (at_pos old + n) (ch c) (ct c) (<[t := Idle]> (threads c)))
  | DStart beh max => Some (Tau, goto c t (DLoaded beh max (mk_index (head (cons r)) (ch c))))
  | DLoaded beh max old =>
      let n := clamp_n beh max (used_entries r (val old)) in
      Some (Tau, goto c t (if n =? 0 then Idle else DMove beh max old n))
  | DMove beh max old n =>
      let '(p, success) := cmpset (val old) (val old +[32] n) (cons r) in
      if success : bool then
        Some (LDeq t n, mk_config (with_cons r p) (log c) (pt c) (ch c + n) (ct c)
                          (<[t := DCopy old n []]> (threads c)))
      else Some (Tau, goto c t (DStart beh max))
  | DCopy old n out =>
      if Z.of_nat (length out) <? n then
        v ← slots r !! slot_index r old (Z.of_nat (length out));
        Some (Tau, goto c t (DCopy old n (out ++ [v])))
      else if tail (cons r) =? val old then Some (Tau, goto c t (DRelease old n out))
      else None
  | DRelease old n out =>
      Some (Tau,
            mk_config (with_cons r (mk_headtail (head (cons r)) (val old +[32] n) (single (cons r))))
              (log c) (pt c) (ch c) (at_pos old + n) (<[t := DReturn out]> (threads c)))
  | DReturn out => Some (LRet t out, goto c t Idle)
  end.

#[global] Instance label_eq_dec : EqDecision label.
Proof. solve_decision. Defined.

Inductive step : config -> label -> config -> Prop :=
| step_run c t l c' : thread_step c t = Some (l, c') -> step c l c'
| step_enqueue c t beh objs :
    threads c !! t = Some Idle -> Z.of_nat (length objs) < 2 ^ 32 ->
    step c Tau (goto c t (EStart beh objs))
| step_dequeue c t beh max :
    threads c !! t = Some Idle -> 0 <= max < 2 ^ 32 ->
    step c Tau (goto c t (DStart beh max)).

(** No thread holds a head value that 2^32 or more objects have passed. *)
Definition in_window (c : config) : Prop :=
  forall t T, threads c !! t = Some T ->
    match T with
    | EMove _ _ old _ => ph c - at_pos old < 2 ^ 32
    | DMove _ _ old _ => ch c - at_pos old < 2 ^ 32
    | _ => True
    end.

(** An execution with what it shows. *)
Inductive execution (c : config) : list label -> config -> Prop :=
| execution_nil : execution c [] c
| execution_step tr c1 l c2 :
    execution c tr c1 -> in_window c1 -> step c1 l c2 ->
    execution c (match l with Tau => tr | _ => tr ++ [l] end) c2.

(** A ring just created, used by [n] threads. *)
Definition initial (r : rte_ring) (n : nat) : config := mk_config r [] 0 0 0 (repeat Idle n).

(** ** The specification: a bounded queue used by threads

    An enqueue appends its objects at one instant; a dequeue takes objects
    from the front at one instant and returns those objects later. *)

Record queue := mk_queue { items : list Z; taken : gmap nat (list Z) }.

Inductive qstep (cap : Z) : queue -> label -> queue -> Prop :=
| qstep_enq q m objs :
    objs <> [] -> Z.of_nat (length (q ++ objs)) <= cap ->
    qstep cap (mk_queue q m) (LEnq objs) (mk_queue (q ++ objs) m)
| qstep_deq q q' m t n objs :
    q = objs ++ q' -> Z.of_nat (length objs) = n -> 0 < n -> m !! t = None ->
    qstep cap (mk_queue q m) (LDeq t n) (mk_queue q' (<[t := objs]> m))
| qstep_ret q m t objs :
    m !! t = Some objs ->
    qstep cap (mk_queue q m) (LRet t objs) (mk_queue q (delete t m)).

Inductive qsteps (cap : Z) (q : queue) : list label -> queue -> Prop :=
| qsteps_nil : qsteps cap q [] q
| qsteps_step tr q1 l q2 : qsteps cap q tr q1 -> qstep cap q1 l q2 -> qsteps cap q (tr ++ [l]) q2.

(** ** Segments of the log and tilings *)

(** The objects at the positions [a .. b-1]. *)
Definition seg (l : list Z) (a b : Z) : list Z := take (Z.to_nat (b - a)) (drop (Z.to_nat a) l).

Section Segments.
Context (l : list Z).

Lemma length_seg a b : 0 <= a <= b -> b <= Z.of_nat (length l) -> Z.of_nat (length (seg l a b)) = b - a.
Proof using. intros Ha Hb. unfold seg. rewrite length_take, length_drop. lia. Qed.

Lemma seg_split a b c : 0 <= a <= b -> b <= c -> seg l a c = seg l a b ++ seg l b c.
Proof using.
  intros Ha Hc. unfold seg. replace (Z.to_nat (c - a)) with (Z.to_nat (b - a) + Z.to_nat (c - b))%nat by lia.
  replace (Z.to_nat b) with (Z.to_nat a + Z.to_nat (b - a))%nat by lia.
  by rewrite <- drop_drop, take_take_drop.
Qed.

Lemma seg_grow l' a b : 0 <= a -> b <= Z.of_nat (length l) -> seg (l ++ l') a b = seg l a b.
Proof using.
  intros Ha Hb. unfold seg. destruct (decide (Z.to_nat a <= length l)%nat).
  - rewrite drop_app_le by done. rewrite take_app_le by (rewrite length_drop; lia). done.
  - replace (Z.to_nat (b - a)) with 0%nat by lia. done.
Qed.

Lemma seg_empty a : seg l a a = [].
Proof using. unfold seg. by rewrite Z.sub_diag. Qed.

Lemma seg_snoc a b v : 0 <= a <= b -> l !! Z.to_nat b = Some v -> seg l a (b + 1) = seg l a b ++ [v].
Proof using.
  intros Ha Hv. rewrite (seg_split a b (b + 1)) by lia. f_equal. unfold seg.
  replace (Z.to_nat (b + 1 - b)) with 1%nat by lia.
  by rewrite (drop_S _ v) by done.
Qed.
End Segments.

Lemma seg_lookup l a b j : 0 <= a -> 0 <= j < b - a -> seg l a b !! Z.to_nat j = l !! Z.to_nat (a + j).
Proof.
  intros Ha Hj. unfold seg. rewrite lookup_take_lt, lookup_drop by lia. f_equal. lia.
Qed.

Lemma seg_last l l' : seg (l ++ l') (Z.of_nat (length l)) (Z.of_nat (length (l ++ l'))) = l'.
Proof.
  unfold seg. rewrite length_app, Nat2Z.id, drop_app_length. apply take_ge. lia.
Qed.

(** [range] gives the positions a thread owns; those of all threads tile [lo .. hi-1]. *)
Definition inside (p : Z * Z) (i : Z) : Prop := p.1 <= i < p.2.

Section Tiling.
Context (range : thread -> Z * Z).

Record tiled (ts : list thread) (lo hi : Z) : Prop := {
  tiled_in : forall t T i, ts !! t = Some T -> inside (range T) i -> lo <= i < hi;
  tiled_disjoint : forall t1 t2 T1 T2 i, ts !! t1 = Some T1 -> ts !! t2 = Some T2 ->
    inside (range T1) i -> inside (range T2) i -> t1 = t2;
  tiled_cover : forall i, lo <= i < hi -> exists t T, ts !! t = Some T /\ inside (range T) i }.

Context (ts : list thread) (t : nat) (T T' : thread) (lo hi : Z).
Context (Ht : ts !! t = Some T) (Htile : tiled ts lo hi).

Lemma insert_cases t1 T1 :
  <[t := T']> ts !! t1 = Some T1 -> (t1 = t /\ T1 = T') \/ (t1 <> t /\ ts !! t1 = Some T1).
Proof using. intros [(<- & <- & _)|[? ?]]%list_lookup_insert_Some; [by left|by right]. Qed.

Lemma insert_here : <[t := T']> ts !! t = Some T'.
Proof using Ht. apply list_lookup_insert_eq. by eapply lookup_lt_Some. Qed.

Lemma tiled_same : range T' = range T -> tiled (<[t := T']> ts) lo hi.
Proof using Ht Htile.
  intros Hr. split.
  - intros t1 T1 i [[-> ->]|[Hne H1]]%insert_cases; [rewrite Hr|]; by eapply tiled_in.
  - intros t1 t2 T1 T2 i [[-> ->]|[Hne1 H1]]%insert_cases [[-> ->]|[Hne2 H2]]%insert_cases; try done;
      rewrite ?Hr; by eapply tiled_disjoint.
  - intros i Hi. destruct (tiled_cover ts lo hi Htile i Hi) as (t1 & T1 & H1 & Hin).
    destruct (decide (t1 = t)) as [->|Hne].
    + exists t, T'. rewrite insert_here, Hr. simplify_eq. done.
    + exists t1, T1. by rewrite list_lookup_insert_ne.
Qed.

Lemma tiled_add n :
  (forall i, ~ inside (range T) i) -> range T' = (hi, hi + n) -> lo <= hi -> 0 <= n ->
  tiled (<[t := T']> ts) lo (hi + n).
Proof using Ht Htile.
  intros He Hr Hlo Hn. split.
  - intros t1 T1 i [[-> ->]|[Hne H1]]%insert_cases Hin.
    + rewrite Hr in Hin. unfold inside in Hin. simpl in Hin. lia.
    + pose proof (tiled_in ts lo hi Htile t1 T1 i H1 Hin). lia.
  - intros t1 t2 T1 T2 i [[-> ->]|[Hne1 H1]]%insert_cases [[-> ->]|[Hne2 H2]]%insert_cases; try done;
      rewrite ?Hr; intros Hi1 Hi2.
    + pose proof (tiled_in ts lo hi Htile t2 T2 i H2 Hi2). unfold inside in Hi1. simpl in Hi1. lia.
    + pose proof (tiled_in ts lo hi Htile t1 T1 i H1 Hi1). unfold inside in Hi2. simpl in Hi2. lia.
    + by eapply tiled_disjoint.
  - intros i Hi. destruct (Z_lt_le_dec i hi) as [Hlt|Hge].
    + destruct (tiled_cover ts lo hi Htile i ltac:(lia)) as (t1 & T1 & H1 & Hin).
      exists t1, T1. rewrite list_lookup_insert_ne; [done|]. intros ->. simplify_eq. by destruct (He i).
    + exists t, T'. rewrite insert_here, Hr. split; [done|]. unfold inside. simpl. lia.
Qed.

Lemma tiled_remove n :
  range T = (lo, lo + n) -> 0 < n -> (forall i, ~ inside (range T') i) ->
  tiled (<[t := T']> ts) (lo + n) hi.
Proof using Ht Htile.
  intros Hr Hn He. split.
  - intros t1 T1 i [[-> ->]|[Hne H1]]%insert_cases Hin; [by destruct (He i)|].
    pose proof (tiled_in ts lo hi Htile t1 T1 i H1 Hin) as Hb.
    destruct (Z_lt_le_dec i (lo + n)); [|lia]. destruct Hne.
    apply (tiled_disjoint ts lo hi Htile t1 t T1 T i); try done. rewrite Hr. unfold inside. simpl. lia.
  - intros t1 t2 T1 T2 i [[-> ->]|[Hne1 H1]]%insert_cases [[-> ->]|[Hne2 H2]]%insert_cases Hi1 Hi2; try done;
      [by destruct (He i)..|]. by eapply tiled_disjoint.
  - intros i Hi. destruct (tiled_cover ts lo hi Htile i ltac:(lia)) as (t1 & T1 & H1 & Hin).
    exists t1, T1. rewrite list_lookup_insert_ne; [done|]. intros ->. simplify_eq.
    rewrite Hr in Hin. unfold inside in Hin. simpl in Hin. lia.
Qed.

(** The start of a non-empty range that ends the tiling is the low end when
    it is owned by nobody else: here, the bounds of a range. *)
Lemma tiled_bounds a b : range T = (a, b) -> a < b -> lo <= a /\ b <= hi.
Proof using Ht Htile.
  intros Hr Hab.
  pose proof (tiled_in ts lo hi Htile t T a Ht) as H1. pose proof (tiled_in ts lo hi Htile t T (b - 1) Ht) as H2.
  rewrite Hr in *. unfold inside in *. simpl in *. lia.
Qed.
End Tiling.

(** ** The invariant *)

Definition p_range (T : thread) : Z * Z :=
  match T with
  | ECopy _ old n _ | EPublish _ old n => (at_pos old, at_pos old + n)
  | _ => (0, 0)
  end.

Definition c_range (T : thread) : Z * Z :=
  match T with
  | DCopy old n _ | DRelease old n _ => (at_pos old, at_pos old + n)
  | _ => (0, 0)
  end.

Definition good_index (p : index) : Prop := val p = u32 (at_pos p) /\ 0 <= at_pos p.

(** The slots hold [objs] from position [a] on, [k] of them. *)
Definition holds (r : rte_ring) (a : Z) (objs : list Z) (k : Z) : Prop :=
  forall j, 0 <= j < k -> slot_at r (a + j) = objs !! Z.to_nat j.

(** What a thread knows. *)
Definition thread_ok (c : config) (T : thread) : Prop :=
  let r := shared c in
  match T with
  | Idle | DReturn _ => True
  | EStart _ objs => Z.of_nat (length objs) < 2 ^ 32
  | ELoaded _ objs old => Z.of_nat (length objs) < 2 ^ 32 /\ good_index old /\ at_pos old <= ph c
  | EMove _ objs old n =>
      Z.of_nat (length objs) < 2 ^ 32 /\ good_index old /\ at_pos old <= ph c /\
      0 < n <= Z.of_nat (length objs) /\ (at_pos old = ph c -> at_pos old + n <= ct c + capacity r)
  | ECopy objs old n k =>
      good_index old /\ 0 < n <= Z.of_nat (length objs) /\ 0 <= k <= n /\
      seg (log c) (at_pos old) (at_pos old + n) = take (Z.to_nat n) objs /\ holds r (at_pos old) objs k
  | EPublish objs old n =>
      good_index old /\ 0 < n <= Z.of_nat (length objs) /\ at_pos old = pt c /\
      seg (log c) (at_pos old) (at_pos old + n) = take (Z.to_nat n) objs /\ holds r (at_pos old) objs n
  | DStart _ max => 0 <= max < 2 ^ 32
  | DLoaded _ max old => 0 <= max < 2 ^ 32 /\ good_index old /\ at_pos old <= ch c
  | DMove _ max old n =>
      0 <= max < 2 ^ 32 /\ good_index old /\ at_pos old <= ch c /\ 0 < n /\ (at_pos old = ch c -> at_pos old + n <= pt c)
  | DCopy old n out =>
      good_index old /\ 0 < n /\ Z.of_nat (length out) <= n /\
      out = seg (log c) (at_pos old) (at_pos old + Z.of_nat (length out))
  | DRelease old n out =>
      good_index old /\ 0 < n /\ Z.of_nat (length out) = n /\ at_pos old = ct c /\
      out = seg (log c) (at_pos old) (at_pos old + n)
  end.

Record inv (c : config) : Prop := {
  inv_shape : ring_shape (shared c);
  inv_phead : head (prod (shared c)) = u32 (ph c);
  inv_ptail : tail (prod (shared c)) = u32 (pt c);
  inv_chead : head (cons (shared c)) = u32 (ch c);
  inv_ctail : tail (cons (shared c)) = u32 (ct c);
  inv_order : 0 <= ct c <= ch c /\ ch c <= pt c <= ph c /\ ph c <= ct c + capacity (shared c);
  inv_items : forall i, ct c <= i < pt c -> slot_at (shared c) i = log c !! Z.to_nat i;
  inv_threads : forall t T, threads c !! t = Some T -> thread_ok c T;
  inv_prod : tiled p_range (threads c) (pt c) (ph c);
  inv_cons : tiled c_range (threads c) (ct c) (ch c) }.

Lemma ph_nonneg c : 0 <= ph c.
Proof. unfold ph. lia. Qed.

Lemma inv_bounds c : inv c -> 0 < size (shared c) <= 2 ^ 31 /\ 0 <= capacity (shared c) < size (shared c).
Proof. intros H. split; [apply shape_bounds | apply shape_capacity]; apply H. Qed.

(** *** Writing a slot *)

Lemma slot_index_eq r old k :
  ring_shape r -> good_index old -> slot_index r old k = Z.to_nat ((at_pos old + k) mod size r).
Proof.
  intros Hr [Hv _]. unfold slot_index. rewrite Hv. rewrite land_mask_mod by done.
  rewrite wrap_mod_size, <- Zplus_mod_idemp_l, wrap_mod_size, Zplus_mod_idemp_l by done. done.
Qed.

Lemma slot_bound r i : ring_shape r -> (Z.to_nat (i mod size r) < length (slots r))%nat.
Proof.
  intros Hr. pose proof (shape_bounds r Hr). pose proof (shape_slots r Hr).
  pose proof (Z.mod_pos_bound i (size r) ltac:(lia)). lia.
Qed.

Section Write.
Context (r : rte_ring) (Hr : ring_shape r) (i v : Z).
Let r' := with_slots r (<[Z.to_nat (i mod size r) := v]> (slots r)).

Lemma write_shape : ring_shape r'.
Proof using Hr. destruct Hr. split; cbn; try done. by rewrite length_insert. Qed.

Lemma slot_at_written : slot_at r' i = Some v.
Proof using Hr. unfold slot_at, r'. cbn. by apply list_lookup_insert_eq, slot_bound. Qed.

Lemma slot_at_other j : i <> j -> - size r < i - j < size r -> slot_at r' j = slot_at r j.
Proof using Hr.
  intros Hne Hd. unfold slot_at, r'. cbn. apply list_lookup_insert_ne.
  pose proof (shape_bounds r Hr) as Hb.
  pose proof (Z.mod_pos_bound i (size r) ltac:(lia)). pose proof (Z.mod_pos_bound j (size r) ltac:(lia)).
  intros He. assert (i mod size r = j mod size r) as Hm by lia.
  assert ((i - j) mod size r = 0) as Hz by (rewrite Zminus_mod, Hm, Z.sub_diag; by apply Z.mod_0_l; lia).
  apply Z.mod_divide in Hz as [k Hk]; [|lia]. unfold Z.divide in Hk. clear He Hm.
  destruct (Z_lt_le_dec k 0); [|destruct (Z.eq_dec k 0)]; nia.
Qed.
End Write.

(** ** Every step keeps the invariant *)

(** A step that changes only where thread [t] is, between states that own
    the same positions. *)
Lemma inv_goto c t T T' :
  inv c -> threads c !! t = Some T -> thread_ok c T' ->
  p_range T' = p_range T -> c_range T' = c_range T -> inv (goto c t T').
Proof.
  intros [] Ht Hok Hp Hc. split; try done.
  - intros t1 T1 [[-> ->]|[_ H1]]%insert_cases; [done|]. by apply (inv_threads0 t1).
  - by eapply tiled_same.
  - by eapply tiled_same.
Qed.

Lemma good_head c : inv c -> good_index (mk_index (head (prod (shared c))) (ph c)).
Proof. intros H. split; [apply H|apply ph_nonneg]. Qed.

Lemma good_chead c : inv c -> good_index (mk_index (head (cons (shared c))) (ch c)).
Proof. intros H. split; [apply H|]. pose proof (inv_order c H). simpl. lia. Qed.

(** The room seen from a head that is still current is the room there is. *)
Lemma free_entries_seen c old n :
  inv c -> good_index old -> at_pos old = ph c -> n <= free_entries (shared c) (val old) ->
  at_pos old + n <= ct c + capacity (shared c).
Proof.
  intros Hi [-> _] Hat Hn. pose proof (inv_order c Hi). pose proof (inv_bounds c Hi).
  unfold free_entries in Hn. rewrite (inv_ctail c Hi), wrap_sub_r in Hn.
  replace (capacity (shared c) + u32 (ct c) - at_pos old) with (u32 (ct c) + (capacity (shared c) - at_pos old)) in Hn by lia.
  rewrite wrap_add_l in Hn. rewrite wrap_small in Hn by clia. lia.
Qed.

Lemma used_entries_seen c old n :
  inv c -> good_index old -> at_pos old = ch c -> n <= used_entries (shared c) (val old) ->
  at_pos old + n <= pt c.
Proof.
  intros Hi [-> _] Hat Hn. pose proof (inv_order c Hi). pose proof (inv_bounds c Hi).
  unfold used_entries in Hn. rewrite (inv_ptail c Hi), wrap_sub_l, wrap_sub_r in Hn.
  rewrite wrap_small in Hn by clia. lia.
Qed.

(** A compare-and-set that succeeds inside the window saw the current head. *)
Lemma cmpset_current ht old new ht' hd :
  head ht = u32 hd -> good_index old -> at_pos old <= hd -> hd - at_pos old < 2 ^ 32 ->
  cmpset (val old) new ht = (ht', true) ->
  at_pos old = hd /\ ht' = mk_headtail new (tail ht) (single ht).
Proof.
  intros Hhd [Hv H0] Hle Hw Hc. unfold cmpset in Hc.
  destruct (Z.eqb_spec (head ht) (val old)) as [He|]; [|done]. injection Hc as <-.
  rewrite Hhd, Hv in He. split; [|by destruct ht]. clia.
Qed.

(** What the threads know survives a step of another thread: positions only
    grow, the log only gets longer, the slots a thread wrote are left
    alone, and whoever may move a tail is the only one to do so. *)
Lemma thread_ok_env c c' t T x :
  inv c -> threads c !! t = Some T ->
  capacity (shared c') = capacity (shared c) ->
  ch c <= ch c' -> pt c <= pt c' -> ct c <= ct c' -> log c' = log c ++ x ->
  (forall i, inside (p_range T) i -> slot_at (shared c') i = slot_at (shared c) i) ->
  (forall objs old n, T = EPublish objs old n -> pt c' = pt c) ->
  (forall old n out, T = DRelease old n out -> ct c' = ct c) ->
  thread_ok c' T.
Proof.
  intros Hi Ht Hcap Hch Hpt Hct Hlog Hsl Hpub Hrel.
  pose proof (inv_threads c Hi t T Ht) as Hok. pose proof (inv_order c Hi) as Ho.
  assert (ph c <= ph c') as Hph by (unfold ph; rewrite Hlog, length_app; lia).
  pose proof (fun a b => tiled_bounds p_range _ t T _ _ Ht (inv_prod c Hi) a b) as Hpb.
  pose proof (fun a b => tiled_bounds c_range _ t T _ _ Ht (inv_cons c Hi) a b) as Hcb.
  destruct T; cbn [thread_ok p_range c_range] in *; unfold good_index in *; try done.
  - intuition lia.
  - rewrite Hcap. intuition lia.
  - destruct Hok as (Hg & Hn & Hk & Hseg & Hh). specialize (Hpb _ _ eq_refl ltac:(lia)).
    rewrite Hlog, seg_grow by (unfold ph in *; lia). repeat split; try tauto; try lia.
    intros j Hj. rewrite Hsl by (unfold inside; simpl; lia). by apply Hh.
  - destruct Hok as (Hg & Hn & Hat & Hseg & Hh). specialize (Hpb _ _ eq_refl ltac:(lia)).
    rewrite (Hpub _ _ _ eq_refl). rewrite Hlog, seg_grow by (unfold ph in *; lia). repeat split; try tauto; try lia.
    intros j Hj. rewrite Hsl by (unfold inside; simpl; lia). by apply Hh.
  - intuition lia.
  - intuition lia.
  - destruct Hok as (Hg & Hn & Hk & Hout). specialize (Hcb _ _ eq_refl ltac:(lia)).
    rewrite Hlog, seg_grow by (unfold ph in *; lia). repeat split; try tauto; lia.
  - destruct Hok as (Hg & Hn & Hk & Hat & Hout). specialize (Hcb _ _ eq_refl ltac:(lia)).
    rewrite (Hrel _ _ _ eq_refl). rewrite Hlog, seg_grow by (unfold ph in *; lia). repeat split; try tauto; lia.
Qed.

Section Steps.
Context (c : config) (t : nat) (Hi : inv c).

(** The producer head moves: thread [t] owns the positions it reserved. *)
Lemma inv_reserve beh objs old n p :
  threads c !! t = Some (EMove beh objs old n) -> ph c - at_pos old < 2 ^ 32 ->
  cmpset (val old) (val old +[32] n) (prod (shared c)) = (p, true) ->
  inv (mk_config (with_prod (shared c) p) (log c ++ take (Z.to_nat n) objs) (pt c) (ch c) (ct c)
         (<[t := ECopy objs old n 0]> (threads c))).
Proof using Hi.
  intros Ht Hw Hcas. pose proof (inv_threads c Hi t _ Ht) as (Hlen & Hg & Hle & Hn & Hroom).
  destruct (cmpset_current _ _ _ _ _ (inv_phead c Hi) Hg Hle Hw Hcas) as [Hat ->]. specialize (Hroom Hat).
  assert (length (take (Z.to_nat n) objs) = Z.to_nat n) as Hlt by (rewrite length_take; lia).
  pose proof (inv_order c Hi) as Ho.
  assert (forall sh pt ch ct ts, ph (mk_config sh (log c ++ take (Z.to_nat n) objs) pt ch ct ts) = ph c + n) as Hph.
  { intros. unfold ph. cbn [log]. rewrite length_app, Hlt. lia. }
  split; rewrite ?Hph; cbn.
  - by destruct (inv_shape c Hi).
  - destruct Hg as [-> _]. by rewrite Hat, wrap_add_l.
  - apply Hi.
  - apply Hi.
  - apply Hi.
  - lia.
  - intros i Hir. rewrite lookup_app_l by (unfold ph in *; lia). by apply (inv_items c Hi).
  - intros t1 T1 [[-> ->]|[Hne H1]]%insert_cases.
    + cbn. repeat split; try apply Hg; try lia.
      * pose proof (seg_last (log c) (take (Z.to_nat n) objs)) as Hs. rewrite length_app, Hlt in Hs.
        rewrite Hat. unfold ph. by replace (Z.of_nat (length (log c)) + n)
          with (Z.of_nat (length (log c) + Z.to_nat n)) by lia.
      * intros j Hj. lia.
    + by eapply (thread_ok_env c _ t1).
  - eapply (tiled_add _ _ _ _ _ _ _ Ht (inv_prod c Hi)); try lia.
    + unfold inside. simpl. lia.
    + simpl. by rewrite Hat.
  - eapply tiled_same; [exact Ht|apply Hi|done].
Qed.

(** One object is copied into the ring. *)
Lemma inv_write objs old n k v :
  threads c !! t = Some (ECopy objs old n k) -> k < n -> objs !! Z.to_nat k = Some v ->
  inv (goto (with_shared c (with_slots (shared c) (<[slot_index (shared c) old k := v]> (slots (shared c))))) t (ECopy objs old n (k + 1))).
Proof using Hi.
  intros Ht Hk Hv. pose proof (inv_threads c Hi t _ Ht) as (Hg & Hn & Hk0 & Hseg & Hh).
  pose proof (inv_order c Hi) as Ho. pose proof (inv_bounds c Hi) as Hb.
  pose proof (tiled_bounds p_range _ t _ _ _ Ht (inv_prod c Hi) _ _ eq_refl ltac:(lia)) as Hp.
  rewrite slot_index_eq by first [apply Hi|done].
  set (i := at_pos old + k). pose proof (inv_shape c Hi) as Hs.
  assert (forall j, i <> j -> ct c <= j < ph c ->
    slot_at (with_slots (shared c) (<[Z.to_nat (i mod size (shared c)) := v]> (slots (shared c)))) j = slot_at (shared c) j) as Hother.
  { intros j Hne Hj. apply slot_at_other; [done|done|]. unfold i. lia. }
  split; cbn.
  - by apply write_shape.
  - apply Hi.
  - apply Hi.
  - apply Hi.
  - apply Hi.
  - apply Hi.
  - intros j Hj. rewrite Hother by (unfold i; lia). by apply (inv_items c Hi).
  - intros t1 T1 [[-> ->]|[Hne H1]]%insert_cases.
    + cbn. repeat split; try apply Hg; try done; try lia.
      intros j Hj. destruct (Z.eq_dec j k) as [->|Hjk].
      * fold i. by rewrite slot_at_written.
      * rewrite Hother by (unfold i; lia). apply Hh. lia.
    + eapply (thread_ok_env c _ t1 T1 []); cbn; try done; [by rewrite app_nil_r|].
      intros j Hj. apply Hother.
      * intros <-. apply Hne. eapply (tiled_disjoint _ _ _ _ (inv_prod c Hi)); [exact H1|exact Ht|exact Hj|].
        unfold inside, i. simpl. lia.
      * pose proof (tiled_in _ _ _ _ (inv_prod c Hi) t1 T1 j H1 Hj). lia.
  - eapply tiled_same; [exact Ht|apply Hi|done].
  - eapply tiled_same; [exact Ht|apply Hi|done].
Qed.

(** A range that starts at the low end of a tiling has one owner. *)
Lemma owner_unique (range : thread -> Z * Z) ts lo hi t1 t2 T1 T2 n1 n2 :
  tiled range ts lo hi -> ts !! t1 = Some T1 -> ts !! t2 = Some T2 ->
  range T1 = (lo, lo + n1) -> range T2 = (lo, lo + n2) -> 0 < n1 -> 0 < n2 -> t1 = t2.
Proof using.
  intros Ht H1 H2 R1 R2 Hn1 Hn2. apply (tiled_disjoint _ _ _ _ Ht t1 t2 T1 T2 lo); try done;
    rewrite ?R1, ?R2; unfold inside; simpl; lia.
Qed.

(** The producer tail moves over the objects of thread [t]. *)
Lemma inv_publish objs old n :
  threads c !! t = Some (EPublish objs old n) ->
  inv (mk_config (with_prod (shared c) (mk_headtail (head (prod (shared c))) (val old +[32] n) (single (prod (shared c)))))
         (log c) (at_pos old + n) (ch c) (ct c) (<[t := Idle]> (threads c))).
Proof using Hi.
  intros Ht. pose proof (inv_threads c Hi t _ Ht) as (Hg & Hn & Hat & Hseg & Hh).
  pose proof (inv_order c Hi) as Ho.
  pose proof (tiled_bounds p_range _ t _ _ _ Ht (inv_prod c Hi) _ _ eq_refl ltac:(lia)) as Hp.
  split; cbn.
  - by destruct (inv_shape c Hi).
  - apply Hi.
  - destruct Hg as [-> _]. by rewrite wrap_add_l.
  - apply Hi.
  - apply Hi.
  - unfold ph in *. cbn. lia.
  - intros i Hir. destruct (Z_lt_le_dec i (pt c)) as [Hlt|Hge]; [apply (inv_items c Hi); lia|].
    change (slot_at (shared c) i = log c !! Z.to_nat i).
    replace i with (at_pos old + (i - at_pos old)) by lia. rewrite (Hh (i - at_pos old)) by lia.
    rewrite <- (seg_lookup _ _ (at_pos old + n)) by lia. rewrite Hseg. by rewrite lookup_take_lt by lia.
  - intros t1 T1 [[-> ->]|[Hne H1]]%insert_cases; [done|].
    eapply (thread_ok_env c _ t1 T1 []); cbn; try done; [lia|by rewrite app_nil_r|].
    intros objs1 old1 n1 ->. pose proof (inv_threads c Hi t1 _ H1) as (_ & Hn1 & Hat1 & _).
    destruct Hne. eapply (owner_unique p_range _ _ _ _ _ _ _ n1 n (inv_prod c Hi) H1 Ht); [simpl; by rewrite Hat1|simpl; by rewrite Hat|lia|lia].
  - rewrite Hat. change (ph (mk_config _ _ _ _ _ _)) with (ph c).
    eapply (tiled_remove _ _ _ _ _ _ _ Ht (inv_prod c Hi)); [simpl; by rewrite Hat|lia|].
    unfold inside. simpl. lia.
  - eapply tiled_same; [exact Ht|apply Hi|done].
Qed.

(** The consumer head moves: thread [t] owns the objects it claimed. *)
Lemma inv_claim beh max old n p :
  threads c !! t = Some (DMove beh max old n) -> ch c - at_pos old < 2 ^ 32 ->
  cmpset (val old) (val old +[32] n) (cons (shared c)) = (p, true) ->
  inv (mk_config (with_cons (shared c) p) (log c) (pt c) (ch c + n) (ct c) (<[t := DCopy old n []]> (threads c))).
Proof using Hi.
  intros Ht Hw Hcas. pose proof (inv_threads c Hi t _ Ht) as (Hm & Hg & Hle & Hn & Hroom).
  destruct (cmpset_current _ _ _ _ _ (inv_chead c Hi) Hg Hle Hw Hcas) as [Hat ->]. specialize (Hroom Hat).
  pose proof (inv_order c Hi) as Ho.
  split; cbn.
  - by destruct (inv_shape c Hi).
  - apply Hi.
  - apply Hi.
  - destruct Hg as [-> _]. by rewrite Hat, wrap_add_l.
  - apply Hi.
  - unfold ph in *. cbn. lia.
  - apply Hi.
  - intros t1 T1 [[-> ->]|[Hne H1]]%insert_cases.
    + cbn. split; [apply Hg|]. rewrite Z.add_0_r, seg_empty. repeat split; lia.
    + eapply (thread_ok_env c _ t1 T1 []); cbn; try done; [lia|by rewrite app_nil_r].
  - eapply tiled_same; [exact Ht|apply Hi|done].
  - eapply (tiled_add _ _ _ _ _ _ _ Ht (inv_cons c Hi)); try lia.
    + unfold inside. simpl. lia.
    + simpl. by rewrite Hat.
Qed.

(** The object a consumer finds in the next slot it claimed. *)
Lemma claimed_object old n out v :
  threads c !! t = Some (DCopy old n out) -> Z.of_nat (length out) < n ->
  slots (shared c) !! slot_index (shared c) old (Z.of_nat (length out)) = Some v ->
  thread_ok c (DCopy old n (out ++ [v])).
Proof using Hi.
  intros Ht Hlt Hv. pose proof (inv_threads c Hi t _ Ht) as (Hg & Hn & Hle & Hout).
  pose proof (inv_order c Hi) as Ho.
  pose proof (tiled_bounds c_range _ t _ _ _ Ht (inv_cons c Hi) _ _ eq_refl ltac:(lia)) as Hp.
  rewrite slot_index_eq in Hv by first [apply Hi|done].
  change (slot_at (shared c) (at_pos old + Z.of_nat (length out)) = Some v) in Hv.
  rewrite (inv_items c Hi) in Hv by lia.
  cbn. rewrite length_app. cbn [length]. repeat split; try apply Hg; try lia.
  replace (at_pos old + Z.of_nat (length out + 1)) with (at_pos old + Z.of_nat (length out) + 1) by lia.
  rewrite (seg_snoc _ _ _ v) by (done || lia). by rewrite <- Hout.
Qed.

(** The consumer tail moves over the objects of thread [t]. *)
Lemma inv_release old n out :
  threads c !! t = Some (DRelease old n out) ->
  inv (mk_config (with_cons (shared c) (mk_headtail (head (cons (shared c))) (val old +[32] n) (single (cons (shared c)))))
         (log c) (pt c) (ch c) (at_pos old + n) (<[t := DReturn out]> (threads c))).
Proof using Hi.
  intros Ht. pose proof (inv_threads c Hi t _ Ht) as (Hg & Hn & Hl & Hat & Hout).
  pose proof (inv_order c Hi) as Ho.
  pose proof (tiled_bounds c_range _ t _ _ _ Ht (inv_cons c Hi) _ _ eq_refl ltac:(lia)) as Hp.
  split; cbn.
  - by destruct (inv_shape c Hi).
  - apply Hi.
  - apply Hi.
  - apply Hi.
  - destruct Hg as [-> _]. by rewrite wrap_add_l.
  - unfold ph in *. cbn. lia.
  - intros i Hir. apply (inv_items c Hi). lia.
  - intros t1 T1 [[-> ->]|[Hne H1]]%insert_cases; [done|].
    eapply (thread_ok_env c _ t1 T1 []); cbn; try done; [lia|by rewrite app_nil_r|].
    intros old1 n1 out1 ->. pose proof (inv_threads c Hi t1 _ H1) as (_ & Hn1 & _ & Hat1 & _).
    destruct Hne. eapply (owner_unique c_range _ _ _ _ _ _ _ n1 n (inv_cons c Hi) H1 Ht); [simpl; by rewrite Hat1|simpl; by rewrite Hat|lia|lia].
  - eapply tiled_same; [exact Ht|apply Hi|done].
  - rewrite Hat. eapply (tiled_remove _ _ _ _ _ _ _ Ht (inv_cons c Hi)); [simpl; by rewrite Hat|lia|].
    unfold inside. simpl. lia.
Qed.
End Steps.

(** A fact about the thread of a failed or finished move. *)
Lemma clamp_n_cases beh n e :
  0 <= n -> 0 <= e -> clamp_n beh n e = 0 \/ (0 < clamp_n beh n e <= n /\ clamp_n beh n e <= e).
Proof. intros Hn He. pose proof (clamp_n_bound beh n e Hn He). lia. Qed.

Lemma free_entries_nonneg r h : 0 <= free_entries r h.
Proof. pose proof (wrap_range 32 ltac:(lia) (capacity r + tail (cons r) - h)). unfold free_entries, in_range in *. lia. Qed.

Lemma used_entries_nonneg r h : 0 <= used_entries r h.
Proof. pose proof (wrap_range 32 ltac:(lia) (tail (prod r) - h)). unfold used_entries, in_range in *. lia. Qed.

(** After the load of the other side's tail. *)
Lemma loaded_room c t beh objs old n :
  inv c -> threads c !! t = Some (ELoaded beh objs old) ->
  n = clamp_n beh (Z.of_nat (length objs)) (free_entries (shared c) (val old)) ->
  thread_ok c (if n =? 0 then Idle else EMove beh objs old n).
Proof.
  intros Hi Ht ->. destruct (inv_threads c Hi t _ Ht) as (Hl & Hg & Hle).
  pose proof (clamp_n_cases beh (Z.of_nat (length objs)) _ ltac:(lia) (free_entries_nonneg (shared c) (val old))).
  destruct (Z.eqb_spec (clamp_n beh (Z.of_nat (length objs)) (free_entries (shared c) (val old))) 0); [done|].
  cbn [thread_ok]. repeat split; try apply Hg; try lia. intros Hat. apply free_entries_seen; done || lia.
Qed.

Lemma loaded_used c t beh max old n :
  inv c -> threads c !! t = Some (DLoaded beh max old) ->
  n = clamp_n beh max (used_entries (shared c) (val old)) ->
  thread_ok c (if n =? 0 then Idle else DMove beh max old n).
Proof.
  intros Hi Ht ->. destruct (inv_threads c Hi t _ Ht) as (Hl & Hg & Hle).
  pose proof (clamp_n_cases beh max _ ltac:(lia) (used_entries_nonneg (shared c) (val old))).
  destruct (Z.eqb_spec (clamp_n beh max (used_entries (shared c) (val old))) 0); [done|].
  cbn [thread_ok]. repeat split; try apply Hg; try lia. intros Hat. apply used_entries_seen; done || lia.
Qed.

(** A thread that finds the tail at its own start is the first of the
    threads that wait: positions equal modulo 2^32 are equal. *)
Lemma wait_over lo hi old n cap tl :
  0 <= cap < 2 ^ 31 -> good_index old -> 0 <= lo -> lo <= at_pos old -> at_pos old + n <= hi -> 0 < n ->
  hi <= lo + cap -> tl = u32 lo -> tl = val old -> at_pos old = lo.
Proof. intros Hcap [Hv H0] Hlo H1 H2 Hn Hhi -> He. rewrite Hv in He. clia. Qed.

Lemma waited_publish c t objs old n k :
  inv c -> threads c !! t = Some (ECopy objs old n k) -> n <= k ->
  tail (prod (shared c)) = val old -> thread_ok c (EPublish objs old n).
Proof.
  intros Hi Ht Hk He. destruct (inv_threads c Hi t _ Ht) as (Hg & Hn & Hkn & Hseg & Hh).
  replace k with n in * by lia. cbn [thread_ok]. repeat split; try apply Hg; try done; try lia.
  pose proof (tiled_bounds p_range _ t _ _ _ Ht (inv_prod c Hi) _ _ eq_refl ltac:(lia)) as Hp.
  pose proof (inv_order c Hi). pose proof (inv_bounds c Hi).
  apply (wait_over (pt c) (ph c) old n (capacity (shared c)) (tail (prod (shared c)))); try lia; [exact Hg|apply Hi].
Qed.

Lemma waited_release c t old n out :
  inv c -> threads c !! t = Some (DCopy old n out) -> n <= Z.of_nat (length out) ->
  tail (cons (shared c)) = val old -> thread_ok c (DRelease old n out).
Proof.
  intros Hi Ht Hk He. destruct (inv_threads c Hi t _ Ht) as (Hg & Hn & Hkn & Hout).
  assert (Z.of_nat (length out) = n) as Hlen by lia. rewrite Hlen in Hout. cbn [thread_ok]. repeat split; try apply Hg; try done; try lia.
  pose proof (tiled_bounds c_range _ t _ _ _ Ht (inv_cons c Hi) _ _ eq_refl ltac:(lia)) as Hp.
  pose proof (inv_order c Hi). pose proof (inv_bounds c Hi).
  apply (wait_over (ct c) (ch c) old n (capacity (shared c)) (tail (cons (shared c)))); try lia; [exact Hg|apply Hi].
Qed.

Lemma inv_run c t l c' : inv c -> in_window c -> thread_step c t = Some (l, c') -> inv c'.
Proof.
  intros Hi Hw Hs. unfold thread_step in Hs.
  destruct (threads c !! t) as [T|] eqn:Ht; [|done]. cbn [mbind option_bind] in Hs.
  pose proof (inv_threads c Hi t T Ht) as Hok. pose proof (Hw t T Ht) as Hwin.
  destruct T as [|beh objs|beh objs old|beh objs old n|objs old n k|objs old n
                |beh max|beh max old|beh max old n|old n out|old n out|out]; cbn [thread_ok] in Hok;
    try (injection Hs as <- <-); try done.
  - apply (inv_goto c t _ _ Hi Ht); [|done..]. split; [done|]. split; [by apply good_head|simpl; lia].
  - apply (inv_goto c t _ _ Hi Ht); [by eapply loaded_room|by case_match..].
  - destruct (cmpset _ _ _) as [p [|]] eqn:Hcas; injection Hs as <- <-.
    + eapply inv_reserve; [exact Hi|exact Ht|exact Hwin|exact Hcas].
    + apply (inv_goto c t _ _ Hi Ht); [apply Hok|done..].
  - destruct (Z.ltb_spec k n).
    + destruct (objs !! Z.to_nat k) as [v|] eqn:Hv; [|done]. cbn in Hs.
      destruct (slots (shared c) !! _) in Hs; [|done]. injection Hs as <- <-. by eapply inv_write.
    + destruct (Z.eqb_spec (tail (prod (shared c))) (val old)) as [He|]; [|done]. injection Hs as <- <-.
      apply (inv_goto c t _ _ Hi Ht); [by eapply waited_publish|done..].
  - by apply inv_publish with (objs := objs).
  - apply (inv_goto c t _ _ Hi Ht); [|done..]. split; [done|]. split; [by apply good_chead|simpl; lia].
  - apply (inv_goto c t _ _ Hi Ht); [by eapply loaded_used|by case_match..].
  - destruct (cmpset _ _ _) as [p [|]] eqn:Hcas; injection Hs as <- <-.
    + eapply inv_claim; [exact Hi|exact Ht|exact Hwin|exact Hcas].
    + apply (inv_goto c t _ _ Hi Ht); [apply Hok|done..].
  - destruct (Z.ltb_spec (Z.of_nat (length out)) n).
    + destruct (slots (shared c) !! _) as [v|] eqn:Hv; [|done]. injection Hs as <- <-.
      apply (inv_goto c t _ _ Hi Ht); [|done..]. by eapply claimed_object.
    + destruct (Z.eqb_spec (tail (cons (shared c))) (val old)) as [He|]; [|done]. injection Hs as <- <-.
      apply (inv_goto c t _ _ Hi Ht); [by eapply waited_release|done..].
  - by eapply inv_release.
  - by apply (inv_goto c t _ _ Hi Ht).
Qed.

Lemma inv_step c l c' : inv c -> in_window c -> step c l c' -> inv c'.
Proof.
  intros Hi Hw Hs. inversion Hs as [c1 t l1 c2 Hr|c1 t beh objs Ht Hl|c1 t beh max Ht Hm]; subst.
  - by eapply inv_run.
  - by apply (inv_goto c t _ _ Hi Ht).
  - by apply (inv_goto c t _ _ Hi Ht).
Qed.

(** ** The ring implements the queue *)

(** The objects a thread took and has not returned yet. *)
Definition pending (c : config) (T : thread) : option (list Z) :=
  match T with
  | DCopy old n _ | DRelease old n _ => Some (seg (log c) (at_pos old) (at_pos old + n))
  | DReturn out => Some out
  | _ => None
  end.

(** The queue a configuration stands for: the published objects that nobody
    has claimed. *)
Record sim (c : config) (q : queue) : Prop := {
  sim_items : items q = seg (log c) (ch c) (pt c);
  sim_taken : forall t, taken q !! t = (T ← threads c !! t; pending c T) }.

Section Simulation.
Context (c : config) (q : queue) (Hi : inv c) (Hsim : sim c q).

(** The queue after a step of thread [t]. *)
Lemma sim_insert c' q' t T T' x :
  threads c !! t = Some T -> threads c' = <[t := T']> (threads c) -> log c' = log c ++ x ->
  items q' = seg (log c') (ch c') (pt c') ->
  taken q' !! t = pending c' T' -> (forall t1, t1 <> t -> taken q' !! t1 = taken q !! t1) ->
  sim c' q'.
Proof using Hi Hsim.
  intros Ht Hts Hlog Hit Htk Hoth. split; [done|]. intros t1. rewrite Hts.
  destruct (decide (t1 = t)) as [->|Hne].
  - by rewrite (insert_here (threads c) t T T' Ht).
  - rewrite list_lookup_insert_ne, Hoth by done. rewrite (sim_taken c q Hsim).
    destruct (threads c !! t1) as [T1|] eqn:H1; [|done]. cbn [mbind option_bind].
    pose proof (inv_order c Hi) as Ho. pose proof (inv_threads c Hi t1 T1 H1) as Hok.
    pose proof (fun a b => tiled_bounds c_range _ t1 T1 _ _ H1 (inv_cons c Hi) a b) as Hcb.
    destruct T1; cbn [pending thread_ok c_range] in *; try done; unfold good_index in *;
      (specialize (Hcb _ _ eq_refl ltac:(lia)); rewrite Hlog, seg_grow by (unfold ph in *; lia); done).
Qed.

(** A step that does not touch the queue. *)
Lemma sim_tau c' t T T' x :
  threads c !! t = Some T -> threads c' = <[t := T']> (threads c) -> log c' = log c ++ x ->
  ch c' = ch c -> pt c' = pt c -> pending c' T' = pending c T -> sim c' q.
Proof using Hi Hsim.
  intros Ht Hts Hlog Hch Hpt Hp. pose proof (inv_order c Hi) as Ho.
  apply (sim_insert c' q t T T' x); try done.
  - rewrite Hch, Hpt, Hlog, seg_grow by (unfold ph in *; lia). apply Hsim.
  - rewrite (sim_taken c q Hsim), Ht, Hp. done.
Qed.

Lemma sim_goto t T T' :
  threads c !! t = Some T -> pending c T' = pending c T -> sim (goto c t T') q.
Proof using Hi Hsim. intros Ht Hp. apply (sim_tau _ t T T' []); try done. by rewrite app_nil_r. Qed.

Lemma sim_publish t objs old n c' :
  threads c !! t = Some (EPublish objs old n) ->
  log c' = log c -> pt c' = at_pos old + n -> ch c' = ch c -> threads c' = <[t := Idle]> (threads c) ->
  exists q', qstep (capacity (shared c)) q (LEnq (take (Z.to_nat n) objs)) q' /\ sim c' q'.
Proof using Hi Hsim.
  intros Ht Hlog Hpt Hch Hts. pose proof (inv_order c Hi) as Ho.
  destruct (inv_threads c Hi t _ Ht) as (Hg & Hn & Hat & Hseg & _).
  pose proof (tiled_bounds p_range _ t _ _ _ Ht (inv_prod c Hi) _ _ eq_refl ltac:(lia)) as Hp.
  assert (seg (log c) (ch c) (at_pos old + n) = items q ++ take (Z.to_nat n) objs) as Hsplit.
  { rewrite (sim_items c q Hsim), <- Hseg, Hat. apply seg_split; lia. }
  exists (mk_queue (items q ++ take (Z.to_nat n) objs) (taken q)). split.
  - destruct q as [it tk]. apply qstep_enq.
    + intros He. apply (f_equal length) in He. rewrite length_take in He. simpl in He. lia.
    + cbn [items] in *. rewrite <- Hsplit, length_seg by (unfold ph in *; lia). lia.
  - apply (sim_insert _ _ t _ Idle [] Ht Hts); try done; cbn [items taken].
    + by rewrite app_nil_r.
    + by rewrite Hlog, Hpt, Hch, Hsplit.
    + by rewrite (sim_taken c q Hsim), Ht.
Qed.

Lemma sim_claim t beh max old n c' :
  threads c !! t = Some (DMove beh max old n) -> at_pos old = ch c ->
  log c' = log c -> pt c' = pt c -> ch c' = ch c + n -> threads c' = <[t := DCopy old n []]> (threads c) ->
  exists q', qstep (capacity (shared c)) q (LDeq t n) q' /\ sim c' q'.
Proof using Hi Hsim.
  intros Ht Hat Hlog Hpt Hch Hts. pose proof (inv_order c Hi) as Ho.
  destruct (inv_threads c Hi t _ Ht) as (_ & Hg & _ & Hn & Hroom). specialize (Hroom Hat).
  exists (mk_queue (seg (log c) (ch c + n) (pt c)) (<[t := seg (log c) (ch c) (ch c + n)]> (taken q))). split.
  - pose proof (sim_items c q Hsim) as Hit. pose proof (sim_taken c q Hsim t) as Htk. rewrite Ht in Htk.
    destruct q as [it tk]. cbn [items taken] in *. apply qstep_deq; try done.
    + rewrite Hit. apply seg_split; lia.
    + rewrite length_seg by (unfold ph in *; lia). lia.
  - apply (sim_insert _ _ t _ (DCopy old n []) [] Ht Hts); cbn [items taken].
    + by rewrite app_nil_r.
    + by rewrite Hlog, Hpt, Hch.
    + rewrite lookup_insert_eq. cbn [pending]. by rewrite Hlog, Hat.
    + intros t1 Hne. by rewrite lookup_insert_ne.
Qed.

Lemma sim_return t out :
  threads c !! t = Some (DReturn out) ->
  exists q', qstep (capacity (shared c)) q (LRet t out) q' /\ sim (goto c t Idle) q'.
Proof using Hi Hsim.
  intros Ht. exists (mk_queue (items q) (delete t (taken q))).
  pose proof (sim_items c q Hsim) as Hit. pose proof (sim_taken c q Hsim t) as Htk. rewrite Ht in Htk. split.
  - destruct q as [it tk]. by apply qstep_ret.
  - apply (sim_insert _ _ t _ Idle [] Ht); cbn [items taken]; try done.
    + by rewrite app_nil_r.
    + by rewrite lookup_delete_eq.
    + intros t1 Hne. by rewrite lookup_delete_ne.
Qed.
End Simulation.

Lemma sim_run c t l c' q :
  inv c -> in_window c -> sim c q -> thread_step c t = Some (l, c') ->
  if decide (l = Tau) then sim c' q
  else exists q', qstep (capacity (shared c)) q l q' /\ sim c' q'.
Proof.
  intros Hi Hw Hsim Hs. unfold thread_step in Hs.
  destruct (threads c !! t) as [T|] eqn:Ht; [|done]. cbn [mbind option_bind] in Hs.
  pose proof (inv_threads c Hi t T Ht) as Hok. pose proof (Hw t T Ht) as Hwin.
  pose proof (fun T' => sim_goto c q Hi Hsim t T T' Ht) as Hgoto.
  destruct T as [|beh objs|beh objs old|beh objs old n|objs old n k|objs old n
                |beh max|beh max old|beh max old n|old n out|old n out|out]; cbn [thread_ok] in Hok;
    try (injection Hs as <- <-); try done; try (by apply Hgoto; repeat case_match).
  - destruct (cmpset _ _ _) as [p [|]] eqn:Hcas; injection Hs as <- <-; [|by apply Hgoto].
    by apply (sim_tau c q Hi Hsim _ t _ (ECopy objs old n 0) (take (Z.to_nat n) objs) Ht).
  - destruct (k <? n).
    + destruct (objs !! _); [|done]. cbn in Hs. destruct (slots (shared c) !! _) in Hs; [|done].
      injection Hs as <- <-.
      apply (sim_tau c q Hi Hsim _ t _ (ECopy objs old n (k + 1)) [] Ht); try done. by rewrite app_nil_r.
    + destruct (_ =? _); [|done]. injection Hs as <- <-. by apply Hgoto.
  - by eapply sim_publish.
  - destruct (cmpset _ _ _) as [p [|]] eqn:Hcas; injection Hs as <- <-; [|by apply Hgoto].
    destruct Hok as (_ & Hg & Hle & _).
    destruct (cmpset_current _ _ _ _ _ (inv_chead c Hi) Hg Hle Hwin Hcas) as [Hat _].
    by eapply sim_claim.
  - destruct (_ <? n).
    + destruct (slots (shared c) !! _); [|done]. injection Hs as <- <-. by apply Hgoto.
    + destruct (_ =? _); [|done]. injection Hs as <- <-. by apply Hgoto.
  - destruct Hok as (_ & _ & _ & _ & Hout).
    apply (sim_tau c q Hi Hsim _ t _ (DReturn out) [] Ht); try done; [by rewrite app_nil_r|].
    cbn [pending]. by rewrite Hout at 1.
  - by apply sim_return.
Qed.

(** ** Executions *)

Lemma idle_lookup n t T : repeat Idle n !! t = Some T -> T = Idle.
Proof. intros HT. by apply list_elem_of_lookup_2, list_elem_of_In, repeat_spec in HT. Qed.

Lemma initial_inv r n : ring_repr r [] -> tail (cons r) = 0 -> inv (initial r n).
Proof.
  intros Hq H0. pose proof Hq as [Hs [_ Hch] [Hp Hph] _ _]. pose proof (shape_capacity r Hs).
  rewrite H0 in *. cbn [length] in Hp. change (0 +[32] Z.of_nat 0) with 0 in Hp.
  assert (forall range : thread -> Z * Z, range Idle = (0, 0) -> tiled range (repeat Idle n) 0 0) as Ht.
  { intros range Hr. split; [|intros t1 t2 T1 T2 i H1%idle_lookup _ Hi1 _; exfalso|lia].
    - intros t T i HT%idle_lookup Hin. subst T. rewrite Hr in Hin. unfold inside in Hin. simpl in Hin. lia.
    - subst T1. rewrite Hr in Hi1. unfold inside in Hi1. simpl in Hi1. lia. }
  split; cbn; try done; try congruence; try lia.
  - by rewrite Hph, Hp.
  - unfold ph. cbn. lia.
  - by intros t T ->%idle_lookup.
  - by apply Ht.
  - by apply Ht.
Qed.

Lemma initial_sim r n : sim (initial r n) (mk_queue [] ∅).
Proof.
  split; [done|]. intros t. cbn [taken]. rewrite lookup_empty. cbn. destruct (repeat Idle n !! t) as [T|] eqn:HT; [|done].
  by apply idle_lookup in HT as ->.
Qed.

Lemma thread_step_capacity c t l c' :
  thread_step c t = Some (l, c') -> capacity (shared c') = capacity (shared c).
Proof.
  unfold thread_step. destruct (threads c !! t) as [T|]; [|done]. cbn [mbind option_bind].
  intros Hs. destruct T; repeat (case_match; try done); simplify_option_eq; done.
Qed.

Section Executions.
Context (r : rte_ring) (n : nat) (Hq : ring_repr r []) (H0 : tail (cons r) = 0).

Lemma execution_inv tr c : execution (initial r n) tr c -> inv c /\ capacity (shared c) = capacity r.
Proof using Hq H0.
  induction 1 as [|tr c1 l c2 _ [Hi Hc] Hw Hs].
  - split; [by apply initial_inv|done].
  - split; [by eapply inv_step|]. rewrite <- Hc.
    inversion Hs; subst; [by eapply thread_step_capacity|done|done].
Qed.

Lemma execution_sim tr c :
  execution (initial r n) tr c -> exists q, qsteps (capacity r) (mk_queue [] ∅) tr q /\ sim c q.
Proof using Hq H0.
  induction 1 as [|tr c1 l c2 He (q & Hqs & Hsim) Hw Hs].
  - exists (mk_queue [] ∅). split; [apply qsteps_nil|apply initial_sim].
  - destruct (execution_inv _ _ He) as [Hi Hc]. inversion Hs; subst.
    + pose proof (sim_run _ _ _ _ q Hi Hw Hsim H) as Hr. rewrite Hc in Hr. destruct l; cbn in Hr.
      1: by exists q.
      all: destruct Hr as (q' & Hstep & Hsim'); exists q'; split; [by eapply qsteps_step|done].
    + exists q. split; [done|]. by apply (sim_goto c1 q Hi Hsim t Idle).
    + exists q. split; [done|]. by apply (sim_goto c1 q Hi Hsim t Idle).
Qed.
End Executions.

(** The slot a thread is about to write or read. *)
Definition next_slot (c : config) (t : nat) : option nat :=
  T ← threads c !! t;
  match T with
  | ECopy _ old n k => if k <? n then Some (slot_index (shared c) old k) else None
  | DCopy old n out =>
      if Z.of_nat (length out) <? n then Some (slot_index (shared c) old (Z.of_nat (length out))) else None
  | _ => None
  end.

(** A thread in a loop that waits for the tail. *)
Definition waits (c : config) (t : nat) : Prop :=
  match threads c !! t with
  | Some (ECopy _ old n k) => n <= k /\ tail (prod (shared c)) <> val old
  | Some (DCopy old n out) => n <= Z.of_nat (length out) /\ tail (cons (shared c)) <> val old
  | _ => False
  end.

(** The position behind the next slot of a thread: reserved by it alone, or
    claimed by it alone. *)
Lemma next_slot_position c t s :
  inv c -> next_slot c t = Some s ->
  exists T i, threads c !! t = Some T /\ s = Z.to_nat (i mod size (shared c)) /\
    ((inside (p_range T) i /\ pt c <= i < ph c) \/ (inside (c_range T) i /\ ct c <= i < ch c)).
Proof.
  intros Hi Hs. unfold next_slot in Hs. destruct (threads c !! t) as [T|] eqn:Ht; [|done]. cbn in Hs.
  pose proof (inv_threads c Hi t T Ht) as Hok. exists T.
  destruct T as [|beh objs|beh objs old|beh objs old n|objs old n k|objs old n
                |beh max|beh max old|beh max old n|old n out|old n out|out]; try done; cbn [thread_ok] in Hok.
  - destruct (Z.ltb_spec k n); [|done]. injection Hs as <-. destruct Hok as (Hg & Hn & Hk & _).
    rewrite slot_index_eq by (apply Hi || done). eexists. repeat split. left.
    assert (inside (p_range (ECopy objs old n k)) (at_pos old + k)) as Hin by (unfold inside; simpl; lia).
    split; [done|]. by apply (tiled_in _ _ _ _ (inv_prod c Hi) t _ _ Ht).
  - destruct (Z.ltb_spec (Z.of_nat (length out)) n); [|done]. injection Hs as <-. destruct Hok as (Hg & Hn & Hk & _).
    rewrite slot_index_eq by (apply Hi || done). eexists. repeat split. right.
    assert (inside (c_range (DCopy old n out)) (at_pos old + Z.of_nat (length out))) as Hin by (unfold inside; simpl; lia).
    split; [done|]. by apply (tiled_in _ _ _ _ (inv_cons c Hi) t _ _ Ht).
Qed.

(** Different positions between the consumer tail and the producer head are
    in different slots. *)
Lemma slot_injective c i j :
  inv c -> ct c <= i < ph c -> ct c <= j < ph c -> i mod size (shared c) = j mod size (shared c) -> i = j.
Proof.
  intros Hi H1 H2 Hm. pose proof (inv_order c Hi). pose proof (inv_bounds c Hi).
  assert ((i - j) mod size (shared c) = 0) as Hz by (rewrite Zminus_mod, Hm, Z.sub_diag; by apply Z.mod_0_l; lia).
  apply Z.mod_divide in Hz as [k Hk]; [|lia].
  destruct (Z_lt_le_dec k 0); [|destruct (Z.eq_dec k 0)]; nia.
Qed.

(** A thread under way takes a step or waits for the tail. *)
Lemma step_or_waits c t T :
  inv c -> threads c !! t = Some T -> T <> Idle -> waits c t \/ is_Some (thread_step c t).
Proof.
  intros Hi Ht Hidle. unfold waits, thread_step. rewrite Ht. cbn [mbind option_bind].
  pose proof (inv_threads c Hi t T Ht) as Hok.
  destruct T as [|beh objs|beh objs old|beh objs old n|objs old n k|objs old n
                |beh max|beh max old|beh max old n|old n out|old n out|out]; cbn [thread_ok] in Hok;
    try (by right; eauto); try done.
  - right. destruct (cmpset _ _ _) as [p []]; eauto.
  - destruct Hok as (Hg & Hn & Hk & _). destruct (Z.ltb_spec k n).
    + right. destruct (lookup_lt_is_Some_2 objs (Z.to_nat k) ltac:(lia)) as [v ->]. cbn [mbind option_bind].
      rewrite slot_index_eq by (apply Hi || done).
      destruct (lookup_lt_is_Some_2 _ _ (slot_bound (shared c) (at_pos old + k) (inv_shape c Hi))) as [w ->]. eauto.
    + destruct (Z.eqb_spec (tail (prod (shared c))) (val old)); [right; eauto|by left].
  - right. destruct (cmpset _ _ _) as [p []]; eauto.
  - destruct Hok as (Hg & Hn & Hk & _). destruct (Z.ltb_spec (Z.of_nat (length out)) n).
    + right. rewrite slot_index_eq by (apply Hi || done).
      destruct (lookup_lt_is_Some_2 _ _ (slot_bound (shared c) (at_pos old + Z.of_nat (length out)) (inv_shape c Hi)))
        as [w ->]. eauto.
    + destruct (Z.eqb_spec (tail (cons (shared c))) (val old)); [right; eauto|by left].
Qed.

(** The thread at the low end of the reserved or claimed positions does not wait. *)
Lemma first_producer c :
  inv c -> pt c < ph c -> exists t T, threads c !! t = Some T /\ T <> Idle /\ ~ waits c t.
Proof.
  intros Hi Hlt. destruct (tiled_cover _ _ _ _ (inv_prod c Hi) (pt c) ltac:(lia)) as (t & T & Ht & Hin).
  exists t, T. split; [done|]. unfold inside in Hin.
  pose proof (tiled_bounds p_range _ t T _ _ Ht (inv_prod c Hi)) as Hb.
  pose proof (inv_threads c Hi t T Ht) as Hok. unfold waits. rewrite Ht.
  destruct T as [|beh objs|beh objs old|beh objs old n|objs old n k|objs old n
                |beh max|beh max old|beh max old n|old n out|old n out|out];
    cbn in *; try lia; (split; [done|]); try tauto.
  intros [_ Hne]. apply Hne. destruct Hok as ([Hv _] & Hn & _). specialize (Hb _ _ eq_refl ltac:(lia)).
  rewrite (inv_ptail c Hi), Hv. f_equal. lia.
Qed.

Lemma first_consumer c :
  inv c -> ct c < ch c -> exists t T, threads c !! t = Some T /\ T <> Idle /\ ~ waits c t.
Proof.
  intros Hi Hlt. destruct (tiled_cover _ _ _ _ (inv_cons c Hi) (ct c) ltac:(lia)) as (t & T & Ht & Hin).
  exists t, T. split; [done|]. unfold inside in Hin.
  pose proof (tiled_bounds c_range _ t T _ _ Ht (inv_cons c Hi)) as Hb.
  pose proof (inv_threads c Hi t T Ht) as Hok. unfold waits. rewrite Ht.
  destruct T as [|beh objs|beh objs old|beh objs old n|objs old n k|objs old n
                |beh max|beh max old|beh max old n|old n out|old n out|out];
    cbn in *; try lia; (split; [done|]); try tauto.
  intros [_ Hne]. apply Hne. destruct Hok as ([Hv _] & Hn & _). specialize (Hb _ _ eq_refl ltac:(lia)).
  rewrite (inv_ctail c Hi), Hv. f_equal. lia.
Qed.

(** C19. Any interleaving of any number of producers and consumers on a new
    ring behaves as a bounded first-in first-out queue: each enqueue takes effect
    at one instant with all the objects it reports, the queue never
    exceeds the capacity, and each dequeue returns exactly the objects it took
    from the front, none lost, duplicated or overwritten. *)
Theorem ring_threads_fifo r n tr c :
  ring_repr r [] -> tail (cons r) = 0 -> execution (initial r n) tr c ->
  exists q, qsteps (capacity r) (mk_queue [] ∅) tr q /\ sim c q.
Proof. intros Hq H0 He. by eapply execution_sim. Qed.

(** C20. No two threads ever access the same slot at the same time, and every
    thread that has not returned and does not wait for the tail of its side can take its
    next step: no access is outside the slots or the table. *)
Theorem ring_threads_race_free r n tr c t1 :
  ring_repr r [] -> tail (cons r) = 0 -> execution (initial r n) tr c ->
  (forall t2 s1 s2, next_slot c t1 = Some s1 -> next_slot c t2 = Some s2 -> t1 <> t2 -> s1 <> s2) /\
  (forall T, threads c !! t1 = Some T -> T <> Idle -> waits c t1 \/ is_Some (thread_step c t1)).
Proof.
  intros Hq H0 He. destruct (execution_inv r n Hq H0 tr c He) as [Hi _]. pose proof (inv_order c Hi) as Ho. split.
  - intros t2 s1 s2 Hs1 Hs2 Hne Heq.
    destruct (next_slot_position c t1 s1 Hi Hs1) as (T1 & i & H1 & -> & Hi1).
    destruct (next_slot_position c t2 s2 Hi Hs2) as (T2 & j & H2 & -> & Hj2).
    pose proof (inv_bounds c Hi). pose proof (Z.mod_pos_bound i (size (shared c)) ltac:(lia)).
    pose proof (Z.mod_pos_bound j (size (shared c)) ltac:(lia)).
    assert (i = j) as <- by (apply (slot_injective c); [done|lia..]).
    destruct Hi1 as [[Hi1 ?]|[Hi1 ?]], Hj2 as [[Hj2 ?]|[Hj2 ?]]; try lia; apply Hne.
    + by apply (tiled_disjoint _ _ _ _ (inv_prod c Hi) t1 t2 T1 T2 i).
    + by apply (tiled_disjoint _ _ _ _ (inv_cons c Hi) t1 t2 T1 T2 i).
  - intros T Ht Hidle. by apply (step_or_waits c t1 T).
Qed.

(** C21. The ring does not block as a whole: while some thread is inside an
    operation, some thread can take a step of its operation, since the
    first of those that wait for a tail always finds it. *)
Theorem ring_threads_progress r n tr c t T :
  ring_repr r [] -> tail (cons r) = 0 -> execution (initial r n) tr c ->
  threads c !! t = Some T -> T <> Idle ->
  exists t' l c', thread_step c t' = Some (l, c') /\ step c l c'.
Proof.
  intros Hq H0 He Ht Hidle. destruct (execution_inv r n Hq H0 tr c He) as [Hi _].
  assert (exists t1 T1, threads c !! t1 = Some T1 /\ T1 <> Idle /\ ~ waits c t1) as (t1 & T1 & H1 & Hid1 & Hw1).
  { pose proof (inv_threads c Hi t T Ht) as Hok.
    pose proof (tiled_bounds p_range _ t T _ _ Ht (inv_prod c Hi)) as Hp.
    pose proof (tiled_bounds c_range _ t T _ _ Ht (inv_cons c Hi)) as Hc.
    destruct T as [|beh objs|beh objs old|beh objs old n0|objs old n0 k|objs old n0
                  |beh max|beh max old|beh max old n0|old n0 out|old n0 out|out];
      try (by exists t; eexists; split; [exact Ht|]; unfold waits; rewrite Ht; split; [done|tauto]).
    - destruct Hok as (_ & Hn & _). specialize (Hp _ _ eq_refl ltac:(lia)). apply (first_producer c Hi). lia.
    - destruct Hok as (_ & Hn & _). specialize (Hc _ _ eq_refl ltac:(lia)). apply (first_consumer c Hi). lia. }
  destruct (step_or_waits c t1 T1 Hi H1 Hid1) as [|[[l c'] Hs]]; [done|].
  exists t1, l, c'. split; [done|]. by apply (step_run c t1).
Qed.

(** ** Concrete schedules *)

Inductive action : Type :=
| Run (t : nat)
| CallEnq (t : nat) (beh : rte_ring_queue_behavior) (objs : list Z)
| CallDeq (t : nat) (beh : rte_ring_queue_behavior) (max : Z).

Definition idle (T : thread) : bool := match T with Idle => true | _ => false end.

Definition act (c : config) (a : action) : option (label * config) :=
  match a with
  | Run t => thread_step c t
  | CallEnq t beh objs =>
      T ← threads c !! t;
      if idle T && (Z.of_nat (length objs) <? 2 ^ 32) then Some (Tau, goto c t (EStart beh objs)) else None
  | CallDeq t beh max =>
      T ← threads c !! t;
      if idle T && (0 <=? max) && (max <? 2 ^ 32) then Some (Tau, goto c t (DStart beh max)) else None
  end.

Definition in_windowb (c : config) : bool :=
  forallb (fun T =>
    match T with
    | EMove _ _ old _ => ph c - at_pos old <? 2 ^ 32
    | DMove _ _ old _ => ch c - at_pos old <? 2 ^ 32
    | _ => true
    end) (threads c).

(** Running a schedule from a configuration, with the labels shown so far. *)
Fixpoint run_schedule (tr : list label) (c : config) (acts : list action) : option (list label * config) :=
  match acts with
  | [] => Some (tr, c)
  | a :: acts =>
      '(l, c') ← act c a;
      if in_windowb c then run_schedule (match l with Tau => tr | _ => tr ++ [l] end) c' acts else None
  end.

Lemma in_windowb_ok c : in_windowb c = true -> in_window c.
Proof.
  intros H t T Ht. unfold in_windowb in H. rewrite forallb_forall in H.
  specialize (H T (proj1 (list_elem_of_In _ _) (list_elem_of_lookup_2 _ _ _ Ht))). by destruct T; try apply Z.ltb_lt.
Qed.

Lemma act_step c a l c' : act c a = Some (l, c') -> step c l c'.
Proof.
  destruct a as [t|t beh objs|t beh max]; simpl; [apply step_run|..];
    (destruct (threads c !! t) as [[]|] eqn:Ht; try done; cbn; intros H; repeat (case_match; try done); simplify_eq).
  - apply step_enqueue; [done|]. by apply Z.ltb_lt.
  - apply step_dequeue; [done|]. lia.
Qed.

Lemma run_schedule_execution c0 acts tr c tr' c' :
  execution c0 tr c -> run_schedule tr c acts = Some (tr', c') -> execution c0 tr' c'.
Proof.
  revert tr c. induction acts as [|a acts IH]; intros tr c He; cbn [run_schedule].
  - by intros [= <- <-].
  - destruct (act c a) as [[l c1]|] eqn:Ha; [|done]. cbn [mbind option_bind].
    destruct (in_windowb c) eqn:Hw; [|done]. apply IH.
    eapply execution_step; [done|by apply in_windowb_ok|by eapply act_step].
Qed.

Definition new_ring : rte_ring :=
  mk_ring String.EmptyString 0 0 4 3 3 (mk_headtail 0 0 0) (mk_headtail 0 0 0) [0; 0; 0; 0].

Lemma new_ring_repr : ring_repr new_ring [].
Proof. apply (empty_repr String.EmptyString 0 0 4 3 0 0 [0; 0; 0; 0] 2); (lia || reflexivity). Defined.

(** Two producers reserve in one order and copy in the other; the second one
    waits for the first; a consumer takes three objects when both are done. *)
Definition schedule : list action :=
  [CallEnq 0 RTE_RING_QUEUE_FIXED [10; 11]; CallEnq 1 RTE_RING_QUEUE_VARIABLE [20; 21; 22];
   Run 0; Run 0; Run 1; Run 0; Run 1; Run 1; Run 1; Run 1; Run 1; Run 1; Run 0; Run 0; Run 0; Run 0; Run 1; Run 1;
   CallDeq 2 RTE_RING_QUEUE_FIXED 3; Run 2; Run 2; Run 2; Run 2; Run 2; Run 2; Run 2; Run 2; Run 2].

Definition shown : list label := [LEnq [10; 11]; LEnq [20]; LDeq 2 3; LRet 2 [10; 11; 20]].

Definition final : config :=
  match run_schedule [] (initial new_ring 3) schedule with Some (_, c) => c | None => initial new_ring 3 end.

Lemma schedule_execution : execution (initial new_ring 3) shown final.
Proof. apply (run_schedule_execution _ schedule [] (initial new_ring 3)); [constructor|vm_compute; reflexivity]. Defined.

Example ring_threads_fifo_witness : exists q, qsteps 3 (mk_queue [] ∅) shown q /\ sim final q.
Proof.
  apply (ring_threads_fifo new_ring 3 shown final); [apply new_ring_repr|reflexivity|apply schedule_execution].
Defined.

(** In the middle: the second producer has copied its object and waits. *)
Definition halfway : config :=
  match run_schedule [] (initial new_ring 3) (take 12 schedule) with Some (_, c) => c | None => initial new_ring 3 end.

Lemma halfway_execution : execution (initial new_ring 3) [] halfway.
Proof. apply (run_schedule_execution _ (take 12 schedule) [] (initial new_ring 3)); [constructor|vm_compute; reflexivity]. Defined.

Example ring_threads_race_free_witness : waits halfway 1 \/ is_Some (thread_step halfway 1).
Proof.
  destruct (ring_threads_race_free new_ring 3 [] halfway 1 new_ring_repr eq_refl halfway_execution) as [_ H].
  apply (H (default Idle (threads halfway !! 1%nat))); [vm_compute; reflexivity|vm_compute; discriminate].
Defined.

Example ring_threads_progress_witness : exists t l c', thread_step halfway t = Some (l, c') /\ step halfway l c'.
Proof.
  apply (ring_threads_progress new_ring 3 [] halfway 1 (default Idle (threads halfway !! 1%nat)));
    [apply new_ring_repr|reflexivity|apply halfway_execution|vm_compute; reflexivity|vm_compute; discriminate].
Defined.
