(* ===== verification/MempoolDrivers.v ===== *)
(** * Drivers of the memory pools

    A memory pool keeps its free objects in a driver chosen at run time by the
    function table [struct rte_mempool_ops].  Here the table is the class
    [PoolDriver] and what the pool library expects of a driver is the class
    [PoolDriverLaws]: a driver holds a list of objects up to a capacity, takes
    the objects it is given as long as there is room, and gives back any that it
    holds.  The two portable drivers are instances: the ring
    ([drivers/mempool/ring]), over the ring of [Ring.v], in its four variants, and the
    stack ([drivers/mempool/stack]).  The locks of the stack are left out: one
    thread runs. *)

From S2P Require Import Prelude Effects Ring.

(** ** The interface *)

(** [ops_enqueue tbl n] adds the first [n] objects of [tbl]; [ops_dequeue n tbl]
    writes [n] objects to the front of [tbl] and returns it.  Both return 0 or a
    negative error. *)
Class PoolDriver (D : Type) := {
  ops_enqueue : list Z -> Z -> comp D Z;
  ops_dequeue : Z -> list Z -> comp D (Z * list Z);
  ops_get_count : D -> Z;
}.

Class PoolDriverLaws (D : Type) `{!PoolDriver D} := {
  pd_holds : D -> list Z -> Prop;
  pd_cap : D -> Z;
  pd_items : D -> list Z;
  pd_items_eq d q : pd_holds d q -> pd_items d = q;
  pd_bound d q : pd_holds d q -> Z.of_nat (length q) <= pd_cap d < 2 ^ 32;
  pd_enqueue d q tbl n :
    pd_holds d q -> 0 <= n <= Z.of_nat (length tbl) -> Z.of_nat (length q) + n < 2 ^ 32 ->
    exists d' rc q', ops_enqueue tbl n d = (d', Ret rc) /\ pd_cap d' = pd_cap d /\ pd_holds d' q'
      /\ if Z.of_nat (length q) + n <=? pd_cap d
         then q' = q ++ take (Z.to_nat n) tbl /\ (0 < n -> rc = 0)
         else q' = q /\ rc < 0;
  pd_dequeue d q tbl n :
    pd_holds d q -> 0 <= n <= Z.of_nat (length tbl) ->
    exists d' rc q' tbl', ops_dequeue n tbl d = (d', Ret (rc, tbl')) /\ pd_cap d' = pd_cap d /\ pd_holds d' q'
      /\ if n <=? Z.of_nat (length q)
         then (0 < n -> rc = 0)
              /\ exists got, Z.of_nat (length got) = n /\ tbl' = got ++ drop (Z.to_nat n) tbl /\ q ≡ₚ got ++ q'
         else q' = q /\ tbl' = tbl /\ rc < 0;
  pd_count d q : pd_holds d q -> ops_get_count d = Z.of_nat (length q);
}.

(** ** Copies between tables of objects *)

(** [dst[j++] = src[i++]], [k] times; [None] is an access out of bounds. *)
Fixpoint copy_up (k : nat) (src : list Z) (i : nat) (dst : list Z) (j : nat) : option (list Z) :=
  match k with
  | O => Some dst
  | S k =>
      v ← src !! i;
      if (j <? length dst)%nat then copy_up k src (S i) (<[j := v]> dst) (S j) else None
  end.

(** [dst[j++] = src[len--]], [k] times, for an unsigned [len]. *)
Fixpoint copy_down (k : nat) (src : list Z) (len : Z) (dst : list Z) (j : nat) : option (list Z) :=
  match k with
  | O => Some dst
  | S k =>
      v ← src !! Z.to_nat len;
      if (j <? length dst)%nat then copy_down k src (len -[32] 1) (<[j := v]> dst) (S j) else None
  end.

Definition defined {S A} (o : option A) : comp S A :=
  match o with Some a => mret a | None => ub end.

Lemma insert_next (j : nat) (v : Z) (dst l : list Z) k :
  (j < length dst)%nat ->
  take (S j) (<[j := v]> dst) ++ l ++ drop (S j + k) (<[j := v]> dst) = take j dst ++ (v :: l) ++ drop (j + S k) dst.
Proof.
  intros Hj. rewrite (take_S_r _ j v) by (by apply list_lookup_insert_eq).
  rewrite take_insert_ge, drop_insert_lt by lia. rewrite <- app_assoc. simpl. by rewrite Nat.add_succ_r.
Qed.

Lemma copy_up_spec k src i dst j :
  (i + k <= length src)%nat -> (j + k <= length dst)%nat ->
  copy_up k src i dst j = Some (take j dst ++ take k (drop i src) ++ drop (j + k) dst).
Proof.
  revert i dst j. induction k as [|k IH]; intros i dst j Hi Hj; simpl.
  - by rewrite Nat.add_0_r, take_drop.
  - destruct (lookup_lt_is_Some_2 src i) as [v Hv]; [lia|]. rewrite Hv. simpl.
    destruct (Nat.ltb_spec j (length dst)); [|lia]. rewrite IH by (rewrite ?length_insert; lia).
    f_equal. rewrite insert_next by lia. by rewrite (drop_S src v i) by done.
Qed.

Lemma copy_down_spec k src len dst j :
  Z.of_nat k <= len + 1 -> in_range 32 (len + 1) -> len < Z.of_nat (length src) -> (j + k <= length dst)%nat ->
  copy_down k src len dst j
  = Some (take j dst ++ rev (take k (drop (Z.to_nat (len + 1) - k) src)) ++ drop (j + k) dst).
Proof.
  revert len dst j. induction k as [|k IH]; intros len dst j Hk Hr Hl Hj; simpl.
  - by rewrite Nat.add_0_r, take_drop.
  - destruct (lookup_lt_is_Some_2 src (Z.to_nat len)) as [v Hv]; [lia|]. rewrite Hv. simpl.
    destruct (Nat.ltb_spec j (length dst)); [|lia].
    assert (len -[32] 1 = len - 1 \/ k = 0%nat) as [E| ->] by (destruct (decide (k = 0%nat)); [by right|left; clia]).
    + rewrite E, IH by (rewrite ?length_insert; clia). f_equal. rewrite insert_next by lia. do 2 f_equal.
      replace (Z.to_nat (len - 1 + 1) - k)%nat with (Z.to_nat (len + 1) - S k)%nat by lia.
      set (b := (Z.to_nat (len + 1) - S k)%nat).
      assert (take (S k) (drop b src) = take k (drop b src) ++ [v]) as ->.
      { apply take_S_r. rewrite lookup_drop. unfold b. rewrite <- Hv. f_equal. lia. }
      by rewrite rev_app_distr.
    + replace (Z.to_nat (len + 1) - 1)%nat with (Z.to_nat len) by lia. rewrite (drop_S src v) by done.
      change (rev (take 1 (v :: ?l))) with [v]. rewrite <- (insert_next j v dst [] 0), Nat.add_0_r by lia.
      simpl app. by rewrite take_drop.
Qed.

(** ** The ring driver (rte_mempool_ring.c) *)

(** [c] on the ring, with [tbl] as the object table; the table is returned with
    the result.  Runs the loops of the ring with fuel for [n] objects. *)
Definition with_table {A} (tbl : list Z) (c : comp ring_env A) : comp rte_ring (A * list Z) := fun r =>
  let '(s, o) := c (mk_env r tbl) in
  (ring s, match o with Ret a => Ret (a, obj_table s) | o => reraise o end).

Definition ring_fuel (n : Z) : nat := S (Z.to_nat n).

Definition enqueue_rc (r : (Z * Z) * list Z) : Z := if r.1.1 =? 0 then - ENOBUFS else 0.
Definition dequeue_rc (r : (Z * Z) * list Z) : Z * list Z := (if r.1.1 =? 0 then - ENOBUFS else 0, r.2).

Definition common_ring_mp_enqueue (tbl : list Z) (n : Z) : comp rte_ring Z :=
  r ← with_table tbl (rte_ring_mp_enqueue_bulk (ring_fuel n) n); mret (enqueue_rc r).
Definition common_ring_sp_enqueue (tbl : list Z) (n : Z) : comp rte_ring Z :=
  r ← with_table tbl (rte_ring_sp_enqueue_bulk (ring_fuel n) n); mret (enqueue_rc r).
Definition common_ring_mc_dequeue (n : Z) (tbl : list Z) : comp rte_ring (Z * list Z) :=
  r ← with_table tbl (rte_ring_mc_dequeue_bulk (ring_fuel n) n); mret (dequeue_rc r).
Definition common_ring_sc_dequeue (n : Z) (tbl : list Z) : comp rte_ring (Z * list Z) :=
  r ← with_table tbl (rte_ring_sc_dequeue_bulk (ring_fuel n) n); mret (dequeue_rc r).
Definition common_ring_get_count (r : rte_ring) : Z := rte_ring_count r.

(** The four function tables. *)
Inductive ring_ops := ops_mp_mc | ops_sp_sc | ops_mp_sc | ops_sp_mc.

#[export] Instance ring_driver (o : ring_ops) : PoolDriver rte_ring := {
  ops_enqueue := match o with
                 | ops_mp_mc | ops_mp_sc => common_ring_mp_enqueue
                 | ops_sp_sc | ops_sp_mc => common_ring_sp_enqueue
                 end;
  ops_dequeue := match o with
                 | ops_mp_mc | ops_sp_mc => common_ring_mc_dequeue
                 | ops_sp_sc | ops_mp_sc => common_ring_sc_dequeue
                 end;
  ops_get_count := common_ring_get_count;
}.

(** *** The ring driver keeps the contract *)

Lemma ring_enqueue_bulk is_sp r q tbl n :
  ring_repr r q -> 0 <= n <= Z.of_nat (length tbl) ->
  exists r' rc q', (r ← with_table tbl (rte_ring_do_enqueue (ring_fuel n) n RTE_RING_QUEUE_FIXED is_sp); mret (enqueue_rc r)) r
      = (r', Ret rc) /\ capacity r' = capacity r /\ ring_repr r' q'
    /\ if Z.of_nat (length q) + n <=? capacity r
       then q' = q ++ take (Z.to_nat n) tbl /\ (0 < n -> rc = 0)
       else q' = q /\ rc < 0.
Proof.
  intros Hq Hn. destruct (do_enqueue_correct r q tbl RTE_RING_QUEUE_FIXED n is_sp (ring_fuel n) Hq Hn)
    as (r' & Hrun & Hr' & (_ & _ & Hcap & _)); [unfold ring_fuel; lia|].
  exists r', (if (fifo_enqueue (capacity r) RTE_RING_QUEUE_FIXED n tbl q).2.1 =? 0 then - ENOBUFS else 0),
    (fifo_enqueue (capacity r) RTE_RING_QUEUE_FIXED n tbl q).1.
  split; [|split; [exact Hcap|split; [exact Hr'|]]].
  - unfold with_table, mbind, comp_bind. by rewrite Hrun.
  - unfold fifo_enqueue, clamp_n. cbn [fst snd].
    destruct (Z.leb_spec (Z.of_nat (length q) + n) (capacity r)), (Z.ltb_spec (capacity r - Z.of_nat (length q)) n); try lia.
    + split; [done|]. intros Hpos. destruct (Z.eqb_spec n 0); [lia|done].
    + by rewrite app_nil_r.
Qed.

Lemma ring_dequeue_bulk is_sc r q tbl n :
  ring_repr r q -> 0 <= n <= Z.of_nat (length tbl) ->
  exists r' rc q' tbl', (r ← with_table tbl (rte_ring_do_dequeue (ring_fuel n) n RTE_RING_QUEUE_FIXED is_sc); mret (dequeue_rc r)) r
      = (r', Ret (rc, tbl')) /\ capacity r' = capacity r /\ ring_repr r' q'
    /\ if n <=? Z.of_nat (length q)
       then (0 < n -> rc = 0)
            /\ exists got, Z.of_nat (length got) = n /\ tbl' = got ++ drop (Z.to_nat n) tbl /\ q ≡ₚ got ++ q'
       else q' = q /\ tbl' = tbl /\ rc < 0.
Proof.
  intros Hq Hn. destruct (do_dequeue_correct r q tbl RTE_RING_QUEUE_FIXED n is_sc (ring_fuel n) Hq Hn)
    as (r' & Hrun); [unfold ring_fuel; lia|]. unfold fifo_dequeue, clamp_n in Hrun.
  destruct (Z.ltb_spec (Z.of_nat (length q)) n) as [Hlt|Hge]; destruct Hrun as (Hrun & Hr' & (_ & _ & Hcap & _)).
  - exists r', (- ENOBUFS), q, tbl. split; [unfold with_table, mbind, comp_bind; by rewrite Hrun|].
    split; [done|]. split; [done|]. destruct (Z.leb_spec n (Z.of_nat (length q))); [lia|done].
  - exists r', (if n =? 0 then - ENOBUFS else 0), (drop (Z.to_nat n) q), (take (Z.to_nat n) q ++ drop (Z.to_nat n) tbl).
    assert (length (take (Z.to_nat n) q) = Z.to_nat n) as Hl by (rewrite length_take; lia). rewrite Hl in Hrun.
    split; [unfold with_table, mbind, comp_bind; by rewrite Hrun|]. split; [done|]. split; [done|].
    destruct (Z.leb_spec n (Z.of_nat (length q))); [|lia].
    split; [intros Hpos; destruct (Z.eqb_spec n 0); [lia|done]|].
    exists (take (Z.to_nat n) q). split; [lia|]. split; [done|]. by rewrite take_drop.
Qed.

(** The objects between the consumer and the producer index. *)
Definition ring_items (r : rte_ring) : list Z :=
  (fun i => default 0 (slot_at r (tail (cons r) + i))) <$> seqZ 0 (rte_ring_count r).

Lemma ring_items_eq r q : ring_repr r q -> ring_items r = q.
Proof.
  intros Hq. unfold ring_items. rewrite (repr_count r q Hq). apply list_eq. intros i. rewrite list_lookup_fmap.
  destruct (decide (i < length q)%nat) as [Hi|Hi].
  - rewrite lookup_seqZ_lt by lia. simpl. rewrite Z.add_0_l, (repr_items r q Hq i Hi).
    destruct (lookup_lt_is_Some_2 q i Hi) as [x ->]. done.
  - rewrite lookup_seqZ_ge by lia. symmetry. apply lookup_ge_None_2. lia.
Qed.

#[export] Instance ring_driver_laws (o : ring_ops) : @PoolDriverLaws rte_ring (ring_driver o).
Proof.
  refine {| pd_holds := ring_repr; pd_cap := capacity; pd_items := ring_items |}.
  - apply ring_items_eq.
  - intros r q Hq. pose proof (shape_bounds r (repr_shape r q Hq)). pose proof (shape_capacity r (repr_shape r q Hq)).
    pose proof (repr_bound r q Hq). split; [done|]. lia.
  - intros r q tbl n Hq Hn _. destruct o; by apply ring_enqueue_bulk.
  - intros r q tbl n Hq Hn. destruct o; by apply ring_dequeue_bulk.
  - apply repr_count.
Defined.

(** ** The stack driver (rte_mempool_stack.c) *)

Record rte_mempool_stack := mk_stack {
  stack_size : Z;
  stack_len : Z;
  stack_objs : list Z }.

Definition sizeof_rte_mempool_stack : Z := 16.

(** [zmalloc] is what [rte_zmalloc_socket] answers for a size; the zeroed block
    of [size] bytes has room for the objects that fit after the structure.  [int size]
    keeps 32 bits of the sum, and widens again in the call. *)
Definition stack_alloc (zmalloc : Z -> bool) (mp_size : Z) : rte_mempool_stack + Z :=
  let n := mp_size in
  let size := s32 (sizeof_rte_mempool_stack +[64] (n +[32] 16) *[64] 8) in
  if negb (zmalloc (u64 size)) then inr (- ENOMEM)
  else inl (mk_stack n 0 (replicate (Z.to_nat ((u64 size - sizeof_rte_mempool_stack) / 8)) 0)).

Definition stack_enqueue (tbl : list Z) (n : Z) : comp rte_mempool_stack Z :=
  s ← get;
  if stack_size s <? stack_len s +[32] n then mret (- ENOBUFS)
  else
    objs ← defined (copy_up (Z.to_nat n) tbl 0 (stack_objs s) (Z.to_nat (stack_len s)));
    put (mk_stack (stack_size s) (stack_len s +[32] n) objs) ;;
    mret 0.

Definition stack_dequeue (n : Z) (tbl : list Z) : comp rte_mempool_stack (Z * list Z) :=
  s ← get;
  if stack_len s <? n then mret (- ENOENT, tbl)
  else
    tbl ← defined (copy_down (Z.to_nat n) (stack_objs s) (stack_len s -[32] 1) tbl 0);
    put (mk_stack (stack_size s) (stack_len s -[32] n) (stack_objs s)) ;;
    mret (0, tbl).

Definition stack_get_count (s : rte_mempool_stack) : Z := stack_len s.

#[export] Instance stack_driver : PoolDriver rte_mempool_stack := {
  ops_enqueue := stack_enqueue;
  ops_dequeue := stack_dequeue;
  ops_get_count := stack_get_count;
}.

(** The stack holds the objects below [len]. *)
Record stack_repr (s : rte_mempool_stack) (q : list Z) : Prop := {
  stk_size : in_range 32 (stack_size s) /\ 0 <= stack_len s <= stack_size s;
  stk_room : stack_size s <= Z.of_nat (length (stack_objs s));
  stk_items : q = take (Z.to_nat (stack_len s)) (stack_objs s) }.

Lemma stack_length s q : stack_repr s q -> Z.of_nat (length q) = stack_len s.
Proof. intros [H1 H2 ->]. rewrite length_take. lia. Qed.

Lemma stack_enqueue_ok s q tbl n :
  stack_repr s q -> 0 <= n <= Z.of_nat (length tbl) -> Z.of_nat (length q) + n < 2 ^ 32 ->
  exists s' rc q', stack_enqueue tbl n s = (s', Ret rc) /\ stack_size s' = stack_size s /\ stack_repr s' q'
    /\ if Z.of_nat (length q) + n <=? stack_size s
       then q' = q ++ take (Z.to_nat n) tbl /\ (0 < n -> rc = 0)
       else q' = q /\ rc < 0.
Proof.
  intros Hq Hn Hb. rewrite (stack_length s q Hq) in *. pose proof Hq as [[Hs Hl] Hr Hi].
  unfold stack_enqueue. erewrite bind_ret; [|reflexivity]. rewrite (wrap_small 32) by clia.
  destruct (Z.ltb_spec (stack_size s) (stack_len s + n)), (Z.leb_spec (stack_len s + n) (stack_size s)); try lia.
  - by exists s, (- ENOBUFS), q.
  - rewrite copy_up_spec by lia. eexists _, 0, _. split; [reflexivity|]. split; [done|]. split; [|split; [|done]; reflexivity].
    split; cbn [stack_size stack_len stack_objs].
    + split; [done|lia].
    + rewrite !length_app, !length_take, !length_drop. lia.
    + rewrite Hi, drop_0, app_assoc. symmetry. apply take_app_length'. rewrite length_app, !length_take. lia.
Qed.

Lemma stack_dequeue_ok s q tbl n :
  stack_repr s q -> 0 <= n <= Z.of_nat (length tbl) ->
  exists s' rc q' tbl', stack_dequeue n tbl s = (s', Ret (rc, tbl')) /\ stack_size s' = stack_size s /\ stack_repr s' q'
    /\ if n <=? Z.of_nat (length q)
       then (0 < n -> rc = 0)
            /\ exists got, Z.of_nat (length got) = n /\ tbl' = got ++ drop (Z.to_nat n) tbl /\ q ≡ₚ got ++ q'
       else q' = q /\ tbl' = tbl /\ rc < 0.
Proof.
  intros Hq Hn. rewrite (stack_length s q Hq) in *. pose proof Hq as [[Hs Hl] Hr Hi].
  unfold stack_dequeue. erewrite bind_ret; [|reflexivity].
  destruct (Z.ltb_spec (stack_len s) n), (Z.leb_spec n (stack_len s)); try lia.
  - by exists s, (- ENOENT), q, tbl.
  - assert (copy_down (Z.to_nat n) (stack_objs s) (stack_len s -[32] 1) tbl 0
      = Some (rev (drop (Z.to_nat (stack_len s - n)) q) ++ drop (Z.to_nat n) tbl)) as ->.
    { destruct (Z.eq_dec n 0) as [->|Hn0].
      - simpl. rewrite Z.sub_0_r, drop_ge; [done|]. pose proof (stack_length s q Hq). lia.
      - rewrite (wrap_small 32) by clia. rewrite copy_down_spec by clia. rewrite Nat.add_0_l. simpl app. do 3 f_equal.
        rewrite Hi, skipn_firstn_comm. f_equal; [lia|]. f_equal. lia. }
    eexists _, 0, (take (Z.to_nat (stack_len s - n)) q), _. split; [reflexivity|]. split; [done|].
    rewrite (wrap_small 32) by clia. split.
    + split; cbn [stack_size stack_len stack_objs]; [split; [done|lia]|lia|]. rewrite Hi, take_take. f_equal. lia.
    + split; [done|]. eexists. split; [|split; [reflexivity|]].
      * rewrite length_rev, length_drop. pose proof (stack_length s q Hq). lia.
      * rewrite <- Permutation_rev, Permutation_app_comm. by rewrite take_drop.
Qed.

#[export] Instance stack_driver_laws : PoolDriverLaws rte_mempool_stack.
Proof.
  refine {| pd_holds := stack_repr; pd_cap := stack_size;
            pd_items s := take (Z.to_nat (stack_len s)) (stack_objs s) |}.
  - by intros s q [_ _ ->].
  - intros s q Hq. pose proof (stack_length s q Hq). destruct Hq as [[Hs Hl] _ _]. unfold in_range in Hs. lia.
  - intros s q tbl n Hq Hn Hb. by apply stack_enqueue_ok.
  - intros s q tbl n Hq Hn. by apply stack_dequeue_ok.
  - intros s q Hq. symmetry. by apply stack_length.
Defined.

(** A new stack is empty and has room for the objects of the pool, as long as
    the size in bytes fits an [int]. *)
Lemma stack_alloc_repr zmalloc n :
  0 <= n <= 2 ^ 28 - 19 -> zmalloc (16 + (n + 16) * 8) = true ->
  exists s, stack_alloc zmalloc n = inl s /\ stack_repr s [] /\ stack_size s = n.
Proof.
  intros Hn Hz. unfold stack_alloc, sizeof_rte_mempool_stack.
  assert (u64 (s32 (16 +[64] (n +[32] 16) *[64] 8)) = 16 + (n + 16) * 8) as ->.
  { rewrite (wrap_small 32) by clia. rewrite (wrap_small 64 ((n + 16) * 8)), (wrap_small 64 (16 + (n + 16) * 8)) by clia.
    unfold sgn. rewrite (wrap_small 32) by clia. destruct (Z.ltb_spec (16 + (n + 16) * 8) (2 ^ (32 - 1))); [|clia].
    apply wrap_small. clia. }
  rewrite Hz. eexists. split; [reflexivity|]. split; [|done]. split; cbn [stack_size stack_len stack_objs].
  - split; [clia|lia].
  - rewrite length_replicate. replace (16 + (n + 16) * 8 - 16) with ((n + 16) * 8) by lia. rewrite Z.div_mul by lia. lia.
  - done.
Qed.

(** For 2^29 objects the size does not fit an [int]: the block that is allocated
    has room for 16 objects, and the 17th is written past its end. *)
Lemma stack_alloc_overflow zmalloc tbl :
  zmalloc 144 = true -> (17 <= length tbl)%nat ->
  exists s, stack_alloc zmalloc (2 ^ 29) = inl s /\ stack_size s = 2 ^ 29
    /\ stack_enqueue tbl 17 s = (s, UB).
Proof.
  intros Hz Ht. unfold stack_alloc. change (u64 (s32 _)) with 144. rewrite Hz.
  eexists. split; [reflexivity|]. split; [done|].
  do 17 (destruct tbl as [|? tbl]; [simpl in Ht; lia|]). reflexivity.
Qed.
