(* ===== verification/Mempool.v ===== *)
(** * Memory pools (lib/librte_mempool)

    The part of the pool that runs on the data path: the pool structure, the
    caches of the lcores in front of the driver, putting and getting objects
    through them and counting what is left.  The pool is generic in its driver
    (the class [PoolDriver]); the theorems hold for every driver that keeps
    [PoolDriverLaws].  One lcore runs at a time; the statistics and cookies
    of the debug build are off, as in the default configuration. *)

From S2P Require Import Prelude Effects MempoolDrivers.
From Stdlib Require String.

(** ** Constants *)

Definition EINVAL : Z := 22.
Definition RTE_MAX_LCORE : Z := 128.
Definition RTE_MEMPOOL_CACHE_MAX_SIZE : Z := 512.

(** ** State *)

Record rte_mempool_cache := mk_cache {
  cache_sz : Z;
  flushthresh : Z;
  cache_len : Z;
  cache_objs : list Z }.

(** A chunk of memory of the pool and a header in front of an object: the object's
    address and its IO address. *)
Record rte_mempool_memhdr := mk_memhdr { chunk_addr : Z; chunk_iova : Z; chunk_len : Z }.
Record rte_mempool_objhdr := mk_objhdr { obj_addr : Z; obj_iova : Z }.

(** [struct rte_mempool] with its driver data; [local_cache] has an entry for
    each lcore, or none when there are no caches. *)
Record rte_mempool (D : Type) := mk_mempool {
  mp_name : String.string;
  pool_data : D;
  mp_flags : Z;
  mp_size : Z;
  cache_size : Z;
  elt_size : Z;
  header_size : Z;
  trailer_size : Z;
  private_data_size : Z;
  local_cache : list rte_mempool_cache;
  populated_size : Z;
  elt_list : list rte_mempool_objhdr;
  nb_mem_chunks : Z;
  mem_list : list rte_mempool_memhdr;
  mp_socket_id : Z }.
Arguments mk_mempool {D}.
Arguments mp_name {D}.
Arguments pool_data {D}.
Arguments mp_flags {D}.
Arguments mp_size {D}.
Arguments cache_size {D}.
Arguments elt_size {D}.
Arguments header_size {D}.
Arguments trailer_size {D}.
Arguments private_data_size {D}.
Arguments local_cache {D}.
Arguments populated_size {D}.
Arguments elt_list {D}.
Arguments nb_mem_chunks {D}.
Arguments mem_list {D}.
Arguments mp_socket_id {D}.

(** ** Caches *)

(** [(uint32_t)(c * 1.5)]; the product is exact in a double. *)
Definition CALC_CACHE_FLUSHTHRESH (c : Z) : Z := c * 3 / 2.

Definition mempool_cache_init (size : Z) (cache : rte_mempool_cache) : rte_mempool_cache :=
  mk_cache size (CALC_CACHE_FLUSHTHRESH size) 0 (cache_objs cache).

(** A zeroed cache. *)
Definition zeroed_cache : rte_mempool_cache :=
  mk_cache 0 0 0 (replicate (3 * Z.to_nat RTE_MEMPOOL_CACHE_MAX_SIZE) 0).

(** The cache, or the value of [rte_errno]; [zmalloc_ok] tells whether there is memory. *)
Definition rte_mempool_cache_create (zmalloc_ok : bool) (size : Z) : rte_mempool_cache + Z :=
  if (size =? 0) || (RTE_MEMPOOL_CACHE_MAX_SIZE <? size) then inr EINVAL
  else if negb zmalloc_ok then inr Ring.ENOMEM
  else inl (mempool_cache_init size zeroed_cache).

(** ** Put and get *)

Section Code.
Context {D : Type} `{!PoolDriver D}.

(** The driver with the cache the caller passes, [None] for [NULL]. *)
Record pool_view := mk_view { view_data : D; view_cache : option rte_mempool_cache }.

Definition on_driver {A} (c : comp D A) : comp pool_view A := fun v =>
  let '(d, o) := c (view_data v) in (mk_view d (view_cache v), o).

Definition set_cache (k : rte_mempool_cache) : comp pool_view unit :=
  modify (fun v => mk_view (view_data v) (Some k)).

Definition rte_mempool_ops_enqueue_bulk (tbl : list Z) (n : Z) : comp pool_view Z := on_driver (ops_enqueue tbl n).
Definition rte_mempool_ops_dequeue_bulk (n : Z) (tbl : list Z) : comp pool_view (Z * list Z) :=
  on_driver (ops_dequeue n tbl).

Definition __mempool_generic_put (obj_table : list Z) (n : Z) : comp pool_view unit :=
  v ← get;
  match view_cache v with
  | Some cache =>
      if RTE_MEMPOOL_CACHE_MAX_SIZE <? n then rte_mempool_ops_enqueue_bulk obj_table n ;; mret tt
      else
        objs ← defined (copy_up (Z.to_nat n) obj_table 0 (cache_objs cache) (Z.to_nat (cache_len cache)));
        let cache := cache <| cache_objs := objs |> <| cache_len := cache_len cache +[32] n |> in
        set_cache cache ;;
        if flushthresh cache <=? cache_len cache then
          rte_mempool_ops_enqueue_bulk (drop (Z.to_nat (cache_sz cache)) (cache_objs cache))
            (cache_len cache -[32] cache_sz cache) ;;
          set_cache (cache <| cache_len := cache_sz cache |>)
        else mret tt
  | None => rte_mempool_ops_enqueue_bulk obj_table n ;; mret tt
  end.

Definition rte_mempool_generic_put (obj_table : list Z) (n : Z) : comp pool_view unit :=
  __mempool_generic_put obj_table n.

(** Filling the table from the top of the cache. *)
Definition fill_response (cache : rte_mempool_cache) (n : Z) (obj_table : list Z) : comp pool_view (Z * list Z) :=
  tbl ← defined (copy_down (Z.to_nat n) (cache_objs cache) (cache_len cache -[32] 1) obj_table 0);
  set_cache (cache <| cache_len := cache_len cache -[32] n |>) ;;
  mret (0, tbl).

Definition __mempool_generic_get (n : Z) (obj_table : list Z) : comp pool_view (Z * list Z) :=
  v ← get;
  match view_cache v with
  | Some cache =>
      if cache_sz cache <=? n then rte_mempool_ops_dequeue_bulk n obj_table
      else if cache_len cache <? n then
        let req := n +[32] (cache_sz cache -[32] cache_len cache) in
        '(ret, objs) ← rte_mempool_ops_dequeue_bulk req (drop (Z.to_nat (cache_len cache)) (cache_objs cache));
        let cache := cache <| cache_objs := take (Z.to_nat (cache_len cache)) (cache_objs cache) ++ objs |> in
        set_cache cache ;;
        if ret <? 0 then rte_mempool_ops_dequeue_bulk n obj_table
        else fill_response (cache <| cache_len := cache_len cache +[32] req |>) n obj_table
      else fill_response cache n obj_table
  | None => rte_mempool_ops_dequeue_bulk n obj_table
  end.

Definition rte_mempool_generic_get (n : Z) (obj_table : list Z) : comp pool_view (Z * list Z) :=
  __mempool_generic_get n obj_table.

(** [rte_mempool_cache_flush] of the cache passed in the view. *)
Definition rte_mempool_cache_flush : comp pool_view unit :=
  v ← get;
  match view_cache v with
  | Some cache =>
      if cache_len cache =? 0 then mret tt
      else
        rte_mempool_ops_enqueue_bulk (cache_objs cache) (cache_len cache) ;;
        set_cache (cache <| cache_len := 0 |>)
  | None => mret tt
  end.

(** The cache of the lcore, as its index in [local_cache]. *)
Definition rte_mempool_default_cache (mp : rte_mempool D) (lcore_id : Z) : option nat :=
  if cache_size mp =? 0 then None
  else if RTE_MAX_LCORE <=? lcore_id then None
  else Some (Z.to_nat lcore_id).

(** [c] with the default cache of lcore [lcore_id]. *)
Definition with_default_cache {A} (lcore_id : Z) (c : comp pool_view A) : comp (rte_mempool D) A := fun mp =>
  match rte_mempool_default_cache mp lcore_id with
  | None => let '(v, o) := c (mk_view (pool_data mp) None) in (mp <| pool_data := view_data v |>, o)
  | Some i =>
      match local_cache mp !! i with
      | None => (mp, UB)
      | Some k =>
          let '(v, o) := c (mk_view (pool_data mp) (Some k)) in
          (mp <| pool_data := view_data v |>
              <| local_cache := <[i := default k (view_cache v)]> (local_cache mp) |>, o)
      end
  end.

Definition rte_mempool_put_bulk (lcore_id : Z) (obj_table : list Z) (n : Z) : comp (rte_mempool D) unit :=
  with_default_cache lcore_id (rte_mempool_generic_put obj_table n).
Definition rte_mempool_put (lcore_id obj : Z) : comp (rte_mempool D) unit :=
  rte_mempool_put_bulk lcore_id [obj] 1.
Definition rte_mempool_get_bulk (lcore_id n : Z) (obj_table : list Z) : comp (rte_mempool D) (Z * list Z) :=
  with_default_cache lcore_id (rte_mempool_generic_get n obj_table).
Definition rte_mempool_get (lcore_id obj : Z) : comp (rte_mempool D) (Z * list Z) :=
  rte_mempool_get_bulk lcore_id 1 [obj].

(** ** Counting *)

Definition rte_mempool_avail_count (mp : rte_mempool D) : Z :=
  let count := ops_get_count (pool_data mp) in
  if cache_size mp =? 0 then count
  else
    let count := foldl (fun count k => count +[32] cache_len k) count (local_cache mp) in
    if mp_size mp <? count then mp_size mp else count.

Definition rte_mempool_in_use_count (mp : rte_mempool D) : Z := mp_size mp -[32] rte_mempool_avail_count mp.
Definition rte_mempool_full (mp : rte_mempool D) : bool := rte_mempool_avail_count mp =? mp_size mp.
Definition rte_mempool_empty (mp : rte_mempool D) : bool := rte_mempool_avail_count mp =? 0.

(** [mempool_audit_cache]: panics on a cache that is too long. *)
Definition mempool_audit_cache (mp : rte_mempool D) : comp (rte_mempool D) unit :=
  if cache_size mp =? 0 then mret tt
  else if forallb (fun k => negb (flushthresh k <? cache_len k)) (local_cache mp) then mret tt else panic.
Definition rte_mempool_audit (mp : rte_mempool D) : comp (rte_mempool D) unit := mempool_audit_cache mp.
End Code.
Arguments mk_view {D}.
Arguments view_data {D}.
Arguments view_cache {D}.

(** ** The contract of a cache *)

Record cache_ok (k : rte_mempool_cache) : Prop := {
  ck_size : 1 <= cache_sz k <= RTE_MEMPOOL_CACHE_MAX_SIZE;
  ck_thresh : flushthresh k = CALC_CACHE_FLUSHTHRESH (cache_sz k);
  ck_len : 0 <= cache_len k <= flushthresh k;
  ck_objs : length (cache_objs k) = (3 * Z.to_nat RTE_MEMPOOL_CACHE_MAX_SIZE)%nat }.

(** The objects in a cache. *)
Definition held (k : rte_mempool_cache) : list Z := take (Z.to_nat (cache_len k)) (cache_objs k).

Lemma thresh_bounds sz : 1 <= sz <= 512 -> sz <= CALC_CACHE_FLUSHTHRESH sz <= 768.
Proof. intros H. unfold CALC_CACHE_FLUSHTHRESH. Z.div_mod_to_equations. lia. Qed.

Lemma cache_bounds k :
  cache_ok k -> 1 <= cache_sz k <= 512 /\ 0 <= cache_len k <= 768 /\ cache_sz k <= flushthresh k /\ length (cache_objs k) = 1536%nat.
Proof.
  intros [H1 H2 H3 H4]. unfold RTE_MEMPOOL_CACHE_MAX_SIZE in *. pose proof (thresh_bounds _ H1).
  rewrite H2 in *. split_and!; lia.
Qed.

Lemma length_held k : cache_ok k -> Z.of_nat (length (held k)) = cache_len k.
Proof. intros Hk. destruct (cache_bounds k Hk) as (_ & H & _ & Hl). unfold held. rewrite length_take, Hl. lia. Qed.

Lemma cache_create_ok size :
  1 <= size <= RTE_MEMPOOL_CACHE_MAX_SIZE ->
  exists k, rte_mempool_cache_create true size = inl k /\ cache_ok k /\ held k = [] /\ cache_sz k = size.
Proof.
  intros Hs. unfold rte_mempool_cache_create. destruct (Z.eqb_spec size 0), (Z.ltb_spec RTE_MEMPOOL_CACHE_MAX_SIZE size); try lia.
  eexists. split; [reflexivity|]. split; [|done]. split; cbn [cache_sz flushthresh cache_len mempool_cache_init]; try done.
  unfold RTE_MEMPOOL_CACHE_MAX_SIZE in Hs. pose proof (thresh_bounds size Hs). lia.
Qed.

Section Contract.
Context {D : Type} `{DRV : !PoolDriver D} `{LAWS : !PoolDriverLaws D}.
Implicit Types (d : D) (k : rte_mempool_cache) (q tbl : list Z) (v : pool_view (D := D)).

Definition held_opt (ck : option rte_mempool_cache) : list Z := match ck with Some k => held k | None => [] end.
Definition ok_opt (ck : option rte_mempool_cache) : Prop := match ck with Some k => cache_ok k | None => True end.

(** The view holds the objects [all]: those of the cache and those of the driver. *)
Definition view_holds v q : Prop := pd_holds (view_data v) q /\ ok_opt (view_cache v).
Definition view_objs v q : list Z := held_opt (view_cache v) ++ q.

(** The cache of [v'] is the one of [v], with other contents. *)
Definition same_cache v v' : Prop :=
  cache_sz <$> view_cache v' = cache_sz <$> view_cache v /\ pd_cap (view_data v') = pd_cap (view_data v).

Lemma on_driver_ret {A} (c : comp D A) v d a :
  c (view_data v) = (d, Ret a) -> on_driver c v = (mk_view d (view_cache v), Ret a).
Proof using. intros H. unfold on_driver. by rewrite H. Qed.

(** Putting straight into the driver. *)
Lemma put_driver v q tbl n :
  pd_holds (view_data v) q -> 0 <= n <= Z.of_nat (length tbl) -> Z.of_nat (length q) + n <= pd_cap (view_data v) ->
  exists d' rc, rte_mempool_ops_enqueue_bulk tbl n v = (mk_view d' (view_cache v), Ret rc)
    /\ pd_holds d' (q ++ take (Z.to_nat n) tbl) /\ pd_cap d' = pd_cap (view_data v).
Proof using.
  intros Hq Hn Hcap. pose proof (pd_bound _ _ Hq).
  destruct (pd_enqueue (view_data v) q tbl n Hq Hn) as (d' & rc & q' & Hrun & Hc & Hq' & Hres); [lia|].
  destruct (Z.leb_spec (Z.of_nat (length q) + n) (pd_cap (view_data v))); [|lia]. destruct Hres as [-> _].
  exists d', rc. split; [by apply on_driver_ret|]. done.
Qed.

(** The objects of [k] after [n] were written on top. *)
Definition pushed k tbl n : list Z :=
  take (Z.to_nat (cache_len k)) (cache_objs k) ++ take (Z.to_nat n) tbl
  ++ drop (Z.to_nat (cache_len k) + Z.to_nat n) (cache_objs k).

Lemma held_pushed k tbl n :
  cache_ok k -> 0 < n <= Z.of_nat (length tbl) -> n <= 512 ->
  length (pushed k tbl n) = 1536%nat
  /\ take (Z.to_nat (cache_len k + n)) (pushed k tbl n) = held k ++ take (Z.to_nat n) tbl.
Proof using.
  intros Hk Hn Hs. destruct (cache_bounds k Hk) as (_ & Hlen & _ & Hobjs). unfold pushed. split.
  - rewrite !length_app, !length_take, length_drop. lia.
  - rewrite app_assoc. unfold held. apply take_app_length'. rewrite length_app, !length_take. lia.
Qed.

(** What a put does to the view. *)
Definition put_post v q tbl n (r : pool_view * outcome unit) : Prop :=
  exists v' q', r = (v', Ret tt) /\ view_holds v' q' /\ same_cache v v'
    /\ view_objs v' q' ≡ₚ take (Z.to_nat n) tbl ++ view_objs v q.

Lemma put_direct v q tbl n :
  view_holds v q -> 0 < n <= Z.of_nat (length tbl) -> Z.of_nat (length (view_objs v q)) + n <= pd_cap (view_data v) ->
  put_post v q tbl n ((rte_mempool_ops_enqueue_bulk tbl n ;; mret tt) v).
Proof using.
  intros [Hq Hok] Hn Hcap. unfold view_objs in Hcap. rewrite length_app in Hcap.
  destruct (put_driver v q tbl n Hq) as (d' & rc & Hrun & Hq' & Hcap'); [lia|lia|].
  exists (mk_view d' (view_cache v)), (q ++ take (Z.to_nat n) tbl). rewrite (bind_ret _ _ _ _ _ Hrun).
  split_and!; try done. unfold view_objs. simpl. rewrite app_assoc. apply Permutation_app_comm.
Qed.

Lemma put_correct v q tbl n :
  view_holds v q -> 0 < n <= Z.of_nat (length tbl) -> Z.of_nat (length (view_objs v q)) + n <= pd_cap (view_data v) ->
  put_post v q tbl n (rte_mempool_generic_put tbl n v).
Proof using.
  intros Hv Hn Hcap. pose proof (put_direct v q tbl n Hv Hn Hcap) as Hdirect. pose proof Hv as [Hq Hok].
  unfold rte_mempool_generic_put, __mempool_generic_put. erewrite bind_ret; [|reflexivity].
  destruct (view_cache v) as [k|] eqn:Ek; [|exact Hdirect].
  destruct (Z.ltb_spec RTE_MEMPOOL_CACHE_MAX_SIZE n) as [|Hsmall]; [exact Hdirect|]. clear Hdirect.
  unfold view_objs in *. rewrite Ek in *. simpl in Hok, Hcap. rewrite length_app in Hcap.
  destruct (cache_bounds k Hok) as (Hsz & Hlen & Hth & Hobjs). pose proof (length_held k Hok) as Hheld.
  unfold RTE_MEMPOOL_CACHE_MAX_SIZE in Hsmall.
  assert (copy_up (Z.to_nat n) tbl 0 (cache_objs k) (Z.to_nat (cache_len k)) = Some (pushed k tbl n)) as ->
    by (apply copy_up_spec; lia).
  rewrite (wrap_small 32) by clia. erewrite bind_ret; [|reflexivity]. cbv zeta.
  erewrite bind_ret; [|reflexivity]. destruct (held_pushed k tbl n Hok Hn Hsmall) as (Hlp & Hhp).
  set (k1 := k <| cache_objs := pushed k tbl n |> <| cache_len := cache_len k + n |>).
  change (flushthresh k1) with (flushthresh k). change (cache_len k1) with (cache_len k + n).
  change (cache_sz k1) with (cache_sz k). change (cache_objs k1) with (pushed k tbl n).
  destruct (Z.leb_spec (flushthresh k) (cache_len k + n)) as [Hflush|Hroom].
  - rewrite (wrap_small 32) by clia.
    destruct (put_driver (mk_view (view_data v) (Some k1)) q (drop (Z.to_nat (cache_sz k)) (pushed k tbl n))
      (cache_len k + n - cache_sz k) Hq) as (d' & rc & Hrun & Hq' & Hcap'); [rewrite length_drop; lia|simpl; lia|].
    rewrite (bind_ret _ _ _ _ _ Hrun).
    eexists _, _. split; [reflexivity|]. split; [split; [exact Hq'|]|].
    + split; cbn; [done|apply Hok|lia|by rewrite Hlp].
    + split; [split; [by rewrite Ek|exact Hcap']|]. unfold view_objs. rewrite Ek. cbn [view_cache held_opt].
      change (held (k1 <| cache_len := cache_sz k |>)) with (take (Z.to_nat (cache_sz k)) (pushed k tbl n)).
      rewrite (Permutation_app_comm q), app_assoc, take_take_drop.
      replace (Z.to_nat (cache_sz k) + Z.to_nat (cache_len k + n - cache_sz k))%nat with (Z.to_nat (cache_len k + n)) by lia.
      rewrite Hhp, (Permutation_app_comm (held k)). by rewrite app_assoc.
  - eexists _, q. split; [reflexivity|]. split; [split; [exact Hq|]|].
    + split; cbn; [apply Hok|apply Hok|lia|by rewrite Hlp].
    + split; [by split; [rewrite Ek|]|]. unfold view_objs. rewrite Ek. cbn [view_cache held_opt].
      change (held k1) with (take (Z.to_nat (cache_len k + n)) (pushed k tbl n)).
      rewrite Hhp, (Permutation_app_comm (held k)). by rewrite app_assoc.
Qed.

(** *** Getting *)

(** What a get does: [n] objects, or an error and no change of the contents; which of the two
    is decided by the contents of the cache and of the driver. *)
Definition satisfiable v q n : bool :=
  (match view_cache v with Some k => (n <? cache_sz k) && (n <=? cache_len k) | None => false end)
  || (n <=? Z.of_nat (length q)).

Definition get_post v q n tbl (r : pool_view * outcome (Z * list Z)) : Prop :=
  exists v' q' rc tbl', r = (v', Ret (rc, tbl')) /\ view_holds v' q' /\ same_cache v v'
    /\ if satisfiable v q n
       then rc = 0 /\ exists got, Z.of_nat (length got) = n /\ tbl' = got ++ drop (Z.to_nat n) tbl
            /\ view_objs v q ≡ₚ got ++ view_objs v' q'
       else rc < 0 /\ tbl' = tbl /\ view_objs v' q' = view_objs v q.

(** Getting straight from the driver. *)
Lemma get_driver v q n tbl :
  pd_holds (view_data v) q -> 0 < n <= Z.of_nat (length tbl) ->
  exists d' rc q' tbl', rte_mempool_ops_dequeue_bulk n tbl v = (mk_view d' (view_cache v), Ret (rc, tbl'))
    /\ pd_holds d' q' /\ pd_cap d' = pd_cap (view_data v)
    /\ if n <=? Z.of_nat (length q)
       then rc = 0 /\ exists got, Z.of_nat (length got) = n /\ tbl' = got ++ drop (Z.to_nat n) tbl /\ q ≡ₚ got ++ q'
       else q' = q /\ tbl' = tbl /\ rc < 0.
Proof using.
  intros Hq Hn. destruct (pd_dequeue (view_data v) q tbl n Hq) as (d' & rc & q' & tbl' & Hrun & Hc & Hq' & Hres); [lia|].
  exists d', rc, q', tbl'. split; [by apply on_driver_ret|]. split_and!; try done.
  destruct (n <=? _); [|done]. destruct Hres as [Hrc Hgot]. split; [apply Hrc; lia|done].
Qed.

Lemma get_direct v q n tbl :
  view_holds v q -> 0 < n <= Z.of_nat (length tbl) -> satisfiable v q n = (n <=? Z.of_nat (length q)) ->
  get_post v q n tbl (rte_mempool_ops_dequeue_bulk n tbl v).
Proof using.
  intros [Hq Hok] Hn Hs. destruct (get_driver v q n tbl Hq Hn) as (d' & rc & q' & tbl' & Hrun & Hq' & Hc & Hres).
  exists (mk_view d' (view_cache v)), q', rc, tbl'. split_and!; try done. rewrite Hs. unfold view_objs. cbn [view_cache].
  destruct (n <=? _).
  - destruct Hres as (-> & got & H1 & H2 & H3). split; [done|]. exists got. split_and!; try done.
    rewrite H3, !app_assoc. by rewrite (Permutation_app_comm got).
  - destruct Hres as (-> & -> & Hrc). done.
Qed.

(** Taking [n] objects from the top of a cache that has them. *)
Lemma fill_response_run d k n tbl ck :
  length (cache_objs k) = 1536%nat -> 0 < n <= Z.of_nat (length tbl) -> n <= cache_len k <= 1536 ->
  fill_response k n tbl (mk_view d ck)
  = (mk_view d (Some (k <| cache_len := cache_len k - n |>)),
     Ret (0, rev (drop (Z.to_nat (cache_len k - n)) (held k)) ++ drop (Z.to_nat n) tbl)).
Proof using.
  intros Ho Hn Hl. unfold fill_response. rewrite !(wrap_small 32) by clia.
  rewrite copy_down_spec by clia. unfold held. rewrite Nat.add_0_l. simpl app.
  rewrite skipn_firstn_comm. replace (Z.to_nat (cache_len k - 1 + 1) - Z.to_nat n)%nat with (Z.to_nat (cache_len k - n)) by lia.
  replace (Z.to_nat (cache_len k) - Z.to_nat (cache_len k - n))%nat with (Z.to_nat n) by lia. reflexivity.
Qed.

Lemma held_split k n :
  0 <= n <= cache_len k ->
  held k ≡ₚ rev (drop (Z.to_nat (cache_len k - n)) (held k)) ++ held (k <| cache_len := cache_len k - n |>).
Proof using.
  intros Hn. rewrite <- Permutation_rev, Permutation_app_comm.
  assert (held (k <| cache_len := cache_len k - n |>) = take (Z.to_nat (cache_len k - n)) (held k)) as ->.
  { unfold held. cbn. rewrite take_take. f_equal. lia. }
  by rewrite take_drop.
Qed.

(** The get ends in a cache with enough objects. *)
Lemma get_filled v q n tbl k d2 k2 q2 ck :
  view_cache v = Some k -> satisfiable v q n = true -> 0 < n <= Z.of_nat (length tbl) ->
  pd_holds d2 q2 -> pd_cap d2 = pd_cap (view_data v) ->
  cache_ok (k2 <| cache_len := cache_len k2 - n |>) -> cache_sz k2 = cache_sz k -> n <= cache_len k2 <= 1536 ->
  held k2 ++ q2 ≡ₚ held k ++ q ->
  get_post v q n tbl (fill_response k2 n tbl (mk_view d2 ck)).
Proof using.
  intros Hk Hs Hn Hq2 Hc2 Hok Hsz Hl Hobjs. pose proof (cache_bounds _ Hok) as (_ & _ & _ & Ho). cbn in Ho.
  rewrite fill_response_run by lia.
  eexists _, q2, 0, _. split; [reflexivity|]. split; [split; [done|exact Hok]|].
  split; [split; [rewrite Hk; cbn; by rewrite Hsz|done]|]. rewrite Hs. split; [done|].
  eexists. split; [|split; [reflexivity|]].
  - rewrite length_rev, length_drop. unfold held. rewrite length_take. lia.
  - unfold view_objs. rewrite Hk. cbn [view_cache held_opt]. rewrite app_assoc, <- Hobjs. f_equiv. apply held_split. lia.
Qed.

Lemma get_post_data d d1 ck q n tbl r :
  pd_cap d1 = pd_cap d -> get_post (mk_view d1 ck) q n tbl r -> get_post (mk_view d ck) q n tbl r.
Proof using.
  intros Hc (v' & q' & rc & tbl' & H1 & H2 & [H3 H4] & H5). exists v', q', rc, tbl'. split_and!; try done.
  split; [exact H3|]. cbn in *. by rewrite <- Hc.
Qed.

Lemma get_correct v q n tbl :
  view_holds v q -> 0 < n <= Z.of_nat (length tbl) -> get_post v q n tbl (rte_mempool_generic_get n tbl v).
Proof using.
  intros Hv Hn. pose proof (get_direct v q n tbl Hv Hn) as Hdirect. unfold satisfiable in Hdirect. pose proof Hv as [Hq Hok].
  unfold rte_mempool_generic_get, __mempool_generic_get. erewrite bind_ret; [|reflexivity].
  destruct v as [d [k|]]; cbn [view_cache view_data] in *; [|by apply Hdirect].
  simpl in Hok. destruct (cache_bounds k Hok) as (Hsz & Hlen & Hth & Hobjs). pose proof (length_held k Hok) as Hheld.
  destruct (Z.leb_spec (cache_sz k) n) as [Hbig|Hsmall].
  { apply Hdirect. destruct (Z.ltb_spec n (cache_sz k)); [lia|done]. }
  destruct (Z.ltb_spec n (cache_sz k)); [|lia].
  destruct (Z.ltb_spec (cache_len k) n) as [Hmiss|Hhit]; destruct (Z.leb_spec n (cache_len k)); try lia; cbn [andb orb] in Hdirect.
  - clear Hdirect. rewrite (wrap_small 32 (cache_sz k - _)), (wrap_small 32) by clia.
    set (req := n + (cache_sz k - cache_len k)).
    destruct (get_driver (mk_view d (Some k)) q req (drop (Z.to_nat (cache_len k)) (cache_objs k)) Hq)
      as (d1 & rc & q1 & objs & Hrun & Hq1 & Hc1 & Hres); [rewrite length_drop; unfold req; lia|].
    rewrite (bind_ret _ _ _ _ _ Hrun). cbv beta iota zeta. erewrite bind_ret; [|reflexivity].
    destruct (Z.leb_spec req (Z.of_nat (length q))) as [Hreq|Hreq].
    + destruct Hres as (-> & got & Hgot & -> & Hperm). change (0 <? 0) with false. cbv iota.
      rewrite drop_drop. set (objs := take _ _ ++ got ++ _).
      assert (length objs = 1536%nat) as Ho
        by (unfold objs; rewrite !length_app, length_take, length_drop; unfold req in *; lia).
      apply (get_filled _ _ _ _ k d1 _ q1); try done; cbn; rewrite ?(wrap_small 32) by (unfold req; clia).
      * unfold satisfiable. cbn. apply orb_true_intro. right. apply Z.leb_le. unfold req in Hreq. lia.
      * destruct Hok. split; cbn; [done|done|unfold req; lia|done].
      * unfold req. lia.
      * unfold held at 1. cbn. unfold objs. rewrite app_assoc.
        rewrite take_app_length' by (rewrite length_app, length_take; unfold req in *; lia).
        fold (held k). by rewrite Hperm, app_assoc.
    + destruct Hres as (-> & -> & Hrc). destruct (Z.ltb_spec rc 0); [|lia]. rewrite take_drop.
      apply (get_post_data d d1); [done|]. destruct k as [sz th len objs]. apply get_direct; [done|done|].
      unfold satisfiable. cbn in *. destruct (Z.leb_spec n len); [lia|]. by rewrite andb_false_r.
  - clear Hdirect. apply (get_filled _ _ _ _ k d k q); try done; [|destruct Hok; split; cbn; done || lia|lia].
    unfold satisfiable. cbn. destruct (Z.ltb_spec n (cache_sz k)), (Z.leb_spec n (cache_len k)); lia || done.
Qed.

(** *** Flushing *)

Lemma flush_correct v q :
  view_holds v q -> Z.of_nat (length (view_objs v q)) <= pd_cap (view_data v) ->
  exists v' q', rte_mempool_cache_flush v = (v', Ret tt) /\ view_holds v' q' /\ same_cache v v'
    /\ view_objs v' q' ≡ₚ view_objs v q /\ held_opt (view_cache v') = [].
Proof using.
  intros [Hq Hok] Hcap. unfold rte_mempool_cache_flush. erewrite bind_ret; [|reflexivity].
  unfold view_objs in *. rewrite length_app in Hcap.
  destruct v as [d [k|]]; cbn [view_data view_cache held_opt ok_opt] in *; [|by exists (mk_view d None), q].
  destruct (cache_bounds k Hok) as (Hsz & Hlen & Hth & Hobjs). pose proof (length_held k Hok) as Hheld.
  destruct (Z.eqb_spec (cache_len k) 0) as [E|Hne].
  { exists (mk_view d (Some k)), q. split_and!; try done. cbn. unfold held. by rewrite E. }
  destruct (put_driver (mk_view d (Some k)) q (cache_objs k) (cache_len k) Hq) as (d' & rc & Hrun & Hq' & Hc);
    [lia|cbn; lia|].
  rewrite (bind_ret _ _ _ _ _ Hrun). eexists _, _. split; [reflexivity|]. split_and!; try done.
  - split; [exact Hq'|]. destruct Hok as [? ? ? ?]. split; cbn; [done|done|lia|done].
  - change (q ++ held k ≡ₚ held k ++ q). apply Permutation_app_comm.
Qed.

(** ** The pool with the caches of the lcores *)

Implicit Types (mp : rte_mempool D).

Definition caches_ok mp : Prop :=
  if cache_size mp =? 0 then local_cache mp = []
  else length (local_cache mp) = Z.to_nat RTE_MAX_LCORE
       /\ Forall (fun k => cache_ok k /\ cache_sz k = cache_size mp) (local_cache mp).

Definition mempool_ok mp q : Prop := pd_holds (pool_data mp) q /\ caches_ok mp.

(** The free objects of the pool. *)
Definition mempool_objs mp q : list Z := concat (held <$> local_cache mp) ++ q.

(** What putting and getting never change. *)
Definition same_pool mp mp' : Prop :=
  pd_cap (pool_data mp') = pd_cap (pool_data mp)
  /\ mp' = mp <| pool_data := pool_data mp' |> <| local_cache := local_cache mp' |>.

(** The cache lcore [l] works with. *)
Definition lcore_cache mp (l : Z) : option rte_mempool_cache :=
  i ← rte_mempool_default_cache mp l; local_cache mp !! i.

Lemma lcore_cache_some mp l i :
  caches_ok mp -> 0 <= l -> rte_mempool_default_cache mp l = Some i ->
  exists l1 k l2, local_cache mp = l1 ++ k :: l2 /\ i = length l1 /\ cache_ok k /\ cache_sz k = cache_size mp.
Proof using.
  unfold caches_ok, rte_mempool_default_cache, RTE_MAX_LCORE. intros Hc Hl.
  destruct (cache_size mp =? 0); [done|]. destruct (Z.leb_spec 128 l); [done|]. intros [= <-]. destruct Hc as [Hlen Hall].
  destruct (lookup_lt_is_Some_2 (local_cache mp) (Z.to_nat l)) as [k Hk]; [lia|].
  destruct (Forall_lookup_1 _ _ _ _ Hall Hk). destruct (list_elem_of_split_length _ _ _ Hk) as (l1 & l2 & -> & ->).
  by exists l1, k, l2.
Qed.

(** Running an operation on the view of one lcore. *)
Lemma with_default_cache_run {A} mp q l (c : comp (pool_view (D := D)) A) :
  mempool_ok mp q -> 0 <= l ->
  let v := mk_view (pool_data mp) (lcore_cache mp l) in
  exists rest, view_holds v q /\ mempool_objs mp q ≡ₚ view_objs v q ++ rest
    /\ forall v' q' a, c v = (v', Ret a) -> view_holds v' q' -> same_cache v v' ->
       exists mp', with_default_cache l c mp = (mp', Ret a) /\ mempool_ok mp' q' /\ same_pool mp mp'
         /\ mempool_objs mp' q' ≡ₚ view_objs v' q' ++ rest
         /\ mk_view (pool_data mp') (lcore_cache mp' l) = v'.
Proof using.
  intros [Hq Hc] Hl v. unfold with_default_cache. subst v. unfold lcore_cache.
  destruct (rte_mempool_default_cache mp l) as [i|] eqn:Ei.
  - destruct (lcore_cache_some mp l i Hc Hl Ei) as (l1 & k & l2 & El & -> & Hk & Hsz).
    assert (local_cache mp !! length l1 = Some k) as Hlook by (rewrite El; by apply list_lookup_middle).
    cbn [mbind option_bind]. rewrite Hlook. exists (concat (held <$> l1) ++ concat (held <$> l2)).
    split; [done|]. unfold mempool_objs, view_objs. split.
    { cbn. rewrite El, fmap_app, fmap_cons, concat_app. cbn. solve_Permutation. }
    intros v' q' a -> [Hq' Hok'] [Hcs Hcap]. cbn in Hcs, Hcap.
    destruct (view_cache v') as [k'|] eqn:Ek; [|done]. injection Hcs as Hcs.
    eexists. split; [reflexivity|]. cbn [default].
    assert (<[length l1 := k']> (local_cache mp) = l1 ++ k' :: l2) as Eins
      by (rewrite El; rewrite <- (Nat.add_0_r (length l1)); by rewrite insert_app_r).
    unfold caches_ok in *. cbn. rewrite Eins.
    split; [split; [done|]|split; [done|split]].
    + unfold caches_ok. cbn. destruct (cache_size mp =? 0) eqn:E0.
      { unfold rte_mempool_default_cache in Ei. by rewrite E0 in Ei. }
      rewrite El in Hc. destruct Hc as [Hlen Hall]. rewrite !length_app in *. split; [exact Hlen|].
      apply Forall_app in Hall as [Ha1 Ha2]. apply Forall_app. split; [done|]. apply Forall_cons in Ha2 as [_ Ha2].
      apply Forall_cons. split; [|done]. split; [exact Hok'|congruence].
    + rewrite fmap_app, fmap_cons, concat_app. cbn. solve_Permutation.
    + unfold lcore_cache. cbn. unfold rte_mempool_default_cache in *. cbn. rewrite Ei. cbn.
      rewrite list_lookup_middle by done. rewrite <- Ek. by destruct v'.
  - exists (concat (held <$> local_cache mp)). split; [done|]. unfold mempool_objs, view_objs. cbn. split; [apply Permutation_app_comm|].
    intros v' q' a -> [Hq' Hok'] [Hcs Hcap]. cbn in Hcs, Hcap. destruct (view_cache v') as [|] eqn:Ev; [done|].
    eexists. split; [reflexivity|]. split; [done|]. split; [split; [done|by destruct mp]|]. cbn. split; [apply Permutation_app_comm|].
    unfold lcore_cache, rte_mempool_default_cache in *. cbn. rewrite Ei. cbn. rewrite <- Ev. by destruct v'.
Qed.

Lemma put_bulk_run mp q l tbl n :
  mempool_ok mp q -> 0 <= l -> 0 < n <= Z.of_nat (length tbl) ->
  Z.of_nat (length (mempool_objs mp q)) + n <= pd_cap (pool_data mp) ->
  exists mp' q', rte_mempool_put_bulk l tbl n mp = (mp', Ret tt) /\ mempool_ok mp' q' /\ same_pool mp mp'
    /\ mempool_objs mp' q' ≡ₚ take (Z.to_nat n) tbl ++ mempool_objs mp q.
Proof using.
  intros Hmp Hl Hn Hcap. destruct (with_default_cache_run mp q l (rte_mempool_generic_put tbl n) Hmp Hl)
    as (rest & Hv & Hobjs & Hrun).
  pose proof (Permutation_length Hobjs) as Hlen. rewrite length_app in Hlen.
  destruct (put_correct _ q tbl n Hv Hn) as (v' & q' & E & Hv' & Hsame & Hp); [cbn [view_data]; lia|].
  destruct (Hrun v' q' tt E Hv' Hsame) as (mp' & E' & Hmp' & Hs & Ho & _).
  exists mp', q'. split_and!; try done. by rewrite Ho, Hp, Hobjs, app_assoc.
Qed.

(** Whether lcore [l] gets [n] objects: they are in its cache (and less than a whole
    cache is asked for), or in the driver. *)
Definition can_get mp q (l n : Z) : bool := satisfiable (mk_view (pool_data mp) (lcore_cache mp l)) q n.

Lemma get_bulk_run mp q l n tbl :
  mempool_ok mp q -> 0 <= l -> 0 < n <= Z.of_nat (length tbl) ->
  exists mp' q' rc tbl', rte_mempool_get_bulk l n tbl mp = (mp', Ret (rc, tbl')) /\ mempool_ok mp' q' /\ same_pool mp mp'
    /\ if can_get mp q l n
       then rc = 0 /\ exists got, Z.of_nat (length got) = n /\ tbl' = got ++ drop (Z.to_nat n) tbl
            /\ mempool_objs mp q ≡ₚ got ++ mempool_objs mp' q'
       else rc < 0 /\ tbl' = tbl /\ mempool_objs mp' q' ≡ₚ mempool_objs mp q.
Proof using.
  intros Hmp Hl Hn. destruct (with_default_cache_run mp q l (rte_mempool_generic_get n tbl) Hmp Hl)
    as (rest & Hv & Hobjs & Hrun).
  destruct (get_correct _ q n tbl Hv Hn) as (v' & q' & rc & tbl' & E & Hv' & Hsame & Hp).
  destruct (Hrun v' q' _ E Hv' Hsame) as (mp' & E' & Hmp' & Hs & Ho & _).
  exists mp', q', rc, tbl'. split_and!; try done. unfold can_get. destruct (satisfiable _ _ _).
  - destruct Hp as (-> & got & H1 & H2 & H3). split; [done|]. exists got. split_and!; try done.
    by rewrite Hobjs, H3, Ho, app_assoc.
  - destruct Hp as (Hrc & -> & Hp). split_and!; try done. by rewrite Ho, Hp, Hobjs.
Qed.

Lemma flush_run mp q l :
  mempool_ok mp q -> 0 <= l -> Z.of_nat (length (mempool_objs mp q)) <= pd_cap (pool_data mp) ->
  exists mp' q', with_default_cache l rte_mempool_cache_flush mp = (mp', Ret tt) /\ mempool_ok mp' q' /\ same_pool mp mp'
    /\ mempool_objs mp' q' ≡ₚ mempool_objs mp q.
Proof using.
  intros Hmp Hl Hcap. destruct (with_default_cache_run mp q l rte_mempool_cache_flush Hmp Hl) as (rest & Hv & Hobjs & Hrun).
  pose proof (Permutation_length Hobjs) as Hlen. rewrite length_app in Hlen.
  destruct (flush_correct _ q Hv) as (v' & q' & E & Hv' & Hsame & Hp & _); [cbn [view_data]; lia|].
  destruct (Hrun v' q' tt E Hv' Hsame) as (mp' & E' & Hmp' & Hs & Ho & _).
  exists mp', q'. split_and!; try done. by rewrite Ho, Hp, Hobjs.
Qed.

(** ** Counting *)

Lemma avail_count_run mp q :
  mempool_ok mp q -> Z.of_nat (length (mempool_objs mp q)) <= pd_cap (pool_data mp) ->
  rte_mempool_avail_count mp
  = if cache_size mp =? 0 then Z.of_nat (length (mempool_objs mp q))
    else Z.min (Z.of_nat (length (mempool_objs mp q))) (mp_size mp).
Proof using.
  intros [Hq Hc] Hcap. pose proof (pd_bound _ _ Hq) as [_ Hb]. unfold rte_mempool_avail_count. rewrite (pd_count _ _ Hq).
  unfold caches_ok, mempool_objs in *. rewrite length_app in *.
  destruct (cache_size mp =? 0); [rewrite Hc; done|]. destruct Hc as [_ Hall].
  assert (forall ks c0, Forall (fun k => cache_ok k /\ cache_sz k = cache_size mp) ks -> 0 <= c0 ->
    c0 + Z.of_nat (length (concat (held <$> ks))) < 2 ^ 32 ->
    foldl (fun count k => count +[32] cache_len k) c0 ks = c0 + Z.of_nat (length (concat (held <$> ks)))) as Hfold.
  { intros ks c0 Hks. revert c0. induction Hks as [|k ks [Hk _] _ IH]; intros c0 Hc0 Hlt; cbn in *; [lia|].
    rewrite length_app in *. pose proof (length_held k Hk). destruct (cache_bounds k Hk) as (_ & Hlk & _).
    rewrite (wrap_small 32 (c0 + _)) by clia. rewrite IH by lia. lia. }
  rewrite Hfold by (done || lia). destruct (Z.ltb_spec (mp_size mp) (Z.of_nat (length q) + Z.of_nat (length (concat (held <$> local_cache mp))))); lia.
Qed.

Lemma audit_run mp q : mempool_ok mp q -> rte_mempool_audit mp mp = (mp, Ret tt).
Proof using.
  intros [_ Hc]. unfold rte_mempool_audit, mempool_audit_cache, caches_ok in *. destruct (cache_size mp =? 0); [done|].
  destruct Hc as [_ Hall]. assert (forallb (fun k => negb (flushthresh k <? cache_len k)) (local_cache mp) = true) as ->; [|done].
  apply forallb_forall. intros k Hk. apply list_elem_of_In in Hk.
  rewrite Forall_forall in Hall. destruct (Hall k Hk) as [[_ _ H _] _]. destruct (Z.ltb_spec (flushthresh k) (cache_len k)); lia || done.
Qed.

(** ** Clients of the pool *)

(** An application on several lcores that gets objects, keeps them in [out], and
    puts back objects it has; a failed get leaves it what it had. *)
Inductive client_step : rte_mempool D * list Z -> rte_mempool D * list Z -> Prop :=
| client_get l n tbl mp out mp' rc tbl' :
    0 <= l -> 0 < n <= Z.of_nat (length tbl) ->
    rte_mempool_get_bulk l n tbl mp = (mp', Ret (rc, tbl')) ->
    client_step (mp, out) (mp', if rc =? 0 then take (Z.to_nat n) tbl' ++ out else out)
| client_put l n tbl mp out out' mp' :
    0 <= l -> 0 < n <= Z.of_nat (length tbl) -> out ≡ₚ take (Z.to_nat n) tbl ++ out' ->
    rte_mempool_put_bulk l tbl n mp = (mp', Ret tt) ->
    client_step (mp, out) (mp', out')
| client_flush l mp out mp' :
    0 <= l -> with_default_cache l rte_mempool_cache_flush mp = (mp', Ret tt) ->
    client_step (mp, out) (mp', out).

(** The pool and the clients together have the objects [all], and they fit the driver. *)
Definition client_inv (mp0 : rte_mempool D) (all : list Z) (s : rte_mempool D * list Z) : Prop :=
  exists q, mempool_ok s.1 q /\ same_pool mp0 s.1 /\ mempool_objs s.1 q ++ s.2 ≡ₚ all.

Lemma same_pool_trans mp1 mp2 mp3 : same_pool mp1 mp2 -> same_pool mp2 mp3 -> same_pool mp1 mp3.
Proof using. intros [H1 E1] [H2 E2]. split; [congruence|]. rewrite E2, E1. by destruct mp1. Qed.

Lemma client_inv_step mp0 all s s' :
  Z.of_nat (length all) <= pd_cap (pool_data mp0) -> client_step s s' -> client_inv mp0 all s -> client_inv mp0 all s'.
Proof using LAWS.
  intros Hcap Hstep (q & Hmp & Hsame & Hall). pose proof (Permutation_length Hall) as Hlen. rewrite length_app in Hlen.
  pose proof Hsame as [Hc _]. destruct Hstep as [l n tbl mp out mp' rc tbl' Hl Hn E|l n tbl mp out out' mp' Hl Hn Ho E|l mp out mp' Hl E];
    cbn [fst snd] in *.
  - destruct (get_bulk_run mp q l n tbl Hmp Hl Hn) as (mp1 & q' & rc' & tbl1 & E' & Hmp' & Hs' & Hres).
    rewrite E in E'. injection E' as <- <- <-. exists q'. split; [done|]. split; [by eapply same_pool_trans|].
    destruct (can_get mp q l n).
    + destruct Hres as (-> & got & H1 & -> & H3). cbn [Z.eqb fst snd]. rewrite take_app_length' by lia.
      rewrite <- Hall, H3. solve_Permutation.
    + destruct Hres as (Hrc & _ & Hp). destruct (Z.eqb_spec rc 0); [lia|]. cbn [fst snd]. by rewrite Hp.
  - pose proof (Permutation_length Ho) as Hlo. rewrite length_app, length_take in Hlo.
    destruct (put_bulk_run mp q l tbl n Hmp Hl Hn) as (mp1 & q' & E' & Hmp' & Hs' & Hp); [lia|].
    rewrite E in E'. injection E' as <-. exists q'. split; [done|]. split; [by eapply same_pool_trans|].
    cbn [fst snd]. rewrite Hp, <- Hall, Ho. solve_Permutation.
  - destruct (flush_run mp q l Hmp Hl) as (mp1 & q' & E' & Hmp' & Hs' & Hp); [lia|].
    rewrite E in E'. injection E' as <-. exists q'. split; [done|]. split; [by eapply same_pool_trans|].
    cbn [fst snd]. by rewrite Hp.
Qed.
End Contract.

(** ** Properties *)

(** C23. Conservation: start from a pool whose objects fit the driver, and let an
    application on any number of lcores get objects, put back objects it has and
    flush caches, in any order, through any driver that keeps the contract.  The
    free objects and those the application has are then exactly the initial ones:
    none is lost or handed out twice, the consistency check of the pool passes,
    the number of objects in use is what the application has, and the next get
    and the next put of objects it has return. *)
Theorem mempool_conservation {D} `{!PoolDriver D} `{!PoolDriverLaws D} (mp0 mp : rte_mempool D) q0 out :
  mempool_ok mp0 q0 -> Z.of_nat (length (mempool_objs mp0 q0)) <= pd_cap (pool_data mp0) ->
  rtc client_step (mp0, []) (mp, out) ->
  exists q, mempool_ok mp q /\ mempool_objs mp q ++ out ≡ₚ mempool_objs mp0 q0
    /\ (NoDup (mempool_objs mp0 q0) -> NoDup out /\ forall x, x ∈ out -> x ∉ mempool_objs mp q)
    /\ rte_mempool_audit mp mp = (mp, Ret tt)
    /\ (Z.of_nat (length (mempool_objs mp0 q0)) = mp_size mp0 -> rte_mempool_in_use_count mp = Z.of_nat (length out))
    /\ forall l n tbl, 0 <= l -> 0 < n <= Z.of_nat (length tbl) ->
         (exists mp' r, rte_mempool_get_bulk l n tbl mp = (mp', Ret r))
         /\ (forall rest, out ≡ₚ take (Z.to_nat n) tbl ++ rest ->
             exists mp', rte_mempool_put_bulk l tbl n mp = (mp', Ret tt)).
Proof.
  intros Hmp0 Hcap Hsteps.
  assert (client_inv mp0 (mempool_objs mp0 q0) (mp, out)) as (q & Hmp & Hsame & Hall).
  { apply (rtc_ind_r (fun s => client_inv mp0 (mempool_objs mp0 q0) s) (mp0, [])) in Hsteps; [done| |].
    - exists q0. cbn [fst snd]. rewrite app_nil_r. split_and!; try done. split; [done|by destruct mp0].
    - intros s s' _ Hstep Hinv. by eapply client_inv_step. }
  cbn [fst snd] in *. pose proof Hsame as [Hc Emp]. pose proof (Permutation_length Hall) as Hlen. rewrite length_app in Hlen.
  pose proof (pd_bound _ _ (proj1 Hmp0)) as Hb.
  exists q. split; [done|]. split; [done|]. split_and!.
  - intros Hnd. rewrite <- Hall in Hnd. apply NoDup_app in Hnd as (_ & Hx & Ho). split; [done|].
    intros x Hin Hx'. by apply (Hx x).
  - by eapply audit_run.
  - intros Hsz. unfold rte_mempool_in_use_count. rewrite (avail_count_run mp q Hmp) by lia.
    assert (mp_size mp = mp_size mp0) as -> by (by rewrite Emp). destruct (cache_size mp =? 0).
    + rewrite wrap_small by clia. lia.
    + rewrite Z.min_l, wrap_small by clia. lia.
  - intros l n tbl Hl Hn. split.
    + destruct (get_bulk_run mp q l n tbl Hmp Hl Hn) as (mp' & _ & rc & tbl' & E & _). eauto.
    + intros rest Ho. apply Permutation_length in Ho. rewrite length_app, length_take in Ho.
      destruct (put_bulk_run mp q l tbl n Hmp Hl Hn) as (mp' & _ & E & _); [lia|]. eauto.
Qed.

(** C24. A bulk get takes [n] objects, which leave the pool, or fails and changes
    nothing.  It succeeds exactly when the driver has [n] objects, or the cache
    of the lcore has them and [n] is less than the cache size: objects of the cache
    and of the driver are not put together when both fall short, and a request
    of the cache size or more never looks into the cache. *)
Theorem rte_mempool_get_bulk_correct {D} `{!PoolDriver D} `{!PoolDriverLaws D} (mp : rte_mempool D) q l n tbl :
  mempool_ok mp q -> 0 <= l -> 0 < n <= Z.of_nat (length tbl) ->
  let cached := match lcore_cache mp l with Some k => (n <? cache_size mp) && (n <=? cache_len k) | None => false end in
  exists mp' q' rc tbl', rte_mempool_get_bulk l n tbl mp = (mp', Ret (rc, tbl')) /\ mempool_ok mp' q' /\ same_pool mp mp'
    /\ if cached || (n <=? Z.of_nat (length q))
       then rc = 0 /\ exists got, Z.of_nat (length got) = n /\ tbl' = got ++ drop (Z.to_nat n) tbl
            /\ mempool_objs mp q ≡ₚ got ++ mempool_objs mp' q'
       else rc < 0 /\ tbl' = tbl /\ mempool_objs mp' q' ≡ₚ mempool_objs mp q.
Proof.
  intros Hmp Hl Hn cached. destruct (get_bulk_run mp q l n tbl Hmp Hl Hn) as (mp' & q' & rc & tbl' & H1 & H2 & H3 & H4).
  exists mp', q', rc, tbl'. split_and!; try done.
  assert (can_get mp q l n = cached || (n <=? Z.of_nat (length q))) as <-; [|done].
  unfold can_get, satisfiable, cached. cbn [view_cache]. destruct (lcore_cache mp l) as [k|] eqn:Ek; [|done].
  unfold lcore_cache in Ek. destruct (rte_mempool_default_cache mp l) as [i|] eqn:Ei; [|done].
  destruct (lcore_cache_some mp l i (proj2 Hmp) Hl Ei) as (l1 & k' & l2 & El & -> & _ & <-).
  cbn in Ek. rewrite El, list_lookup_middle in Ek by done. by injection Ek as ->.
Qed.

(** A put that stays below the threshold and a get from the cache leave the driver alone. *)
Section Cached.
Context {D : Type} `{!PoolDriver D} (d : D) (k : rte_mempool_cache) (n : Z).
Context (Hok : cache_ok k) (Hsz : n < cache_sz k).

Lemma put_cached tbl :
  0 < n <= Z.of_nat (length tbl) -> cache_len k + n < flushthresh k ->
  rte_mempool_generic_put tbl n (mk_view d (Some k))
  = (mk_view d (Some (k <| cache_objs := pushed k tbl n |> <| cache_len := cache_len k + n |>)), Ret tt).
Proof using Hok Hsz.
  intros Hn Hth. destruct (cache_bounds k Hok) as (Hs & Hlen & _ & Hobjs).
  unfold rte_mempool_generic_put, __mempool_generic_put. erewrite bind_ret; [|reflexivity]. cbn [view_cache].
  destruct (Z.ltb_spec RTE_MEMPOOL_CACHE_MAX_SIZE n); [unfold RTE_MEMPOOL_CACHE_MAX_SIZE in *; lia|].
  assert (copy_up (Z.to_nat n) tbl 0 (cache_objs k) (Z.to_nat (cache_len k)) = Some (pushed k tbl n)) as ->
    by (apply copy_up_spec; lia).
  rewrite (wrap_small 32) by clia. erewrite bind_ret; [|reflexivity]. cbv zeta.
  erewrite bind_ret; [|reflexivity]. change (_ <=? _) with (flushthresh k <=? cache_len k + n).
  by destruct (Z.leb_spec (flushthresh k) (cache_len k + n)); [lia|].
Qed.

Lemma get_cached tbl :
  0 < n <= Z.of_nat (length tbl) -> n <= cache_len k ->
  rte_mempool_generic_get n tbl (mk_view d (Some k))
  = (mk_view d (Some (k <| cache_len := cache_len k - n |>)),
     Ret (0, rev (drop (Z.to_nat (cache_len k - n)) (held k)) ++ drop (Z.to_nat n) tbl)).
Proof using Hok Hsz.
  intros Hn Hl. destruct (cache_bounds k Hok) as (Hs & Hlen & _ & Hobjs).
  unfold rte_mempool_generic_get, __mempool_generic_get. erewrite bind_ret; [|reflexivity]. cbn [view_cache].
  destruct (Z.leb_spec (cache_sz k) n); [lia|]. destruct (Z.ltb_spec (cache_len k) n); [lia|].
  apply fill_response_run; lia.
Qed.
End Cached.

(** Objects that are put and got again by the same lcore come back, the last
    one first, without touching the driver, as long as they stay below the flush
    threshold and are fewer than the cache size; the pool has its objects as before. *)
Theorem mempool_put_get {D} `{!PoolDriver D} (mp : rte_mempool D) l i k n tbl tbl2 :
  rte_mempool_default_cache mp l = Some i -> local_cache mp !! i = Some k -> cache_ok k ->
  0 < n <= Z.of_nat (length tbl) -> n <= Z.of_nat (length tbl2) ->
  n < cache_sz k -> cache_len k + n < flushthresh k ->
  exists mp1 mp2, rte_mempool_put_bulk l tbl n mp = (mp1, Ret tt)
    /\ rte_mempool_get_bulk l n tbl2 mp1 = (mp2, Ret (0, rev (take (Z.to_nat n) tbl) ++ drop (Z.to_nat n) tbl2))
    /\ pool_data mp1 = pool_data mp /\ pool_data mp2 = pool_data mp
    /\ held <$> local_cache mp2 = held <$> local_cache mp.
Proof.
  intros Hi Hk Hok Hn Hn2 Hsz Hth. destruct (cache_bounds k Hok) as (Hs & Hlen & _ & Hobjs).
  destruct (held_pushed k tbl n Hok Hn ltac:(lia)) as (Hlp & Hhp).
  set (k1 := k <| cache_objs := pushed k tbl n |> <| cache_len := cache_len k + n |>).
  set (k2 := k1 <| cache_len := cache_len k + n - n |>).
  assert (cache_ok k1) as Hok1 by (destruct Hok; split; cbn; [done|done|lia|by rewrite Hlp]).
  assert (held k1 = held k ++ take (Z.to_nat n) tbl) as Hh1 by exact Hhp.
  pose proof (lookup_lt_Some _ _ _ Hk) as Hil. set (mp1 := mp <| local_cache := <[i := k1]> (local_cache mp) |>).
  assert (local_cache mp1 !! i = Some k1) as Hk1 by (by apply list_lookup_insert_eq).
  assert (length (held k) = Z.to_nat (cache_len k)) as Hlh by (pose proof (length_held k Hok); lia).
  exists mp1, (mp <| local_cache := <[i := k2]> (local_cache mp) |>). split_and!; try done.
  - unfold rte_mempool_put_bulk, with_default_cache. rewrite Hi, Hk, (put_cached _ k n Hok Hsz tbl Hn Hth). by destruct mp.
  - unfold rte_mempool_get_bulk, with_default_cache. change (rte_mempool_default_cache mp1 l) with (rte_mempool_default_cache mp l).
    rewrite Hi, Hk1, (get_cached _ k1 n Hok1 Hsz tbl2) by (lia || change (cache_len k1) with (cache_len k + n); lia).
    change (cache_len k1) with (cache_len k + n). rewrite Hh1.
    replace (Z.to_nat (cache_len k + n - n)) with (length (held k)) by lia. rewrite drop_app_length.
    unfold mp1. cbn [view_data view_cache default]. destruct mp; cbn. by rewrite list_insert_insert_eq.
  - change (local_cache (mp <| local_cache := ?l |>)) with l. rewrite list_fmap_insert.
    apply list_insert_id. rewrite list_lookup_fmap, Hk. cbn. f_equal.
    assert (held k2 = take (length (held k)) (held k1)) as ->.
    { unfold held at 1 3. cbn. rewrite take_take. f_equal. lia. }
    by rewrite Hh1, take_app_length.
Qed.

(** ** Witnesses *)

(** A pool of two objects over a stack, with caches of [cs] objects. *)
Definition example_pool (cs : Z) : rte_mempool rte_mempool_stack :=
  mk_mempool String.EmptyString (mk_stack 2 2 [101; 102]) 0 2 cs 64 64 0 0
    (replicate (Z.to_nat RTE_MAX_LCORE) (mempool_cache_init cs zeroed_cache)) 2 [] 1 [] 0.

Lemma example_pool_ok cs : 1 <= cs <= RTE_MEMPOOL_CACHE_MAX_SIZE -> mempool_ok (example_pool cs) [101; 102].
Proof.
  intros Hcs. split.
  - split; cbn; [split; [clia|lia]|lia|done].
  - unfold caches_ok. destruct (Z.eqb_spec (cache_size (example_pool cs)) 0) as [E|_]; [cbn in E; lia|].
    split; [apply length_replicate|]. apply Forall_replicate.
    destruct (cache_create_ok cs Hcs) as (k & E & Hok & _ & Hsz). unfold rte_mempool_cache_create in E.
    destruct ((cs =? 0) || _); [done|]. by injection E as <-.
Qed.

Lemma example_pool_objs cs : mempool_objs (example_pool cs) [101; 102] = [101; 102].
Proof.
  unfold mempool_objs. assert (concat (held <$> local_cache (example_pool cs)) = []) as ->; [|done].
  cbn [local_cache example_pool]. induction (Z.to_nat RTE_MAX_LCORE) as [|n IH]; [done|]. cbn. apply IH.
Qed.

Example mempool_conservation_witness :
  exists mp, rte_mempool_get_bulk 3 1 [0] (example_pool 2) = (mp, Ret (0, [102]))
    /\ rte_mempool_in_use_count mp = 1.
Proof.
  destruct (rte_mempool_get_bulk 3 1 [0] (example_pool 2)) as [mp o] eqn:E.
  assert (o = Ret (0, [102])) as -> by (change o with (snd (mp, o)); rewrite <- E; vm_compute; reflexivity).
  exists mp. split; [reflexivity|].
  destruct (mempool_conservation (example_pool 2) mp [101; 102] [102]) as (q & _ & _ & _ & _ & H & _).
  - by apply example_pool_ok.
  - rewrite example_pool_objs. cbn. lia.
  - apply rtc_once. apply (client_get 3 1 [0] (example_pool 2) [] mp 0 [102]); [lia|cbn; lia|exact E].
  - apply H. by rewrite example_pool_objs.
Defined.

Example rte_mempool_get_bulk_correct_witness :
  exists mp' rc, rte_mempool_get_bulk 0 3 [0; 0; 0] (example_pool 2) = (mp', Ret (rc, [0; 0; 0])) /\ rc < 0.
Proof.
  destruct (rte_mempool_get_bulk_correct (example_pool 2) [101; 102] 0 3 [0; 0; 0]) as (mp' & q' & rc & tbl' & H1 & _ & _ & H4).
  - by apply example_pool_ok.
  - lia.
  - cbn. lia.
  - assert (lcore_cache (example_pool 2) 0 = Some (mempool_cache_init 2 zeroed_cache)) as E by reflexivity.
    rewrite E in H4. destruct H4 as (H4 & -> & _). by exists mp', rc.
Defined.

Example mempool_put_get_witness :
  exists mp1 mp2, rte_mempool_put_bulk 1 [7; 8] 2 (example_pool 8) = (mp1, Ret tt)
    /\ rte_mempool_get_bulk 1 2 [0; 0; 5] mp1 = (mp2, Ret (0, [8; 7; 5])).
Proof.
  destruct (mempool_put_get (example_pool 8) 1 1 (mempool_cache_init 8 zeroed_cache) 2 [7; 8] [0; 0; 5])
    as (mp1 & mp2 & H1 & H2 & _).
  - reflexivity.
  - reflexivity.
  - destruct (cache_create_ok 8) as (k & E & Hok & _); [done|]. by injection E as <-.
  - cbn. lia.
  - cbn. lia.
  - reflexivity.
  - reflexivity.
  - exists mp1, mp2. done.
Defined.

(** With a cache of one object, what an lcore puts last stays in its cache:
    a later get does not look there, and fails once the driver is empty. *)
Example cache_of_one_strands :
  let mp := (example_pool 1) <| pool_data := mk_stack 2 0 [0; 0] |> in
  let mp1 := fst (rte_mempool_put 0 7 mp) in
  snd (rte_mempool_put 0 7 mp) = Ret tt /\ rte_mempool_avail_count mp1 = 1
  /\ snd (rte_mempool_get 0 0 mp1) = Ret (- Ring.ENOENT, [0]).
Proof. split_and!; vm_compute; reflexivity. Qed.
