(* ===== verification/MempoolLayout.v ===== *)
(** * The memory of a pool (lib/librte_mempool)

    The other half of the pool library: the size of an object with its header,
    trailer and the padding that spreads objects over the memory channels, the
    memory needed for a number of objects, cutting chunks of memory into objects
    ([rte_mempool_op_populate_default], [rte_mempool_populate_iova] and
    [rte_mempool_populate_virt]) and creating a pool.  What the environment layer
    answers (memory zones, IO addresses of pages, page sizes) is the record
    [mempool_env].  The data path of the pool is in [Mempool.v]. *)

From S2P Require Import Prelude Effects MempoolDrivers Mempool.
From Stdlib Require String.

(** ** Constants *)

Definition ENOSPC : Z := 28.
Definition EEXIST : Z := 17.
Definition MEMPOOL_F_NO_SPREAD : Z := 0x1.
Definition MEMPOOL_F_NO_CACHE_ALIGN : Z := 0x2.
Definition MEMPOOL_F_SP_PUT : Z := 0x4.
Definition MEMPOOL_F_SC_GET : Z := 0x8.
Definition MEMPOOL_F_POOL_CREATED : Z := 0x10.
Definition MEMPOOL_F_NO_IOVA_CONTIG : Z := 0x20.
Definition RTE_MEMPOOL_ALIGN : Z := RTE_CACHE_LINE_SIZE.
Definition RTE_MEMPOOL_ALIGN_MASK : Z := RTE_MEMPOOL_ALIGN - 1.
Definition RTE_BAD_IOVA : Z := 2 ^ 64 - 1.
Definition sizeof_rte_mempool_objhdr : Z := 24.

Definition flag_set (flags f : Z) : bool := negb (Z.land flags f =? 0).

(** [RTE_ALIGN_CEIL] on a [w]-bit value. *)
Definition RTE_ALIGN_CEIL (w v a : Z) : Z := Z.land (v +[w] (a -[w] 1)) (wrap w (Z.lnot (a -[w] 1))).

(** ** The size of an object *)

Definition gcd_body (p : Z * Z) : (Z * Z) + Z :=
  let '(a, b) := p in if b =? 0 then inr a else inl (b, a mod b).

Definition get_gcd (fuel : nat) (a b : Z) : option Z :=
  if a =? 0 then Some b
  else if b =? 0 then Some a
  else run_loop gcd_body fuel (if a <? b then (b, a) else (a, b)).

(** Steps enough for the division algorithm on 32 bits. *)
Definition gcd_fuel : nat := 66.

(** [while (get_gcd(new_obj_size, nrank * nchan) != 1) new_obj_size++;] *)
Definition spread_body (k n : Z) : Z + option Z :=
  match get_gcd gcd_fuel n k with
  | None => inr None
  | Some g => if g =? 1 then inr (Some n) else inl (n +[32] 1)
  end.

(** [nchannel] and [nrank] are what [rte_memory_get_nchannel] and
    [rte_memory_get_nrank] return, 0 when unknown. *)
Definition optimize_object_size (fuel : nat) (nchannel nrank obj_size : Z) : option Z :=
  let nchan := if nchannel =? 0 then 4 else nchannel in
  let nrank := if nrank =? 0 then 1 else nrank in
  let new_obj_size := (obj_size +[32] RTE_MEMPOOL_ALIGN_MASK) / RTE_MEMPOOL_ALIGN in
  match run_loop (spread_body (nrank *[32] nchan)) fuel new_obj_size with
  | Some (Some n) => Some (n *[32] RTE_MEMPOOL_ALIGN)
  | _ => None
  end.

Record rte_mempool_objsz := mk_objsz {
  sz_elt : Z;
  sz_header : Z;
  sz_trailer : Z;
  sz_total : Z }.

Definition rte_mempool_calc_obj_size (fuel : nat) (nchannel nrank elt_size flags : Z) : option rte_mempool_objsz :=
  let header := sizeof_rte_mempool_objhdr in
  let header := if negb (flag_set flags MEMPOOL_F_NO_CACHE_ALIGN)
                then RTE_ALIGN_CEIL 32 header RTE_MEMPOOL_ALIGN else header in
  let trailer := 0 in
  let elt := RTE_ALIGN_CEIL 32 elt_size 8 in
  let trailer :=
    if negb (flag_set flags MEMPOOL_F_NO_CACHE_ALIGN) then
      let total := header +[32] elt +[32] trailer in
      trailer +[32] Z.land (RTE_MEMPOOL_ALIGN -[32] Z.land total RTE_MEMPOOL_ALIGN_MASK) RTE_MEMPOOL_ALIGN_MASK
    else trailer in
  trailer ← (if negb (flag_set flags MEMPOOL_F_NO_SPREAD) then
    new_size ← optimize_object_size fuel nchannel nrank (header +[32] elt +[32] trailer);
    Some (new_size -[32] header -[32] elt)
  else Some trailer);
  Some (mk_objsz elt header trailer (header +[32] elt +[32] trailer)).

(** *** The greatest common divisor *)

Lemma gcd_loop w a b fuel :
  0 <= w -> 0 <= b -> b < 2 ^ w -> b <= a -> (2 * Z.to_nat w + 1 < fuel)%nat ->
  run_loop gcd_body fuel (a, b) = Some (Z.gcd a b).
Proof.
  intros Hw. revert a b fuel. pattern w. apply natlike_ind; [| |done]; clear w Hw.
  - intros a b fuel Hb Hlt Hle Hf. destruct fuel as [|fuel]; [lia|]. assert (b = 0) as -> by (simpl in Hlt; lia).
    simpl. f_equal. rewrite Z.gcd_0_r. lia.
  - intros w Hw IH a b fuel Hb Hlt Hle Hf. destruct fuel as [|[|fuel]]; [lia|lia|].
    simpl. destruct (Z.eqb_spec b 0) as [->|Hb0]; [f_equal; rewrite Z.gcd_0_r; lia|].
    pose proof (Z.mod_pos_bound a b ltac:(lia)) as Hr. set (r := a mod b) in *.
    assert (Z.gcd a b = Z.gcd b r) as -> by (unfold r; rewrite (Z.gcd_comm b), Z.gcd_mod by lia; apply Z.gcd_comm).
    unfold gcd_body at 1.     destruct (Z.eqb_spec r 0) as [E|Hr0]; [rewrite E, Z.gcd_0_r; simpl; f_equal; lia|].
    pose proof (Z.mod_pos_bound b r ltac:(lia)) as Hr2.
    assert (Z.gcd b r = Z.gcd r (b mod r)) as -> by (rewrite (Z.gcd_comm r), Z.gcd_mod by lia; apply Z.gcd_comm).
    apply IH; [lia| |lia|lia].
    rewrite Z.pow_succ_r in Hlt by lia. pose proof (Z.div_mod b r ltac:(lia)).
    assert (1 <= b / r) by (apply Z.div_le_lower_bound; lia). nia.
Qed.

Lemma get_gcd_correct a b : in_range 32 a -> in_range 32 b -> get_gcd gcd_fuel a b = Some (Z.gcd a b).
Proof.
  unfold in_range, get_gcd. intros Ha Hb. destruct (Z.eqb_spec a 0) as [->|Ha0]; [rewrite Z.gcd_0_l; f_equal; lia|].
  destruct (Z.eqb_spec b 0) as [->|Hb0]; [rewrite Z.gcd_0_r; f_equal; lia|].
  destruct (Z.ltb_spec a b).
  - rewrite Z.gcd_comm. apply (gcd_loop 32); unfold gcd_fuel; lia.
  - apply (gcd_loop 32); unfold gcd_fuel; lia.
Qed.

(** *** Spreading objects over the channels *)

(** Among [k] successive numbers one has no common divisor with [k]. *)
Lemma coprime_near n k : 0 < k -> 0 <= n -> exists d, 0 <= d < k /\ Z.gcd (n + d) k = 1.
Proof.
  intros Hk Hn. exists ((1 - n) mod k). split; [by apply Z.mod_pos_bound|].
  rewrite <- Z.gcd_mod_l by lia. rewrite Zplus_mod_idemp_r. replace (n + (1 - n)) with 1 by lia.
  rewrite Z.gcd_mod_l by lia. apply Z.gcd_1_l.
Qed.

Lemma spread_loop k n d fuel :
  in_range 32 k -> 0 <= n -> 0 <= d -> n + d < 2 ^ 32 -> Z.gcd (n + d) k = 1 ->
  (forall j, 0 <= j < d -> Z.gcd (n + j) k <> 1) -> (Z.to_nat d < fuel)%nat ->
  run_loop (spread_body k) fuel n = Some (Some (n + d)).
Proof.
  intros Hk Hn Hd. remember (Z.to_nat d) as m eqn:Em. revert n d fuel Hn Hd Em.
  induction m as [|m IH]; intros n d fuel Hn Hd Em Hb Hg Hj Hf; (destruct fuel as [|fuel]; [lia|]); simpl.
  - assert (d = 0) as -> by lia. rewrite Z.add_0_r in *. unfold spread_body.
    rewrite get_gcd_correct by (done || (unfold in_range; lia)). by rewrite Hg.
  - unfold spread_body at 1. rewrite get_gcd_correct by (done || (unfold in_range; lia)).
    specialize (Hj 0 ltac:(lia)) as H0. rewrite Z.add_0_r in H0.
    destruct (Z.eqb_spec (Z.gcd n k) 1); [done|]. rewrite (wrap_small 32) by (unfold in_range; lia).
    replace (n + d) with (n + 1 + (d - 1)) by lia. apply IH; try lia.
    + by replace (n + 1 + (d - 1)) with (n + d) by lia.
    + intros j Hjd. replace (n + 1 + j) with (n + (j + 1)) by lia. apply Hj. lia.
Qed.

(** The least number from [n] on without a common divisor with [k]. *)
Lemma first_coprime n k :
  0 < k -> 0 <= n ->
  exists d, 0 <= d < k /\ Z.gcd (n + d) k = 1 /\ forall j, 0 <= j < d -> Z.gcd (n + j) k <> 1.
Proof.
  intros Hk Hn. destruct (coprime_near n k Hk Hn) as (d0 & Hd0 & Hg0).
  assert (forall m d, Z.of_nat m = d -> Z.gcd (n + d) k = 1 ->
    exists d', 0 <= d' <= d /\ Z.gcd (n + d') k = 1 /\ forall j, 0 <= j < d' -> Z.gcd (n + j) k <> 1) as Hmin.
  { induction m as [m IH] using lt_wf_ind. intros d Em Hg.
    destruct (decide (Exists (fun j => Z.gcd (n + j) k = 1) (seqZ 0 d))) as [Hex|Hno].
    - apply Exists_exists in Hex as (j & Hj%elem_of_seqZ & Hgj).
      destruct (IH (Z.to_nat j) ltac:(lia) j ltac:(lia) Hgj) as (d' & Hd' & H1 & H2). exists d'. split; [lia|]. done.
    - exists d. split; [lia|]. split; [done|]. intros j Hj Hgj. apply Hno, Exists_exists. exists j.
      split; [apply elem_of_seqZ; lia|done]. }
  destruct (Hmin (Z.to_nat d0) d0) as (d & Hd & H1 & H2); [lia|done|]. exists d. split; [lia|]. done.
Qed.

(** The number of channels times ranks the objects are spread over. *)
Definition spread_ways (nchannel nrank : Z) : Z :=
  (if nrank =? 0 then 1 else nrank) * (if nchannel =? 0 then 4 else nchannel).

Lemma optimize_size_run fuel nchannel nrank sz :
  0 <= nchannel -> 0 <= nrank -> 0 <= sz -> sz + 64 * spread_ways nchannel nrank + 64 < 2 ^ 32 ->
  (Z.to_nat (spread_ways nchannel nrank) < fuel)%nat ->
  exists m, optimize_object_size fuel nchannel nrank sz = Some (64 * m)
    /\ sz <= 64 * m < sz + 64 * spread_ways nchannel nrank + 64 /\ Z.gcd m (spread_ways nchannel nrank) = 1
    /\ forall j, sz <= 64 * j < 64 * m -> Z.gcd j (spread_ways nchannel nrank) <> 1.
Proof.
  intros Hc Hr Hs Hb Hf. unfold optimize_object_size, RTE_MEMPOOL_ALIGN_MASK, RTE_MEMPOOL_ALIGN, RTE_CACHE_LINE_SIZE.
  unfold spread_ways in *. set (c := if nchannel =? 0 then 4 else nchannel) in *. set (r := if nrank =? 0 then 1 else nrank) in *.
  assert (0 < r * c) as Hrc by (unfold c, r; destruct (Z.eqb_spec nchannel 0), (Z.eqb_spec nrank 0); nia).
  set (k := r * c) in *. rewrite (wrap_small 32 k) by (unfold in_range; lia). rewrite (wrap_small 32) by (unfold in_range; lia).
  change (64 - 1) with 63. set (n0 := (sz + 63) / 64).
  assert (sz <= 64 * n0 < sz + 64) as Hn0 by (unfold n0; Z.div_mod_to_equations; lia).
  destruct (first_coprime n0 k Hrc ltac:(lia)) as (d & Hd & Hg & Hmin).
  rewrite (spread_loop k n0 d fuel) by (done || (unfold in_range; lia) || lia).
  exists (n0 + d). rewrite (Z.mul_comm (n0 + d) 64), wrap_small by (unfold in_range; lia).
  split; [done|]. split; [lia|]. split; [done|]. intros j Hj. replace j with (n0 + (j - n0)) by lia. apply Hmin. lia.
Qed.

(** *** Rounding up *)

Lemma align_ceil_spec w k v :
  0 <= k < w -> 0 <= v -> v + 2 ^ k <= 2 ^ w ->
  RTE_ALIGN_CEIL w v (2 ^ k) = (v + 2 ^ k - 1) / 2 ^ k * 2 ^ k.
Proof.
  intros Hk Hv Hb. unfold RTE_ALIGN_CEIL. pose proof (Z.pow_pos_nonneg 2 k ltac:(lia) ltac:(lia)).
  rewrite (wrap_small w (2 ^ k - 1)), (wrap_small w (v + _)) by (unfold in_range; lia).
  replace (v + (2 ^ k - 1)) with (v + 2 ^ k - 1) by lia. set (x := v + 2 ^ k - 1).
  assert (in_range w x) as Hx by (unfold in_range, x; lia).
  rewrite <- Z.shiftr_div_pow2, <- Z.shiftl_mul_pow2 by lia. replace (2 ^ k - 1) with (Z.ones k) by (rewrite Z.ones_equiv; lia).
  zbits. rewrite Z.lnot_spec by lia. destruct (Z.ltb_spec i k).
  - rewrite Z.ones_spec_low by lia. rewrite (Z.testbit_neg_r _ (i - k)) by lia. cbn. by rewrite andb_false_r, andb_false_r.
  - rewrite Z.ones_spec_high by lia. cbn. rewrite Z.shiftr_spec by lia. replace (i - k + k) with i by lia.
    destruct (Z.ltb_spec i w); cbn; [by rewrite andb_true_r|].
    rewrite andb_false_r. symmetry. by apply (in_range_testbit w); [lia|done|].
Qed.

Lemma align_ceil_bounds w k v :
  0 <= k < w -> 0 <= v -> v + 2 ^ k <= 2 ^ w ->
  v <= RTE_ALIGN_CEIL w v (2 ^ k) < v + 2 ^ k /\ RTE_ALIGN_CEIL w v (2 ^ k) mod 2 ^ k = 0.
Proof.
  intros Hk Hv Hb. rewrite align_ceil_spec by done. pose proof (Z.pow_pos_nonneg 2 k ltac:(lia) ltac:(lia)).
  split; [|by apply Z.mod_mul; lia]. pose proof (Z.div_mod (v + 2 ^ k - 1) (2 ^ k) ltac:(lia)).
  pose proof (Z.mod_pos_bound (v + 2 ^ k - 1) (2 ^ k) ltac:(lia)). lia.
Qed.

Lemma align_ceil_id w k v :
  0 <= k < w -> 0 <= v -> v + 2 ^ k <= 2 ^ w -> (2 ^ k | v) -> RTE_ALIGN_CEIL w v (2 ^ k) = v.
Proof.
  intros Hk Hv Hb [m ->]. pose proof (align_ceil_bounds w k (m * 2 ^ k) Hk Hv Hb) as [Hr Hm].
  pose proof (Z.pow_pos_nonneg 2 k ltac:(lia) ltac:(lia)).
  apply Z.mod_divide in Hm as [m' Hm']; [|lia]. rewrite Hm' in *. f_equal. nia.
Qed.

(** The trailer that fills the last line. *)
Lemma fill_line t :
  0 <= t < 2 ^ 32 ->
  let p := Z.land (RTE_MEMPOOL_ALIGN -[32] Z.land t RTE_MEMPOOL_ALIGN_MASK) RTE_MEMPOOL_ALIGN_MASK in
  0 <= p < 64 /\ (t + p) mod 64 = 0.
Proof.
  intros Ht p. unfold p, RTE_MEMPOOL_ALIGN_MASK, RTE_MEMPOOL_ALIGN, RTE_CACHE_LINE_SIZE. clear p.
  change (64 - 1) with (Z.ones 6). rewrite !Z.land_ones by lia. change (2 ^ 6) with 64.
  rewrite (wrap_small 32) by (unfold in_range; Z.div_mod_to_equations; lia). Z.div_mod_to_equations. lia.
Qed.

(** The size of an object: the element is rounded up to 8 bytes, the header holds
    the pool's header, and the parts add up to the total.  Unless told otherwise
    the object fills whole cache lines, and the search for the padding ends with a
    number of lines that has no common divisor with the number of channels times ranks. *)
Lemma calc_obj_size_run fuel nchannel nrank elt flags :
  0 <= nchannel -> 0 <= nrank -> 0 <= elt -> elt + 64 * spread_ways nchannel nrank + 512 < 2 ^ 32 ->
  (Z.to_nat (spread_ways nchannel nrank) < fuel)%nat ->
  exists sz, rte_mempool_calc_obj_size fuel nchannel nrank elt flags = Some sz
    /\ elt <= sz_elt sz < elt + 8 /\ sz_elt sz mod 8 = 0
    /\ sizeof_rte_mempool_objhdr <= sz_header sz <= 64 /\ 0 <= sz_trailer sz
    /\ sz_total sz = sz_header sz + sz_elt sz + sz_trailer sz
    /\ sz_total sz < elt + 64 * spread_ways nchannel nrank + 512
    /\ (flag_set flags MEMPOOL_F_NO_CACHE_ALIGN = false -> sz_header sz = 64 /\ sz_total sz mod 64 = 0)
    /\ (flag_set flags MEMPOOL_F_NO_SPREAD = false ->
        sz_total sz mod 64 = 0 /\ Z.gcd (sz_total sz / 64) (spread_ways nchannel nrank) = 1).
Proof.
  intros Hc Hr He Hb Hf. unfold rte_mempool_calc_obj_size.
  assert (0 < spread_ways nchannel nrank) as Hk
    by (unfold spread_ways; destruct (Z.eqb_spec nchannel 0), (Z.eqb_spec nrank 0); nia).
  destruct (align_ceil_bounds 32 3 elt) as [He1 He8]; [lia|lia|lia|]. change (2 ^ 3) with 8 in *.
  set (e := RTE_ALIGN_CEIL 32 elt 8) in *.
  set (header := if negb (flag_set flags MEMPOOL_F_NO_CACHE_ALIGN) then _ else _).
  assert (header = if flag_set flags MEMPOOL_F_NO_CACHE_ALIGN then 24 else 64) as Hh
    by (unfold header; by destruct (flag_set flags MEMPOOL_F_NO_CACHE_ALIGN)).
  assert (24 <= header <= 64) as Hh2 by (rewrite Hh; destruct (flag_set _ _); lia).
  set (trailer := if negb (flag_set flags MEMPOOL_F_NO_CACHE_ALIGN) then _ else _).
  assert (0 <= trailer < 64 /\ (flag_set flags MEMPOOL_F_NO_CACHE_ALIGN = false -> (header + e + trailer) mod 64 = 0)) as [Ht Ht64].
  { unfold trailer. destruct (flag_set flags MEMPOOL_F_NO_CACHE_ALIGN); cbn [negb]; [split; [lia|done]|].
    rewrite Z.add_0_r, Z.add_0_l. rewrite (wrap_small 32 (header + e)) by (unfold in_range; lia).
    rewrite (wrap_small 32 (header + e)) by (unfold in_range; lia).
    destruct (fill_line (header + e)) as [Hp1 Hp2]; [lia|]. rewrite (wrap_small 32) by (unfold in_range; lia). done. }
  clearbody header trailer. unfold sizeof_rte_mempool_objhdr.
  rewrite (wrap_small 32 (header + e)), (wrap_small 32 (header + e + trailer)) by (unfold in_range; lia).
  destruct (flag_set flags MEMPOOL_F_NO_SPREAD); cbn [negb mbind option_bind].
  - eexists. split; [reflexivity|]. cbn. rewrite (wrap_small 32) by (unfold in_range; lia).
    split_and!; try done; try lia. intros Hca. split; [by rewrite Hh, Hca|by apply Ht64].
  - destruct (optimize_size_run fuel nchannel nrank (header + e + trailer)) as (m & -> & Hm & Hg & _); [lia..|].
    eexists. split; [reflexivity|]. cbn [sz_elt sz_header sz_trailer sz_total].
    rewrite !(wrap_small 32) by (unfold in_range; rewrite ?(wrap_small 32) by (unfold in_range; lia); lia).
    replace (header + e + (64 * m - header - e)) with (64 * m) by lia.
    assert (64 * m mod 64 = 0) by (rewrite Z.mul_comm; apply Z.mod_mul; lia).
    assert (64 * m / 64 = m) as -> by (rewrite Z.mul_comm; apply Z.div_mul; lia).
    split_and!; try done; try lia. intros Hca. split; [by rewrite Hh, Hca|done].
Qed.

(** C25. The layout of the objects spreads them over the memory: unless told
    otherwise the size of an object is a whole number of cache lines, which the search
    for the padding always finds, such that any [channels * ranks] successive
    objects of a chunk start on pairwise different channels and ranks.  The element is
    rounded up to 8 bytes, the header has room for the pool's header, and the parts
    add up to the total. *)
Theorem objects_spread fuel nchannel nrank elt flags :
  0 <= nchannel -> 0 <= nrank -> 0 <= elt -> elt + 64 * spread_ways nchannel nrank + 512 < 2 ^ 32 ->
  (Z.to_nat (spread_ways nchannel nrank) < fuel)%nat -> flag_set flags MEMPOOL_F_NO_SPREAD = false ->
  exists sz, rte_mempool_calc_obj_size fuel nchannel nrank elt flags = Some sz
    /\ elt <= sz_elt sz < elt + 8 /\ sz_elt sz mod 8 = 0
    /\ sizeof_rte_mempool_objhdr <= sz_header sz /\ 0 <= sz_trailer sz
    /\ sz_total sz = sz_header sz + sz_elt sz + sz_trailer sz /\ sz_total sz mod 64 = 0
    /\ forall base i j, i < j < i + spread_ways nchannel nrank ->
         ((base + i * sz_total sz) / 64) mod spread_ways nchannel nrank
         <> ((base + j * sz_total sz) / 64) mod spread_ways nchannel nrank.
Proof.
  intros Hc Hr He Hb Hf Hs. destruct (calc_obj_size_run fuel nchannel nrank elt flags Hc Hr He Hb Hf)
    as (sz & Hrun & H1 & H2 & [H3 _] & H4 & H5 & _ & _ & Hspread).
  destruct (Hspread Hs) as [H64 Hg]. exists sz. split; [done|]. do 6 (split; [done|]). intros base i j Hij E.
  set (k := spread_ways nchannel nrank) in *. set (m := sz_total sz / 64) in *.
  assert (sz_total sz = m * 64) as Em by (unfold m; pose proof (Z.div_mod (sz_total sz) 64); lia).
  rewrite Em, !Z.mul_assoc, !Z.div_add in E by lia.
  assert ((base / 64 + j * m - (base / 64 + i * m)) mod k = 0) as E0.
  { rewrite Zminus_mod, E, Z.sub_diag. apply Z.mod_0_l. lia. }
  apply Z.mod_divide in E0; [|lia]. replace (base / 64 + j * m - (base / 64 + i * m)) with (m * (j - i)) in E0 by lia.
  apply Z.gauss in E0; [|by rewrite Z.gcd_comm]. apply Z.divide_pos_le in E0; lia.
Qed.

(** ** Memory for the objects *)

Definition total_elt_sz {D} (mp : rte_mempool D) : Z := header_size mp +[32] elt_size mp +[32] trailer_size mp.

(** The result and [*min_chunk_size], [*align]. *)
Definition rte_mempool_op_calc_mem_size_default {D} (mp : rte_mempool D) (obj_num pg_shift : Z) : Z * Z * Z :=
  let total := total_elt_sz mp in
  let mem_size :=
    if total =? 0 then 0
    else if pg_shift =? 0 then total *[64] obj_num
    else
      let pg_sz := 1 <<[64] pg_shift in
      let obj_per_page := pg_sz / total in
      if obj_per_page =? 0 then RTE_ALIGN_CEIL 64 total pg_sz *[64] obj_num
      else
        let pg_num := (obj_num +[64] obj_per_page -[64] 1) / obj_per_page in
        pg_num <<[64] pg_shift in
  (mem_size, Z.max (1 <<[64] pg_shift) total, Z.max RTE_CACHE_LINE_SIZE (1 <<[64] pg_shift)).

(** What the environment layer answers: whether [rte_zmalloc] finds memory, the IO
    address of a page, whether huge pages are used. *)
Record mempool_env := mk_mempool_env {
  rte_zmalloc_ok : bool;
  rte_mem_virt2iova : Z -> Z;
  rte_eal_has_hugepages : bool }.

Section Populate.
Context {D : Type} `{!PoolDriver D}.
(** [alloc mp] is [ops->alloc(mp)]: the driver's data, or a result that is not 0. *)
Context (env : mempool_env) (alloc : rte_mempool D -> D + Z).
Local Notation M := (comp (rte_mempool D)).

Definition lift_driver {A} (c : comp D A) : M A := fun mp =>
  let '(d, o) := c (pool_data mp) in (mp <| pool_data := d |>, o).

Definition mempool_add_elem (obj iova : Z) : M unit :=
  modify (fun mp => mp <| elt_list := elt_list mp ++ [mk_objhdr obj iova] |>
                       <| populated_size := populated_size mp +[32] 1 |>).

(** The IO address of byte [off], if the chunk has one. *)
Definition iova_at (iova off : Z) : Z := if iova =? RTE_BAD_IOVA then RTE_BAD_IOVA else iova +[64] off.

Definition rte_mempool_op_populate_default (max_objs vaddr iova len : Z) : M Z :=
  mp ← get;
  comp_loop (fun '(off, i) =>
    if (off +[64] total_elt_sz mp <=? len) && (i <? max_objs) then
      let off := off +[64] header_size mp in
      let obj := vaddr +[64] off in
      mempool_add_elem obj (iova_at iova off) ;;
      lift_driver (ops_enqueue [obj] 1) ;;
      mret (inl (off +[64] (elt_size mp +[32] trailer_size mp), i +[32] 1))
    else mret (inr (s32 i))) (S (Z.to_nat max_objs)) (0, 0).

Definition mempool_ops_alloc_once : M Z :=
  mp ← get;
  if flag_set (mp_flags mp) MEMPOOL_F_POOL_CREATED then mret 0
  else
    match alloc mp with
    | inr ret => mret ret
    | inl d =>
        modify (fun mp => mp <| pool_data := d |> <| mp_flags := Z.lor (mp_flags mp) MEMPOOL_F_POOL_CREATED |>) ;;
        mret 0
    end.

Definition rte_mempool_populate_iova (vaddr iova len : Z) : M Z :=
  ret ← mempool_ops_alloc_once;
  if negb (ret =? 0) then mret ret
  else
    mp ← get;
    if mp_size mp <=? populated_size mp then mret (- ENOSPC)
    else if negb (rte_zmalloc_ok env) then mret (- Ring.ENOMEM)
    else
      let off := RTE_ALIGN_CEIL 64 vaddr
        (if flag_set (mp_flags mp) MEMPOOL_F_NO_CACHE_ALIGN then 8 else RTE_CACHE_LINE_SIZE) -[64] vaddr in
      if len <? off then mret (- EINVAL)
      else
        i ← rte_mempool_op_populate_default (mp_size mp -[32] populated_size mp) (vaddr +[64] off)
              (iova_at iova off) (len -[64] off);
        if u32 i =? 0 then mret (- EINVAL)
        else
          modify (fun mp => mp <| mem_list := mem_list mp ++ [mk_memhdr vaddr iova len] |>
                               <| nb_mem_chunks := nb_mem_chunks mp +[32] 1 |>) ;;
          mret (s32 (u32 i)).

(** The objects are taken out of the driver one by one, then the chunks are freed. *)
Definition rte_mempool_free_memchunks : M unit :=
  mp ← get;
  comp_loop (fun _ : unit =>
    mp ← get;
    match elt_list mp with
    | [] => mret (inr tt)
    | _ :: l =>
        lift_driver (ops_dequeue 1 [0]) ;;
        modify (fun mp => mp <| elt_list := l |> <| populated_size := populated_size mp -[32] 1 |>) ;;
        mret (inl tt)
    end) (S (length (elt_list mp))) tt ;;
  modify (fun mp => mp <| mem_list := [] |> <| nb_mem_chunks := nb_mem_chunks mp -[32] Z.of_nat (length (mem_list mp)) |>).

(** [for (phys_len = pg_sz; off + phys_len < len; phys_len += pg_sz)]: the bytes from
    [addr + off] on whose IO addresses continue [iova]. *)
Definition contiguous_pages (fuel : nat) (addr off len iova pg_sz : Z) : option Z :=
  run_loop (fun phys_len =>
    if off +[64] phys_len <? len then
      let iova_tmp := rte_mem_virt2iova env (addr +[64] off +[64] phys_len) in
      if negb (iova_tmp =? iova +[64] phys_len) then inr phys_len else inl (phys_len +[64] pg_sz)
    else inr phys_len) fuel pg_sz.

Definition rte_mempool_populate_virt (fuel : nat) (addr len pg_sz : Z) : M Z :=
  if negb (RTE_ALIGN_CEIL 64 addr pg_sz =? addr) then mret (- EINVAL)
  else if negb (RTE_ALIGN_CEIL 64 len pg_sz =? len) then mret (- EINVAL)
  else
    mp ← get;
    if flag_set (mp_flags mp) MEMPOOL_F_NO_IOVA_CONTIG then rte_mempool_populate_iova addr RTE_BAD_IOVA len
    else
      comp_loop (fun '(off, cnt) =>
        mp ← get;
        if (off +[64] pg_sz <=? len) && (populated_size mp <? mp_size mp) then
          let iova := rte_mem_virt2iova env (addr +[64] off) in
          if (iova =? RTE_BAD_IOVA) && rte_eal_has_hugepages env then
            rte_mempool_free_memchunks ;; mret (inr (- EINVAL))
          else
            match contiguous_pages fuel addr off len iova pg_sz with
            | None => no_fuel
            | Some phys_len =>
                ret ← rte_mempool_populate_iova (addr +[64] off) iova phys_len;
                if ret <? 0 then rte_mempool_free_memchunks ;; mret (inr ret)
                else mret (inl (off +[64] phys_len, s32 (cnt + ret)))
            end
        else mret (inr cnt)) fuel (0, 0).
End Populate.

(** ** Cutting a chunk into objects *)

(** The first [cnt] objects of a chunk at [vaddr]. *)
Definition objects_at (vaddr iova total header cnt : Z) : list rte_mempool_objhdr :=
  (fun i => mk_objhdr (vaddr + (i * total + header)) (iova_at iova (i * total + header))) <$> seqZ 0 cnt.

(** The pool with the objects [l] added, which the driver [d] has taken. *)
Definition added {D} (l : list rte_mempool_objhdr) (d : D) (mp : rte_mempool D) : rte_mempool D :=
  mp <| pool_data := d |> <| elt_list := elt_list mp ++ l |>
     <| populated_size := populated_size mp + Z.of_nat (length l) |>.

Lemma added_nil {D} (d : D) mp : added [] d mp = mp <| pool_data := d |>.
Proof. unfold added. destruct mp; cbn. by rewrite app_nil_r, Z.add_0_r. Qed.

Lemma objects_at_next vaddr iova total header i :
  0 <= i -> objects_at vaddr iova total header (i + 1)
  = objects_at vaddr iova total header i ++ [mk_objhdr (vaddr + (i * total + header)) (iova_at iova (i * total + header))].
Proof.
  intros Hi. unfold objects_at. rewrite (seqZ_app 0 i 1) by lia. by rewrite fmap_app, Z.add_0_l.
Qed.

Lemma length_objects_at vaddr iova total header cnt :
  length (objects_at vaddr iova total header cnt) = Z.to_nat cnt.
Proof. unfold objects_at. by rewrite length_fmap, length_seqZ. Qed.

Lemma s32_small x : 0 <= x < 2 ^ 31 -> s32 x = x.
Proof. intros Hx. unfold sgn. rewrite wrap_small by clia. destruct (Z.ltb_spec x (2 ^ (32 - 1))); [done|clia]. Qed.

(** The objects [l], each with [header] bytes before its address and [rest] after it,
    follow each other between [lo] and [hi] without overlapping. *)
Fixpoint laid_out (header rest lo hi : Z) (l : list rte_mempool_objhdr) : Prop :=
  match l with
  | [] => lo <= hi
  | o :: l => lo <= obj_addr o - header /\ laid_out header rest (obj_addr o + rest) hi l
  end.

Section LaidOut.
Context (header rest : Z) (Hh : 0 <= header) (Hr : 0 < rest).

Lemma laid_out_le lo hi l : laid_out header rest lo hi l -> lo <= hi.
Proof using Hh Hr. revert lo. induction l as [|o l IH]; intros lo; simpl; [done|]. intros [H1 H2%IH]. lia. Qed.

Lemma laid_out_weaken lo lo' hi hi' l :
  lo' <= lo -> hi <= hi' -> laid_out header rest lo hi l -> laid_out header rest lo' hi' l.
Proof using.
  intros Hlo Hhi. revert lo lo' Hlo. induction l as [|o l IH]; intros lo lo' Hlo; simpl; [lia|].
  intros [H1 H2]. split; [lia|]. by apply (IH (obj_addr o + rest)).
Qed.

Lemma laid_out_app lo mid hi l1 l2 :
  laid_out header rest lo mid l1 -> laid_out header rest mid hi l2 -> laid_out header rest lo hi (l1 ++ l2).
Proof using.
  revert lo. induction l1 as [|o l1 IH]; intros lo; simpl.
  - intros Hle H. by apply (laid_out_weaken mid _ hi).
  - intros [H1 H2] H3. split; [done|]. by apply IH.
Qed.

Lemma laid_out_inside lo hi l o :
  laid_out header rest lo hi l -> o ∈ l -> lo <= obj_addr o - header /\ obj_addr o + rest <= hi.
Proof using Hh Hr.
  revert lo. induction l as [|o' l IH]; intros lo Hl Hin; [by apply elem_of_nil in Hin|].
  destruct Hl as [H1 H2]. apply elem_of_cons in Hin as [->|Hin].
  - split; [done|]. by apply laid_out_le in H2.
  - destruct (IH _ H2 Hin). split; [lia|done].
Qed.

(** Different objects have different addresses. *)
Lemma laid_out_nodup lo hi l : laid_out header rest lo hi l -> NoDup (obj_addr <$> l).
Proof using Hh Hr.
  revert lo. induction l as [|o l IH]; intros lo; simpl; [constructor|]. intros [H1 H2]. constructor; [|by eapply IH].
  intros (o' & E & Hin)%list_elem_of_fmap. destruct (laid_out_inside _ _ _ _ H2 Hin). lia.
Qed.

Lemma laid_out_objects vaddr iova cnt :
  0 <= cnt -> laid_out header rest vaddr (vaddr + cnt * (header + rest)) (objects_at vaddr iova (header + rest) header cnt).
Proof using Hh Hr.
  intros Hc. pattern cnt. apply natlike_ind; [| |done]; clear cnt Hc.
  - simpl. lia.
  - intros i Hi IH. rewrite <- Z.add_1_r, objects_at_next by done. apply (laid_out_app _ _ _ _ _ IH). simpl. lia.
Qed.
End LaidOut.

Section PopulateProofs.
Context {D : Type} `{DRV : !PoolDriver D} `{LAWS : !PoolDriverLaws D}.
Implicit Types (mp : rte_mempool D) (d : D).

(** The parts of an object add up without overflow. *)
Record sizes_ok mp : Prop := {
  so_header : 0 <= header_size mp;
  so_elt : 0 < elt_size mp;
  so_trailer : 0 <= trailer_size mp;
  so_total : header_size mp + elt_size mp + trailer_size mp < 2 ^ 32 }.

Lemma total_sum mp : sizes_ok mp -> total_elt_sz mp = header_size mp + elt_size mp + trailer_size mp.
Proof using. intros [? ? ? ?]. unfold total_elt_sz. rewrite !(wrap_small 32) by (rewrite ?(wrap_small 32) by clia; clia). done. Qed.

Lemma enqueue_one mp q obj :
  pd_holds (pool_data mp) q -> Z.of_nat (length q) + 1 <= pd_cap (pool_data mp) ->
  exists d rc, lift_driver (ops_enqueue [obj] 1) mp = (mp <| pool_data := d |>, Ret rc)
    /\ pd_holds d (q ++ [obj]) /\ pd_cap d = pd_cap (pool_data mp).
Proof using.
  intros Hq Hcap. pose proof (pd_bound _ _ Hq).
  destruct (pd_enqueue (pool_data mp) q [obj] 1 Hq) as (d & rc & q' & Hrun & Hc & Hq' & Hres); [simpl; lia|lia|].
  destruct (Z.leb_spec (Z.of_nat (length q) + 1) (pd_cap (pool_data mp))); [|lia]. destruct Hres as [-> _].
  exists d, rc. unfold lift_driver. by rewrite Hrun.
Qed.

(** Adding one object. *)
Lemma add_one mp q l d obj io :
  pd_holds d q -> Z.of_nat (length q) + 1 <= pd_cap d ->
  0 <= populated_size mp -> populated_size mp + Z.of_nat (length l) + 1 < 2 ^ 32 ->
  exists d', pd_holds d' (q ++ [obj]) /\ pd_cap d' = pd_cap d
    /\ forall A (k : comp (rte_mempool D) A),
         (mempool_add_elem obj io ;; lift_driver (ops_enqueue [obj] 1) ;; k) (added l d mp)
         = k (added (l ++ [mk_objhdr obj io]) d' mp).
Proof using LAWS.
  intros Hd Hcap Hp0 Hp. set (mp1 := fst (mempool_add_elem obj io (added l d mp))).
  destruct (enqueue_one mp1 q obj) as (d' & rc & Hrun & Hd' & Hc); [done|done|].
  exists d'. split_and!; try done. intros A k. erewrite bind_ret; [|reflexivity]. fold mp1. rewrite (bind_ret _ _ _ _ _ Hrun).
  f_equal. unfold mp1, added. cbn. rewrite length_app. cbn [length]. rewrite wrap_small by (unfold in_range; lia).
  destruct mp. cbv - [app length Nat.add Z.add Z.of_nat]. f_equal; [lia|by rewrite <- app_assoc].
Qed.

Lemma populate_default_run mp q max_objs vaddr iova len :
  sizes_ok mp -> pd_holds (pool_data mp) q -> 0 <= max_objs < 2 ^ 31 ->
  Z.of_nat (length q) + max_objs <= pd_cap (pool_data mp) -> 0 <= populated_size mp -> populated_size mp + max_objs < 2 ^ 32 ->
  0 <= vaddr -> 0 <= len -> vaddr + len < 2 ^ 64 -> len + total_elt_sz mp < 2 ^ 64 ->
  let cnt := Z.min max_objs (len / total_elt_sz mp) in
  let objs := objects_at vaddr iova (total_elt_sz mp) (header_size mp) cnt in
  exists d, rte_mempool_op_populate_default max_objs vaddr iova len mp = (added objs d mp, Ret cnt)
    /\ pd_holds d (q ++ (obj_addr <$> objs)) /\ pd_cap d = pd_cap (pool_data mp).
Proof using LAWS.
  intros Hs Hq Hmax Hcap Hp0 Hp Hv Hlen Hvl Hlt cnt objs.
  pose proof (total_sum mp Hs) as Ht. destruct Hs as [Hs1 Hs2 Hs3 Hs4]. set (total := total_elt_sz mp) in *.
  assert (0 <= cnt <= max_objs /\ cnt * total <= len /\ (cnt < max_objs -> len < (cnt + 1) * total)) as (Hc0 & Hc1 & Hc2).
  { unfold cnt. pose proof (Z.div_mod len total ltac:(lia)). pose proof (Z.mod_pos_bound len total ltac:(lia)).
    assert (0 <= len / total) by (apply Z.div_pos; lia). split; [lia|]. split; [|intros Hlt'; rewrite Z.min_r in * by lia; nia].
    destruct (Z.min_spec max_objs (len / total)) as [[? ->]|[? ->]]; nia. }
  unfold rte_mempool_op_populate_default. erewrite bind_ret; [|reflexivity].
  match goal with |- context [comp_loop ?b _ _] => set (body := b) end.
  destruct (comp_loop_total
    (fun '(off, i) s => off = i * total /\ 0 <= i <= cnt /\ exists d, s = added (objects_at vaddr iova total (header_size mp) i) d mp
       /\ pd_holds d (q ++ (obj_addr <$> objects_at vaddr iova total (header_size mp) i)) /\ pd_cap d = pd_cap (pool_data mp))
    (fun r s => r = cnt /\ exists d, s = added objs d mp /\ pd_holds d (q ++ (obj_addr <$> objs)) /\ pd_cap d = pd_cap (pool_data mp))
    (fun '(off, i) => Z.to_nat (max_objs - i)) body (S (Z.to_nat max_objs)) (0, 0) mp) as (s' & r & Hrun & -> & d & -> & Hd).
  - intros [off i] s (-> & Hi & d & -> & Hd & Hdc). unfold body. fold total.
    assert (0 <= i * total <= cnt * total) as Hit
      by (split; [apply Z.mul_nonneg_nonneg|apply Z.mul_le_mono_nonneg_r]; lia).
    rewrite (wrap_small 64 (i * total + total)) by (unfold in_range; lia).
    assert ((i * total + total <=? len) && (i <? max_objs) = (i <? cnt)) as ->.
    { destruct (Z.leb_spec (i * total + total) len), (Z.ltb_spec i max_objs), (Z.ltb_spec i cnt); try done; try lia.
      - destruct (Z.eq_dec i cnt) as [->|]; lia.
      - pose proof (Z.mul_le_mono_nonneg_r (i + 1) cnt total ltac:(lia) ltac:(lia)). lia. }
    destruct (Z.ltb_spec i cnt).
    + pose proof (Z.mul_le_mono_nonneg_r (i + 1) cnt total ltac:(lia) ltac:(lia)) as Hfit.
      rewrite (wrap_small 32 (elt_size mp + _)), (wrap_small 64 (i * total + header_size mp)) by (unfold in_range; lia).
      rewrite (wrap_small 64 (vaddr + _)), (wrap_small 64 (i * total + header_size mp + _)), (wrap_small 32 (i + 1)) by (unfold in_range; lia).
      destruct (add_one mp (q ++ (obj_addr <$> objects_at vaddr iova total (header_size mp) i))
        (objects_at vaddr iova total (header_size mp) i) d (vaddr + (i * total + header_size mp))
        (iova_at iova (i * total + header_size mp)) Hd) as (d' & Hd' & Hc' & Hrun);
        [rewrite length_app, length_fmap, length_objects_at; lia|lia|rewrite length_objects_at; lia|].
      rewrite Hrun. eexists _, _. split; [reflexivity|]. split; [|lia]. split; [lia|]. split; [lia|]. exists d'.
      rewrite objects_at_next by lia. rewrite fmap_app, app_assoc. split_and!; [done|done|congruence].
    + assert (i = cnt) as -> by lia. eexists _, (inr (s32 cnt)). split; [reflexivity|]. rewrite s32_small by lia.
      split; [done|]. by exists d.
  - split; [lia|]. split; [lia|]. exists (pool_data mp). split; [|split; [by rewrite app_nil_r|done]].
    unfold added, objects_at. destruct mp. cbn. by rewrite app_nil_r, Z.add_0_r.
  - lia.
  - exists d. by rewrite Hrun.
Qed.

(** ** A chunk of memory *)

(** The bytes skipped at the start of a chunk. *)
Definition chunk_align mp : Z := if flag_set (mp_flags mp) MEMPOOL_F_NO_CACHE_ALIGN then 8 else RTE_CACHE_LINE_SIZE.
Definition chunk_off mp vaddr : Z := (vaddr + chunk_align mp - 1) / chunk_align mp * chunk_align mp - vaddr.

(** The objects a pool makes of a chunk: as many as it is short of and as fit. *)
Definition placed mp vaddr iova len : list rte_mempool_objhdr :=
  let off := chunk_off mp vaddr in
  if len <? off then []
  else objects_at (vaddr + off) (iova_at iova off) (total_elt_sz mp) (header_size mp)
         (Z.min (mp_size mp - populated_size mp) ((len - off) / total_elt_sz mp)).

Definition with_chunk (vaddr iova len : Z) mp : rte_mempool D :=
  mp <| mem_list := mem_list mp ++ [mk_memhdr vaddr iova len] |> <| nb_mem_chunks := nb_mem_chunks mp +[32] 1 |>.

Lemma chunk_off_run mp vaddr :
  0 <= vaddr -> vaddr + 64 <= 2 ^ 64 ->
  RTE_ALIGN_CEIL 64 vaddr (chunk_align mp) -[64] vaddr = chunk_off mp vaddr
  /\ 0 <= chunk_off mp vaddr < chunk_align mp /\ chunk_align mp <= 64.
Proof using.
  intros Hv Hb. unfold chunk_off. assert (exists k, chunk_align mp = 2 ^ k /\ 0 <= k <= 6) as (k & Ek & Hk).
  { unfold chunk_align. destruct (flag_set _ _); [by exists 3|by exists 6]. }
  rewrite Ek. pose proof (Z.pow_le_mono_r 2 k 6 ltac:(lia) ltac:(lia)) as Hk6. change (2 ^ 6) with 64 in Hk6.
  destruct (align_ceil_bounds 64 k vaddr) as [Ha _]; [lia|lia|lia|].
  rewrite align_ceil_spec in * by lia. rewrite wrap_small by (unfold in_range; lia). lia.
Qed.

(** A pool that can take objects up to its size. *)
Record fillable mp q : Prop := {
  fl_sizes : sizes_ok mp;
  fl_holds : pd_holds (pool_data mp) q;
  fl_room : Z.of_nat (length q) + (mp_size mp - populated_size mp) <= pd_cap (pool_data mp);
  fl_size : 0 <= populated_size mp <= mp_size mp /\ mp_size mp < 2 ^ 31;
  fl_created : flag_set (mp_flags mp) MEMPOOL_F_POOL_CREATED = true }.

Context (env : mempool_env) (alloc : rte_mempool D -> D + Z).

Lemma populate_iova_run mp q vaddr iova len :
  fillable mp q -> rte_zmalloc_ok env = true -> populated_size mp < mp_size mp ->
  0 <= vaddr -> 0 <= len -> vaddr + len + 64 <= 2 ^ 64 -> len + total_elt_sz mp < 2 ^ 64 ->
  let objs := placed mp vaddr iova len in
  exists d, rte_mempool_populate_iova env alloc vaddr iova len mp
    = (if decide (objs = []) then (mp <| pool_data := d |>, Ret (- EINVAL))
       else (with_chunk vaddr iova len (added objs d mp), Ret (Z.of_nat (length objs))))
    /\ pd_holds d (q ++ (obj_addr <$> objs)) /\ pd_cap d = pd_cap (pool_data mp).
Proof using LAWS.
  intros [Hs Hq Hroom [Hp Hsz] Hc] Hz Hlt Hv Hlen Hb1 Hb2 objs. unfold rte_mempool_populate_iova.
  rewrite (bind_ret _ _ mp mp 0); [|unfold mempool_ops_alloc_once; erewrite bind_ret; [|reflexivity]; by rewrite Hc].
  change (negb (0 =? 0)) with false. cbv iota. erewrite bind_ret; [|reflexivity].
  destruct (Z.leb_spec (mp_size mp) (populated_size mp)); [lia|]. rewrite Hz. cbn [negb].
  destruct (chunk_off_run mp vaddr) as (Eoff & Hoff & Hal); [lia|lia|]. fold (chunk_align mp). rewrite Eoff.
  unfold objs, placed. set (off := chunk_off mp vaddr) in *. cbv zeta.
  destruct (Z.ltb_spec len off) as [Hshort|Hfits].
  { exists (pool_data mp). destruct (decide _); [|done]. rewrite app_nil_r. split; [by destruct mp|done]. }
  rewrite (wrap_small 32), (wrap_small 64 (vaddr + off)), (wrap_small 64 (len - off)) by (unfold in_range; lia).
  destruct (populate_default_run mp q (mp_size mp - populated_size mp) (vaddr + off) (iova_at iova off) (len - off) Hs Hq)
    as (d & Hrun & Hd & Hdc); [lia..|]. exists d. split; [|done].
  rewrite (bind_ret _ _ _ _ _ Hrun). set (cnt := Z.min _ _) in *.
  assert (0 <= cnt <= mp_size mp - populated_size mp) as Hcnt.
  { unfold cnt. pose proof (total_sum mp Hs). destruct Hs. pose proof (Z.div_pos (len - off) (total_elt_sz mp)). lia. }
  rewrite (wrap_small 32) by (unfold in_range; lia). rewrite s32_small by lia.
  pose proof (length_objects_at (vaddr + off) (iova_at iova off) (total_elt_sz mp) (header_size mp) cnt) as Hl.
  destruct (decide _) as [E|Hne], (Z.eqb_spec cnt 0) as [E0|Hn0].
  - by rewrite E, added_nil.
  - rewrite E in Hl. cbn in Hl. lia.
  - rewrite E0 in Hl, Hne. by apply nil_length_inv in Hl.
  - rewrite Hl, Z2Nat.id by lia. reflexivity.
Qed.

Lemma placed_laid_out mp q vaddr iova len :
  fillable mp q -> 0 <= vaddr -> 0 <= len -> vaddr + len + 64 <= 2 ^ 64 ->
  laid_out (header_size mp) (elt_size mp + trailer_size mp) vaddr (vaddr + len) (placed mp vaddr iova len).
Proof using.
  intros [Hs _ _ [Hp _] _] Hv Hlen Hb. unfold placed. destruct (chunk_off_run mp vaddr) as (_ & Hoff & _); [lia|lia|].
  set (off := chunk_off mp vaddr) in *. destruct (Z.ltb_spec len off); [simpl; lia|].
  pose proof (total_sum mp Hs) as Ht. destruct Hs. rewrite Ht.
  replace (header_size mp + elt_size mp + trailer_size mp) with (header_size mp + (elt_size mp + trailer_size mp)) by lia.
  set (total := header_size mp + (elt_size mp + trailer_size mp)) in *.
  pose proof (Z.div_pos (len - off) total). pose proof (Z.mul_div_le (len - off) total ltac:(lia)).
  set (cnt := Z.min _ _). assert (0 <= cnt <= (len - off) / total) as Hc by lia.
  pose proof (Z.mul_le_mono_nonneg_r cnt ((len - off) / total) total ltac:(lia) ltac:(lia)).
  eapply laid_out_weaken; [| |apply laid_out_objects]; lia.
Qed.

(** The pool [mp'] is [mp] with the objects [l] added, to the list of the pool and to the driver. *)
Record grown mp q mp' q' l : Prop := {
  gr_fill : fillable mp' q';
  gr_size : mp_size mp' = mp_size mp;
  gr_parts : header_size mp' = header_size mp /\ elt_size mp' = elt_size mp /\ trailer_size mp' = trailer_size mp;
  gr_flags : mp_flags mp' = mp_flags mp;
  gr_caches : cache_size mp' = cache_size mp /\ local_cache mp' = local_cache mp;
  gr_list : elt_list mp' = elt_list mp ++ l;
  gr_driver : q' = q ++ (obj_addr <$> l);
  gr_cap : pd_cap (pool_data mp') = pd_cap (pool_data mp);
  gr_count : populated_size mp' = populated_size mp + Z.of_nat (length l) }.

Lemma grown_refl mp q : fillable mp q -> grown mp q mp q [].
Proof using. intros H. split; simpl; try done; [by rewrite app_nil_r|by rewrite app_nil_r|lia]. Qed.

Lemma grown_trans mp1 q1 mp2 q2 mp3 q3 l1 l2 :
  grown mp1 q1 mp2 q2 l1 -> grown mp2 q2 mp3 q3 l2 -> grown mp1 q1 mp3 q3 (l1 ++ l2).
Proof using.
  intros [A1 A2 (A3 & A4 & A5) A6 (A7 & A8) A9 A10 A11 A12] [B1 B2 (B3 & B4 & B5) B6 (B7 & B8) B9 B10 B11 B12].
  split; [done|congruence|split_and!; congruence|congruence|split; congruence| | |congruence| ].
  - by rewrite B9, A9, app_assoc.
  - by rewrite B10, A10, fmap_app, app_assoc.
  - rewrite B12, A12, length_app. lia.
Qed.

(** [added] makes a pool grow. *)
Lemma added_grown mp q l d :
  fillable mp q -> pd_holds d (q ++ (obj_addr <$> l)) -> pd_cap d = pd_cap (pool_data mp) ->
  populated_size mp + Z.of_nat (length l) <= mp_size mp -> grown mp q (added l d mp) (q ++ (obj_addr <$> l)) l.
Proof using.
  intros [[? ? ? ?] F2 F3 F4 F5] Hd Hc Hl. split; try done. split; try done; cbn.
  - rewrite length_app, length_fmap, Hc. lia.
  - lia.
Qed.

Lemma with_chunk_grown mp q mp' q' l vaddr iova len :
  grown mp q mp' q' l -> grown mp q (with_chunk vaddr iova len mp') q' l.
Proof using. intros [[[? ? ? ?] ? ? ? ?] ? ? ? ? ? ? ? ?]. by split. Qed.

Lemma placed_length mp q vaddr iova len :
  fillable mp q -> 0 <= vaddr -> vaddr + 64 <= 2 ^ 64 ->
  Z.of_nat (length (placed mp vaddr iova len)) <= mp_size mp - populated_size mp.
Proof using.
  intros [Hs _ _ [Hp _] _] Hv Hb. unfold placed. destruct (chunk_off_run mp vaddr) as (_ & Hoff & _); [lia|lia|].
  destruct (Z.ltb_spec len (chunk_off mp vaddr)); [simpl; lia|]. rewrite length_objects_at.
  pose proof (total_sum mp Hs). destruct Hs. pose proof (Z.div_pos (len - chunk_off mp vaddr) (total_elt_sz mp)). lia.
Qed.

(** The IO address of a byte of the chunk, through the address of the aligned start. *)
Lemma iova_at_add iova len a b :
  iova = RTE_BAD_IOVA \/ 0 <= iova /\ iova + len < RTE_BAD_IOVA ->
  0 <= a -> 0 <= b -> a + b <= len -> iova_at (iova_at iova a) b = iova_at iova (a + b).
Proof using.
  unfold iova_at. intros [->|Hi] Ha Hb Hl; [done|]. unfold RTE_BAD_IOVA in *.
  destruct (Z.eqb_spec iova (2 ^ 64 - 1)); [lia|]. rewrite (wrap_small 64 (iova + a)) by (unfold in_range; lia).
  destruct (Z.eqb_spec (iova + a) (2 ^ 64 - 1)); [lia|]. by rewrite Z.add_assoc.
Qed.

Lemma placed_iova mp q vaddr iova len o :
  fillable mp q -> 0 <= vaddr -> 0 <= len -> vaddr + len + 64 <= 2 ^ 64 ->
  iova = RTE_BAD_IOVA \/ 0 <= iova /\ iova + len < RTE_BAD_IOVA ->
  o ∈ placed mp vaddr iova len -> obj_iova o = iova_at iova (obj_addr o - vaddr).
Proof using.
  intros Hf Hv Hlen Hb Hi Hin. pose proof (placed_laid_out mp q vaddr iova len Hf Hv Hlen Hb) as Hlaid.
  pose proof Hf as [[? ? ? ?] _ _ _ _].
  destruct (laid_out_inside (header_size mp) (elt_size mp + trailer_size mp) ltac:(lia) ltac:(lia) _ _ _ _ Hlaid Hin) as [Hlo Hhi].
  destruct (chunk_off_run mp vaddr) as (_ & Hoff & _); [lia|lia|].
  unfold placed in Hin. set (off := chunk_off mp vaddr) in *. destruct (len <? off); [by apply elem_of_nil in Hin|].
  apply list_elem_of_fmap in Hin as (i & -> & [Hi0 _]%elem_of_seqZ). cbn [obj_addr obj_iova] in *.
  pose proof (total_sum mp) as Ht. destruct Hf as [Hs _ _ _ _]. rewrite Ht in * by done.
  rewrite (iova_at_add iova len) by (done || nia). f_equal; lia.
Qed.
End PopulateProofs.

(** Turning a chunk of memory into objects: starting at the first cache line (or
    8-byte boundary), the pool makes as many objects as it is short of and as fit;
    their headers, elements and trailers lie inside the chunk without overlapping,
    each has the IO address that belongs to its place, and they are given to the
    driver in order.  A chunk too small for one object is refused and the pool
    keeps its contents. *)
Theorem populate_iova_correct {D} `{!PoolDriver D} `{!PoolDriverLaws D} env alloc (mp : rte_mempool D) q vaddr iova len :
  fillable mp q -> rte_zmalloc_ok env = true -> populated_size mp < mp_size mp ->
  0 <= vaddr -> 0 <= len -> vaddr + len + 64 <= 2 ^ 64 -> len + total_elt_sz mp < 2 ^ 64 ->
  iova = RTE_BAD_IOVA \/ 0 <= iova /\ iova + len < RTE_BAD_IOVA ->
  exists mp' ret objs, rte_mempool_populate_iova env alloc vaddr iova len mp = (mp', Ret ret)
    /\ grown mp q mp' (q ++ (obj_addr <$> objs)) objs
    /\ laid_out (header_size mp) (elt_size mp + trailer_size mp) vaddr (vaddr + len) objs
    /\ (forall o, o ∈ objs -> obj_iova o = iova_at iova (obj_addr o - vaddr))
    /\ (if decide (len < chunk_off mp vaddr + total_elt_sz mp) then ret = - EINVAL /\ objs = []
        else ret = Z.min (mp_size mp - populated_size mp) ((len - chunk_off mp vaddr) / total_elt_sz mp)
             /\ ret = Z.of_nat (length objs) /\ mem_list mp' = mem_list mp ++ [mk_memhdr vaddr iova len]).
Proof.
  intros Hf Hz Hlt Hv Hlen Hb1 Hb2 Hi.
  destruct (populate_iova_run env alloc mp q vaddr iova len Hf Hz Hlt Hv Hlen Hb1 Hb2) as (d & Hrun & Hd & Hdc).
  pose proof (placed_length mp q vaddr iova len Hf Hv ltac:(lia)) as Hpl.
  pose proof (added_grown mp q _ d Hf Hd Hdc ltac:(lia)) as Hg.
  pose proof (placed_laid_out mp q vaddr iova len Hf Hv Hlen ltac:(lia)) as Hlaid.
  destruct (chunk_off_run mp vaddr) as (_ & Hoff & _); [lia|lia|].
  assert (Z.of_nat (length (placed mp vaddr iova len)) = if len <? chunk_off mp vaddr then 0
    else Z.min (mp_size mp - populated_size mp) ((len - chunk_off mp vaddr) / total_elt_sz mp)) as Hlen'.
  { unfold placed. destruct (Z.ltb_spec len (chunk_off mp vaddr)); [done|]. rewrite length_objects_at.
    pose proof (total_sum mp (fl_sizes _ _ Hf)). destruct (fl_sizes _ _ Hf).
    pose proof (Z.div_pos (len - chunk_off mp vaddr) (total_elt_sz mp)). lia. }
  pose proof (total_sum mp (fl_sizes _ _ Hf)) as Ht. destruct (fl_sizes _ _ Hf) as [Hs1 Hs2 Hs3 Hs4].
  rewrite Hrun. destruct (decide (placed mp vaddr iova len = [])) as [E|Hne]; eexists _, _, (placed mp vaddr iova len).
  - split; [reflexivity|]. rewrite E in *. cbn [length fmap list_fmap] in *. split; [|split; [done|split]].
    + by rewrite <- added_nil.
    + intros o Ho. by apply elem_of_nil in Ho.
    + destruct (decide _) as [|Hge]; [done|]. exfalso. destruct (Z.ltb_spec len (chunk_off mp vaddr)); [lia|].
      assert (1 <= (len - chunk_off mp vaddr) / total_elt_sz mp) by (apply Z.div_le_lower_bound; lia). lia.
  - split; [reflexivity|]. split; [by apply with_chunk_grown|]. split; [done|]. split; [intros o Ho; eapply (placed_iova mp q vaddr iova len o); done || lia|].
    assert (0 < Z.of_nat (length (placed mp vaddr iova len))) as Hpos by (destruct (placed mp vaddr iova len); [done|simpl; lia]).
    destruct (Z.ltb_spec len (chunk_off mp vaddr)); [lia|]. destruct (decide _) as [Hs|_].
    { rewrite Z.div_small in Hlen' by lia. lia. }
    split; [done|]. split; [lia|done].
Qed.

(** ** A virtual area, page by page *)

Lemma page_bounds k : 6 <= k < 32 -> 64 <= 2 ^ k <= 2 ^ 31.
Proof. intros Hk. split; [apply (Z.pow_le_mono_r 2 6)|apply (Z.pow_le_mono_r 2 _ 31)]; lia. Qed.

Section Virt.
Context {D : Type} `{DRV : !PoolDriver D} `{LAWS : !PoolDriverLaws D}.
Context (env : mempool_env) (alloc : rte_mempool D -> D + Z) (fuel : nat) (addr pages pg_shift : Z).
Context (Hshift : 6 <= pg_shift < 32) (Haddr : 0 <= addr /\ (2 ^ pg_shift | addr)) (Hpages : 0 <= pages).
Context (Hend : addr + (pages + 1) * 2 ^ pg_shift <= 2 ^ 63) (Hfuel : (Z.to_nat pages < fuel)%nat).

Let pg := 2 ^ pg_shift.

Lemma contiguous_pages_run a iova :
  0 <= a < pages ->
  exists n, contiguous_pages env fuel addr (a * pg) (pages * pg) iova pg = Some (n * pg) /\ 1 <= n <= pages - a.
Proof using All.
  intros Ha. pose proof (page_bounds pg_shift Hshift) as Hpg. fold pg in Hpg. unfold contiguous_pages.
  destruct (run_loop_total (fun phys_len =>
      if a * pg +[64] phys_len <? pages * pg then
        let iova_tmp := rte_mem_virt2iova env (addr +[64] a * pg +[64] phys_len) in
        if negb (iova_tmp =? iova +[64] phys_len) then inr phys_len else inl (phys_len +[64] pg)
      else inr phys_len)
    (fun x => exists n, x = n * pg /\ 1 <= n <= pages - a) (fun x => exists n, x = n * pg /\ 1 <= n <= pages - a)
    (fun x => Z.to_nat (pages - x / pg)) pg fuel) as (r & Hrun & n & -> & Hn).
  - intros x (n & -> & Hn). assert ((a + n) * pg <= pages * pg) by (apply Z.mul_le_mono_nonneg_r; lia).
    fold pg in Hend. assert (0 <= a * pg) by (apply Z.mul_nonneg_nonneg; lia). assert (0 <= n * pg) by (apply Z.mul_nonneg_nonneg; lia).
    rewrite (wrap_small 64 (a * pg + n * pg)) by (unfold in_range; lia).
    destruct (Z.ltb_spec (a * pg + n * pg) (pages * pg)) as [Hlt|]; [|by exists n]. cbv zeta.
    destruct (negb _); [by exists n|]. rewrite (wrap_small 64) by (unfold in_range; lia).
    assert (n + 1 <= pages - a) by nia.
    split; [exists (n + 1); lia|]. replace (n * pg + pg) with ((n + 1) * pg) by lia. rewrite !Z.div_mul by lia. lia.
  - exists 1. lia.
  - rewrite Z.div_same by lia. lia.
  - exists n. split; [exact Hrun|done].
Qed.

(** The chunk of [n] pages from page [a] on. *)
Lemma virt_chunk (mp : rte_mempool D) q a n iova :
  fillable mp q -> rte_zmalloc_ok env = true -> populated_size mp < mp_size mp -> total_elt_sz mp <= pg ->
  0 <= a -> 1 <= n -> a + n <= pages ->
  exists mp' objs, rte_mempool_populate_iova env alloc (addr +[64] a * pg) iova (n * pg) mp
      = (mp', Ret (Z.of_nat (length objs)))
    /\ grown mp q mp' (q ++ (obj_addr <$> objs)) objs
    /\ laid_out (header_size mp) (elt_size mp + trailer_size mp) (addr + a * pg) (addr + (a + n) * pg) objs
    /\ Z.min (mp_size mp - populated_size mp) (n * (pg / total_elt_sz mp)) <= Z.of_nat (length objs).
Proof using All.
  intros Hf Hz Hlt Htot Ha Hn Han. pose proof (page_bounds pg_shift Hshift) as Hpg. fold pg in Hpg. fold pg in Hend.
  pose proof (Z.mul_le_mono_nonneg_r (a + n) pages pg ltac:(lia) Han). pose proof (Z.mul_nonneg_nonneg a pg Ha ltac:(lia)).
  pose proof (Z.mul_le_mono_nonneg_r 1 n pg ltac:(lia) Hn). destruct Haddr as [Ha0 [m Hm]]. fold pg in Hm.
  rewrite wrap_small by (unfold in_range; lia).
  pose proof (total_sum mp (fl_sizes _ _ Hf)) as Ht. destruct (fl_sizes _ _ Hf) as [Hs1 Hs2 Hs3 Hs4].
  destruct (populate_iova_run env alloc mp q (addr + a * pg) iova (n * pg) Hf Hz Hlt) as (d & Hrun & Hd & Hdc); [lia..|].
  pose proof (placed_length mp q (addr + a * pg) iova (n * pg) Hf ltac:(lia) ltac:(lia)) as Hpl.
  pose proof (added_grown mp q _ d Hf Hd Hdc ltac:(lia)) as Hg.
  pose proof (placed_laid_out mp q (addr + a * pg) iova (n * pg) Hf ltac:(lia) ltac:(lia) ltac:(lia)) as Hlaid.
  assert (chunk_off mp (addr + a * pg) = 0) as Hoff.
  { unfold chunk_off. assert (exists k, chunk_align mp = 2 ^ k /\ 0 <= k <= 6) as (k & Ek & Hk).
    { unfold chunk_align. destruct (flag_set _ _); [by exists 3|by exists 6]. }
    rewrite Ek. replace (addr + a * pg) with ((m + a) * 2 ^ (pg_shift - k) * 2 ^ k).
    - pose proof (Z.pow_pos_nonneg 2 k ltac:(lia) ltac:(lia)). rewrite <- Z.add_sub_assoc, Z.div_add_l by lia.
      rewrite (Z.div_small (2 ^ k - 1)) by lia. lia.
    - rewrite <- Z.mul_assoc, <- Z.pow_add_r by lia. replace (pg_shift - k + k) with pg_shift by lia. fold pg. lia. }
  assert (Z.of_nat (length (placed mp (addr + a * pg) iova (n * pg)))
    = Z.min (mp_size mp - populated_size mp) (n * pg / total_elt_sz mp)) as Hlen.
  { unfold placed. rewrite Hoff. destruct (Z.ltb_spec (n * pg) 0); [lia|]. rewrite length_objects_at, Z.sub_0_r.
    pose proof (Z.div_pos (n * pg) (total_elt_sz mp)). lia. }
  pose proof (Z.div_mul_le pg (total_elt_sz mp) n ltac:(lia) ltac:(lia) ltac:(lia)) as Hdiv.
  assert (1 <= pg / total_elt_sz mp) as Hopp by (apply Z.div_le_lower_bound; lia).
  rewrite Hrun. destruct (decide _) as [E|_].
  - exfalso. rewrite E in Hlen. cbn [length] in Hlen. nia.
  - eexists _, (placed mp (addr + a * pg) iova (n * pg)). split; [reflexivity|]. split; [by apply with_chunk_grown|].
    split; [by replace (addr + (a + n) * pg) with (addr + a * pg + n * pg) by lia|]. lia.
Qed.

(** The state of the loop before page [a]: the pool has grown by [l]. *)
Record virt_inv (mp : rte_mempool D) q (a : Z) s q' l : Prop := {
  vi_grown : grown mp q s q' l;
  vi_laid : laid_out (header_size mp) (elt_size mp + trailer_size mp) addr (addr + a * pg) l;
  vi_enough : Z.min (mp_size mp - populated_size mp) (a * (pg / total_elt_sz mp)) <= Z.of_nat (length l) }.

Lemma virt_inv_step (mp : rte_mempool D) q a s q' l n iova :
  virt_inv mp q a s q' l -> rte_zmalloc_ok env = true -> populated_size s < mp_size s -> total_elt_sz mp <= pg ->
  0 <= a -> 1 <= n -> a + n <= pages ->
  exists s' objs, rte_mempool_populate_iova env alloc (addr +[64] a * pg) iova (n * pg) s = (s', Ret (Z.of_nat (length objs)))
    /\ virt_inv mp q (a + n) s' (q' ++ (obj_addr <$> objs)) (l ++ objs).
Proof using All.
  intros [Hg Hl He] Hz Hlt Htot Ha Hn Han. pose proof Hg as [Hf Gs (Gh & Ge & Gt) _ _ _ _ _ Gc].
  assert (total_elt_sz s = total_elt_sz mp) as Et by (unfold total_elt_sz; by rewrite Gh, Ge, Gt).
  destruct (virt_chunk s q' a n iova Hf Hz Hlt ltac:(lia) Ha Hn Han) as (s' & objs & Hrun & Hg' & Hl' & Hmin).
  exists s', objs. split; [exact Hrun|]. rewrite Gh, Ge, Gt in Hl'. split.
  - by eapply grown_trans.
  - by eapply laid_out_app.
  - rewrite length_app. rewrite Et, Gs, Gc in Hmin.
    assert (0 <= pg / total_elt_sz mp) as Hopp.
    { pose proof (total_sum mp) as Ht. pose proof (page_bounds pg_shift Hshift) as Hpg. fold pg in Hpg. rewrite <- Et.
      pose proof (total_sum s (fl_sizes _ _ Hf)). destruct (fl_sizes _ _ Hf). apply Z.div_pos; lia. }
    rewrite Z.mul_add_distr_r. set (x := a * _) in *. set (y := n * _) in *.
    assert (0 <= y) by (apply Z.mul_nonneg_nonneg; lia). lia.
Qed.

Lemma virt_inv_start (mp : rte_mempool D) q : fillable mp q -> 0 <= pg / total_elt_sz mp -> virt_inv mp q 0 mp q [].
Proof using All. intros Hf Hq. destruct (fl_size _ _ Hf). split; [by apply grown_refl|simpl; lia|simpl; lia]. Qed.

(** The loop stops when the pool is full or the area used up. *)
Lemma virt_inv_stop (mp : rte_mempool D) q a s q' l :
  virt_inv mp q a s q' l -> 0 <= a <= pages -> mp_size s <= populated_size s \/ a = pages -> virt_inv mp q pages s q' l.
Proof using All.
  intros [Hg Hl He] Ha [Hfull| ->]; [|done]. pose proof (page_bounds pg_shift Hshift) as Hpg. fold pg in Hpg.
  split; [done| |].
  - eapply laid_out_weaken; [| |exact Hl]; [lia|]. pose proof (Z.mul_le_mono_nonneg_r a pages pg ltac:(lia) ltac:(lia)). lia.
  - destruct Hg as [[? ? ? [? ?] ?] Gs _ _ _ _ _ _ Gc]. lia.
Qed.

(** The area may lack IO addresses only when there are no huge pages. *)
Hypothesis iova_known : rte_eal_has_hugepages env = false \/ forall a, rte_mem_virt2iova env a <> RTE_BAD_IOVA.

Lemma iova_ok a : (rte_mem_virt2iova env a =? RTE_BAD_IOVA) && rte_eal_has_hugepages env = false.
Proof using iova_known.
  destruct iova_known as [->|Hn]; [by rewrite andb_false_r|]. by destruct (Z.eqb_spec (rte_mem_virt2iova env a) RTE_BAD_IOVA) as [E|]; [destruct (Hn a)|].
Qed.

Lemma populate_virt_run (mp : rte_mempool D) q :
  fillable mp q -> rte_zmalloc_ok env = true -> flag_set (mp_flags mp) MEMPOOL_F_NO_IOVA_CONTIG = false ->
  total_elt_sz mp <= pg ->
  exists mp' q' objs, rte_mempool_populate_virt env alloc fuel addr (pages * pg) pg mp = (mp', Ret (Z.of_nat (length objs)))
    /\ virt_inv mp q pages mp' q' objs.
Proof using All.
  intros Hf Hz Hflag Htot. pose proof (page_bounds pg_shift Hshift) as Hpg. fold pg in Hpg, Hend. destruct Haddr as [Ha0 Hdiv].
  pose proof (Z.mul_nonneg_nonneg pages pg Hpages ltac:(lia)) as Hpp. unfold rte_mempool_populate_virt.
  unfold pg at 1 2 3 4. rewrite (align_ceil_id 64 pg_shift addr) by (done || (fold pg; lia)).
  rewrite (align_ceil_id 64 pg_shift (pages * 2 ^ pg_shift)) by (lia || (fold pg; lia) || by exists pages). fold pg.
  rewrite !Z.eqb_refl. cbn [negb]. erewrite bind_ret; [|reflexivity]. rewrite Hflag.
  match goal with |- context [comp_loop ?b _ _] => set (body := b) end.
  destruct (comp_loop_total
    (fun '(off, cnt) s => exists a q' l, off = a * pg /\ 0 <= a <= pages /\ cnt = Z.of_nat (length l) /\ virt_inv mp q a s q' l)
    (fun r s => exists q' l, r = Z.of_nat (length l) /\ virt_inv mp q pages s q' l)
    (fun '(off, cnt) => Z.to_nat (pages - off / pg)) body fuel (0, 0) mp) as (s' & r & Hrun & q' & l & -> & Hinv).
  - intros [off cnt] s (a & q' & l & -> & Ha & -> & Hinv). unfold body.
    pose proof (vi_grown _ _ _ _ _ _ Hinv) as Hg. pose proof (gr_fill _ _ _ _ _ Hg) as Hfs.
    pose proof (gr_size _ _ _ _ _ Hg) as Gs. pose proof (gr_count _ _ _ _ _ Hg) as Gc. destruct (fl_size _ _ Hf), (fl_size _ _ Hfs).
    erewrite bind_ret; [|reflexivity].
    pose proof (Z.mul_le_mono_nonneg_r a pages pg ltac:(lia) ltac:(lia)). pose proof (Z.mul_nonneg_nonneg a pg ltac:(lia) ltac:(lia)).
    rewrite (wrap_small 64 (a * pg + pg)) by (unfold in_range; lia).
    destruct (Z.leb_spec (a * pg + pg) (pages * pg)) as [Hmore|Hall], (Z.ltb_spec (populated_size s) (mp_size s)) as [Hshort|Hfull]; cbn [andb].
    + assert (a + 1 <= pages) as Ha1 by nia. destruct (contiguous_pages_run a (rte_mem_virt2iova env (addr +[64] a * pg))) as (n & Hn & Hn1); [lia|].
      rewrite Hn. destruct (virt_inv_step mp q a s q' l n (rte_mem_virt2iova env (addr +[64] a * pg)) Hinv Hz Hshort Htot) as (s' & objs & Hrun & Hinv'); [lia..|].
      rewrite iova_ok, (bind_ret _ _ _ _ _ Hrun). destruct (Z.ltb_spec (Z.of_nat (length objs)) 0); [lia|].
      pose proof (gr_count _ _ _ _ _ (vi_grown _ _ _ _ _ _ Hinv')) as Gc'. rewrite length_app in Gc'.
      destruct (fl_size _ _ (gr_fill _ _ _ _ _ (vi_grown _ _ _ _ _ _ Hinv'))) as [Hp' Hs'].
      pose proof (Z.mul_le_mono_nonneg_r (a + n) pages pg ltac:(lia) ltac:(lia)).
      pose proof (gr_size _ _ _ _ _ (vi_grown _ _ _ _ _ _ Hinv')) as Gs'.
      assert (0 <= n * pg) by (apply Z.mul_nonneg_nonneg; lia).
      rewrite (wrap_small 64 (a * pg + n * pg)), s32_small by (unfold in_range; lia).
      eexists _, (inl (a * pg + n * pg, _)). split; [reflexivity|]. rewrite <- Z.mul_add_distr_r. split.
      * exists (a + n), (q' ++ (obj_addr <$> objs)), (l ++ objs). rewrite length_app. split_and!; try done; lia.
      * rewrite !Z.div_mul by lia. lia.
    + eexists _, (inr _). split; [reflexivity|]. exists q', l. split; [done|]. eapply virt_inv_stop; [done..|]. by left.
    + eexists _, (inr _). split; [reflexivity|]. exists q', l. split; [done|]. eapply virt_inv_stop; [done..|]. right. nia.
    + eexists _, (inr _). split; [reflexivity|]. exists q', l. split; [done|]. eapply virt_inv_stop; [done..|]. by left.
  - exists 0, q, []. split_and!; [lia|lia|lia|done|]. apply virt_inv_start; [done|]. pose proof (total_sum mp (fl_sizes _ _ Hf)). destruct (fl_sizes _ _ Hf). apply Z.div_pos; lia.
  - rewrite Z.div_0_l by lia. lia.
  - exists s', q', l. split; [exact Hrun|done].
Qed.
End Virt.

(** The memory the driver asks for is whole pages, enough for the objects. *)
Lemma calc_mem_size_pages {D} (mp : rte_mempool D) n pg_shift :
  sizes_ok mp -> 0 <= n < 2 ^ 31 -> 6 <= pg_shift < 32 -> total_elt_sz mp <= 2 ^ pg_shift ->
  exists pages, (rte_mempool_op_calc_mem_size_default mp n pg_shift).1.1 = pages * 2 ^ pg_shift
    /\ 0 <= pages <= n /\ n <= pages * (2 ^ pg_shift / total_elt_sz mp).
Proof.
  intros Hs Hn Hk Htot. pose proof (page_bounds pg_shift Hk) as Hpg. pose proof (total_sum mp Hs) as Ht. destruct Hs.
  unfold rte_mempool_op_calc_mem_size_default. cbn [fst]. destruct (Z.eqb_spec (total_elt_sz mp) 0); [lia|].
  destruct (Z.eqb_spec pg_shift 0); [lia|]. rewrite Z.shiftl_1_l, (wrap_small 64 (2 ^ pg_shift)) by (unfold in_range; lia).
  set (pg := 2 ^ pg_shift) in *. set (opp := pg / total_elt_sz mp).
  assert (1 <= opp <= pg) as Hopp.
  { unfold opp. split; [apply Z.div_le_lower_bound; lia|]. apply Z.div_le_upper_bound; [lia|]. nia. }
  destruct (Z.eqb_spec opp 0); [lia|]. rewrite (wrap_small 64 (n + opp)), (wrap_small 64 (n + opp - 1)) by (unfold in_range; lia).
  set (pages := (n + opp - 1) / opp). pose proof (Z.div_mod (n + opp - 1) opp ltac:(lia)) as Hdm. fold pages in Hdm.
  pose proof (Z.mod_pos_bound (n + opp - 1) opp ltac:(lia)). assert (0 <= pages) by (apply Z.div_pos; lia).
  assert (n <= pages * opp) by lia. assert (pages <= n) by nia.
  exists pages. rewrite Z.shiftl_mul_pow2 by lia. fold pg.
  pose proof (Z.mul_le_mono_nonneg pages (2 ^ 31) pg (2 ^ 31) ltac:(lia) ltac:(lia) ltac:(lia) ltac:(lia)).
  pose proof (Z.mul_nonneg_nonneg pages pg). rewrite wrap_small by (unfold in_range; lia). done.
Qed.

(** The size a pool asks for is enough: a virtual area of the size that
    [rte_mempool_op_calc_mem_size_default] computes for the objects a pool is short
    of, given to [rte_mempool_populate_virt] page by page with pages that may lie
    anywhere in IO space, fills the pool.  All objects lie in the area without
    overlapping, and all of them are in the driver. *)
Theorem populate_virt_fills {D} `{!PoolDriver D} `{!PoolDriverLaws D} env alloc fuel (mp : rte_mempool D) q addr pg_shift :
  let n := mp_size mp - populated_size mp in
  let len := (rte_mempool_op_calc_mem_size_default mp n pg_shift).1.1 in
  fillable mp q -> rte_zmalloc_ok env = true -> flag_set (mp_flags mp) MEMPOOL_F_NO_IOVA_CONTIG = false ->
  6 <= pg_shift < 32 -> total_elt_sz mp <= 2 ^ pg_shift ->
  0 <= addr -> (2 ^ pg_shift | addr) -> addr + len + 2 ^ pg_shift <= 2 ^ 63 -> (Z.to_nat n < fuel)%nat ->
  rte_eal_has_hugepages env = false \/ (forall a, rte_mem_virt2iova env a <> RTE_BAD_IOVA) ->
  exists mp' objs, rte_mempool_populate_virt env alloc fuel addr len (2 ^ pg_shift) mp = (mp', Ret n)
    /\ populated_size mp' = mp_size mp' /\ Z.of_nat (length objs) = n
    /\ elt_list mp' = elt_list mp ++ objs
    /\ pd_holds (pool_data mp') (q ++ (obj_addr <$> objs))
    /\ laid_out (header_size mp) (elt_size mp + trailer_size mp) addr (addr + len) objs.
Proof.
  intros n len Hf Hz Hflag Hk Htot Ha Hdiv Hend Hfuel Hio. pose proof (fl_size _ _ Hf) as [Hp Hs].
  destruct (calc_mem_size_pages mp n pg_shift (fl_sizes _ _ Hf) ltac:(lia) Hk Htot) as (pages & Hlen & Hpages & Henough).
  fold len in Hlen. rewrite Hlen in *.
  destruct (populate_virt_run env alloc fuel addr pages pg_shift Hk (conj Ha Hdiv) ltac:(lia) ltac:(lia) ltac:(lia)
    Hio mp q Hf Hz Hflag Htot) as (mp' & q' & objs & Hrun & [Hg Hl He]).
  destruct Hg as [Hf' Gs _ _ _ Gl -> _ Gc]. pose proof (fl_size _ _ Hf') as [Hp' _]. exists mp', objs.
  assert (Z.of_nat (length objs) = n) as Hn by lia. rewrite Hrun, Hn.
  split_and!; try done; try lia. apply (fl_holds _ _ Hf').
Qed.

(** ** Examples: a pool of 3 objects over the stack driver *)

Definition empty_pool : rte_mempool rte_mempool_stack :=
  mk_mempool String.EmptyString (mk_stack 3 0 (replicate 19 0)) MEMPOOL_F_POOL_CREATED 3 0 64 64 0 0 [] 0 [] 0 [] 0.

(** Page [k] of the process is page [1000 - k] of the IO space. *)
Definition scattered : mempool_env := mk_mempool_env true (fun a => (1000 - a / 4096) * 4096) true.

Lemma empty_pool_fillable : fillable empty_pool [].
Proof. split; [by split|split; cbn; [split; [clia|lia]|lia|done]|cbn; lia|cbn; lia|done]. Qed.

Example objects_spread_witness :
  exists sz, rte_mempool_calc_obj_size 10 4 2 2176 0 = Some sz /\ (sz_total sz / 64) mod 8 <> (2 * sz_total sz / 64) mod 8.
Proof.
  destruct (objects_spread 10 4 2 2176 0) as (sz & H & _ & _ & _ & _ & _ & _ & Hs).
  - lia.
  - lia.
  - lia.
  - vm_compute. reflexivity.
  - vm_compute. lia.
  - reflexivity.
  - exists sz. split; [exact H|]. specialize (Hs 0 1 2). rewrite Z.mul_1_l in Hs. apply Hs.
    change (spread_ways 4 2) with 8. lia.
Defined.

Example populate_iova_correct_witness :
  exists mp' objs, rte_mempool_populate_iova scattered (fun _ => inr 0) 4100 8100 400 empty_pool = (mp', Ret 2)
    /\ elt_list mp' = objs /\ laid_out 64 64 4100 4500 objs.
Proof.
  destruct (populate_iova_correct scattered (fun _ => inr 0) empty_pool [] 4100 8100 400)
    as (mp' & ret & objs & Hrun & [_ _ _ _ _ Hl _ _ _] & Hlaid & _ & Hret).
  - exact empty_pool_fillable.
  - reflexivity.
  - cbn. lia.
  - lia.
  - lia.
  - lia.
  - vm_compute. reflexivity.
  - right. vm_compute. split; congruence.
  - vm_compute in Hret. destruct Hret as (-> & _). exists mp', objs. split; [exact Hrun|]. split; [exact Hl|exact Hlaid].
Defined.

Example populate_virt_fills_witness :
  exists mp', rte_mempool_populate_virt scattered (fun _ => inr 0) 4 8192 4096 4096 empty_pool = (mp', Ret 3)
    /\ populated_size mp' = mp_size mp'.
Proof.
  destruct (populate_virt_fills scattered (fun _ => inr 0) 4 empty_pool [] 8192 12) as (mp' & objs & Hrun & Hp & _).
  - exact empty_pool_fillable.
  - reflexivity.
  - reflexivity.
  - lia.
  - vm_compute. congruence.
  - lia.
  - exists 2. reflexivity.
  - vm_compute. congruence.
  - vm_compute. lia.
  - right. intros a. cbn. unfold RTE_BAD_IOVA. intros E. pose proof (f_equal (fun x => x mod 4096) E) as E2. cbv beta in E2.
    rewrite Z.mod_mul in E2 by lia. vm_compute in E2. discriminate.
  - exists mp'. split; [exact Hrun|exact Hp].
Defined.
