(* ===== verification/MempoolBufs.v ===== *)
(** * Packet buffers over the memory pools

    The buffer library and the receive queue are verified against the interface
    [MempoolOps] and its laws; here the pools of [Mempool.v] implement it, over any
    driver that keeps its contract: the objects an lcore can get are those of its own
    cache and those of the driver, and no more objects are out than the pool has.
    Caches of one object are excluded: such a cache never gives its object back. *)

From S2P Require Import Prelude Effects Slice Mbuf MbufSlice MbufData MbufChain MempoolDrivers Mempool.
From Stdlib Require String.

Section Live.
Context {D : Type} `{DRV : !PoolDriver D} `{LAWS : !PoolDriverLaws D} (lcore : nat).
Implicit Types mp : rte_mempool D.

(** The objects of the pool, and those that the lcore can get one by one. *)
Definition pool_objs mp : list Z := mempool_objs mp (pd_items (pool_data mp)).
Definition lcore_view mp : pool_view (D := D) := mk_view (pool_data mp) (lcore_cache mp (Z.of_nat lcore)).
Definition lcore_objs mp : list Z := view_objs (lcore_view mp) (pd_items (pool_data mp)).

Record live_ok mp : Prop := {
  lv_ok : mempool_ok mp (pd_items (pool_data mp));
  lv_cache : cache_size mp <> 1;
  lv_count : Z.of_nat (length (pool_objs mp)) <= mp_size mp <= pd_cap (pool_data mp) }.

(** The objects that are out. *)
Definition out_count mp : nat := (Z.to_nat (mp_size mp) - length (pool_objs mp))%nat.

Lemma in_use_out mp : live_ok mp -> rte_mempool_in_use_count mp = Z.of_nat (out_count mp).
Proof using.
  intros [Hok _ Hc]. unfold rte_mempool_in_use_count, out_count, pool_objs in *. pose proof (pd_bound _ _ (proj1 Hok)).
  rewrite (avail_count_run mp _ Hok) by lia.
  destruct (cache_size mp =? 0); [|rewrite Z.min_l by lia]; rewrite wrap_small by clia; lia.
Qed.

(** Asking for no objects changes nothing. *)
Lemma get_zero v q tbl :
  view_holds v q ->
  exists v' q' r, rte_mempool_generic_get 0 tbl v = (v', Ret r) /\ view_holds v' q' /\ same_cache v v'
    /\ view_objs v' q' ≡ₚ view_objs v q.
Proof using.
  intros [Hq Hok]. unfold rte_mempool_generic_get, __mempool_generic_get. erewrite bind_ret; [|reflexivity].
  destruct v as [d [k|]]; cbn [view_cache view_data ok_opt] in *.
  - pose proof (cache_bounds k Hok) as (Hsz & Hlen & _ & _). destruct (Z.leb_spec (cache_sz k) 0), (Z.ltb_spec (cache_len k) 0); try lia.
    unfold fill_response. simpl copy_down. erewrite bind_ret; [|reflexivity]. erewrite bind_ret; [|reflexivity].
    rewrite Z.sub_0_r, wrap_small by clia. eexists _, q, _. split; [reflexivity|].
    assert (k <| cache_len := cache_len k |> = k) as -> by (by destruct k). done.
  - destruct (pd_dequeue d q tbl 0 Hq) as (d' & rc & q' & tbl' & Hrun & Hc & Hq' & Hres); [lia|].
    eexists (mk_view d' None), q', _. split; [by apply on_driver_ret|]. split; [done|]. split; [done|].
    cbn. destruct (Z.leb_spec 0 (Z.of_nat (length q))); [|lia]. destruct Hres as (_ & got & Hg & _ & Hp).
    destruct got; [|simpl in Hg; lia]. by rewrite Hp.
Qed.

(** What an operation of the lcore does, from what it does to the lcore's view. *)
Lemma lcore_run {A} mp (c : comp (pool_view (D := D)) A) v' q' a :
  live_ok mp -> c (lcore_view mp) = (v', Ret a) -> view_holds v' q' -> same_cache (lcore_view mp) v' ->
  exists mp' rest, with_default_cache (Z.of_nat lcore) c mp = (mp', Ret a) /\ same_pool mp mp'
    /\ mempool_ok mp' (pd_items (pool_data mp')) /\ lcore_objs mp' = view_objs v' q'
    /\ pool_objs mp ≡ₚ lcore_objs mp ++ rest /\ pool_objs mp' ≡ₚ lcore_objs mp' ++ rest.
Proof using.
  intros [Hok _ _] Hc Hv Hs.
  destruct (with_default_cache_run mp _ (Z.of_nat lcore) c Hok ltac:(lia)) as (rest & _ & Hobjs & Hrun).
  destruct (Hrun v' q' a Hc Hv Hs) as (mp' & Hr & Hok' & Hsame & Hobjs' & Hview).
  assert (pd_items (pool_data mp') = q') as Hq' by (apply pd_items_eq, (proj1 Hok')).
  assert (lcore_objs mp' = view_objs v' q') as El by (unfold lcore_objs, lcore_view; by rewrite Hview, Hq').
  exists mp', rest. rewrite El, Hq'. unfold pool_objs. rewrite Hq'. by split_and!.
Qed.

Lemma same_pool_fields mp mp' :
  same_pool mp mp' -> cache_size mp' = cache_size mp /\ mp_size mp' = mp_size mp /\ pd_cap (pool_data mp') = pd_cap (pool_data mp).
Proof using. intros [Hc ->]. done. Qed.

Lemma one_le_length (l : list Z) : (1 <=? Z.of_nat (length l)) = negb (bool_decide (l = [])).
Proof using. destruct l; [done|]. by destruct (Z.leb_spec 1 (Z.of_nat (length (z :: l)))); [|simpl in *; lia]. Qed.

(** One object is there for the lcore exactly when its cache or the driver has any. *)
Lemma satisfiable_one mp :
  live_ok mp -> satisfiable (lcore_view mp) (pd_items (pool_data mp)) 1 = negb (bool_decide (lcore_objs mp = [])).
Proof using.
  intros [Hok Hsz _]. unfold satisfiable, lcore_objs, view_objs, lcore_view. cbn [view_cache].
  destruct (lcore_cache mp (Z.of_nat lcore)) as [k|] eqn:Ek; cbn [held_opt].
  - unfold lcore_cache in Ek. destruct (rte_mempool_default_cache mp (Z.of_nat lcore)) as [i|] eqn:Ei; [|done].
    destruct (lcore_cache_some mp (Z.of_nat lcore) i (proj2 Hok) ltac:(lia) Ei) as (l1 & k' & l2 & El & -> & Hk & Hs).
    cbn in Ek. rewrite El, list_lookup_middle in Ek by done. injection Ek as ->.
    rewrite <- (length_held k Hk). destruct (Z.ltb_spec 1 (cache_sz k)); [|destruct (cache_bounds k Hk); lia].
    rewrite !one_le_length. by destruct (held k).
  - by rewrite one_le_length.
Qed.

(** *** Getting and putting on a live pool *)

Definition bulk_get (n : Z) : comp (rte_mempool D) (Z * list Z) :=
  rte_mempool_get_bulk (Z.of_nat lcore) (u32 n) (replicate (Z.to_nat (u32 n)) 0).

Lemma live_next mp mp' gone kept rest :
  live_ok mp -> same_pool mp mp' -> mempool_ok mp' (pd_items (pool_data mp')) ->
  pool_objs mp ≡ₚ lcore_objs mp ++ rest -> pool_objs mp' ≡ₚ lcore_objs mp' ++ rest ->
  lcore_objs mp ++ kept ≡ₚ gone ++ lcore_objs mp' -> (length kept <= out_count mp)%nat ->
  live_ok mp' /\ (out_count mp' + length kept = length gone + out_count mp)%nat.
Proof using.
  intros [Hok Hsz Hc] Hsame Hok' Hp Hp' Hl Hk. destruct (same_pool_fields _ _ Hsame) as (E1 & E2 & E3).
  apply Permutation_length in Hp, Hp', Hl. rewrite !length_app in *. unfold out_count in *. rewrite E2 in *.
  split; [split; [done|by rewrite E1|rewrite E2, E3; lia]|lia].
Qed.

Lemma bulk_get_run mp n :
  live_ok mp -> exists mp' rc tbl, bulk_get n mp = (mp', Ret (rc, tbl)) /\ live_ok mp'
    /\ (0 < u32 n ->
        if satisfiable (lcore_view mp) (pd_items (pool_data mp)) (u32 n)
        then rc = 0 /\ Z.of_nat (length tbl) = u32 n /\ lcore_objs mp ≡ₚ tbl ++ lcore_objs mp'
             /\ out_count mp' = (length tbl + out_count mp)%nat
        else rc < 0 /\ lcore_objs mp' ≡ₚ lcore_objs mp /\ out_count mp' = out_count mp).
Proof using LAWS.
  intros Hok. pose proof (lv_ok _ Hok) as Hmp. unfold bulk_get. set (k := u32 n). set (tbl := replicate (Z.to_nat k) 0).
  assert (in_range 32 k) as Hk by (apply wrap_range; lia).
  destruct (with_default_cache_run mp _ (Z.of_nat lcore) (rte_mempool_generic_get k tbl) Hmp ltac:(lia)) as (_ & Hv & _).
  fold (lcore_view mp) in Hv. destruct (Z.eq_dec k 0) as [E0|Hne].
  - rewrite E0. destruct (get_zero _ _ tbl Hv) as (v' & q' & [rc t] & Hrun & Hv' & Hs & Hp).
    destruct (lcore_run mp _ v' q' _ Hok Hrun Hv' Hs) as (mp' & rest & Hr & Hsame & Hok' & Hl & Hp1 & Hp2).
    exists mp', rc, t. split; [exact Hr|]. split; [|lia].
    apply (live_next mp mp' [] [] rest); try done; [|simpl; lia]. by rewrite app_nil_r, Hl, Hp.
  - assert (Z.of_nat (length tbl) = k) as Hlt by (unfold tbl; rewrite length_replicate; unfold in_range in Hk; lia).
    unfold in_range in Hk. destruct (get_correct _ _ k tbl Hv ltac:(lia)) as (v' & q' & rc & t & Hrun & Hv' & Hs & Hres).
    destruct (lcore_run mp _ v' q' _ Hok Hrun Hv' Hs) as (mp' & rest & Hr & Hsame & Hok' & Hl & Hp1 & Hp2).
    exists mp', rc, t. split; [exact Hr|].
    assert (exists gone, lcore_objs mp ≡ₚ gone ++ lcore_objs mp' /\
      if satisfiable (lcore_view mp) (pd_items (pool_data mp)) k then rc = 0 /\ t = gone /\ Z.of_nat (length gone) = k else rc < 0 /\ gone = [])
      as (gone & Hperm & Hgone).
    { rewrite Hl. unfold lcore_objs. destruct (satisfiable _ _ _).
      - destruct Hres as (-> & got & H1 & -> & H3). exists got. rewrite drop_ge, app_nil_r by lia. done.
      - destruct Hres as (Hrc & _ & H3). exists []. by rewrite H3. }
    destruct (live_next mp mp' gone [] rest) as [Hlive Hcount]; try done; [by rewrite app_nil_r|simpl; lia|].
    split; [done|]. intros _. simpl in Hcount. destruct (satisfiable _ _ _).
    + destruct Hgone as (-> & -> & Hlen). split_and!; try done. lia.
    + destruct Hgone as (Hrc & ->). split_and!; try done. simpl in Hcount. lia.
Qed.

Lemma put_run mp x :
  live_ok mp -> (0 < out_count mp)%nat ->
  exists mp', rte_mempool_put (Z.of_nat lcore) x mp = (mp', Ret tt) /\ live_ok mp'
    /\ lcore_objs mp' ≡ₚ x :: lcore_objs mp /\ S (out_count mp') = out_count mp.
Proof using LAWS.
  intros Hok Hout. pose proof (lv_ok _ Hok) as Hmp. pose proof (lv_count _ Hok) as Hc.
  destruct (with_default_cache_run mp _ (Z.of_nat lcore) (rte_mempool_generic_put [x] 1) Hmp ltac:(lia)) as (rest0 & Hv & Hobjs & _).
  fold (lcore_view mp) in Hv, Hobjs. apply Permutation_length in Hobjs. rewrite length_app in Hobjs.
  unfold out_count, pool_objs in *.
  destruct (put_correct (lcore_view mp) _ [x] 1 Hv) as (v' & q' & Hrun & Hv' & Hs & Hp); [simpl; lia|change (view_data (lcore_view mp)) with (pool_data mp); lia|].
  destruct (lcore_run mp _ v' q' _ Hok Hrun Hv' Hs) as (mp' & rest & Hr & Hsame & Hok' & Hl & Hp1 & Hp2).
  exists mp'. split; [exact Hr|].
  assert (lcore_objs mp' ≡ₚ x :: lcore_objs mp) as Hperm by (by rewrite Hl, Hp).
  destruct (live_next mp mp' [] [x] rest) as [Hlive Hcount]; try done.
  - by rewrite Hperm, Permutation_app_comm.
  - split_and!; try done. unfold out_count, pool_objs in Hcount. cbn [length] in Hcount. lia.
Qed.
End Live.

(** ** The pools of a process, as lcore [lcore] uses them *)

(** A pool of packet buffers: the pool and its private area. *)
Record pktmbuf_pool (D : Type) := mk_pool {
  lp_mp : rte_mempool D;
  lp_priv : rte_pktmbuf_pool_private }.
Arguments mk_pool {D}.
Arguments lp_mp {D}.
Arguments lp_priv {D}.

(** The pools by address, and the IO addresses in the headers before the objects. *)
Record lcore_pools (D : Type) (lcore : nat) := mk_pools {
  pools_at : gmap Z (pktmbuf_pool D);
  hdr_iova : Z -> Z }.
Arguments mk_pools {D lcore}.
Arguments pools_at {D lcore}.
Arguments hdr_iova {D lcore}.

Section PoolOps.
Context {D : Type} `{DRV : !PoolDriver D} (lcore : nat).
Local Notation P := (lcore_pools D lcore).

Definition live_get (n : Z) (e : pktmbuf_pool D) : pktmbuf_pool D * (list Z + Z) :=
  let '(mp', r) := bulk_get lcore n (lp_mp e) in
  (mk_pool mp' (lp_priv e),
   match r with Ret (rc, tbl) => if rc =? 0 then inl tbl else inr rc | _ => inr (- EINVAL) end).

Definition live_put (x : Z) (e : pktmbuf_pool D) : pktmbuf_pool D :=
  mk_pool (fst (rte_mempool_put (Z.of_nat lcore) x (lp_mp e))) (lp_priv e).

Definition on_pool {A} (p : P) (id : Z) (f : pktmbuf_pool D -> pktmbuf_pool D * A) (none : A) : P * A :=
  match pools_at p !! id with
  | Some e => let '(e', a) := f e in (mk_pools (<[id := e']> (pools_at p)) (hdr_iova p), a)
  | None => (p, none)
  end.

#[export] Instance lcore_pools_ops : MempoolOps P := {
  mp_get p id := let '(p', r) := on_pool p id (live_get 1) (inr (- EINVAL)) in
                 (p', match r with inl (x :: _) => Some x | _ => None end);
  mp_get_bulk p id n := on_pool p id (live_get n) (inr (- EINVAL));
  mp_put p id x := fst (on_pool p id (fun e => (live_put x e, tt)) tt);
  mp_priv p id := from_option lp_priv (PoolPrivate 0 0) (pools_at p !! id);
  mp_virt2iova p m := hdr_iova p m;
}.
End PoolOps.

Section Pools.
Context {D : Type} `{DRV : !PoolDriver D} `{LAWS : !PoolDriverLaws D} (lcore : nat).
Local Notation P := (lcore_pools D lcore).

(** Every pool of the process is live. *)
Definition pools_live (p : P) : Prop := map_Forall (fun _ e => live_ok (lp_mp e)) (pools_at p).
Definition avail_at (p : P) (id : Z) : list Z := from_option (fun e => lcore_objs lcore (lp_mp e)) [] (pools_at p !! id).
Definition room_at (p : P) (id : Z) : nat := from_option (fun e => out_count (lp_mp e)) 0%nat (pools_at p !! id).

(** Only the pool named changes, and of it only the objects. *)
Lemma on_pool_frame {A} (p : P) id (f : pktmbuf_pool D -> pktmbuf_pool D * A) none p' a :
  on_pool lcore p id f none = (p', a) -> (forall e, lp_priv (fst (f e)) = lp_priv e) ->
  (forall id', id' <> id -> avail_at p' id' = avail_at p id' /\ room_at p' id' = room_at p id')
  /\ (forall id', mp_priv p' id' = mp_priv p id') /\ forall m, mp_virt2iova p' m = mp_virt2iova p m.
Proof using.
  unfold on_pool. intros H Hf. destruct (pools_at p !! id) as [e|] eqn:E; [|by injection H as <- <-].
  specialize (Hf e). destruct (f e) as [e' a']. injection H as <- <-. cbn [fst] in Hf. split; [|split; [|done]].
  - intros id' Hne. unfold avail_at, room_at. cbn [pools_at]. by rewrite lookup_insert_ne.
  - intros id'. cbn. destruct (decide (id = id')) as [<-|Hne]; [by rewrite lookup_insert_eq, E|by rewrite lookup_insert_ne].
Qed.

Lemma live_get_priv n (e : pktmbuf_pool D) : lp_priv (fst (live_get lcore n e)) = lp_priv e.
Proof using. unfold live_get. by destruct (bulk_get lcore n (lp_mp e)). Qed.

(** What getting does to the pool. *)
Lemma on_pool_get (p : P) id n p' r :
  pools_live p -> 0 < n < 2 ^ 32 -> on_pool lcore p id (live_get lcore n) (inr (- EINVAL)) = (p', r) ->
  pools_live p' /\
  match r with
  | inl xs => Z.of_nat (length xs) = n /\ avail_at p id ≡ₚ xs ++ avail_at p' id /\ room_at p' id = (length xs + room_at p id)%nat
  | inr rc => rc < 0 /\ avail_at p' id ≡ₚ avail_at p id /\ room_at p' id = room_at p id /\ (n = 1 -> avail_at p id = [])
  end.
Proof using LAWS.
  intros Hv Hn. unfold on_pool, avail_at, room_at. destruct (pools_at p !! id) as [e|] eqn:E; [|intros [= <- <-]; by rewrite E].
  pose proof (Hv id e E) as Hok. unfold live_get.
  destruct (bulk_get_run lcore (lp_mp e) n Hok) as (mp' & rc & tbl & -> & Hlive & Hres).
  intros [= <- <-]. cbn [pools_at]. rewrite lookup_insert_eq. cbn [from_option lp_mp].
  assert (u32 n = n) as En by (apply wrap_small; unfold in_range; lia). rewrite En in Hres. specialize (Hres ltac:(lia)).
  split; [by apply map_Forall_insert_2|].
  destruct (satisfiable (lcore_view lcore (lp_mp e)) (pd_items (pool_data (lp_mp e))) n) eqn:Hsat.
  - destruct Hres as (-> & H1 & H2 & H3). rewrite Z.eqb_refl. done.
  - destruct Hres as (Hrc & H2 & H3). destruct (Z.eqb_spec rc 0); [lia|]. split_and!; try done.
    intros ->. rewrite satisfiable_one in Hsat by done. apply negb_false_iff in Hsat. by apply bool_decide_eq_true in Hsat.
Qed.

(** What putting does to the pool. *)
Lemma on_pool_put (p : P) id x p' u :
  pools_live p -> (0 < room_at p id)%nat -> on_pool lcore p id (fun e => (live_put lcore x e, tt)) tt = (p', u) ->
  pools_live p' /\ avail_at p' id ≡ₚ x :: avail_at p id /\ S (room_at p' id) = room_at p id.
Proof using LAWS.
  intros Hv. unfold on_pool, avail_at, room_at. destruct (pools_at p !! id) as [e|] eqn:E; cbn [from_option]; [|lia].
  intros Hroom [= <- _]. cbn [pools_at]. rewrite lookup_insert_eq. cbn [from_option]. unfold live_put.
  destruct (put_run lcore (lp_mp e) x (Hv id e E) Hroom) as (mp' & -> & Hlive & H1 & H2). cbn [fst lp_mp].
  split; [by apply map_Forall_insert_2|]. done.
Qed.

#[export] Instance lcore_pools_laws : MempoolLaws P.
Proof using LAWS.
  refine {| mp_valid := pools_live; mp_avail := avail_at; mp_room := room_at |}.
  - intros p id p' x Hv. cbn. destruct (on_pool _ _ _ _ _) as [p1 r] eqn:E. intros [= <- Hr].
    destruct (on_pool_frame _ _ _ _ _ _ E (live_get_priv 1)) as [Hf _].
    destruct (on_pool_get p id 1 p1 r Hv ltac:(lia) E) as [Hv1 Hg].
    destruct r as [[|y l]|]; try done. injection Hr as ->. destruct Hg as (H1 & H2 & H3).
    destruct l; [|simpl in H1; lia]. by split_and!.
  - intros p id p' Hv. cbn. destruct (on_pool _ _ _ _ _) as [p1 r] eqn:E. intros [= <- Hr].
    destruct (on_pool_frame _ _ _ _ _ _ E (live_get_priv 1)) as [Hf _].
    destruct (on_pool_get p id 1 p1 r Hv ltac:(lia) E) as [Hv1 Hg]. split; [done|].
    destruct r as [[|y l]|]; try done; [by destruct Hg|]. destruct Hg as (_ & H1 & H2 & _). intros id'.
    destruct (decide (id' = id)) as [->|Hne]; [done|]. by destruct (Hf id' Hne) as [-> ->].
  - intros p id Hv. cbn. destruct (on_pool _ _ _ _ _) as [p1 r] eqn:E.
    destruct (on_pool_get p id 1 p1 r Hv ltac:(lia) E) as [_ Hg].
    intros Hne. destruct r as [[|y l]|]; [by destruct Hg|eauto|]. destruct Hg as (_ & _ & _ & Hnil). by specialize (Hnil eq_refl).
  - intros p id n p' r Hv Hn E. cbn in E. destruct (on_pool_frame _ _ _ _ _ _ E (live_get_priv n)) as [Hf _].
    destruct (on_pool_get p id n p' r Hv Hn E) as [Hv1 Hg]. split; [done|]. split; [done|].
    destruct r; [done|]. destruct Hg as (H1 & H2 & H3 & _). done.
  - intros p id x Hv Hroom. cbn. destruct (on_pool _ _ _ _ _) as [p1 r] eqn:E.
    destruct (on_pool_frame _ _ _ _ _ _ E ltac:(done)) as [Hf _].
    destruct (on_pool_put p id x p1 r Hv Hroom E) as (Hv1 & H1 & H2). by split_and!.
  - intros p id p' o. cbn. destruct (on_pool _ _ _ _ _) as [p1 r] eqn:E. intros [= <- _].
    exact (proj2 (on_pool_frame _ _ _ _ _ _ E (live_get_priv 1))).
  - intros p id x. cbn. destruct (on_pool _ _ _ _ _) as [p1 r] eqn:E.
    exact (proj2 (on_pool_frame _ _ _ _ _ _ E ltac:(done))).
Defined.
End Pools.

(** ** Freeing a packet *)

(** The objects in use of a pool. *)
Definition in_use {D} `{!PoolDriver D} {lcore} (p : lcore_pools D lcore) (id : Z) : Z :=
  from_option (fun e => rte_mempool_in_use_count (lp_mp e)) 0 (pools_at p !! id).

Lemma in_use_room {D} `{!PoolDriver D} `{!PoolDriverLaws D} lcore (p : lcore_pools D lcore) id :
  pools_live lcore p -> in_use p id = Z.of_nat (room_at lcore p id).
Proof.
  intros Hv. unfold in_use, room_at. destruct (pools_at p !! id) as [e|] eqn:E; [|done].
  cbn. by apply in_use_out, (Hv id).
Qed.

(** C10. Freeing a packet, down to the memory pools: [rte_pktmbuf_free] of a chain of
    direct segments, whose last references are among the objects in use of their
    pools, ends.  Each segment whose reference count was 1 is then back in its
    own pool, in the cache of the lcore or in the driver, where the lcore can get
    it again, and the number of objects in use has fallen by exactly these
    segments; every other segment has lost one reference, and no other buffer and
    no packet data has changed. *)
Theorem pktmbuf_free_in_use {D} `{!PoolDriver D} `{!PoolDriverLaws D} lcore fuel p l (s : store (lcore_pools D lcore)) :
  seg_list (mbufs s) p l -> NoDup l -> Forall direct_used (segs (mbufs s) l) -> (length l < fuel)%nat ->
  pools_live lcore (pools s) ->
  (forall id, Z.of_nat (length (released (mbufs s) id l)) <= in_use (pools s) id) ->
  exists s', rte_pktmbuf_free fuel p s = (s', Ret tt) /\ pools_live lcore (pools s')
    /\ mem s' = mem s /\ shinfos s' = shinfos s
    /\ (forall x, mbufs s' !! x = if decide (x ∈ l) then freed_seg <$> mbufs s !! x else mbufs s !! x)
    /\ forall id, in_use (pools s') id = in_use (pools s) id - Z.of_nat (length (released (mbufs s) id l))
         /\ avail_at lcore (pools s') id ≡ₚ released (mbufs s) id l ++ avail_at lcore (pools s) id.
Proof.
  intros Hl Hnd Hd Hf Hv Hroom.
  destruct (free_run fuel p l s Hl Hnd Hd Hf) as (s' & Hrun & Hv' & Hm & Hs & _ & Hb & Hav); [exact Hv| |].
  { intros id. specialize (Hroom id). rewrite in_use_room in Hroom by done. change (mp_room (pools s) id) with (room_at lcore (pools s) id). lia. }
  change (pools_live lcore (pools s')) in Hv'.
  exists s'. split_and!; try done. intros id. destruct (Hav id) as [Ha Hr]. rewrite !in_use_room by done. split; [|exact Ha].
  change (mp_room ?p id) with (room_at lcore p id) in Hr. lia.
Qed.

(** *** A pool of four objects over the stack, two of them in a packet *)

Definition example_live_mp : rte_mempool rte_mempool_stack :=
  mk_mempool String.EmptyString (mk_stack 4 2 [12288; 16384; 0; 0]) 0 4 0 64 64 0 0 [] 4 [] 1 [] 0.

Lemma example_live_ok : live_ok example_live_mp.
Proof. split; [split; [split; cbn; [split; [clia|lia]|lia|done]|done]|done|vm_compute; split; congruence]. Qed.

Definition example_live_store : store (lcore_pools rte_mempool_stack 0) :=
  Store (mbufs example_store) ∅ (fun _ => 0)
    (mk_pools {[ 1 := mk_pool example_live_mp (PoolPrivate 2048 0) ]} (fun a => a)) [].

Lemma example_pools_live : pools_live 0 (pools example_live_store).
Proof. apply map_Forall_singleton, example_live_ok. Qed.

Example pktmbuf_free_in_use_witness :
  exists s', rte_pktmbuf_free 3 4096 example_live_store = (s', Ret tt) /\ in_use (pools s') 1 = 0.
Proof.
  destruct (pktmbuf_free_in_use 0 3 4096 [4096; 8192] example_live_store) as (s' & Hrun & _ & _ & _ & _ & Huse).
  - apply example_pkt_ok.
  - apply example_pkt_ok.
  - change (segs (mbufs example_live_store) [4096; 8192])
      with [example_mbuf 4096 832 10 2 30 8192 1; example_mbuf 8192 100 20 1 20 0 1].
    repeat constructor; simpl; lia.
  - simpl; lia.
  - apply example_pools_live.
  - intros id. unfold released. rewrite !filter_cons.
    change (mbufs example_live_store !! 4096) with (Some (example_mbuf 4096 832 10 2 30 8192 1)).
    change (mbufs example_live_store !! 8192) with (Some (example_mbuf 8192 100 20 1 20 0 1)). cbn [refcnt pool example_mbuf].
    destruct (Z.eqb_spec 1 id) as [<-|Hne]; [vm_compute; congruence|].
    rewrite filter_nil, andb_false_r, !decide_False by done. rewrite in_use_room by apply example_pools_live. simpl. lia.
  - exists s'. split; [exact Hrun|]. destruct (Huse 1) as [-> _]. vm_compute. reflexivity.
Defined.
