(* ===== verification/MempoolCreate.v ===== *)
(** * Creating a memory pool (lib/librte_mempool)

    [rte_mempool_create] from its parts: the empty pool with its caches
    ([rte_mempool_create_empty]), the ring of the driver ([common_ring_alloc]), the
    choice of the driver by name ([rte_mempool_set_ops_byname]), the
    reservation of memory zones ([rte_mempool_populate_default]) and the initialisation
    of the objects ([rte_mempool_obj_iter]).  The memory zones are what the
    environment layer answers to each request, in any way it likes; the theorems say
    what it has to answer for the pool to be filled. *)

From stdpp Require Import pretty.
From S2P Require Import Prelude Effects Ring MempoolDrivers Mempool MempoolLayout.
From Stdlib Require String.
Import String.StringSyntax.
Delimit Scope string_scope with string.

(** ** Constants *)

Definition SIZE_MAX : Z := 2 ^ 64 - 1.
Definition SOCKET_ID_ANY : Z := -1.
Definition sizeof_rte_mempool : Z := 192.
Definition sizeof_rte_mempool_cache : Z := 12352.
Definition RTE_RING_NAMESIZE : Z := RTE_MEMZONE_NAMESIZE - 4 + 1.

(** "MP_" *)
Definition RTE_MEMPOOL_MZ_PREFIX : String.string :=
  String.string_of_list_ascii (Ascii.ascii_of_nat <$> [77; 80; 95]%nat).

(** [snprintf] with [RTE_MEMPOOL_MZ_FORMAT] and with [RTE_MEMPOOL_MZ_FORMAT "_%d"]. *)
Definition mz_format (nm : String.string) : String.string := String.append RTE_MEMPOOL_MZ_PREFIX nm.
Definition mz_format_d (nm : String.string) (d : Z) : String.string :=
  String.append (mz_format nm) (String.String (Ascii.ascii_of_nat 95) (pretty d)).

Definition str_length (s : String.string) : Z := Z.of_nat (String.length s).

Definition MEMPOOL_HEADER_SIZE (cs : Z) : Z :=
  sizeof_rte_mempool + (if cs =? 0 then 0 else sizeof_rte_mempool_cache * RTE_MAX_LCORE).

(** [RTE_ALIGN_FLOOR] on a [w]-bit value *)
Definition RTE_ALIGN_FLOOR (w v a : Z) : Z := Z.land v (wrap w (Z.lnot (a -[w] 1))).

(** [__builtin_ctz]; undefined for 0. *)
Definition rte_bsf32 (v : Z) : option Z := if v =? 0 then None else Some (Z.log2 (Z.land v (- v))).

(** ** A driver whose data may be missing

    [pool_data] is [NULL] until the driver has allocated it. *)

Section Nullable.
Context {D : Type} `{!PoolDriver D}.

Definition deref {A} (c : comp D A) : comp (option D) A := fun d =>
  match d with
  | None => (None, UB)
  | Some d => let '(d', o) := c d in (Some d', o)
  end.

#[export] Instance null_driver : PoolDriver (option D) := {
  ops_enqueue tbl n := deref (ops_enqueue tbl n);
  ops_dequeue n tbl := deref (ops_dequeue n tbl);
  ops_get_count d := from_option ops_get_count 0 d;
}.

#[export] Instance null_driver_laws `{!PoolDriverLaws D} : PoolDriverLaws (option D).
Proof.
  refine {| pd_holds d q := match d with Some d => pd_holds d q | None => False end;
            pd_cap d := from_option pd_cap 0 d; pd_items d := from_option pd_items [] d |}.
  - intros [d|] q; [exact (pd_items_eq d q)|done].
  - intros [d|] q; [exact (pd_bound d q)|done].
  - intros [d|] q tbl n Hq Hn Hb; [|done]. destruct (pd_enqueue d q tbl n Hq Hn Hb) as (d' & rc & q' & Hrun & H).
    exists (Some d'), rc, q'. cbn. by rewrite Hrun.
  - intros [d|] q tbl n Hq Hn; [|done]. destruct (pd_dequeue d q tbl n Hq Hn) as (d' & rc & q' & tbl' & Hrun & H).
    exists (Some d'), rc, q', tbl'. cbn. by rewrite Hrun.
  - intros [d|] q; [exact (pd_count d q)|done].
Defined.
End Nullable.

(** The ring of a pool; the error is what the function returns. *)
Definition common_ring_alloc (z : ring_zones) (mp : rte_mempool (option rte_ring)) : option rte_ring + Z :=
  let rg_name := mz_format (mp_name mp) in
  if RTE_RING_NAMESIZE <=? str_length rg_name then inr (- Ring.ENAMETOOLONG)
  else
    let rg_flags := 0 in
    let rg_flags := if flag_set (mp_flags mp) MEMPOOL_F_SP_PUT then Z.lor rg_flags RING_F_SP_ENQ else rg_flags in
    let rg_flags := if flag_set (mp_flags mp) MEMPOOL_F_SC_GET then Z.lor rg_flags RING_F_SC_DEQ else rg_flags in
    match rte_ring_create z rg_name (rte_align32pow2 (mp_size mp +[32] 1)) rg_flags with
    | inr rte_errno => inr (- rte_errno)
    | inl r => inl (Some r)
    end.

(** ** The environment layer *)

Record memseg_list := mk_memseg_list { msl_socket_id : Z; msl_external : bool; msl_page_sz : Z }.
Record memzone := mk_memzone { mz_addr : Z; mz_iova : Z; mz_len : Z }.

(** [reserve k len align contig] is the answer to the [k]-th request for a memory
    zone of [len] bytes (any size when [len] is 0), or the error number. *)
Record eal := mk_eal {
  eal_mem : mempool_env;
  eal_nchannel : Z;
  eal_nrank : Z;
  eal_tailq_entry_ok : bool;
  eal_header_zone : Z -> option Z;
  eal_socket_is_external : Z -> Z;
  eal_iova_va : bool;
  eal_page_size : Z;
  eal_memsegs : list memseg_list;
  eal_reserve : nat -> Z -> Z -> bool -> memzone + Z }.

Definition find_min_pagesz (socket_id min : Z) (msl : memseg_list) : Z :=
  let valid := (msl_socket_id msl =? socket_id) || ((socket_id =? SOCKET_ID_ANY) && negb (msl_external msl)) in
  if valid && (msl_page_sz msl <? min) then msl_page_sz msl else min.

Definition get_min_page_size (e : eal) (socket_id : Z) : Z :=
  let min := foldl (find_min_pagesz socket_id) SIZE_MAX (eal_memsegs e) in
  if min =? SIZE_MAX then eal_page_size e else min.

(** ** An empty pool *)

(** The length of the zone of the header, the caches and the private area; the pool is
    at the address of this zone. *)
Definition mempool_zone_len (cache_size private_data_size : Z) : Z :=
  let mempool_size := MEMPOOL_HEADER_SIZE cache_size +[64] private_data_size in
  RTE_ALIGN_CEIL 64 mempool_size RTE_MEMPOOL_ALIGN.

(** The pool, or [NULL] with the [rte_errno] the function sets; the outer [None] is
    fuel that ran out. *)
Definition rte_mempool_create_empty {D} (fuel : nat) (e : eal) (nm : String.string)
  (n elt_size cache_size private_data_size socket_id flags : Z) : option (rte_mempool (option D) + option Z) :=
  if n =? 0 then Some (inr (Some EINVAL))
  else if (RTE_MEMPOOL_CACHE_MAX_SIZE <? cache_size) || (n <? CALC_CACHE_FLUSHTHRESH cache_size)
  then Some (inr (Some EINVAL))
  else
    let flags := if flag_set flags MEMPOOL_F_NO_CACHE_ALIGN then Z.lor flags MEMPOOL_F_NO_SPREAD else flags in
    objsz ← rte_mempool_calc_obj_size fuel (eal_nchannel e) (eal_nrank e) elt_size flags;
    if sz_total objsz =? 0 then Some (inr (Some EINVAL))
    else
      let private_data_size := RTE_ALIGN_CEIL 32 private_data_size RTE_MEMPOOL_ALIGN in
      if negb (eal_tailq_entry_ok e) then Some (inr None)
      else
        let mempool_size := mempool_zone_len cache_size private_data_size in
        if RTE_MEMZONE_NAMESIZE <=? str_length (mz_format nm) then Some (inr (Some Ring.ENAMETOOLONG))
        else
          match eal_header_zone e mempool_size with
          | None => Some (inr None)
          | Some _ =>
              Some (inl (mk_mempool nm None flags n cache_size (sz_elt objsz) (sz_header objsz) (sz_trailer objsz)
                private_data_size
                (if cache_size =? 0 then []
                 else replicate (Z.to_nat RTE_MAX_LCORE) (mempool_cache_init cache_size zeroed_cache))
                0 [] 0 [] socket_id))
          end.

(** ** Reserving and cutting the memory *)

Section PopulateDefault.
Context {D : Type} `{!PoolDriver D}.
Context (fuel : nat) (e : eal) (alloc : rte_mempool D -> D + Z).
Local Notation M := (comp (rte_mempool D)).

Definition populate_fail (ret : Z) : M (nat * nat * Z * bool + Z) :=
  rte_mempool_free_memchunks ;; mret (inr ret).

(** [mz == NULL] after the first requests: the biggest zone there is. *)
Definition reserve_biggest (k : nat) (pg_sz mem_size min_chunk_size align : Z) (try_contig : bool) (err : Z)
  : (nat * Z * bool * memzone) + Z :=
  if min_chunk_size <? mem_size then
    match eal_reserve e k 0 (Z.max pg_sz align) try_contig with
    | inl mz => inl (S k, min_chunk_size, try_contig, mz)
    | inr rte_errno => inr (- rte_errno)
    end
  else inr (- err).

(** The body of the loop up to the test of [mz == NULL], from the request number [k]
    on: the number of requests made, the minimum size of a chunk, whether contiguous
    memory is still wanted, and the zone; or the error to fail with. *)
Definition reserve_zone (mp : rte_mempool D) (mz_id : nat) (n pg_sz pg_shift : Z) (try_contig no_pageshift : bool)
  (k : nat) : (nat * Z * bool * memzone) + Z :=
  let '(mem_size, min_chunk_size, align) :=
    rte_mempool_op_calc_mem_size_default mp n (if try_contig || no_pageshift then 0 else pg_shift) in
  if s64 mem_size <? 0 then inr (s32 mem_size)
  else if RTE_MEMZONE_NAMESIZE <=? str_length (mz_format_d (mp_name mp) (Z.of_nat mz_id)) then inr (- Ring.ENAMETOOLONG)
  else
    match eal_reserve e k mem_size align try_contig with
    | inl mz => inl (S k, min_chunk_size, try_contig, mz)
    | inr rte_errno =>
        if try_contig && (min_chunk_size <=? pg_sz) then
          let '(mem_size, min_chunk_size, align) := rte_mempool_op_calc_mem_size_default mp n pg_shift in
          if s64 mem_size <? 0 then inr (s32 mem_size)
          else
            match eal_reserve e (S k) mem_size align false with
            | inl mz => inl (S (S k), min_chunk_size, false, mz)
            | inr rte_errno => reserve_biggest (S (S k)) pg_sz mem_size min_chunk_size align false rte_errno
            end
        else reserve_biggest (S k) pg_sz mem_size min_chunk_size align try_contig rte_errno
    end.

Definition populate_default_body (no_contig no_pageshift : bool) (pg_sz pg_shift : Z)
  (x : nat * nat * Z * bool) : M (nat * nat * Z * bool + Z) :=
  let '(mz_id, k, n, try_contig) := x in
  mp ← get;
  if negb (0 <? n) then mret (inr (s32 (mp_size mp)))
  else
    match reserve_zone mp mz_id n pg_sz pg_shift try_contig no_pageshift k with
    | inr ret => populate_fail ret
    | inl (k, min_chunk_size, try_contig, mz) =>
        if mz_len mz <? min_chunk_size then populate_fail (- Ring.ENOMEM)
        else
          let iova := if no_contig then RTE_BAD_IOVA else mz_iova mz in
          ret ← (if no_pageshift || try_contig
                 then rte_mempool_populate_iova (eal_mem e) alloc (mz_addr mz) iova (mz_len mz)
                 else rte_mempool_populate_virt (eal_mem e) alloc fuel (mz_addr mz) (RTE_ALIGN_FLOOR 64 (mz_len mz) pg_sz) pg_sz);
          if ret <? 0 then populate_fail ret
          else mret (inl (S mz_id, k, n -[32] u32 ret, try_contig))
    end.

Definition rte_mempool_populate_default : M Z :=
  ret ← mempool_ops_alloc_once alloc;
  if negb (ret =? 0) then mret ret
  else
    mp ← get;
    let ret := eal_socket_is_external e (mp_socket_id mp) in
    if ret <? 0 then mret (- EINVAL)
    else if negb (nb_mem_chunks mp =? 0) then mret (- EEXIST)
    else
      let no_contig := flag_set (mp_flags mp) MEMPOOL_F_NO_IOVA_CONTIG in
      let external := eal_socket_is_external e (mp_socket_id mp) =? 1 in
      let no_pageshift := no_contig || (negb external && eal_iova_va e) in
      let try_contig := negb no_contig && negb no_pageshift && (rte_eal_has_hugepages (eal_mem e) || external) in
      let pg_sz := if no_pageshift then 0 else if try_contig then get_min_page_size e (mp_socket_id mp) else eal_page_size e in
      pg_shift ← (if no_pageshift then mret 0 else defined (rte_bsf32 (u32 pg_sz)));
      comp_loop (populate_default_body no_contig no_pageshift pg_sz pg_shift) fuel (0%nat, 0%nat, mp_size mp, try_contig).
End PopulateDefault.

(** ** The pool *)

Definition rte_mempool_obj_iter {S D} (mp : rte_mempool D) (obj_cb : rte_mempool D -> Z -> Z -> comp S unit) : comp S Z :=
  (fix go (l : list rte_mempool_objhdr) (n : Z) : comp S Z :=
    match l with
    | [] => mret n
    | hdr :: l => obj_cb mp (obj_addr hdr) n ;; go l (n +[32] 1)
    end) (elt_list mp) 0.

(** *** The driver by name *)

Fixpoint ops_by_name {O} (table : list (String.string * O)) (nm : String.string) : option O :=
  match table with
  | [] => None
  | (nm', ops) :: table => if String.eqb nm nm' then Some ops else ops_by_name table nm
  end.

(** The driver the pool gets, or the error. *)
Definition rte_mempool_set_ops_byname {D O} (table : list (String.string * O)) (mp : rte_mempool D) (nm : String.string) : O + Z :=
  if flag_set (mp_flags mp) MEMPOOL_F_POOL_CREATED then inr (- EEXIST)
  else match ops_by_name table nm with
       | None => inr (- Mempool.EINVAL)
       | Some ops => inl ops
       end.

(** The ring drivers, which are registered before [main]. *)
Definition ring_table : list (String.string * ring_ops) :=
  [("ring_mp_mc"%string, ops_mp_mc); ("ring_sp_sc"%string, ops_sp_sc);
   ("ring_mp_sc"%string, ops_mp_sc); ("ring_sp_mc"%string, ops_sp_mc)].

(** The driver that the flags ask for, by name and by its functions. *)
Definition ring_ops_name (flags : Z) : String.string :=
  if flag_set flags MEMPOOL_F_SP_PUT && flag_set flags MEMPOOL_F_SC_GET then "ring_sp_sc"%string
  else if flag_set flags MEMPOOL_F_SP_PUT then "ring_sp_mc"%string
  else if flag_set flags MEMPOOL_F_SC_GET then "ring_mp_sc"%string
  else "ring_mp_mc"%string.

Definition ring_ops_of (flags : Z) : ring_ops :=
  if flag_set flags MEMPOOL_F_SP_PUT && flag_set flags MEMPOOL_F_SC_GET then ops_sp_sc
  else if flag_set flags MEMPOOL_F_SP_PUT then ops_sp_mc
  else if flag_set flags MEMPOOL_F_SC_GET then ops_mp_sc
  else ops_mp_mc.

Local Notation ring_pool := (rte_mempool (option rte_ring)).

(** [S] is the memory the callbacks work on; the result is the pool with its driver,
    or [NULL]. *)
Definition rte_mempool_create {S} (fuel : nat) (e : eal) (z : ring_zones) (nm : String.string)
  (n elt_size cache_size private_data_size : Z) (mp_init : option (ring_pool -> comp S unit))
  (obj_init : option (ring_pool -> Z -> Z -> comp S unit)) (socket_id flags : Z)
  : comp S (option (ring_ops * ring_pool)) :=
  match rte_mempool_create_empty fuel e nm n elt_size cache_size private_data_size socket_id flags with
  | None => no_fuel
  | Some (inr _) => mret None
  | Some (inl mp) =>
      match rte_mempool_set_ops_byname ring_table mp (ring_ops_name flags) with
      | inr _ => mret None
      | inl o =>
          (match mp_init with Some f => f mp | None => mret tt end) ;;
          let '(mp, r) := @rte_mempool_populate_default _ (@null_driver _ (ring_driver o)) fuel e (common_ring_alloc z) mp in
          match r with
          | Ret ret =>
              if ret <? 0 then mret None
              else
                (match obj_init with Some f => rte_mempool_obj_iter mp f ;; mret tt | None => mret tt end) ;;
                mret (Some (o, mp))
          | r => fun s => (s, reraise r)
          end
      end
  end.

Lemma ring_ops_found {D} (mp : rte_mempool D) flags :
  flag_set (mp_flags mp) MEMPOOL_F_POOL_CREATED = false ->
  rte_mempool_set_ops_byname ring_table mp (ring_ops_name flags) = inl (ring_ops_of flags).
Proof.
  intros H. unfold rte_mempool_set_ops_byname, ring_ops_name, ring_ops_of. rewrite H.
  by destruct (flag_set flags MEMPOOL_F_SP_PUT), (flag_set flags MEMPOOL_F_SC_GET).
Qed.

(** ** Emptying a pool *)

Section Emptying.
Context {D : Type} `{DRV : !PoolDriver D} `{LAWS : !PoolDriverLaws D}.
Implicit Types (mp : rte_mempool D) (d : D).

(** The driver has exactly the objects of the pool, and they are counted. *)
Record accounted mp (q : list Z) : Prop := {
  ac_holds : pd_holds (pool_data mp) q;
  ac_objects : length q = length (elt_list mp);
  ac_count : populated_size mp = Z.of_nat (length (elt_list mp)) }.

(** What neither populating nor emptying changes. *)
Definition same_frame mp mp' : Prop :=
  mp_name mp' = mp_name mp /\ mp_flags mp' = mp_flags mp /\ mp_size mp' = mp_size mp /\ cache_size mp' = cache_size mp
  /\ elt_size mp' = elt_size mp /\ header_size mp' = header_size mp /\ trailer_size mp' = trailer_size mp
  /\ private_data_size mp' = private_data_size mp /\ local_cache mp' = local_cache mp /\ mp_socket_id mp' = mp_socket_id mp
  /\ pd_cap (pool_data mp') = pd_cap (pool_data mp).

Lemma same_frame_refl mp : same_frame mp mp.
Proof using. by split_and!. Qed.

Lemma same_frame_trans mp1 mp2 mp3 : same_frame mp1 mp2 -> same_frame mp2 mp3 -> same_frame mp1 mp3.
Proof using.
  intros (A1 & A2 & A3 & A4 & A5 & A6 & A7 & A8 & A9 & A10 & A11) (B1 & B2 & B3 & B4 & B5 & B6 & B7 & B8 & B9 & B10 & B11).
  split_and!; congruence.
Qed.

Record emptied mp mp' : Prop := {
  em_frame : same_frame mp mp';
  em_objects : elt_list mp' = [];
  em_chunks : mem_list mp' = [];
  em_account : accounted mp' [] }.

Lemma dequeue_one mp q :
  pd_holds (pool_data mp) q -> q <> [] ->
  exists d r q', lift_driver (ops_dequeue 1 [0]) mp = (mp <| pool_data := d |>, Ret r)
    /\ pd_holds d q' /\ pd_cap d = pd_cap (pool_data mp) /\ length q = S (length q').
Proof using.
  intros Hq Hne. destruct (pd_dequeue (pool_data mp) q [0] 1 Hq ltac:(simpl; lia)) as (d & rc & q' & t & Hrun & Hc & Hq' & Hres).
  exists d, (rc, t), q'. unfold lift_driver. rewrite Hrun. split_and!; try done.
  destruct (Z.leb_spec 1 (Z.of_nat (length q))) as [|Hl]; [|destruct q; [done|simpl in Hl; lia]].
  destruct Hres as (_ & got & Hg & _ & Hp). apply Permutation_length in Hp. rewrite length_app in Hp. lia.
Qed.

Lemma free_memchunks_run mp q :
  accounted mp q -> populated_size mp < 2 ^ 32 ->
  exists mp', rte_mempool_free_memchunks mp = (mp', Ret tt) /\ emptied mp mp'.
Proof using.
  intros Hac Hb. unfold rte_mempool_free_memchunks. erewrite bind_ret; [|reflexivity].
  match goal with |- context [comp_loop ?b _ _] => set (body := b) end.
  assert (forall l s q, elt_list s = l -> accounted s q -> populated_size s < 2 ^ 32 ->
    exists s', comp_loop body (S (length l)) tt s = (s', Ret tt)
      /\ same_frame s s' /\ elt_list s' = [] /\ mem_list s' = mem_list s /\ accounted s' []) as Hloop.
  { clear. induction l as [|o l IH]; intros s q El [Hq Ho Hc] Hb.
    - exists s. cbn [comp_loop length]. erewrite bind_ret; [|unfold body; erewrite bind_ret; [|reflexivity]; rewrite El; reflexivity].
      split; [done|]. split; [apply same_frame_refl|]. split_and!; try done.
      rewrite El in Ho. apply nil_length_inv in Ho as ->. by split; rewrite ?El in *.
    - rewrite El in Ho, Hc. destruct (dequeue_one s q Hq) as (d & r & q' & Hrun & Hq' & Hcap & Hlen); [by destruct q|].
      set (s1 := (s <| pool_data := d |>) <| elt_list := l |> <| populated_size := populated_size s -[32] 1 |>).
      assert (body tt s = (s1, Ret (inl tt))) as Hbody.
      { unfold body. erewrite bind_ret; [|reflexivity]. rewrite El, (bind_ret _ _ _ _ _ Hrun). reflexivity. }
      assert (accounted s1 q') as Hac1.
      { cbn [length] in *. split; cbn; [done|lia|]. rewrite wrap_small by (unfold in_range; lia). lia. }
      destruct (IH s1 q') as (s' & Hl & Hf & H1 & H2 & H3); [done|done|rewrite (ac_count _ _ Hac1); cbn [length] in *; cbn; lia|].
      exists s'. change (comp_loop body (S (length (o :: l))) tt s) with ((y ← body tt;
        match y with inl x' => comp_loop body (S (length l)) x' | inr r => mret r end) s).
      rewrite (bind_ret _ _ _ _ _ Hbody). split; [done|]. split; [|done].
      eapply same_frame_trans; [|exact Hf]. by split_and!. }
  destruct (Hloop (elt_list mp) mp q eq_refl Hac Hb) as (s' & Hrun & Hf & H1 & H2 & [Hq Ho Hc]).
  rewrite (bind_ret _ _ _ _ _ Hrun). eexists. split; [reflexivity|]. by split.
Qed.

Lemma grown_accounted mp q mp' q' l : accounted mp q -> grown mp q mp' q' l -> accounted mp' q'.
Proof using.
  intros [Hq Ho Hc] [Hf _ _ _ _ Hl -> _ Hp]. split; [apply (fl_holds _ _ Hf)| |].
  - rewrite Hl, !length_app, length_fmap. lia.
  - rewrite Hp, Hl, length_app. lia.
Qed.
End Emptying.

(** ** Populating from any memory *)

Section AnyChunk.
Context {D : Type} `{DRV : !PoolDriver D} `{LAWS : !PoolDriverLaws D}.
Context (env : mempool_env) (alloc : rte_mempool D -> D + Z).
Implicit Types (mp : rte_mempool D).

Lemma same_frame_data mp mp' :
  pd_cap (pool_data mp') = pd_cap (pool_data mp) ->
  mp' = mp <| pool_data := pool_data mp' |> <| elt_list := elt_list mp' |> <| populated_size := populated_size mp' |>
           <| mem_list := mem_list mp' |> <| nb_mem_chunks := nb_mem_chunks mp' |> -> same_frame mp mp'.
Proof using. intros Hc ->. by split_and!. Qed.

(** Either objects were added, all inside the chunk, or nothing was. *)
Definition chunk_post mp q vaddr len mp' (r : Z) : Prop :=
  same_frame mp mp' /\ exists l, grown mp q mp' (q ++ (obj_addr <$> l)) l
    /\ laid_out (header_size mp) (elt_size mp + trailer_size mp) vaddr (vaddr + len) l
    /\ (0 < r /\ r = Z.of_nat (length l) \/ r < 0 /\ l = []).

Lemma populate_iova_any mp q vaddr iova len :
  fillable mp q -> populated_size mp < mp_size mp ->
  0 <= vaddr -> 0 <= len -> vaddr + len + 64 <= 2 ^ 64 -> len + total_elt_sz mp < 2 ^ 64 ->
  exists mp' r, rte_mempool_populate_iova env alloc vaddr iova len mp = (mp', Ret r) /\ chunk_post mp q vaddr len mp' r.
Proof using LAWS.
  intros Hf Hlt Hv Hlen Hb1 Hb2. destruct (rte_zmalloc_ok env) eqn:Hz.
  - destruct (populate_iova_run env alloc mp q vaddr iova len Hf Hz Hlt Hv Hlen Hb1 Hb2) as (d & Hrun & Hd & Hdc).
    pose proof (placed_length mp q vaddr iova len Hf Hv ltac:(lia)) as Hpl.
    pose proof (added_grown mp q _ d Hf Hd Hdc ltac:(lia)) as Hg.
    pose proof (placed_laid_out mp q vaddr iova len Hf Hv Hlen ltac:(lia)) as Hlaid.
    rewrite Hrun. destruct (decide _) as [E|Hne]; (eexists _, _; split; [reflexivity|]).
    + split; [by apply same_frame_data|]. rewrite E in *. exists []. split; [by rewrite <- added_nil|]. split; [done|by right].
    + split; [by apply same_frame_data|]. exists (placed mp vaddr iova len). split; [by apply with_chunk_grown|]. split; [done|].
      left. destruct (placed mp vaddr iova len); [done|]. simpl length. lia.
  - exists mp, (- Ring.ENOMEM). split.
    { unfold rte_mempool_populate_iova. pose proof (fl_created _ _ Hf) as Hc.
      rewrite (bind_ret _ _ mp mp 0); [|unfold mempool_ops_alloc_once; erewrite bind_ret; [|reflexivity]; by rewrite Hc].
      change (negb (0 =? 0)) with false. cbv iota. erewrite bind_ret; [|reflexivity].
      destruct (Z.leb_spec (mp_size mp) (populated_size mp)); [lia|]. by rewrite Hz. }
    split; [apply same_frame_refl|]. exists []. simpl. rewrite app_nil_r. split; [by apply grown_refl|]. split; [lia|by right].
Qed.
End AnyChunk.

Section AnyArea.
Context {D : Type} `{DRV : !PoolDriver D} `{LAWS : !PoolDriverLaws D}.
Context (env : mempool_env) (alloc : rte_mempool D -> D + Z) (fuel : nat) (addr pages pg_shift : Z).
Context (Hshift : 6 <= pg_shift < 32) (Haddr : 0 <= addr /\ (2 ^ pg_shift | addr)) (Hpages : 0 <= pages).
Context (Hend : addr + (pages + 1) * 2 ^ pg_shift <= 2 ^ 63) (Hfuel : (Z.to_nat pages < fuel)%nat).
Context (mp : rte_mempool D) (q : list Z) (Hf : fillable mp q) (Hac : accounted mp q).
Context (Hflag : flag_set (mp_flags mp) MEMPOOL_F_NO_IOVA_CONTIG = false).

Let pg := 2 ^ pg_shift.

(** Before page [a]: the objects [l] lie in the pages before. *)
Record area_inv (a : Z) (s : rte_mempool D) (l : list rte_mempool_objhdr) : Prop := {
  ar_frame : same_frame mp s;
  ar_grown : grown mp q s (q ++ (obj_addr <$> l)) l;
  ar_laid : laid_out (header_size mp) (elt_size mp + trailer_size mp) addr (addr + a * pg) l;
  ar_some : 0 < a -> l <> [] }.

(** The result: objects added, or the pool emptied. *)
Definition area_post (s : rte_mempool D) (r : Z) : Prop :=
  (r < 0 /\ emptied mp s) \/ (exists a l, 0 <= a <= pages /\ area_inv a s l /\ r = Z.of_nat (length l)
     /\ (a = pages \/ mp_size s <= populated_size s)).

(** Leaving the loop with an error. *)
Lemma area_fail s a l ret :
  area_inv a s l -> ret < 0 ->
  exists s', (rte_mempool_free_memchunks ;; mret (inr ret : Z * Z + Z)) s = (s', Ret (inr ret)) /\ area_post s' ret.
Proof using All.
  intros [Hframe Hg _ _] Hr. pose proof (grown_accounted _ _ _ _ _ Hac Hg) as Hacs.
  destruct (fl_size _ _ (gr_fill _ _ _ _ _ Hg)). destruct (free_memchunks_run s _ Hacs) as (s' & Hrun & [E1 E2 E3 E4]); [lia|].
  exists s'. rewrite (bind_ret _ _ _ _ _ Hrun). split; [done|]. left. split; [done|]. split; try done. by eapply same_frame_trans.
Qed.

(** One round, before a page that is there for a pool that is short of objects. *)
Lemma area_round s a l n iova :
  area_inv a s l -> 0 <= a -> 1 <= n -> a + n <= pages -> populated_size s < mp_size s ->
  exists s' r, rte_mempool_populate_iova env alloc (addr +[64] a * pg) iova (n * pg) s = (s', Ret r)
    /\ ((0 < r /\ exists l', area_inv (a + n) s' (l ++ l') /\ r = Z.of_nat (length l'))
        \/ (r < 0 /\ area_inv a s' l)).
Proof using All.
  intros [Hframe Hg Hl Hsome] Ha Hn Han Hlt. pose proof (page_bounds pg_shift Hshift) as Hpg. fold pg in Hpg, Hend.
  pose proof Hg as [Hfs Gs (Gh & Ge & Gt) _ _ _ _ _ Gc]. pose proof (total_sum s (fl_sizes _ _ Hfs)) as Ht. destruct (fl_sizes _ _ Hfs).
  pose proof (Z.mul_le_mono_nonneg_r (a + n) pages pg ltac:(lia) Han). pose proof (Z.mul_nonneg_nonneg a pg Ha ltac:(lia)).
  pose proof (Z.mul_nonneg_nonneg n pg ltac:(lia) ltac:(lia)).
  rewrite wrap_small by (unfold in_range; lia).
  destruct (populate_iova_any env alloc s _ (addr + a * pg) iova (n * pg) Hfs Hlt) as (s' & r & Hrun & Hframe' & l' & Hg' & Hl' & Hr); [lia..|].
  exists s', r. split; [exact Hrun|]. destruct Hr as [[Hr0 Hr]|[Hr ->]].
  - left. split; [done|]. exists l'. split; [|done]. rewrite Gh, Ge, Gt in Hl'. split.
    + by eapply same_frame_trans.
    + rewrite fmap_app, app_assoc. by eapply grown_trans.
    + eapply laid_out_app; [exact Hl|]. by replace (addr + (a + n) * pg) with (addr + a * pg + n * pg) by lia.
    + intros _ [_ E]%app_nil. subst l'. simpl in Hr. lia.
  - right. split; [done|]. split; [by eapply same_frame_trans| |done|done].
    pose proof (grown_trans _ _ _ _ _ _ _ _ Hg Hg') as Hg2. by rewrite app_nil_r in Hg2; cbn in Hg2; rewrite app_nil_r in Hg2.
Qed.

Lemma populate_virt_any :
  exists s r, rte_mempool_populate_virt env alloc fuel addr (pages * pg) pg mp = (s, Ret r) /\ area_post s r.
Proof using All.
  pose proof (page_bounds pg_shift Hshift) as Hpg. fold pg in Hpg, Hend. destruct Haddr as [Ha0 Hdiv].
  pose proof (Z.mul_nonneg_nonneg pages pg Hpages ltac:(lia)) as Hpp. unfold rte_mempool_populate_virt.
  unfold pg at 1 2 3 4. rewrite (align_ceil_id 64 pg_shift addr) by (done || (fold pg; lia)).
  rewrite (align_ceil_id 64 pg_shift (pages * 2 ^ pg_shift)) by (lia || (fold pg; lia) || by exists pages). fold pg.
  rewrite !Z.eqb_refl. cbn [negb]. erewrite bind_ret; [|reflexivity]. rewrite Hflag.
  match goal with |- context [comp_loop ?b _ _] => set (body := b) end.
  destruct (comp_loop_total
    (fun '(off, cnt) s => exists a l, off = a * pg /\ 0 <= a <= pages /\ cnt = Z.of_nat (length l) /\ area_inv a s l)
    (fun r s => area_post s r)
    (fun '(off, cnt) => Z.to_nat (pages - off / pg)) body fuel (0, 0) mp) as (s' & r & Hrun & Hpost).
  - intros [off cnt] s (a & l & -> & Ha & -> & Hinv). unfold body.
    pose proof (ar_grown _ _ _ Hinv) as Hg. destruct (fl_size _ _ (gr_fill _ _ _ _ _ Hg)) as [Hp Hs].
    erewrite bind_ret; [|reflexivity].
    pose proof (Z.mul_le_mono_nonneg_r a pages pg ltac:(lia) ltac:(lia)). pose proof (Z.mul_nonneg_nonneg a pg ltac:(lia) ltac:(lia)).
    rewrite (wrap_small 64 (a * pg + pg)) by (unfold in_range; lia).
    destruct ((a * pg + pg <=? pages * pg) && (populated_size s <? mp_size s)) eqn:Hcond.
    + apply andb_true_iff in Hcond as [Hmore%Z.leb_le Hlt%Z.ltb_lt]. assert (a + 1 <= pages) as Ha1 by nia. cbv zeta.
      set (iova := rte_mem_virt2iova env _). destruct ((iova =? RTE_BAD_IOVA) && rte_eal_has_hugepages env).
      { destruct (area_fail s a l (- EINVAL) Hinv) as (s' & Hrun & Hpost); [done|]. by exists s', (inr (- EINVAL)). }
      destruct (contiguous_pages_run env alloc fuel addr pages pg_shift Hshift Haddr Hpages Hend Hfuel a iova ltac:(lia)) as (n & Hn & Hn1).
      fold pg in Hn. rewrite Hn.
      destruct (area_round s a l n iova Hinv ltac:(lia) ltac:(lia) ltac:(lia) Hlt) as (s1 & r & Hrun & [(Hr & l' & Hinv' & Hl')|[Hr Hinv']]);
        rewrite (bind_ret _ _ _ _ _ Hrun).
      * destruct (Z.ltb_spec r 0); [lia|]. pose proof (ar_grown _ _ _ Hinv') as Hg'. pose proof (gr_count _ _ _ _ _ Hg') as Gc'.
        destruct (fl_size _ _ (gr_fill _ _ _ _ _ Hg')) as [Hp' Hs'], (fl_size _ _ Hf). rewrite length_app in Gc'.
        pose proof (gr_size _ _ _ _ _ Hg'). pose proof (Z.mul_le_mono_nonneg_r (a + n) pages pg ltac:(lia) ltac:(lia)).
        pose proof (Z.mul_nonneg_nonneg n pg ltac:(lia) ltac:(lia)).
        rewrite (wrap_small 64 (a * pg + n * pg)), s32_small by (unfold in_range; lia).
        eexists _, (inl (a * pg + n * pg, _)). split; [reflexivity|]. rewrite <- Z.mul_add_distr_r. split.
        -- exists (a + n), (l ++ l'). rewrite length_app. split_and!; try done; lia.
        -- rewrite !Z.div_mul by lia. lia.
      * destruct (Z.ltb_spec r 0); [|lia]. destruct (area_fail s1 a l r Hinv' Hr) as (s' & Hrun' & Hpost). by exists s', (inr r).
    + eexists _, (inr _). split; [reflexivity|]. right. exists a, l. split_and!; try done; try lia.
      apply andb_false_iff in Hcond as [Hc%Z.leb_gt|Hc%Z.ltb_ge]; [left; nia|right; lia].
  - exists 0, []. split_and!; [lia|lia|lia|done|]. split; simpl; [apply same_frame_refl|rewrite app_nil_r; by apply grown_refl|lia|lia].
  - rewrite Z.div_0_l by lia. lia.
  - by exists s', r.
Qed.
End AnyArea.

(** ** Page sizes *)

Lemma rte_bsf32_pow k : 0 <= k < 32 -> rte_bsf32 (u32 (2 ^ k)) = Some k.
Proof.
  intros Hk. pose proof (Z.pow_pos_nonneg 2 k ltac:(lia) ltac:(lia)). pose proof (Z.pow_lt_mono_r 2 k 32 ltac:(lia) ltac:(lia) ltac:(lia)).
  rewrite wrap_small by (unfold in_range; lia). unfold rte_bsf32. destruct (Z.eqb_spec (2 ^ k) 0); [lia|].
  replace (- 2 ^ k) with (Z.lnot (Z.ones k)) by (rewrite Z.ones_equiv; unfold Z.lnot; lia).
  rewrite <- Z.ldiff_land, Z.ldiff_ones_r, Z.shiftr_div_pow2, Z.div_same, Z.shiftl_1_l, Z.log2_pow2 by lia. done.
Qed.

Lemma align_floor_pow v k : 0 <= v < 2 ^ 64 -> 0 <= k < 64 -> RTE_ALIGN_FLOOR 64 v (2 ^ k) = v / 2 ^ k * 2 ^ k.
Proof.
  intros Hv Hk. unfold RTE_ALIGN_FLOOR. pose proof (Z.pow_pos_nonneg 2 k ltac:(lia) ltac:(lia)).
  pose proof (Z.pow_lt_mono_r 2 k 64 ltac:(lia) ltac:(lia) ltac:(lia)).
  rewrite (wrap_small 64 (2 ^ k - 1)) by (unfold in_range; lia). replace (2 ^ k - 1) with (Z.ones k) by (rewrite Z.ones_equiv; lia).
  rewrite (wrap_land 64 ltac:(lia) (Z.lnot _)), Z.land_assoc, <- (wrap_land 64 ltac:(lia)), <- Z.ldiff_land, Z.ldiff_ones_r by lia.
  rewrite <- Z.shiftr_div_pow2, <- Z.shiftl_mul_pow2 by lia. apply wrap_small. unfold in_range.
  rewrite Z.shiftl_mul_pow2, Z.shiftr_div_pow2 by lia. pose proof (Z.mul_div_le v (2 ^ k)). pose proof (Z.div_pos v (2 ^ k)). lia.
Qed.

(** A page size the code can work with. *)
Definition page_size_ok (sz : Z) : Prop := exists k, 6 <= k < 32 /\ sz = 2 ^ k.

Lemma min_page_size_ok e socket_id :
  page_size_ok (eal_page_size e) -> Forall (fun m => page_size_ok (msl_page_sz m)) (eal_memsegs e) ->
  page_size_ok (get_min_page_size e socket_id).
Proof.
  intros Hpg Hall. unfold get_min_page_size.
  assert (forall l m, Forall (fun m => page_size_ok (msl_page_sz m)) l -> m = SIZE_MAX \/ page_size_ok m ->
    let r := foldl (find_min_pagesz socket_id) m l in r = SIZE_MAX \/ page_size_ok r) as Hfold.
  { induction l as [|x l IH]; intros m Hl Hm; [done|]. apply Forall_cons in Hl as [Hx Hl]. cbn. apply IH; [done|].
    unfold find_min_pagesz. destruct (_ && _); [by right|done]. }
  destruct (Hfold (eal_memsegs e) SIZE_MAX Hall (or_introl eq_refl)) as [->|Hr]; [done|].
  by destruct (_ =? _).
Qed.

Lemma s64_small x : 0 <= x < 2 ^ 63 -> s64 x = x.
Proof. intros Hx. unfold sgn. rewrite wrap_small by (unfold in_range; lia). destruct (Z.ltb_spec x (2 ^ (64 - 1))); [done|clia]. Qed.

(** The sizes that [rte_mempool_op_calc_mem_size_default] computes do not overflow. *)
Lemma calc_mem_size_bounds {D} (mp : rte_mempool D) n pg_shift :
  sizes_ok mp -> total_elt_sz mp <= 2 ^ 31 -> 0 <= n < 2 ^ 31 -> pg_shift = 0 \/ 6 <= pg_shift < 32 ->
  exists mem, rte_mempool_op_calc_mem_size_default mp n pg_shift
      = (mem, Z.max (2 ^ pg_shift) (total_elt_sz mp), Z.max 64 (2 ^ pg_shift)) /\ 0 <= mem < 2 ^ 63.
Proof.
  intros Hs Htot Hn Hk. pose proof (total_sum mp Hs) as Ht. destruct Hs. unfold rte_mempool_op_calc_mem_size_default.
  destruct (Z.eqb_spec (total_elt_sz mp) 0); [lia|]. destruct Hk as [->|Hk].
  - change (0 =? 0) with true. cbv iota. change (1 <<[64] 0) with (2 ^ 0). eexists. split; [reflexivity|].
    pose proof (Z.mul_le_mono_nonneg (total_elt_sz mp) (2 ^ 31) n (2 ^ 31) ltac:(lia) ltac:(lia) ltac:(lia) ltac:(lia)).
    pose proof (Z.mul_nonneg_nonneg (total_elt_sz mp) n). rewrite wrap_small by (unfold in_range; lia). lia.
  - destruct (Z.eqb_spec pg_shift 0); [lia|]. pose proof (page_bounds pg_shift Hk) as Hpg.
    rewrite Z.shiftl_1_l, (wrap_small 64 (2 ^ pg_shift)) by (unfold in_range; lia). eexists. split; [reflexivity|]. cbv zeta.
    destruct (Z.eqb_spec (2 ^ pg_shift / total_elt_sz mp) 0) as [_|Hopp].
    + pose proof (align_ceil_bounds 64 pg_shift (total_elt_sz mp) ltac:(lia) ltac:(lia) ltac:(lia)) as [Hal _].
      set (x := RTE_ALIGN_CEIL _ _ _) in *. pose proof (Z.mul_le_mono_nonneg x (2 ^ 32 - 1) n (2 ^ 31) ltac:(lia) ltac:(lia) ltac:(lia) ltac:(lia)).
      pose proof (Z.mul_nonneg_nonneg x n ltac:(lia)). rewrite wrap_small by (unfold in_range; lia). lia.
    + pose proof (Z.div_pos (2 ^ pg_shift) (total_elt_sz mp) ltac:(lia) ltac:(lia)).
      pose proof (Z.div_le_upper_bound (2 ^ pg_shift) (total_elt_sz mp) (2 ^ pg_shift) ltac:(lia) ltac:(nia)).
      set (opp := _ / _) in *. rewrite (wrap_small 64 (n + opp)), (wrap_small 64 (n + opp - 1)) by (unfold in_range; lia).
      assert (0 <= (n + opp - 1) / opp <= n) as Hp.
      { split; [apply Z.div_pos; lia|]. destruct (Z.eq_dec n 0) as [->|]; [rewrite Z.div_small; lia|]. apply Z.div_le_upper_bound; nia. }
      set (pages := _ / opp) in *. rewrite Z.shiftl_mul_pow2 by lia.
      pose proof (Z.mul_le_mono_nonneg pages (2 ^ 31) (2 ^ pg_shift) (2 ^ 31) ltac:(lia) ltac:(lia) ltac:(lia) ltac:(lia)).
      pose proof (Z.mul_nonneg_nonneg pages (2 ^ pg_shift)). rewrite wrap_small by (unfold in_range; lia). lia.
Qed.

(** ** The memory zones *)

(** What the environment layer promises of its zones: they are aligned as asked, lie
    in the lower half of the address space, errors have positive numbers, and page
    sizes are powers of two.  [fuel] is enough for the pages of every zone. *)
Record zones_ok (fuel : nat) (e : eal) : Prop := {
  zo_zone k len align contig mz : eal_reserve e k len align contig = inl mz ->
    0 <= mz_addr mz /\ (align | mz_addr mz) /\ 0 <= mz_len mz /\ mz_addr mz + mz_len mz + 2 ^ 32 <= 2 ^ 63
    /\ (Z.to_nat (mz_len mz / 64) < fuel)%nat;
  zo_error k len align contig err : eal_reserve e k len align contig = inr err -> 0 < err;
  zo_page : page_size_ok (eal_page_size e);
  zo_memsegs : Forall (fun m => page_size_ok (msl_page_sz m)) (eal_memsegs e) }.

(** The zones were handed out for different requests, all before request [k]. *)
Inductive granted (e : eal) : nat -> list memzone -> Prop :=
| granted_nil k : granted e k []
| granted_snoc k k' len align contig mz zs :
    granted e k zs -> (k <= k')%nat -> eal_reserve e k' len align contig = inl mz -> granted e (S k') (zs ++ [mz]).

(** The objects [l] were cut from the zones [zs], in order. *)
Definition cut_from {D} (mp : rte_mempool D) (zs : list memzone) (ls : list (list rte_mempool_objhdr)) : Prop :=
  Forall2 (fun mz l => laid_out (header_size mp) (elt_size mp + trailer_size mp) (mz_addr mz) (mz_addr mz + mz_len mz) l) zs ls.

Section Zones.
Context {D : Type} `{DRV : !PoolDriver D} `{LAWS : !PoolDriverLaws D}.
Context (fuel : nat) (e : eal) (Hz : zones_ok fuel e).
Implicit Types (mp : rte_mempool D).

(** How the page size goes with the choice to ignore pages. *)
Definition pages_ok (no_pageshift : bool) (pg_sz pg_shift : Z) : Prop :=
  if no_pageshift then pg_shift = 0 else 6 <= pg_shift < 32 /\ pg_sz = 2 ^ pg_shift.

Definition zone_post (no_pageshift try_contig : bool) (pg_shift : Z) (k : nat) (r : (nat * Z * bool * memzone) + Z) : Prop :=
  match r with
  | inr err => err < 0
  | inl (k', min_chunk_size, try_contig', mz) =>
      exists k0 len align, k' = S k0 /\ (k <= k0)%nat /\ eal_reserve e k0 len align try_contig' = inl mz
        /\ (try_contig' = true -> try_contig = true)
        /\ (no_pageshift || try_contig' = false -> (2 ^ pg_shift | align) /\ 2 ^ pg_shift <= min_chunk_size)
  end.

Lemma reserve_biggest_ok nps tc tc' pg_sz pg_shift k k0 mem min align err :
  (k <= k0)%nat -> 0 < err -> (tc' = true -> tc = true) ->
  (nps || tc' = false -> align = 2 ^ pg_shift /\ pg_sz = 2 ^ pg_shift /\ 2 ^ pg_shift <= min) ->
  zone_post nps tc pg_shift k (reserve_biggest e k0 pg_sz mem min align tc' err).
Proof using Hz.
  intros Hk He Htc Hal. unfold reserve_biggest. destruct (min <? mem); [|cbn; lia].
  destruct (eal_reserve e k0 0 _ tc') as [mz|err'] eqn:E; cbn; [|pose proof (zo_error _ _ Hz _ _ _ _ _ E); lia].
  exists k0, 0, (Z.max pg_sz align). split_and!; try done. intros H. destruct (Hal H) as (-> & -> & Hm). by rewrite Z.max_id.
Qed.

Lemma reserve_zone_ok mp mz_id n pg_sz pg_shift tc nps k :
  sizes_ok mp -> total_elt_sz mp <= 2 ^ 31 -> 0 <= n < 2 ^ 31 -> pages_ok nps pg_sz pg_shift -> (tc = true -> nps = false) ->
  zone_post nps tc pg_shift k (reserve_zone e mp mz_id n pg_sz pg_shift tc nps k).
Proof using Hz.
  intros Hs Htot Hn Hp Htc. unfold reserve_zone, pages_ok in *.
  assert (pg_shift = 0 \/ 6 <= pg_shift < 32) as Hk by (destruct nps; [by left|right; apply Hp]).
  assert (forall b, (b = true -> tc = true) -> nps || b = false ->
    Z.max 64 (2 ^ pg_shift) = 2 ^ pg_shift /\ pg_sz = 2 ^ pg_shift /\ 2 ^ pg_shift <= Z.max (2 ^ pg_shift) (total_elt_sz mp)) as Hpage.
  { intros b _ [-> _]%orb_false_iff. destruct Hp as [Hs32 ->]. pose proof (page_bounds pg_shift Hs32). lia. }
  destruct (calc_mem_size_bounds mp n (if tc || nps then 0 else pg_shift) Hs Htot Hn) as (mem & -> & Hmem);
    [destruct (tc || nps); [by left|done]|].
  rewrite s64_small by lia. destruct (Z.ltb_spec mem 0); [lia|].
  destruct (RTE_MEMZONE_NAMESIZE <=? _); [cbn; unfold Ring.ENAMETOOLONG; lia|].
  set (al := Z.max 64 _). set (mi := Z.max _ (total_elt_sz mp)).
  assert (nps || tc = false -> al = 2 ^ pg_shift /\ pg_sz = 2 ^ pg_shift /\ 2 ^ pg_shift <= mi) as Hpg1.
  { intros Hb. destruct (Hpage tc ltac:(done) Hb) as (H1 & H2 & H3). unfold al, mi. rewrite orb_comm, Hb. done. }
  destruct (eal_reserve e k mem al tc) as [mz|err] eqn:E1.
  { exists k, mem, al. split_and!; try done. intros Hb. by destruct (Hpg1 Hb) as (-> & _ & Hm). }
  pose proof (zo_error _ _ Hz _ _ _ _ _ E1) as He1.
  destruct (tc && (mi <=? pg_sz)) eqn:Hretry; [|apply reserve_biggest_ok; try done; lia].
  apply andb_true_iff in Hretry as [-> _]. specialize (Htc eq_refl). subst nps.
  destruct (calc_mem_size_bounds mp n pg_shift Hs Htot Hn Hk) as (mem2 & -> & Hmem2).
  rewrite s64_small by lia. destruct (Z.ltb_spec mem2 0); [lia|].
  destruct (Hpage false ltac:(done) eq_refl) as (-> & Hpg & Hmin).
  destruct (eal_reserve e (S k) mem2 _ false) as [mz|err2] eqn:E2.
  - exists (S k), mem2, (2 ^ pg_shift). split_and!; try done. lia.
  - pose proof (zo_error _ _ Hz _ _ _ _ _ E2). apply reserve_biggest_ok; try done. lia.
Qed.
End Zones.

(** ** Populating with the default function *)

Section PopulateAll.
Context {D : Type} `{DRV : !PoolDriver D} `{LAWS : !PoolDriverLaws D}.
Context (fuel : nat) (e : eal) (Hz : zones_ok fuel e) (alloc : rte_mempool D -> D + Z).
Context (mp : rte_mempool D) (Hf : fillable mp []) (Hac : accounted mp []) (Htot : total_elt_sz mp <= 2 ^ 31).
Context (pg_sz pg_shift : Z) (nps : bool) (Hp : pages_ok nps pg_sz pg_shift).
Context (Hcontig : nps = false -> flag_set (mp_flags mp) MEMPOOL_F_NO_IOVA_CONTIG = false).

Let no_contig := flag_set (mp_flags mp) MEMPOOL_F_NO_IOVA_CONTIG.

(** The pool [s] has the objects [ls], cut from the zones [zs]. *)
Record filled_from (s : rte_mempool D) (zs : list memzone) (ls : list (list rte_mempool_objhdr)) : Prop := {
  ff_frame : same_frame mp s;
  ff_grown : grown mp [] s (obj_addr <$> concat ls) (concat ls);
  ff_zones : cut_from mp zs ls }.

(** Before the next round: [n] objects are missing. *)
Definition round_inv (x : nat * nat * Z * bool) (s : rte_mempool D) : Prop :=
  let '(_, k, n, tc) := x in
  exists zs ls, granted e k zs /\ filled_from s zs ls /\ n = mp_size mp - populated_size s /\ (tc = true -> nps = false).

(** All objects, or none. *)
Definition populate_post (r : Z) (s : rte_mempool D) : Prop :=
  (r = mp_size mp /\ exists k zs ls, granted e k zs /\ filled_from s zs ls /\ populated_size s = mp_size mp)
  \/ (r < 0 /\ emptied mp s).

Lemma fail_run s q ret :
  accounted s q -> populated_size s < 2 ^ 32 -> same_frame mp s -> ret < 0 ->
  exists s', populate_fail ret s = (s', Ret (inr ret)) /\ populate_post ret s'.
Proof using.
  intros Hacs Hb Hframe Hr. destruct (free_memchunks_run s q Hacs Hb) as (s' & Hrun & [E1 E2 E3 E4]).
  exists s'. unfold populate_fail. rewrite (bind_ret _ _ _ _ _ Hrun). split; [done|]. right. split; [done|].
  split; try done. by eapply same_frame_trans.
Qed.

Lemma filled_next s zs ls s1 mz l :
  filled_from s zs ls -> same_frame s s1 -> grown s (obj_addr <$> concat ls) s1 ((obj_addr <$> concat ls) ++ (obj_addr <$> l)) l ->
  laid_out (header_size s) (elt_size s + trailer_size s) (mz_addr mz) (mz_addr mz + mz_len mz) l ->
  filled_from s1 (zs ++ [mz]) (ls ++ [l]).
Proof using.
  intros [Hframe Hg Hcut] Hs1 Hg1 Hl. pose proof (gr_parts _ _ _ _ _ Hg) as (Gh & Ge & Gt). rewrite Gh, Ge, Gt in Hl. split.
  - by eapply same_frame_trans.
  - rewrite concat_app. cbn [concat]. rewrite app_nil_r, fmap_app. by eapply grown_trans.
  - apply Forall2_app; [done|]. by constructor.
Qed.

(** Cutting one zone into objects: some are added, or the loop fails. *)
Lemma zone_run s zs ls mz tc k0 len align min :
  filled_from s zs ls -> populated_size s < mp_size s ->
  eal_reserve e k0 len align tc = inl mz -> (nps || tc = false -> (2 ^ pg_shift | align) /\ 2 ^ pg_shift <= min) ->
  min <= mz_len mz ->
  exists s1 r, (if nps || tc
      then rte_mempool_populate_iova (eal_mem e) alloc (mz_addr mz) (if no_contig then RTE_BAD_IOVA else mz_iova mz) (mz_len mz)
      else rte_mempool_populate_virt (eal_mem e) alloc fuel (mz_addr mz) (RTE_ALIGN_FLOOR 64 (mz_len mz) pg_sz) pg_sz) s = (s1, Ret r)
    /\ same_frame mp s1
    /\ ((r < 0 /\ exists q, accounted s1 q /\ populated_size s1 <= mp_size mp)
        \/ (0 < r /\ exists l, filled_from s1 (zs ++ [mz]) (ls ++ [l]) /\ r = Z.of_nat (length l))).
Proof using All.
  intros Hff Hlt Hres Hal Hmin. pose proof Hff as [Hframe Hg Hcut].
  destruct (zo_zone _ _ Hz _ _ _ _ _ Hres) as (Ha0 & Hdiv & Hl0 & Hend & Hfuel).
  pose proof (gr_fill _ _ _ _ _ Hg) as Hfs. pose proof (grown_accounted _ _ _ _ _ Hac Hg) as Hacs.
  pose proof (gr_parts _ _ _ _ _ Hg) as (Gh & Ge & Gt). pose proof (gr_size _ _ _ _ _ Hg) as Gs.
  assert (total_elt_sz s = total_elt_sz mp) as Et by (unfold total_elt_sz; by rewrite Gh, Ge, Gt).
  destruct (nps || tc) eqn:Hmode.
  - destruct (populate_iova_any (eal_mem e) alloc s _ (mz_addr mz) (if no_contig then RTE_BAD_IOVA else mz_iova mz) (mz_len mz) Hfs Hlt)
      as (s1 & r & Hrun & Hs1 & l & Hg1 & Hlaid & Hr); [lia..|].
    exists s1, r. split; [exact Hrun|]. split; [by eapply same_frame_trans|]. destruct Hr as [[Hr Hrl]|[Hr ->]].
    + right. split; [done|]. exists l. split; [by eapply filled_next|done].
    + left. split; [done|]. exists (obj_addr <$> concat ls). cbn in Hg1. rewrite app_nil_r in Hg1.
      split; [by eapply grown_accounted|]. pose proof (fl_size _ _ (gr_fill _ _ _ _ _ Hg1)). pose proof (gr_size _ _ _ _ _ Hg1). lia.
  - destruct (Hal eq_refl) as [Hdiv2 Hmin2]. apply orb_false_iff in Hmode as [En _]. unfold pages_ok in Hp. rewrite En in Hp.
    destruct Hp as [Hk ->]. pose proof (page_bounds pg_shift Hk) as Hpg. rewrite align_floor_pow by lia.
    set (pages := mz_len mz / 2 ^ pg_shift). assert (pages * 2 ^ pg_shift <= mz_len mz) as Hpl
      by (unfold pages; rewrite Z.mul_comm; apply Z.mul_div_le; lia).
    assert (1 <= pages) as Hp1 by (apply Z.div_le_lower_bound; lia).
    assert (pages <= mz_len mz / 64) as Hpf by (apply Z.div_le_compat_l; lia).
    destruct (populate_virt_any (eal_mem e) alloc fuel (mz_addr mz) pages pg_shift) with (mp := s) (q := obj_addr <$> concat ls)
      as (s1 & r & Hrun & Hpost); [done|split; [done|by eapply Z.divide_trans]|lia|lia|lia|done|done| |].
    { destruct Hframe as (_ & -> & _). by apply Hcontig. }
    exists s1, r. split; [exact Hrun|]. destruct Hpost as [[Hr [E1 E2 E3 E4]]|(a & l & Ha & [Hs1 Hg1 Hl1 Hne] & -> & Hdone)].
    + split; [by eapply same_frame_trans|]. left. split; [done|]. exists []. split; [done|]. rewrite (ac_count _ _ E4), E2.
      destruct (fl_size _ _ Hf). simpl. lia.
    + split; [by eapply same_frame_trans|]. right.
      assert (l <> []) as Hl.
      { destruct Hdone as [->|Hfull]; [apply Hne; lia|]. intros ->. pose proof (gr_count _ _ _ _ _ Hg1). pose proof (gr_size _ _ _ _ _ Hg1). simpl in *. lia. }
      split; [destruct l; [done|simpl; lia]|]. exists l. split; [|done].
      eapply filled_next; [exact Hff|exact Hs1|exact Hg1|]. eapply laid_out_weaken; [| |exact Hl1]; [lia|].
      pose proof (Z.mul_le_mono_nonneg_r a pages (2 ^ pg_shift) ltac:(lia) ltac:(lia)). lia.
Qed.

Lemma populate_round x s :
  round_inv x s ->
  exists s' r, populate_default_body fuel e alloc no_contig nps pg_sz pg_shift x s = (s', Ret r)
    /\ match r with
       | inl y => round_inv y s' /\ (Z.to_nat y.1.2 < Z.to_nat x.1.2)%nat
       | inr r => populate_post r s'
       end.
Proof using All.
  destruct x as [[[mz_id k] n] tc]. intros (zs & ls & Hgr & Hff & -> & Htc). pose proof Hff as [Hframe Hg Hcut].
  pose proof (gr_fill _ _ _ _ _ Hg) as Hfs. pose proof (gr_size _ _ _ _ _ Hg) as Gs. destruct (fl_size _ _ Hfs) as [Hps Hss].
  pose proof (grown_accounted _ _ _ _ _ Hac Hg) as Hacs. pose proof (gr_parts _ _ _ _ _ Hg) as (Gh & Ge & Gt).
  unfold populate_default_body. erewrite bind_ret; [|reflexivity].
  destruct (Z.ltb_spec 0 (mp_size mp - populated_size s)) as [Hmore|Hdone]; cbn [negb].
  2: { exists s, (inr (s32 (mp_size s))). split; [done|]. rewrite s32_small by lia. left. split; [lia|]. exists k, zs, ls. split_and!; try done. lia. }
  assert (total_elt_sz s = total_elt_sz mp) as Et by (unfold total_elt_sz; by rewrite Gh, Ge, Gt).
  pose proof (reserve_zone_ok fuel e Hz s mz_id (mp_size mp - populated_size s) pg_sz pg_shift tc nps k (fl_sizes _ _ Hfs)
    ltac:(lia) ltac:(lia) Hp Htc) as Hzone.
  destruct (reserve_zone e s mz_id _ pg_sz pg_shift tc nps k) as [[[[k1 min] tc1] mz]|err]; cbn in Hzone.
  2: { destruct (fail_run s _ err Hacs) as (s' & Hrun & Hpost); [lia|done|done|]. by exists s', (inr err). }
  destruct Hzone as (k0 & len & align & -> & Hk & Hres & Htc1 & Hal).
  destruct (Z.ltb_spec (mz_len mz) min) as [Hsmall|Hbig].
  { destruct (fail_run s _ (- Ring.ENOMEM) Hacs) as (s' & Hrun & Hpost); [lia|done|done|]. by exists s', (inr (- Ring.ENOMEM)). }
  cbv zeta. destruct (zone_run s zs ls mz tc1 k0 len align min Hff ltac:(lia) Hres Hal Hbig) as (s1 & r & Hrun & Hs1 & Hr).
  rewrite (bind_ret _ _ _ _ _ Hrun). destruct Hr as [(Hr & q & Hac1 & Hb1)|(Hr & l & Hff1 & Hl)].
  - destruct (Z.ltb_spec r 0); [|lia]. destruct (fail_run s1 q r Hac1) as (s' & Hrun' & Hpost); [lia|done|done|]. by exists s', (inr r).
  - destruct (Z.ltb_spec r 0); [lia|]. pose proof (ff_grown _ _ _ Hff1) as Hg1. pose proof (fl_size _ _ (gr_fill _ _ _ _ _ Hg1)).
    pose proof (gr_count _ _ _ _ _ Hg) as Gc. pose proof (gr_count _ _ _ _ _ Hg1) as Gc1. pose proof (gr_size _ _ _ _ _ Hg1).
    rewrite concat_app, length_app in Gc1. cbn [concat] in Gc1. rewrite app_nil_r in Gc1.
    rewrite (wrap_small 32 r), (wrap_small 32) by (unfold in_range; lia).
    eexists s1, (inl (S mz_id, S k0, _, tc1)). split; [reflexivity|]. cbn [fst snd]. split; [|lia].
    exists (zs ++ [mz]), (ls ++ [l]). split_and!; [by eapply granted_snoc|done|lia|]. intros Ht. by apply Htc, Htc1.
Qed.

Lemma populate_loop tc :
  (tc = true -> nps = false) -> populated_size mp = 0 -> (Z.to_nat (mp_size mp) < fuel)%nat ->
  exists s r, comp_loop (populate_default_body fuel e alloc no_contig nps pg_sz pg_shift) fuel (0%nat, 0%nat, mp_size mp, tc) mp = (s, Ret r)
    /\ populate_post r s.
Proof using All.
  intros Htc Hp0 Hfuel. apply (comp_loop_total round_inv populate_post (fun x => Z.to_nat x.1.2)).
  - apply populate_round.
  - exists [], []. split; [constructor|]. split; [|split; [lia|done]].
    split; [apply same_frame_refl|cbn; by apply grown_refl|constructor].
  - exact Hfuel.
Qed.
End PopulateAll.

(** [rte_mempool_populate_default] of a pool whose driver is allocated ends with all
    objects, or with an error and none. *)
Lemma populate_default_total {D} `{!PoolDriver D} `{!PoolDriverLaws D} fuel e alloc (mp : rte_mempool D) :
  zones_ok fuel e -> fillable mp [] -> accounted mp [] -> total_elt_sz mp <= 2 ^ 31 -> nb_mem_chunks mp = 0 ->
  (Z.to_nat (mp_size mp) < fuel)%nat ->
  exists mp' r, rte_mempool_populate_default fuel e alloc mp = (mp', Ret r)
    /\ (populate_post e mp r mp' \/ (r < 0 /\ mp' = mp)).
Proof.
  intros Hz Hf Hac Htot Hnb Hfuel. unfold rte_mempool_populate_default.
  rewrite (bind_ret _ _ mp mp 0) by (unfold mempool_ops_alloc_once; erewrite bind_ret; [|reflexivity]; by rewrite (fl_created _ _ Hf)).
  change (negb (0 =? 0)) with false. cbv iota zeta. erewrite bind_ret; [|reflexivity].
  destruct (eal_socket_is_external e (mp_socket_id mp) <? 0); [exists mp, (- EINVAL); split; [done|by right]|].
  rewrite Hnb. change (negb (0 =? 0)) with false. cbv iota.
  set (no_contig := flag_set (mp_flags mp) MEMPOOL_F_NO_IOVA_CONTIG). set (external := _ =? 1).
  set (nps := no_contig || _). set (tc := negb no_contig && _ && _).
  set (pg_sz := if nps then 0 else _). destruct Hz as [Hz1 Hz2 Hz3 Hz4] eqn:Ez. clear Ez.
  assert (exists k, pages_ok nps pg_sz k /\ (if nps then mret 0 else defined (rte_bsf32 (u32 pg_sz))) mp = (mp, Ret k)) as (k & Hpages & Hk).
  { unfold pages_ok, pg_sz. destruct nps; [by exists 0|].
    assert (page_size_ok (if tc then get_min_page_size e (mp_socket_id mp) else eal_page_size e)) as (k & Hk & ->)
      by (destruct tc; [by apply min_page_size_ok|done]).
    exists k. rewrite rte_bsf32_pow by lia. done. }
  rewrite (bind_ret _ _ _ _ _ Hk).
  assert (nps = false -> no_contig = false) as Hnc by (unfold nps; by intros [? _]%orb_false_iff).
  destruct (populate_loop fuel e ltac:(by split) alloc mp Hf Hac Htot pg_sz k nps Hpages Hnc tc) as (s & r & Hrun & Hpost).
  - unfold tc. destruct nps; [|done]. by rewrite andb_false_r.
  - rewrite (ac_count _ _ Hac), <- (ac_objects _ _ Hac). done.
  - done.
  - exists s, r. split; [exact Hrun|by left].
Qed.

(** *** Zones that do not overlap *)

Definition zones_disjoint (e : eal) : Prop := forall k1 k2 len1 len2 al1 al2 c1 c2 m1 m2,
  k1 <> k2 -> eal_reserve e k1 len1 al1 c1 = inl m1 -> eal_reserve e k2 len2 al2 c2 = inl m2 ->
  mz_addr m1 + mz_len m1 <= mz_addr m2 \/ mz_addr m2 + mz_len m2 <= mz_addr m1.

Lemma granted_request e k zs mz :
  granted e k zs -> mz ∈ zs -> exists k1 len al c, (k1 < k)%nat /\ eal_reserve e k1 len al c = inl mz.
Proof.
  induction 1 as [k|k k' len al c mz' zs Hgr IH Hk Hres]; intros Hin; [by apply elem_of_nil in Hin|].
  apply elem_of_app in Hin as [Hin| ->%list_elem_of_singleton].
  - destruct (IH Hin) as (k1 & len1 & al1 & c1 & H1 & H2). exists k1, len1, al1, c1. split; [lia|done].
  - exists k', len, al, c. split; [lia|done].
Qed.

Lemma cut_inside {D} (mp : rte_mempool D) zs ls x :
  sizes_ok mp -> cut_from mp zs ls -> x ∈ obj_addr <$> concat ls -> exists mz, mz ∈ zs /\ mz_addr mz <= x < mz_addr mz + mz_len mz.
Proof.
  intros [? ? ? ?] Hcut. induction Hcut as [|mz l zs ls Hl Hcut IH]; cbn; intros Hin; [by apply elem_of_nil in Hin|].
  rewrite fmap_app in Hin. apply elem_of_app in Hin as [(o & -> & Ho)%list_elem_of_fmap|Hin].
  - destruct (laid_out_inside (header_size mp) (elt_size mp + trailer_size mp) ltac:(lia) ltac:(lia) _ _ _ _ Hl Ho).
    exists mz. split; [apply list_elem_of_here|lia].
  - destruct (IH Hin) as (mz' & H1 & H2). exists mz'. split; [by apply list_elem_of_further|done].
Qed.

Lemma cut_nodup {D} (mp : rte_mempool D) e k zs ls :
  sizes_ok mp -> zones_disjoint e -> granted e k zs -> cut_from mp zs ls -> NoDup (obj_addr <$> concat ls).
Proof.
  intros Hs Hd Hgr. revert ls. induction Hgr as [k|k k' len al c mz zs Hgr IH Hk Hres]; intros ls Hcut.
  - apply Forall2_nil_inv_l in Hcut as ->. constructor.
  - apply Forall2_app_inv_l in Hcut as (ls1 & ls2 & Hcut1 & Hcut2 & ->).
    apply Forall2_cons_inv_l in Hcut2 as (l & ls3 & Hl & Hnil & ->). apply Forall2_nil_inv_l in Hnil as ->.
    rewrite concat_app, fmap_app. cbn. rewrite app_nil_r. apply NoDup_app. split; [by apply IH|].
    pose proof Hs as [? ? ? ?]. split; [|by apply (laid_out_nodup (header_size mp) (elt_size mp + trailer_size mp) ltac:(lia) ltac:(lia) _ _ _ Hl)].
    intros x Hx (o & -> & Ho)%list_elem_of_fmap. destruct (cut_inside mp zs ls1 _ Hs Hcut1 Hx) as (m1 & Hm1 & Hr1).
    destruct (granted_request _ _ _ _ Hgr Hm1) as (k1 & len1 & al1 & c1 & Hk1 & Hres1).
    destruct (laid_out_inside (header_size mp) (elt_size mp + trailer_size mp) ltac:(lia) ltac:(lia) _ _ _ _ Hl Ho).
    destruct (Hd k1 k' len1 len al1 al c1 c m1 mz ltac:(lia) Hres1 Hres); lia.
Qed.

(** C26. Populating a pool with memory zones, all or nothing: whatever zones the
    environment layer hands out, of whatever sizes, contiguous or not, the function
    ends.  Either the pool then has all its objects, each cut from one of the zones,
    without overlaps inside a zone and with distinct addresses if the zones are
    disjoint, and the driver holds exactly them; or the result is negative and the
    pool and the driver are empty. *)
Theorem populate_default_correct {D} `{!PoolDriver D} `{!PoolDriverLaws D} fuel e alloc (mp : rte_mempool D) :
  zones_ok fuel e -> fillable mp [] -> elt_list mp = [] -> populated_size mp = 0 -> nb_mem_chunks mp = 0 ->
  total_elt_sz mp <= 2 ^ 31 -> (Z.to_nat (mp_size mp) < fuel)%nat ->
  exists mp' r, rte_mempool_populate_default fuel e alloc mp = (mp', Ret r)
    /\ pd_holds (pool_data mp') (obj_addr <$> elt_list mp')
    /\ ((r = mp_size mp /\ Z.of_nat (length (elt_list mp')) = mp_size mp
         /\ (exists k zs ls, granted e k zs /\ cut_from mp zs ls /\ elt_list mp' = concat ls)
         /\ (zones_disjoint e -> NoDup (obj_addr <$> elt_list mp')))
        \/ (r < 0 /\ elt_list mp' = [] /\ populated_size mp' = 0)).
Proof.
  intros Hz Hf El Ep Hnb Htot Hfuel. assert (accounted mp []) as Hac by (split; [apply (fl_holds _ _ Hf)|by rewrite El|by rewrite Ep, El]).
  destruct (populate_default_total fuel e alloc mp Hz Hf Hac Htot Hnb Hfuel) as (mp' & r & Hrun & [[(-> & k & zs & ls & Hgr & [_ Hg Hcut] & Hfull)|[Hr Hem]]|[Hr ->]]);
    (eexists _, _; split; [exact Hrun|]).
  - pose proof (gr_list _ _ _ _ _ Hg) as Hl. rewrite El in Hl. cbn in Hl. pose proof (gr_count _ _ _ _ _ Hg) as Hc.
    rewrite Hl. split; [apply (fl_holds _ _ (gr_fill _ _ _ _ _ Hg))|]. left. split_and!; [done|lia|by exists k, zs, ls|].
    intros Hd. eapply cut_nodup; [apply (fl_sizes _ _ Hf)|done..].
  - destruct Hem as [_ E1 _ [E2 _ E3]]. rewrite E1 in *. split; [done|]. by right.
  - rewrite El. split; [apply (fl_holds _ _ Hf)|]. by right.
Qed.

(** ** One zone for all *)

Lemma chunk_off_aligned {D} (mp : rte_mempool D) vaddr : (64 | vaddr) -> chunk_off mp vaddr = 0.
Proof.
  intros [m ->]. unfold chunk_off, chunk_align, RTE_CACHE_LINE_SIZE. destruct (flag_set _ _); Z.div_mod_to_equations; lia.
Qed.

Lemma mz_format_d_length nm : str_length (mz_format_d nm 0) = str_length (mz_format nm) + 2.
Proof.
  unfold mz_format_d, str_length. assert (forall a b, String.length (String.append a b) = (String.length a + String.length b)%nat) as Happ
    by (induction a as [|c a IH]; intros b; [done|change (S (String.length (String.append a b)) = S (String.length a + String.length b)%nat); by rewrite IH]).
  rewrite Happ. change (String.length (String.String _ (pretty 0))) with 2%nat. lia.
Qed.

(** The environment layer answers a first request for up to [bound] bytes with a zone of
    at least that size. *)
Definition zones_plenty (e : eal) (bound : Z) : Prop := forall len contig, 0 <= len <= bound ->
  exists mz, eal_reserve e 0 len 64 contig = inl mz /\ len <= mz_len mz.

Lemma populate_one_zone {D} `{!PoolDriver D} `{!PoolDriverLaws D} fuel e alloc (mp : rte_mempool D) bound :
  zones_ok fuel e -> zones_plenty e bound -> total_elt_sz mp * mp_size mp <= bound -> fillable mp [] -> populated_size mp = 0 -> nb_mem_chunks mp = 0 -> 0 < mp_size mp ->
  total_elt_sz mp <= 2 ^ 31 -> (1 < fuel)%nat -> str_length (mz_format (mp_name mp)) < 29 ->
  0 <= eal_socket_is_external e (mp_socket_id mp) -> rte_eal_has_hugepages (eal_mem e) = true -> rte_zmalloc_ok (eal_mem e) = true ->
  exists mp', rte_mempool_populate_default fuel e alloc mp = (mp', Ret (mp_size mp)).
Proof.
  intros Hz Hplenty Hbound Hf Ep Hnb Hn Htot Hfuel Hname Hext Hhuge Hzm. destruct (fl_size _ _ Hf) as [_ Hs31]. pose proof (fl_sizes _ _ Hf) as Hs.
  pose proof (total_sum mp Hs) as Ht. unfold rte_mempool_populate_default.
  rewrite (bind_ret _ _ mp mp 0) by (unfold mempool_ops_alloc_once; erewrite bind_ret; [|reflexivity]; by rewrite (fl_created _ _ Hf)).
  change (negb (0 =? 0)) with false. cbv iota zeta. erewrite bind_ret; [|reflexivity].
  destruct (Z.ltb_spec (eal_socket_is_external e (mp_socket_id mp)) 0); [lia|]. rewrite Hnb, Hhuge. change (negb (0 =? 0)) with false. cbv iota.
  set (no_contig := flag_set (mp_flags mp) MEMPOOL_F_NO_IOVA_CONTIG). set (external := _ =? 1).
  set (nps := no_contig || _). set (tc := negb no_contig && _ && _). set (pg_sz := if nps then 0 else _).
  assert (nps || tc = true) as Hmode by (unfold tc, nps; destruct no_contig, (negb external && eal_iova_va e); done).
  assert (exists k, (if nps then mret 0 else defined (rte_bsf32 (u32 pg_sz))) mp = (mp, Ret k)) as (k & Hk).
  { unfold pg_sz. destruct nps; [by exists 0|]. cbn in Hmode. rewrite Hmode.
    destruct (min_page_size_ok e (mp_socket_id mp) (zo_page _ _ Hz) (zo_memsegs _ _ Hz)) as (k & Hk & ->).
    exists k. by rewrite rte_bsf32_pow by lia. }
  rewrite (bind_ret _ _ _ _ _ Hk). destruct fuel as [|[|f]]; [lia|lia|]. set (fuel := S (S f)) in *.
  set (body := populate_default_body _ _ _ _ _ _ _).
  destruct (calc_mem_size_bounds mp (mp_size mp) 0 Hs Htot ltac:(lia) ltac:(by left)) as (mem & Hcalc & Hmem).
  assert (mem = total_elt_sz mp * mp_size mp) as Emem.
  { unfold rte_mempool_op_calc_mem_size_default in Hcalc. destruct (Z.eqb_spec (total_elt_sz mp) 0); [destruct Hs; lia|].
    injection Hcalc as <-. pose proof (Z.mul_le_mono_nonneg (total_elt_sz mp) (2 ^ 31) (mp_size mp) (2 ^ 31) ltac:(destruct Hs; lia) ltac:(lia) ltac:(lia) ltac:(lia)).
    pose proof (Z.mul_nonneg_nonneg (total_elt_sz mp) (mp_size mp) ltac:(destruct Hs; lia)). apply wrap_small. unfold in_range. lia. }
  destruct (Hplenty mem tc) as (mz & Hres & Hlen); [lia|].
  destruct (zo_zone _ _ Hz _ _ _ _ _ Hres) as (Ha0 & Hdiv & Hl0 & Hend & _).
  set (iova := if no_contig then RTE_BAD_IOVA else mz_iova mz).
  assert (total_elt_sz mp * 1 <= total_elt_sz mp * mp_size mp) by (apply Z.mul_le_mono_nonneg_l; destruct Hs; lia).
  destruct (populate_iova_run (eal_mem e) alloc mp [] (mz_addr mz) iova (mz_len mz) Hf Hzm ltac:(lia)) as (d & Hrun & _ & _); [lia..|].
  set (objs := placed mp (mz_addr mz) iova (mz_len mz)) in *.
  assert (Z.of_nat (length objs) = mp_size mp) as Hobjs.
  { unfold objs, placed. rewrite (chunk_off_aligned mp _ Hdiv). destruct (Z.ltb_spec (mz_len mz) 0); [lia|]. rewrite length_objects_at.
    assert (mp_size mp <= (mz_len mz - 0) / total_elt_sz mp) by (apply Z.div_le_lower_bound; destruct Hs; lia). lia. }
  destruct (decide (objs = [])) as [E|_]; [rewrite E in Hobjs; simpl in Hobjs; lia|]. rewrite Hobjs in Hrun.
  set (s1 := with_chunk _ _ _ _) in Hrun.
  assert (body (0%nat, 0%nat, mp_size mp, tc) mp = (s1, Ret (inl (1%nat, 1%nat, 0, tc)))) as Hround.
  { unfold body, populate_default_body. erewrite bind_ret; [|reflexivity]. destruct (Z.ltb_spec 0 (mp_size mp)); [|lia]. cbn [negb].
    unfold reserve_zone. rewrite orb_comm, Hmode, Hcalc, s64_small by lia. destruct (Z.ltb_spec mem 0); [lia|].
    change (Z.of_nat 0) with 0. rewrite mz_format_d_length. destruct (Z.leb_spec RTE_MEMZONE_NAMESIZE (str_length (mz_format (mp_name mp)) + 2));
      [unfold RTE_MEMZONE_NAMESIZE in *; lia|]. change (2 ^ 0) with 1. change (Z.max 64 1) with 64. rewrite Hres.
    destruct (Z.ltb_spec (mz_len mz) (Z.max 1 (total_elt_sz mp))); [destruct Hs; lia|]. cbv zeta.
    rewrite Hmode. rewrite (bind_ret _ _ _ _ _ Hrun). destruct (Z.ltb_spec (mp_size mp) 0); [lia|].
    rewrite (wrap_small 32 (mp_size mp)), Z.sub_diag by (unfold in_range; lia). reflexivity. }
  exists s1. change (comp_loop body fuel (0%nat, 0%nat, mp_size mp, tc) mp) with ((y ← body (0%nat, 0%nat, mp_size mp, tc);
    match y with inl x' => comp_loop body (S f) x' | inr r => mret r end) mp).
  rewrite (bind_ret _ _ _ _ _ Hround). simpl comp_loop. erewrite bind_ret; [|unfold body, populate_default_body; erewrite bind_ret; reflexivity].
  cbv iota. change (mp_size s1) with (mp_size mp). rewrite s32_small by lia. reflexivity.
Qed.

(** ** Creating a pool over a ring *)

Lemma ring_alloc_ok z (mp : rte_mempool (option rte_ring)) mz words :
  str_length (mz_format (mp_name mp)) < 29 -> zmalloc_ok z = true -> (forall n, memzone_reserve_aligned z n = inl (mz, words)) ->
  0 <= mp_size mp -> mp_size mp + 1 <= 2 ^ 30 ->
  exists r, common_ring_alloc z mp = inl (Some r) /\ ring_repr r [] /\ mp_size mp <= capacity r.
Proof.
  intros Hn Hok Hz H0 H30. unfold common_ring_alloc. change RTE_RING_NAMESIZE with 29.
  destruct (Z.leb_spec 29 (str_length (mz_format (mp_name mp)))); [lia|]. cbv zeta.
  set (flgs := if flag_set (mp_flags mp) MEMPOOL_F_SC_GET then _ else _).
  assert (Z.land flgs RING_F_EXACT_SZ = 0) as Hf by (unfold flgs; by destruct (flag_set _ _), (flag_set _ _)).
  rewrite (wrap_small 32 (mp_size mp + 1)) by (unfold in_range; lia).
  destruct (rte_align32pow2_spec (mp_size mp + 1)) as (k & Hk & -> & Hle & Hlt); [lia|].
  assert (k <= 30) as Hk30 by (destruct Hlt as [->|Hlt]; [lia|]; destruct (Z.le_gt_cases k 30); [done|];
    pose proof (Z.pow_le_mono_r 2 30 (k - 1) ltac:(lia) ltac:(lia)); lia).
  pose proof (Z.pow_le_mono_r 2 k 30 ltac:(lia) ltac:(lia)) as Hpow.
  destruct (ring_create_ok (mz_format (mp_name mp)) (2 ^ k) flgs z mz words Hn Hok (Hz _)) as (r & -> & Hr & _ & Hcap & _).
  - unfold count_ok. rewrite Hf. exists k. split; [lia|done].
  - unfold ring_slots. rewrite Hf. cbn. lia.
  - exists r. split; [done|]. split; [done|]. rewrite Hcap, Hf. cbn. lia.
Qed.

(** The pool after its driver has been allocated. *)
Definition with_driver {D} (d : D) (mp : rte_mempool D) : rte_mempool D :=
  mp <| pool_data := d |> <| mp_flags := Z.lor (mp_flags mp) MEMPOOL_F_POOL_CREATED |>.

Lemma created_flag flags : flag_set (Z.lor flags MEMPOOL_F_POOL_CREATED) MEMPOOL_F_POOL_CREATED = true.
Proof.
  unfold flag_set, MEMPOOL_F_POOL_CREATED. apply negb_true_iff, Z.eqb_neq. intros E.
  apply (f_equal (fun x => Z.testbit x 4)) in E. by rewrite Z.land_spec, Z.lor_spec, orb_true_r in E.
Qed.

Lemma populate_alloc_first {D} `{!PoolDriver D} fuel e alloc (mp : rte_mempool D) d :
  flag_set (mp_flags mp) MEMPOOL_F_POOL_CREATED = false -> alloc mp = inl d ->
  rte_mempool_populate_default fuel e alloc mp = rte_mempool_populate_default fuel e alloc (with_driver d mp).
Proof.
  intros Hc Ha. unfold rte_mempool_populate_default.
  rewrite (bind_ret (mempool_ops_alloc_once alloc) _ mp (with_driver d mp) 0)
    by (unfold mempool_ops_alloc_once; erewrite bind_ret; [|reflexivity]; by rewrite Hc, Ha).
  rewrite (bind_ret (mempool_ops_alloc_once alloc) _ (with_driver d mp) (with_driver d mp) 0); [done|].
  unfold mempool_ops_alloc_once. erewrite bind_ret; [|reflexivity]. change (mp_flags (with_driver d mp)) with (Z.lor (mp_flags mp) MEMPOOL_F_POOL_CREATED).
  by rewrite created_flag.
Qed.

(** What an application must ask for. *)
Record request_ok (fuel : nat) (e : eal) (nm : String.string) (n elt cs socket_id flags : Z) : Prop := {
  rq_count : 0 < n /\ n + 1 <= 2 ^ 30;
  rq_cache : 0 <= cs <= RTE_MEMPOOL_CACHE_MAX_SIZE /\ CALC_CACHE_FLUSHTHRESH cs <= n;
  rq_elt : 0 < elt /\ elt + 64 * spread_ways (eal_nchannel e) (eal_nrank e) + 512 <= 2 ^ 31;
  rq_name : str_length (mz_format nm) < 29;
  rq_socket : 0 <= eal_socket_is_external e socket_id;
  rq_flags : flag_set flags MEMPOOL_F_POOL_CREATED = false;
  rq_fuel : (Z.to_nat (spread_ways (eal_nchannel e) (eal_nrank e)) < fuel)%nat /\ (Z.to_nat n < fuel)%nat }.

(** What the environment layer must have. *)
Record eal_ok (fuel : nat) (e : eal) (z : ring_zones) : Prop := {
  eo_zones : zones_ok fuel e;
  eo_memory : eal_nchannel e >= 0 /\ eal_nrank e >= 0;
  eo_header : eal_tailq_entry_ok e = true /\ forall len, eal_header_zone e len <> None;
  eo_zmalloc : rte_zmalloc_ok (eal_mem e) = true;
  eo_ring : zmalloc_ok z = true /\ exists mz words, forall len, memzone_reserve_aligned z len = inl (mz, words) }.

Lemma create_empty_ok {D} fuel e z nm n elt cs priv socket_id flags :
  request_ok fuel e nm n elt cs socket_id flags -> eal_ok fuel e z ->
  exists mp : rte_mempool (option D), rte_mempool_create_empty fuel e nm n elt cs priv socket_id flags = Some (inl mp)
    /\ mp_name mp = nm /\ mp_size mp = n /\ cache_size mp = cs /\ mp_socket_id mp = socket_id
    /\ flag_set (mp_flags mp) MEMPOOL_F_POOL_CREATED = false
    /\ elt_list mp = [] /\ populated_size mp = 0 /\ nb_mem_chunks mp = 0 /\ elt <= elt_size mp /\ sizeof_rte_mempool_objhdr <= header_size mp
    /\ caches_ok mp /\ concat (held <$> local_cache mp) = [] /\ sizes_ok mp /\ total_elt_sz mp <= elt + 64 * spread_ways (eal_nchannel e) (eal_nrank e) + 512.
Proof.
  intros [[Hn Hn30] [Hcs Hth] [He0 He] Hnm _ Hfl [Hf1 Hf2]] [_ [Hc Hr] [Htq Hhz] _ _]. unfold rte_mempool_create_empty.
  destruct (Z.eqb_spec n 0); [lia|]. destruct (Z.ltb_spec RTE_MEMPOOL_CACHE_MAX_SIZE cs); [lia|].
  destruct (Z.ltb_spec n (CALC_CACHE_FLUSHTHRESH cs)); [lia|]. cbn [orb]. set (fl := if flag_set flags MEMPOOL_F_NO_CACHE_ALIGN then _ else _).
  destruct (calc_obj_size_run fuel (eal_nchannel e) (eal_nrank e) elt fl) as (sz & -> & [H1 _] & _ & H3 & H4 & H5 & H6 & _); [lia|lia|lia|lia|done|].
  cbn [mbind option_bind]. unfold sizeof_rte_mempool_objhdr in H3. destruct (Z.eqb_spec (sz_total sz) 0); [lia|]. rewrite Htq. cbn [negb].
  destruct (Z.leb_spec RTE_MEMZONE_NAMESIZE (str_length (mz_format nm))); [unfold RTE_MEMZONE_NAMESIZE in *; lia|].
  destruct (eal_header_zone e _) eqn:Ehz; [|by apply Hhz in Ehz].
  assert (sizes_ok (D := option D) (mk_mempool nm None fl n cs (sz_elt sz) (sz_header sz) (sz_trailer sz) 0 [] 0 [] 0 [] 0)) as Hso by (split; cbn; lia).
  eexists. split; [reflexivity|].
  cbn [mp_name mp_size cache_size mp_socket_id mp_flags elt_list populated_size nb_mem_chunks elt_size header_size local_cache].
  do 4 (split; [done|]). split; [|split_and!; try done; try (unfold sizeof_rte_mempool_objhdr; lia)].
  - assert (flag_set (Z.lor flags MEMPOOL_F_NO_SPREAD) MEMPOOL_F_POOL_CREATED = flag_set flags MEMPOOL_F_POOL_CREATED) as E.
    { unfold flag_set. by rewrite Z.land_lor_distr_l, Z.lor_0_r. }
    unfold fl. destruct (flag_set flags MEMPOOL_F_NO_CACHE_ALIGN); congruence.
  - unfold caches_ok. cbn. destruct (Z.eqb_spec cs 0); [done|]. split; [apply length_replicate|]. apply Forall_replicate.
    destruct (cache_create_ok cs ltac:(lia)) as (k & E & Hok & _ & Hsz). unfold rte_mempool_cache_create in E.
    destruct ((cs =? 0) || _); [done|]. by injection E as <-.
  - destruct (cs =? 0); [done|]. by induction (Z.to_nat RTE_MAX_LCORE).
  - destruct Hso. by split.
  - pose proof (total_sum _ Hso) as Ht. unfold total_elt_sz in *. cbn [header_size elt_size trailer_size] in *. lia.
Qed.

Lemma obj_iter_total {S D} (mp : rte_mempool D) (f : rte_mempool D -> Z -> Z -> comp S unit) (I : list Z -> S -> Prop) s :
  (forall done o i s, I done s -> exists s', f mp o i s = (s', Ret tt) /\ I (done ++ [o]) s') -> I [] s ->
  exists s' n, rte_mempool_obj_iter mp f s = (s', Ret n) /\ I (obj_addr <$> elt_list mp) s'.
Proof.
  intros Hf Hs. unfold rte_mempool_obj_iter. generalize 0 at 1. change (obj_addr <$> elt_list mp) with ([] ++ (obj_addr <$> elt_list mp)).
  revert s Hs. generalize (@nil Z). induction (elt_list mp) as [|o l IH]; intros dn s Hs i; cbn.
  - exists s, i. by rewrite app_nil_r.
  - destruct (Hf dn (obj_addr o) i s Hs) as (s1 & Hrun & Hs1). rewrite (bind_ret _ _ _ _ _ Hrun).
    destruct (IH (dn ++ [obj_addr o]) s1 Hs1 (i +[32] 1)) as (s' & n & Hr & Hs'). exists s', n. split; [exact Hr|].
    by rewrite <- app_assoc in Hs'.
Qed.

Section Create.
Context (fuel : nat) (e : eal) (z : ring_zones) (o : ring_ops) (flags : Z).

#[local] Instance pool_driver : PoolDriver rte_ring := ring_driver o.
#[local] Instance pool_driver_laws : PoolDriverLaws rte_ring := ring_driver_laws o.

(** A pool with all its [n] objects in the driver. *)
Record full_pool (nm : String.string) (n elt cs : Z) (mp : rte_mempool (option rte_ring)) : Prop := {
  fp_name : mp_name mp = nm;
  fp_size : mp_size mp = n /\ cache_size mp = cs;
  fp_ok : mempool_ok mp (obj_addr <$> elt_list mp);
  fp_free : mempool_objs mp (obj_addr <$> elt_list mp) = obj_addr <$> elt_list mp;
  fp_count : Z.of_nat (length (elt_list mp)) = n;
  fp_cap : n <= pd_cap (pool_data mp);
  fp_elt : elt <= elt_size mp /\ sizeof_rte_mempool_objhdr <= header_size mp /\ sizes_ok mp;
  fp_zones : exists k zs ls, granted e k zs /\ cut_from mp zs ls /\ elt_list mp = concat ls;
  fp_distinct : zones_disjoint e -> NoDup (obj_addr <$> elt_list mp) }.

Lemma create_populate_ok nm n elt cs priv socket_id :
  request_ok fuel e nm n elt cs socket_id flags -> eal_ok fuel e z -> zones_plenty e (n * (elt + 64 * spread_ways (eal_nchannel e) (eal_nrank e) + 512)) ->
  rte_eal_has_hugepages (eal_mem e) = true ->
  exists mp mp', rte_mempool_create_empty fuel e nm n elt cs priv socket_id flags = Some (inl mp)
    /\ flag_set (mp_flags mp) MEMPOOL_F_POOL_CREATED = false
    /\ rte_mempool_populate_default fuel e (common_ring_alloc z) mp = (mp', Ret n) /\ full_pool nm n elt cs mp'.
Proof using.
  intros Hrq Hok Hplenty Hhuge. destruct (create_empty_ok (D := rte_ring) fuel e z nm n elt cs priv socket_id flags Hrq Hok)
    as (mp & Hempty & E1 & E2 & E3 & E4 & Hfl & E5 & E6 & E7 & E8 & E9 & Hcaches & Hheld & Hso & Htot).
  pose proof Hrq as [[Hn Hn30] _ [_ Helt] Hnm Hsock _ [_ Hfuel]]. pose proof Hok as [Hz _ _ Hzm [Hrz (mz & words & Hzone)]].
  destruct (ring_alloc_ok z mp mz words) as (r & Halloc & Hr & Hcap); [by rewrite E1|done|done|lia|lia|].
  exists mp. rewrite (populate_alloc_first fuel e _ mp (Some r) Hfl Halloc). set (mp1 := with_driver (Some r) mp).
  assert (sizes_ok mp1) as Hso1 by (destruct Hso; by split).
  assert (fillable mp1 []) as Hf.
  { split; [done|exact Hr| | |apply created_flag]; change (mp_size mp1) with (mp_size mp); change (populated_size mp1) with (populated_size mp).
    - change (pd_cap (pool_data mp1)) with (capacity r). simpl length. lia.
    - lia. }
  assert (accounted mp1 []) as Hac.
  { split; [exact Hr|change (elt_list mp1) with (elt_list mp); by rewrite E5|].
    change (populated_size mp1) with (populated_size mp). change (elt_list mp1) with (elt_list mp). by rewrite E5, E6. }
  assert (mp_size mp1 = n /\ mp_name mp1 = nm /\ mp_socket_id mp1 = socket_id /\ total_elt_sz mp1 = total_elt_sz mp) as (M1 & M2 & M3 & M4) by done.
  destruct (populate_one_zone fuel e (common_ring_alloc z) mp1 _ Hz Hplenty) as (mp' & Hrun);
    rewrite ?M1, ?M2, ?M3, ?M4; try done; try lia.
  { rewrite Z.mul_comm. apply Z.mul_le_mono_nonneg_l; lia. }
  rewrite M1 in Hrun. exists mp'. do 2 (split; [done|]). split; [exact Hrun|].
  destruct (populate_default_total fuel e (common_ring_alloc z) mp1 Hz Hf Hac ltac:(change (total_elt_sz mp1) with (total_elt_sz mp); lia) E7) as (mp2 & r2 & Hrun2 & Hpost);
    [change (mp_size mp1) with (mp_size mp); lia|].
  rewrite Hrun in Hrun2. injection Hrun2 as <- <-.
  destruct Hpost as [[(_ & k & zs & ls & Hgr & [Hframe Hg Hcut] & Hfull)|[Hneg _]]|[Hneg _]]; [|lia|lia].
  destruct Hframe as (F1 & F2 & F3 & F4 & F5 & F6 & F7 & F8 & F9 & F10 & F11).
  pose proof (gr_list _ _ _ _ _ Hg) as Hl. change (elt_list mp1) with (elt_list mp) in Hl. rewrite E5 in Hl. cbn in Hl.
  pose proof (gr_count _ _ _ _ _ Hg) as Hc. change (populated_size mp1) with (populated_size mp) in Hc. rewrite E6 in Hc.
  assert (concat (held <$> local_cache mp') = []) as Hnone by (by rewrite F9).
  change (mp_size mp1) with (mp_size mp) in Hfull, F3. rewrite <- Hl in Hg. rewrite <- Hl in Hc.
  assert (cut_from mp' zs ls) as Hcut' by (unfold cut_from in *; by rewrite F5, F6, F7).
  split.
  - by rewrite F1.
  - by rewrite F3, F4.
  - split; [apply (fl_holds _ _ (gr_fill _ _ _ _ _ Hg))|]. unfold caches_ok in *. by rewrite F9, F4.
  - unfold mempool_objs. by rewrite Hnone.
  - lia.
  - rewrite F11. change (pd_cap (pool_data mp1)) with (capacity r). lia.
  - rewrite F5, F6. do 2 (split; [done|]). apply (fl_sizes _ _ (gr_fill _ _ _ _ _ Hg)).
  - by exists k, zs, ls.
  - intros Hd. rewrite Hl. eapply (cut_nodup mp' e); [apply (fl_sizes _ _ (gr_fill _ _ _ _ _ Hg))|done..].
Qed.
End Create.

(** The state after the callbacks that were given have run. *)
Definition callbacks_return {S} (mp_init : option (rte_mempool (option rte_ring) -> comp S unit))
  (obj_init : option (rte_mempool (option rte_ring) -> Z -> Z -> comp S unit)) : Prop :=
  (forall f mp s, mp_init = Some f -> exists s', f mp s = (s', Ret tt))
  /\ forall f mp o i s, obj_init = Some f -> exists s', f mp o i s = (s', Ret tt).

Section CreateProperties.
Context {S : Type} (fuel : nat) (e : eal) (z : ring_zones) (flags : Z).
Context (mp_init : option (rte_mempool (option rte_ring) -> comp S unit)).
Context (obj_init : option (rte_mempool (option rte_ring) -> Z -> Z -> comp S unit)).
Context (Hcb : callbacks_return mp_init obj_init).

#[local] Instance created_driver : PoolDriver rte_ring := pool_driver (ring_ops_of flags).
#[local] Instance created_driver_laws : PoolDriverLaws rte_ring := pool_driver_laws (ring_ops_of flags).

Lemma mp_init_run mp s : exists s', match mp_init with Some f => f mp | None => mret tt end s = (s', Ret tt).
Proof using Hcb. destruct Hcb as [Hi _]. destruct mp_init as [f|]; [by apply Hi|by exists s]. Qed.

Lemma obj_init_run mp s :
  exists s', match obj_init with Some f => rte_mempool_obj_iter mp f ;; mret tt | None => mret tt end s = (s', Ret tt).
Proof using Hcb.
  destruct Hcb as [_ Ho]. destruct obj_init as [f|]; [|by exists s].
  destruct (obj_iter_total mp f (fun _ _ => True) s) as (s' & n & Hrun & _); [|done|].
  - intros _ o i x _. destruct (Ho f mp o i x eq_refl) as [s' H]. by exists s'.
  - exists s'. by rewrite (bind_ret _ _ _ _ _ Hrun).
Qed.

(** C27. Creating a pool: for a request within the limits, in an environment with
    huge pages and memory, [rte_mempool_create] ends and returns a pool over the ring
    variant that the flags ask for.  All its [n] objects are free, in the ring, with
    distinct addresses if the memory zones are disjoint; the caches of all lcores are
    empty; the pool counts [n] objects available and none in use, and is full. *)
Theorem rte_mempool_create_correct nm n elt cs priv socket_id s :
  request_ok fuel e nm n elt cs socket_id flags -> eal_ok fuel e z -> zones_plenty e (n * (elt + 64 * spread_ways (eal_nchannel e) (eal_nrank e) + 512)) ->
  rte_eal_has_hugepages (eal_mem e) = true ->
  exists s' mp,
    rte_mempool_create fuel e z nm n elt cs priv mp_init obj_init socket_id flags s = (s', Ret (Some (ring_ops_of flags, mp)))
    /\ full_pool e (ring_ops_of flags) nm n elt cs mp
    /\ rte_mempool_avail_count mp = n /\ rte_mempool_in_use_count mp = 0 /\ rte_mempool_full mp = true.
Proof using Hcb.
  intros Hrq Hok Hplenty Hhuge. destruct (create_populate_ok fuel e z (ring_ops_of flags) flags nm n elt cs priv socket_id Hrq Hok Hplenty Hhuge)
    as (mp & mp' & Hempty & Hfl & Hpop & Hfull). unfold rte_mempool_create. rewrite Hempty, (ring_ops_found mp flags Hfl).
  destruct (mp_init_run mp s) as (s1 & Hs1). rewrite (bind_ret _ _ _ _ _ Hs1). unfold pool_driver in Hpop. rewrite Hpop.
  destruct (rq_count _ _ _ _ _ _ _ _ Hrq) as [Hn0 Hn]. destruct (Z.ltb_spec n 0); [lia|].
  destruct (obj_init_run mp' s1) as (s' & Hs'). exists s', mp'. split; [by rewrite (bind_ret _ _ _ _ _ Hs')|]. split; [exact Hfull|].
  destruct Hfull as [_ [Hsz _] Hmp Hfree Hcount Hcap _ _ _].
  assert (rte_mempool_avail_count mp' = n) as Hav.
  { unfold created_driver. rewrite (avail_count_run mp' _ Hmp) by (rewrite Hfree, length_fmap; lia). rewrite Hfree, length_fmap, Hsz.
    destruct (_ =? 0); lia. }
  unfold rte_mempool_in_use_count, rte_mempool_full. rewrite Hav, Hsz, Z.sub_diag, Z.eqb_refl. done.
Qed.

(** A pool too large for the ring is returned without a driver: from 2^30 objects
    on the ring is refused with a negative [rte_errno], which the driver turns into
    a positive result, which [rte_mempool_create] takes for a number of objects.  The
    pool it returns has no objects and its first get goes through a null pointer. *)
Theorem rte_mempool_create_oversized nm n elt priv socket_id s :
  2 ^ 30 <= n < 2 ^ 31 -> 0 < elt -> elt + 64 * spread_ways (eal_nchannel e) (eal_nrank e) + 512 <= 2 ^ 31 ->
  str_length (mz_format nm) < 29 -> flag_set flags MEMPOOL_F_POOL_CREATED = false ->
  (Z.to_nat (spread_ways (eal_nchannel e) (eal_nrank e)) < fuel)%nat -> 0 <= eal_nchannel e -> 0 <= eal_nrank e ->
  eal_tailq_entry_ok e = true -> (forall len, eal_header_zone e len <> None) ->
  exists s' mp,
    rte_mempool_create fuel e z nm n elt 0 priv mp_init obj_init socket_id flags s = (s', Ret (Some (ring_ops_of flags, mp)))
    /\ pool_data mp = None /\ elt_list mp = []
    /\ forall lcore obj, snd (rte_mempool_get lcore obj mp) = UB.
Proof using Hcb.
  intros Hn He0 He Hnm Hfl Hfuel Hc Hr Htq Hhz. unfold rte_mempool_create.
  assert (exists mp : rte_mempool (option rte_ring), rte_mempool_create_empty fuel e nm n elt 0 priv socket_id flags = Some (inl mp)
    /\ mp_name mp = nm /\ mp_size mp = n /\ cache_size mp = 0 /\ flag_set (mp_flags mp) MEMPOOL_F_POOL_CREATED = false
    /\ elt_list mp = [] /\ pool_data mp = None) as (mp & -> & E1 & E2 & E3 & Hfl2 & E5 & E6).
  { unfold rte_mempool_create_empty. destruct (Z.eqb_spec n 0); [lia|]. destruct (Z.ltb_spec n (CALC_CACHE_FLUSHTHRESH 0)) as [H|_]; [vm_compute in H|cbn [orb]].
    { destruct n; [lia|done|lia]. }
    change (RTE_MEMPOOL_CACHE_MAX_SIZE <? 0) with false. cbv iota. set (fl := if flag_set flags MEMPOOL_F_NO_CACHE_ALIGN then _ else _).
    destruct (calc_obj_size_run fuel (eal_nchannel e) (eal_nrank e) elt fl) as (sz & -> & [H1 _] & _ & H3 & H4 & H5 & _); [lia|lia|lia|lia|done|].
    cbn [mbind option_bind]. unfold sizeof_rte_mempool_objhdr in H3. destruct (Z.eqb_spec (sz_total sz) 0); [lia|]. rewrite Htq. cbn [negb].
    destruct (Z.leb_spec RTE_MEMZONE_NAMESIZE (str_length (mz_format nm))); [unfold RTE_MEMZONE_NAMESIZE in *; lia|].
    destruct (eal_header_zone e _) eqn:Ehz; [|by apply Hhz in Ehz].
    eexists. split; [reflexivity|]. cbn [mp_name mp_size cache_size mp_flags elt_list pool_data]. do 3 (split; [done|]). split; [|done].
    assert (flag_set (Z.lor flags MEMPOOL_F_NO_SPREAD) MEMPOOL_F_POOL_CREATED = flag_set flags MEMPOOL_F_POOL_CREATED) as E
      by (unfold flag_set; by rewrite Z.land_lor_distr_l, Z.lor_0_r).
    unfold fl. destruct (flag_set flags MEMPOOL_F_NO_CACHE_ALIGN); congruence. }
  assert (common_ring_alloc z mp = inr 22) as Halloc.
  { unfold common_ring_alloc. rewrite E1, E2. change RTE_RING_NAMESIZE with 29. destruct (Z.leb_spec 29 (str_length (mz_format nm))); [lia|].
    cbv zeta. set (flgs := if flag_set (mp_flags mp) MEMPOOL_F_SC_GET then _ else _).
    rewrite (wrap_small 32 (n + 1)) by (unfold in_range; lia).
    destruct (rte_align32pow2_spec (n + 1)) as (k & Hk & -> & Hle & _); [lia|].
    assert (k = 31) as -> by (destruct (Z.le_gt_cases k 30); [|lia]; pose proof (Z.pow_le_mono_r 2 k 30 ltac:(lia) ltac:(lia)); lia).
    rewrite ring_create_bad; [done|unfold in_range; lia|unfold flgs; by destruct (flag_set (mp_flags mp) MEMPOOL_F_SP_PUT), (flag_set (mp_flags mp) MEMPOOL_F_SC_GET)| |done].
    intros (j & Hj & E). pose proof (Z.pow_lt_mono_r 2 j 31 ltac:(lia) ltac:(lia) ltac:(lia)). lia. }
  rewrite ring_ops_found by done. destruct (mp_init_run mp s) as (s1 & Hs1). rewrite (bind_ret _ _ _ _ _ Hs1).
  assert (rte_mempool_populate_default fuel e (common_ring_alloc z) mp = (mp, Ret 22)) as Hpop.
  { unfold rte_mempool_populate_default, mempool_ops_alloc_once. rewrite bind_assoc. erewrite bind_ret; [|reflexivity]. by rewrite Hfl2, Halloc. }
  unfold created_driver, pool_driver in Hpop. rewrite Hpop. change (22 <? 0) with false. cbv iota.
  destruct (obj_init_run mp s1) as (s' & Hs'). exists s', mp. rewrite (bind_ret _ _ _ _ _ Hs'). split; [done|]. split; [done|]. split; [done|].
  intros lcore obj. unfold rte_mempool_get, rte_mempool_get_bulk, with_default_cache, rte_mempool_default_cache. rewrite E3.
  change (0 =? 0) with true. cbv iota. rewrite E6. reflexivity.
Qed.
End CreateProperties.

(** ** Examples *)

(** Zones of up to 8 KiB, a TiB apart, for the first hundred requests. *)
Definition example_reserve (k : nat) (len align : Z) (contig : bool) : memzone + Z :=
  if (0 <=? len) && (len <=? 8192) && (0 <? align) && (2 ^ 40 mod align =? 0) && (k <? 100)%nat
  then inl (mk_memzone ((Z.of_nat k + 1) * 2 ^ 40) ((Z.of_nat k + 1) * 2 ^ 40) len) else inr Ring.ENOMEM.

Definition example_eal : eal :=
  mk_eal (mk_mempool_env true (fun a => a) true) 4 2 true (fun _ => Some 4096) (fun _ => 0) true 4096
    [mk_memseg_list 0 false 2097152] example_reserve.

Definition example_ring_zones : ring_zones := mk_zones true (fun _ => inl (4096, fun _ => 0)).

Lemma example_reserve_inv k len align contig mz :
  example_reserve k len align contig = inl mz ->
  0 <= len <= 8192 /\ 0 < align /\ (align | 2 ^ 40) /\ (k < 100)%nat
  /\ mz = mk_memzone ((Z.of_nat k + 1) * 2 ^ 40) ((Z.of_nat k + 1) * 2 ^ 40) len.
Proof.
  unfold example_reserve. destruct (Z.leb_spec 0 len), (Z.leb_spec len 8192), (Z.ltb_spec 0 align),
    (Z.eqb_spec (2 ^ 40 mod align) 0), (Nat.ltb_spec k 100); cbn [andb]; intros [= <-].
  split_and!; try done. apply Z.mod_divide; lia || done.
Qed.

Lemma example_zones_ok : zones_ok 200 example_eal.
Proof.
  split.
  - intros k len align contig mz (Hl & Ha & Hd & Hk & ->)%example_reserve_inv. cbn [mz_addr mz_len].
    split; [lia|]. split; [by apply Z.divide_mul_r|]. split; [lia|]. split; [lia|].
    assert (len / 64 <= 128) by (apply Z.div_le_upper_bound; lia). lia.
  - intros k len align contig err. unfold example_eal, example_reserve. cbn [eal_reserve].
    destruct (_ && _); [done|]. intros [= <-]. done.
  - by exists 12.
  - constructor; [by exists 21|constructor].
Qed.

Lemma example_plenty : zones_plenty example_eal 4352.
Proof.
  intros len contig Hlen. exists (mk_memzone (2 ^ 40) (2 ^ 40) len). cbn [mz_len]. split; [|lia].
  unfold example_eal, example_reserve. cbn [eal_reserve]. destruct (Z.leb_spec 0 len), (Z.leb_spec len 8192); done || lia.
Qed.

Example populate_default_correct_witness :
  exists mp' r, rte_mempool_populate_default 200 example_eal (fun _ => inr 0) empty_pool = (mp', Ret r)
    /\ (r = 3 \/ r < 0).
Proof.
  destruct (populate_default_correct 200 example_eal (fun _ => inr 0) empty_pool) as (mp' & r & Hrun & _ & Hr).
  - exact example_zones_ok.
  - exact empty_pool_fillable.
  - reflexivity.
  - reflexivity.
  - reflexivity.
  - vm_compute. congruence.
  - vm_compute. lia.
  - exists mp', r. split; [exact Hrun|]. destruct Hr as [(Hr & _)|(Hr & _)]; [left; exact Hr|right; exact Hr].
Defined.

(** The callback that lists the objects it is called on. *)
Definition list_object (mp : rte_mempool (option rte_ring)) (o i : Z) : comp (list Z) unit := modify (fun l => l ++ [o]).

Example rte_mempool_create_correct_witness :
  exists s' mp, rte_mempool_create 200 example_eal example_ring_zones String.EmptyString 4 64 0 0 None (Some list_object) 0 0 []
    = (s', Ret (Some (ops_mp_mc, mp))) /\ Z.of_nat (length (elt_list mp)) = 4.
Proof.
  destruct (rte_mempool_create_correct 200 example_eal example_ring_zones 0 None (Some list_object))
    with (nm := String.EmptyString) (n := 4) (elt := 64) (cs := 0) (priv := 0) (socket_id := 0) (s := @nil Z)
    as (s' & mp & Hrun & [_ _ _ _ Hcount _ _ _ _] & _).
  - split; [discriminate|]. intros f mp o i s [= <-]. eexists. reflexivity.
  - split.
    + lia.
    + split; [vm_compute; split; congruence|vm_compute; congruence].
    + split; [lia|vm_compute; congruence].
    + reflexivity.
    + cbn. lia.
    + reflexivity.
    + split; [vm_compute; lia|vm_compute; lia].
  - split; [exact example_zones_ok|cbn; lia|split; [reflexivity|discriminate]|reflexivity|].
    split; [reflexivity|]. exists 4096, (fun _ => 0). reflexivity.
  - exact example_plenty.
  - reflexivity.
  - exists s', mp. split; [exact Hrun|exact Hcount].
Defined.

Example rte_mempool_create_oversized_witness :
  exists s' mp, rte_mempool_create 200 example_eal example_ring_zones String.EmptyString (2 ^ 30) 64 0 0 None (Some list_object) 0 0 []
    = (s', Ret (Some (ops_mp_mc, mp))) /\ pool_data mp = None.
Proof.
  destruct (rte_mempool_create_oversized 200 example_eal example_ring_zones 0 None (Some list_object))
    with (nm := String.EmptyString) (n := 2 ^ 30) (elt := 64) (priv := 0) (socket_id := 0) (s := @nil Z)
    as (s' & mp & Hrun & Hnull & _).
  - split; [discriminate|]. intros f mp o i s [= <-]. eexists. reflexivity.
  - lia.
  - lia.
  - vm_compute. congruence.
  - reflexivity.
  - reflexivity.
  - vm_compute. lia.
  - cbn. lia.
  - cbn. lia.
  - reflexivity.
  - discriminate.
  - exists s', mp. split; [exact Hrun|exact Hnull].
Defined.
