(* ===== verification/PktmbufPool.v ===== *)
(** * Pools of packet buffers (lib/librte_mbuf)

    [rte_pktmbuf_pool_create] composes the creation of a memory pool
    ([MempoolCreate.v]) with the choice of its driver by name and the initialisation of
    its packet buffers ([rte_pktmbuf_init], which stores the offsets of the LLC slices):
    the pools it creates are what the receive queues of [Mlx5Rx.v] are filled from. *)

From S2P Require Import Prelude Effects Slice Ring Mbuf MbufSlice Mlx5Rx.
From S2P Require Import MempoolDrivers Mempool MempoolLayout MempoolBufs MempoolCreate.
From Stdlib Require String.
Import String.StringSyntax.
Delimit Scope string_scope with string.

Definition RTE_MEMPOOL_OPS_NAMESIZE : Z := 32.
Definition RTE_MEMPOOL_MAX_OPS_IDX : Z := 16.
Definition RTE_MBUF_DEFAULT_MEMPOOL_OPS : String.string := "ring_mp_mc"%string.
Definition sizeof_rte_pktmbuf_pool_private : Z := 4.

(** ** The drivers by name *)

(** The registered drivers, by index.  [None] stands for a driver without one of the
    functions every driver needs. *)
Definition rte_mempool_register_ops {O} (h : String.string * option O) : comp (list (String.string * O)) Z :=
  table ← get;
  if RTE_MEMPOOL_MAX_OPS_IDX <=? Z.of_nat (length table) then mret (- ENOSPC)
  else
    match h with
    | (_, None) => mret (- Mempool.EINVAL)
    | (nm, Some ops) =>
        if RTE_MEMPOOL_OPS_NAMESIZE - 1 <=? str_length nm then mret (- EEXIST)
        else put (table ++ [(nm, ops)]) ;; mret (Z.of_nat (length table))
    end.

(** The ring drivers as their constructors register them. *)
Definition ring_handlers : list (String.string * option ring_ops) :=
  [("ring_mp_mc"%string, Some ops_mp_mc); ("ring_sp_sc"%string, Some ops_sp_sc);
   ("ring_mp_sc"%string, Some ops_mp_sc); ("ring_sp_mc"%string, Some ops_sp_mc)].

(** *** The preferred driver of packet buffers *)

(** The memory zones with the names of the platform and of the user, and the name given
    on the command line. *)
Record pool_ops_names := mk_ops_names {
  mbuf_platform_pool_ops : option String.string;
  mbuf_user_pool_ops : option String.string;
  eal_mbuf_user_pool_ops : option String.string }.

(** [reserve_error] is the error of reserving the zone, if it fails. *)
Definition rte_mbuf_set_platform_mempool_ops (reserve_error : option Z) (ops_name : String.string) : comp pool_ops_names Z :=
  if RTE_MEMPOOL_OPS_NAMESIZE <=? str_length ops_name then mret (- Ring.ENAMETOOLONG)
  else
    s ← get;
    match mbuf_platform_pool_ops s with
    | None =>
        match reserve_error with
        | Some rte_errno => mret (- rte_errno)
        | None => put (mk_ops_names (Some ops_name) (mbuf_user_pool_ops s) (eal_mbuf_user_pool_ops s)) ;; mret 0
        end
    | Some nm => if String.eqb nm ops_name then mret 0 else mret (- EEXIST)
    end.

Definition rte_mbuf_set_user_mempool_ops (reserve_error : option Z) (ops_name : String.string) : comp pool_ops_names Z :=
  if RTE_MEMPOOL_OPS_NAMESIZE <=? str_length ops_name then mret (- Ring.ENAMETOOLONG)
  else
    s ← get;
    match mbuf_user_pool_ops s, reserve_error with
    | None, Some rte_errno => mret (- rte_errno)
    | _, _ => put (mk_ops_names (mbuf_platform_pool_ops s) (Some ops_name) (eal_mbuf_user_pool_ops s)) ;; mret 0
    end.

Definition rte_mbuf_platform_mempool_ops (s : pool_ops_names) : option String.string := mbuf_platform_pool_ops s.
Definition rte_mbuf_user_mempool_ops (s : pool_ops_names) : option String.string :=
  match mbuf_user_pool_ops s with None => eal_mbuf_user_pool_ops s | Some nm => Some nm end.
Definition rte_mbuf_best_mempool_ops (s : pool_ops_names) : String.string :=
  match rte_mbuf_user_mempool_ops s with
  | Some best_ops => best_ops
  | None =>
      match rte_mbuf_platform_mempool_ops s with
      | Some best_ops => best_ops
      | None => RTE_MBUF_DEFAULT_MEMPOOL_OPS
      end
  end.

(** ** The pool *)

Definition rte_pktmbuf_pool_init {D} (opaque_arg : option rte_pktmbuf_pool_private) (x : pktmbuf_pool D) : pktmbuf_pool D :=
  let user_mbp_priv :=
    match opaque_arg with
    | Some p => p
    | None => PoolPrivate (if sizeof_rte_mbuf <? elt_size (lp_mp x) then u16 (elt_size (lp_mp x) - sizeof_rte_mbuf) else 0) 0
    end in
  mk_pool (lp_mp x) user_mbp_priv.

Section PoolCreate.
Context {lcore : nat}.
Local Notation P := (lcore_pools (option rte_ring) lcore).

(** The headers that the population wrote before the objects. *)
Definition write_headers (l : list rte_mempool_objhdr) (f : Z -> Z) : Z -> Z :=
  foldl (fun f hdr a => if a =? obj_addr hdr then obj_iova hdr else f a) f l.

(** The pool [x] is in memory at [mp]. *)
Definition install_pool (mp : Z) (x : pktmbuf_pool (option rte_ring)) (s : store P) : store P :=
  s <| pools := mk_pools (<[mp := x]> (pools_at (pools s))) (write_headers (elt_list (lp_mp x)) (hdr_iova (pools s))) |>.

(** The initialisation of the buffers, which only reads the private area and the header. *)
Definition init_object (fuel : nat) (o : ring_ops) (mp m : Z) : comp (store P) unit :=
  @rte_pktmbuf_init P (@lcore_pools_ops _ (@null_driver _ (ring_driver o)) lcore) fuel mp m.

(** The driver and the address of the pool, or the [rte_errno] the function sets itself.
    Whatever fails frees the pool again, which is then not among the pools. *)
Definition rte_pktmbuf_pool_create_by_ops (fuel : nat) (e : eal) (z : ring_zones) (table : list (String.string * ring_ops))
  (names : pool_ops_names) (nm : String.string) (n cache_size priv_size data_room_size socket_id : Z)
  (ops_name : option String.string) : comp (store P) ((ring_ops * Z) + option Z) :=
  if negb (RTE_ALIGN_CEIL 32 priv_size RTE_MBUF_PRIV_ALIGN =? priv_size) then mret (inr (Some Mempool.EINVAL))
  else
    let elt_size := (sizeof_rte_mbuf +[32] priv_size) +[32] data_room_size in
    let mbp_priv := PoolPrivate data_room_size priv_size in
    match rte_mempool_create_empty fuel e nm n elt_size cache_size sizeof_rte_pktmbuf_pool_private socket_id 0 with
    | None => no_fuel
    | Some (inr rte_errno) => mret (inr rte_errno)
    | Some (inl mp) =>
        let mp_ops_name := default (rte_mbuf_best_mempool_ops names) ops_name in
        match rte_mempool_set_ops_byname table mp mp_ops_name with
        | inr ret => mret (inr (Some (- ret)))
        | inl o =>
            let x := rte_pktmbuf_pool_init (Some mbp_priv) (mk_pool mp (PoolPrivate 0 0)) in
            let '(mp, r) := @rte_mempool_populate_default _ (@null_driver _ (ring_driver o)) fuel e (common_ring_alloc z) (lp_mp x) in
            match r with
            | Ret ret =>
                if ret <? 0 then mret (inr (Some (- ret)))
                else
                  match eal_header_zone e (mempool_zone_len cache_size (RTE_ALIGN_CEIL 32 sizeof_rte_pktmbuf_pool_private RTE_MEMPOOL_ALIGN)) with
                  | None => ub
                  | Some id =>
                      modify (install_pool id (mk_pool mp (lp_priv x))) ;;
                      rte_mempool_obj_iter mp (fun _ m _ => init_object fuel o id m) ;;
                      mret (inl (o, id))
                  end
            | r => fun s => (s, reraise r)
            end
        end
    end.

Definition rte_pktmbuf_pool_create (fuel : nat) (e : eal) (z : ring_zones) (table : list (String.string * ring_ops))
  (names : pool_ops_names) (nm : String.string) (n cache_size priv_size data_room_size socket_id : Z)
  : comp (store P) ((ring_ops * Z) + option Z) :=
  rte_pktmbuf_pool_create_by_ops fuel e z table names nm n cache_size priv_size data_room_size socket_id None.
End PoolCreate.

(** ** The initialised buffers *)

(** The buffer at [x] of the pool [mp] as its creation leaves it. *)
Definition fresh_buffer (mp priv room x : Z) (m : rte_mbuf) : Prop :=
  pool_buffer mp m /\ buf_addr m = x +[64] (sizeof_rte_mbuf + priv) /\ buf_len m = room
  /\ data_off m = Z.min RTE_PKTMBUF_HEADROOM room /\ Mbuf.priv_size m = priv
  /\ next m = NULL /\ nb_segs m = 1 /\ data_len m = 0 /\ pkt_len m = 0 /\ ol_flags m = 0.

Lemma pktmbuf_init_run {P} `{!MempoolOps P} fuel mp m (s : store P) room priv :
  (15 <= fuel)%nat -> mp_priv (pools s) mp = PoolPrivate room priv -> in_range 16 room -> in_range 16 priv ->
  exists x, rte_pktmbuf_init fuel mp m s = (s <| mbufs := <[m := x]> (mbufs s) |>, Ret tt)
    /\ fresh_buffer mp priv room m x.
Proof.
  intros Hf Hp Hr Hv. unfold rte_pktmbuf_init, rte_pktmbuf_priv_size, rte_pktmbuf_data_room_size. rewrite bind_assoc.
  erewrite bind_ret; [|reflexivity]. erewrite bind_ret; [|reflexivity]. rewrite bind_assoc.
  erewrite bind_ret; [|reflexivity]. erewrite bind_ret; [|reflexivity]. erewrite bind_ret; [|reflexivity].
  rewrite Hp. cbn [mbuf_priv_size mbuf_data_room_size]. unfold in_range, sizeof_rte_mbuf in *.
  rewrite (wrap_small 32 (128 + priv)), (wrap_small 16 room), (wrap_small 16 priv) by (unfold in_range; lia).
  set (x := RteMbuf _ _ _ _ _ _ _ _ _ _ _ _ _ _ _ _ _ _ _ _ _).
  assert (in_range 64 (buf_iova x)) as Hio by (apply (wrap_range 64); lia).
  destruct (slice_init_runs x fuel Hio Hf) as (x' & Hrun & Hx'). rewrite Hrun.
  eexists. split; [reflexivity|]. pose proof (slice_ready_init fuel x x' Hio Hf Hrun) as Hsr. rewrite Hx' in Hsr |- *.
  split; [split; [exact Hsr|done]|done].
Qed.

(** *** Where the objects of a pool are *)

Lemma cut_above {D} (mp : rte_mempool D) zs ls x :
  sizes_ok mp -> cut_from mp zs ls -> x ∈ obj_addr <$> concat ls -> exists mz, mz ∈ zs /\ mz_addr mz + header_size mp <= x.
Proof.
  intros [? ? ? ?] Hcut. induction Hcut as [|mz l zs ls Hl Hcut IH]; cbn; intros Hin; [by apply elem_of_nil in Hin|].
  rewrite fmap_app in Hin. apply elem_of_app in Hin as [(o & -> & Ho)%list_elem_of_fmap|Hin].
  - destruct (laid_out_inside (header_size mp) (elt_size mp + trailer_size mp) ltac:(lia) ltac:(lia) _ _ _ _ Hl Ho).
    exists mz. split; [apply list_elem_of_here|lia].
  - destruct (IH Hin) as (mz' & H1 & H2). exists mz'. split; [by apply list_elem_of_further|done].
Qed.

Lemma held_opt_empty {D} `{!PoolDriver D} (mp : rte_mempool D) l :
  concat (held <$> local_cache mp) = [] -> held_opt (lcore_cache mp l) = [].
Proof.
  intros Hc. unfold lcore_cache. destruct (rte_mempool_default_cache mp l) as [i|]; [|done]. cbn.
  destruct (local_cache mp !! i) as [k|] eqn:E; [|done]. cbn.
  apply list_elem_of_split_length in E as (l1 & l2 & El & _). rewrite El, fmap_app, concat_app in Hc. cbn in Hc.
  apply app_eq_nil in Hc as [_ Hc]. by apply app_eq_nil in Hc as [Hc _].
Qed.

Section PoolProofs.
Context {lcore : nat} (fuel : nat) (o : ring_ops).
Local Notation P := (lcore_pools (option rte_ring) lcore).

#[local] Instance named_driver : PoolDriver rte_ring := pool_driver o.
#[local] Instance named_driver_laws : PoolDriverLaws rte_ring := pool_driver_laws o.

(** Initialising all objects of a pool. *)
Lemma init_objects_run mp room priv (pool : rte_mempool (option rte_ring)) (s : store P) :
  (15 <= fuel)%nat -> mp_priv (pools s) mp = PoolPrivate room priv -> in_range 16 room -> in_range 16 priv ->
  exists s' k, rte_mempool_obj_iter pool (fun _ m _ => init_object fuel o mp m) s = (s', Ret k)
    /\ pools s' = pools s
    /\ (forall x, x ∈ obj_addr <$> elt_list pool -> exists m, mbufs s' !! x = Some m /\ fresh_buffer mp priv room x m)
    /\ forall x, x ∉ obj_addr <$> elt_list pool -> mbufs s' !! x = mbufs s !! x.
Proof using.
  intros Hfuel Hp Hr Hv.
  apply (obj_iter_total pool _ (fun l s' => pools s' = pools s
    /\ (forall x, x ∈ l -> exists m, mbufs s' !! x = Some m /\ fresh_buffer mp priv room x m)
    /\ forall x, x ∉ l -> mbufs s' !! x = mbufs s !! x)).
  - intros l x i st (H1 & H2 & H3).
    destruct (pktmbuf_init_run fuel mp x st room priv Hfuel) as (m & Hrun & Hm); [by rewrite H1|done|done|].
    eexists. split; [exact Hrun|]. change (mbufs (st <| mbufs := ?h |>)) with h. split; [done|]. split.
    + intros y Hy. destruct (decide (y = x)) as [->|Hne]; [exists m; by rewrite lookup_insert_eq|].
      rewrite lookup_insert_ne by done. apply H2. apply elem_of_app in Hy as [|Hy%list_elem_of_singleton]; done.
    + intros y [Hy1 Hy2]%not_elem_of_app. rewrite lookup_insert_ne by (intros ->; apply Hy2, list_elem_of_here). by apply H3.
  - split_and!; [done| |done]. intros x Hx. by apply elem_of_nil in Hx.
Qed.

(** A full pool is live, and all its objects can be got by any lcore. *)
Lemma full_pool_live e nm n elt cs (mp : rte_mempool (option rte_ring)) :
  full_pool e o nm n elt cs mp -> cs <> 1 ->
  live_ok mp /\ lcore_objs lcore mp = obj_addr <$> elt_list mp /\ out_count mp = 0%nat.
Proof using.
  intros [_ [Hsz Hcs] Hok Hfree Hcount Hcap _ _ _] Hc. change (pool_driver o) with named_driver in Hok.
  assert (pd_items (pool_data mp) = obj_addr <$> elt_list mp) as Hq by (apply pd_items_eq, Hok).
  assert (concat (held <$> local_cache mp) = []) as Hnone
    by (unfold mempool_objs in Hfree; by apply (app_inv_tail (obj_addr <$> elt_list mp) _ [])).
  assert (length (pool_objs mp) = Z.to_nat n) as Hlen
    by (unfold pool_objs, mempool_objs; rewrite Hnone, Hq; cbn; rewrite length_fmap; lia).
  split; [split; [by rewrite Hq|congruence|]|split].
  - rewrite Hlen, Hsz. split; [lia|exact Hcap].
  - unfold lcore_objs, view_objs, lcore_view. cbn [view_cache]. by rewrite (held_opt_empty mp _ Hnone), Hq.
  - unfold out_count. rewrite Hlen, Hsz. lia.
Qed.

Lemma full_pool_objects e nm n elt cs (mp : rte_mempool (option rte_ring)) x :
  zones_ok fuel e -> full_pool e o nm n elt cs mp -> x ∈ obj_addr <$> elt_list mp -> x <> NULL.
Proof using.
  intros Hz [_ _ _ _ _ _ (_ & Hh & Hs) (k & zs & ls & Hgr & Hcut & El) _] Hx. rewrite El in Hx.
  destruct (cut_above mp zs ls x Hs Hcut Hx) as (mz & Hin & Hle).
  destruct (granted_request _ _ _ _ Hgr Hin) as (k1 & len & al & c & _ & Hres).
  destruct (zo_zone _ _ Hz _ _ _ _ _ Hres) as (H0 & _). unfold sizeof_rte_mempool_objhdr, NULL in *. lia.
Qed.

(** A request for a pool of [n] buffers that the environment can serve, with the driver
    [o] and the zone of the header at [id]. *)
Record pktmbuf_request (e : eal) (z : ring_zones) (table : list (String.string * ring_ops)) (names : pool_ops_names)
  (nm : String.string) (n cs priv room socket_id : Z) (ops_name : option String.string) (id : Z) : Prop := {
  pr_fuel : (15 <= fuel)%nat;
  pr_sizes : (8 | priv) /\ in_range 16 priv /\ in_range 16 room;
  pr_request : request_ok fuel e nm n (sizeof_rte_mbuf + priv + room) cs socket_id 0 /\ cs <> 1;
  pr_ops : ops_by_name table (default (rte_mbuf_best_mempool_ops names) ops_name) = Some o;
  pr_eal : eal_ok fuel e z /\ zones_disjoint e /\ rte_eal_has_hugepages (eal_mem e) = true;
  pr_plenty : zones_plenty e (n * (sizeof_rte_mbuf + priv + room + 64 * spread_ways (eal_nchannel e) (eal_nrank e) + 512));
  pr_header : eal_header_zone e (mempool_zone_len cs 64) = Some id }.

(** What the creation of a pool leaves: the buffers [l], all free and initialised, and
    everything else as it was. *)
Record pool_created (n priv room id : Z) (l : list Z) (s s' : store P) : Prop := {
  pc_live : pools_live lcore (pools s) -> pools_live lcore (pools s');
  pc_count : Z.of_nat (length l) = n /\ NoDup l;
  pc_avail : avail_at lcore (pools s') id = l /\ in_use (pools s') id = 0;
  pc_priv : mp_priv (pools s') id = PoolPrivate room priv;
  pc_buffers : forall x, x ∈ l -> x <> NULL /\ exists m, mbufs s' !! x = Some m /\ fresh_buffer id priv room x m;
  pc_frame : forall x, x ∉ l -> mbufs s' !! x = mbufs s !! x;
  pc_pools : forall id', id' <> id -> pools_at (pools s') !! id' = pools_at (pools s) !! id' }.

Lemma pool_create_run e z table names nm n cs priv room socket_id ops_name id (s : store P) :
  pktmbuf_request e z table names nm n cs priv room socket_id ops_name id ->
  exists l s', rte_pktmbuf_pool_create_by_ops fuel e z table names nm n cs priv room socket_id ops_name s = (s', Ret (inl (o, id)))
    /\ pool_created n priv room id l s s'.
Proof using.
  intros [Hfuel (Ha & Hp & Hr) [Hrq Hcs] Hops (Hok & Hd & Hhuge) Hplenty Hid].
  destruct (create_populate_ok fuel e z o 0 nm n _ cs sizeof_rte_pktmbuf_pool_private socket_id Hrq Hok Hplenty Hhuge) as (mp & mp' & Hempty & Hflag & Hpop & Hfull).
  unfold in_range in Hp, Hr.
  unfold rte_pktmbuf_pool_create_by_ops. destruct Ha as [a Ha].
  assert (RTE_ALIGN_CEIL 32 priv RTE_MBUF_PRIV_ALIGN = priv) as ->.
  { change RTE_MBUF_PRIV_ALIGN with (2 ^ 3). rewrite align_ceil_spec by lia. change (2 ^ 3) with 8.
    replace (priv + 8 - 1) with (7 + a * 8) by lia. rewrite Z.div_add by lia. change (7 / 8) with 0. lia. }
  rewrite Z.eqb_refl. cbn [negb]. unfold sizeof_rte_mbuf in *. rewrite !(wrap_small 32) by (rewrite ?wrap_small; unfold in_range; lia).
  rewrite Hempty. unfold rte_mempool_set_ops_byname. rewrite Hflag, Hops. cbn [rte_pktmbuf_pool_init lp_mp lp_priv].
  unfold pool_driver in Hpop. rewrite Hpop. destruct (rq_count _ _ _ _ _ _ _ _ Hrq) as [Hn0 Hn]. destruct (Z.ltb_spec n 0); [lia|].
  change (RTE_ALIGN_CEIL 32 sizeof_rte_pktmbuf_pool_private RTE_MEMPOOL_ALIGN) with 64. rewrite Hid.
  set (s1 := install_pool id (mk_pool mp' (PoolPrivate room priv)) s).
  rewrite (bind_ret _ _ s s1 tt) by done.
  assert (pools_at (pools s1) !! id = Some (mk_pool mp' (PoolPrivate room priv))) as Hat by apply lookup_insert_eq.
  destruct (init_objects_run id room priv mp' s1 Hfuel) as (s' & k & Hrun & Hpools & Hin & Hout);
    [unfold mp_priv, lcore_pools_ops; by rewrite Hat|done|done|].
  rewrite (bind_ret _ _ _ _ _ Hrun). destruct (full_pool_live e nm n _ cs mp' Hfull Hcs) as (Hlive & Hobjs & Hoc).
  exists (obj_addr <$> elt_list mp'), s'. split; [done|].
  split; unfold avail_at, in_use; cbn [mp_priv lcore_pools_ops]; rewrite ?Hpools, ?Hat; cbn [from_option lp_mp lp_priv]; try done.
  - intros Hl. by apply map_Forall_insert_2.
  - rewrite length_fmap. split; [apply (fp_count _ _ _ _ _ _ _ Hfull)|by apply (fp_distinct _ _ _ _ _ _ _ Hfull)].
  - split; [exact Hobjs|]. rewrite in_use_out by done. by rewrite Hoc.
  - intros x Hx. split; [|by apply Hin]. by apply (full_pool_objects e nm n _ cs mp' x (eo_zones _ _ _ Hok) Hfull).
  - intros id' Hne. unfold s1, install_pool. cbn. by rewrite lookup_insert_ne.
Qed.

(** The pool is ready for a queue. *)
Lemma pool_created_ready n priv room id l (s s' : store P) q :
  pool_created n priv room id l s s' -> pools_live lcore (pools s) -> rxq_mp q = id -> pool_ready (RxState q s').
Proof using.
  intros [Hlive [_ Hnd] [Hav _] _ Hbufs _ _] Hl Hq. unfold pool_ready. cbn [rxq bufs]. rewrite Hq.
  change (mp_avail (pools s') id) with (avail_at lcore (pools s') id). rewrite Hav.
  split; [by apply Hlive|]. split; [done|]. intros p Hp. destruct (Hbufs p Hp) as (H0 & m & Hm & Hf & _).
  split; [done|]. by exists m.
Qed.

(** C28. From the request for a pool to the filled receive queue.  For a request that the
    environment can serve, [rte_pktmbuf_pool_create_by_ops] ends and returns a pool over
    the driver it was asked for by name, or over the preferred one.  All its [n] buffers
    are free, can be got by any lcore, have distinct addresses, and are initialised:
    unshared, of the pool, with the data room behind the private area and the offsets of
    the LLC slices stored; no other buffer and no other pool has changed.  Every queue
    that uses the pool and has at most [n] entries is then filled: each entry is one of
    these buffers, empty and placed on the LLC slice of the queue, and the pool
    counts exactly the entries as objects in use. *)
Theorem pktmbuf_pool_feeds_queue `{!Mlx5Prm} e z table names nm n cs priv room socket_id ops_name id (s : store P) :
  pktmbuf_request e z table names nm n cs priv room socket_id ops_name id -> pools_live lcore (pools s) ->
  exists l s', rte_pktmbuf_pool_create_by_ops fuel e z table names nm n cs priv room socket_id ops_name s = (s', Ret (inl (o, id)))
    /\ pool_created n priv room id l s s'
    /\ forall q fake, rxq_mp q = id -> 0 <= elts_n q -> 2 ^ elts_n q <= Z.of_nat (length (elts q)) -> 2 ^ elts_n q <= n ->
       exists s2, rxq_alloc_elts_sprq fuel 0 fake (RxState q s') = (s2, Ret 0)
         /\ in_use (pools (bufs s2)) id = 2 ^ elts_n q
         /\ forall i, 0 <= i < 2 ^ elts_n q -> exists p m,
              elts (rxq s2) !! Z.to_nat i = Some p /\ p ∈ l /\ mbufs (bufs s2) !! p = Some m /\ posted_on_slice q m.
Proof using.
  intros Hreq Hl. destruct (pool_create_run e z table names nm n cs priv room socket_id ops_name id s Hreq) as (l & s' & Hrun & Hc).
  exists l, s'. split; [exact Hrun|]. split; [exact Hc|]. intros q fake Hq He Hlen Hn.
  pose proof (pool_created_ready n priv room id l s s' q Hc Hl Hq) as Hready.
  destruct Hc as [Hlive [Hcount _] [Hav Huse] _ _ _ _]. specialize (Hlive Hl).
  change (mp_avail (pools s') id = l) in Hav.
  destruct (alloc_elts_filled fuel (pr_fuel _ _ _ _ _ _ _ _ _ _ _ _ Hreq) fake (RxState q s') Hready He Hlen) as (s2 & Hrun2 & Hv & Hroom & Hperm & Hpost).
  { cbn [rxq bufs]. rewrite Hq, Hav. lia. }
  cbn [rxq bufs] in *. rewrite Hq in *. exists s2. split; [exact Hrun2|]. split.
  - rewrite in_use_room in Huse |- * by done. change (mp_room ?p id) with (room_at lcore p id) in Hroom. lia.
  - intros i Hi. destruct (Hpost i Hi) as (p & m & Hp & Hm & Hpo). exists p, m. split_and!; try done.
    rewrite <- Hav, Hperm. apply elem_of_app. left. apply (list_elem_of_lookup_2 _ (Z.to_nat i)). by rewrite lookup_take_lt by lia.
Qed.
End PoolProofs.

(** *** Drivers by name *)

Lemma ops_by_name_app {O} (t1 t2 : list (String.string * O)) nm :
  ops_by_name (t1 ++ t2) nm = match ops_by_name t1 nm with Some o => Some o | None => ops_by_name t2 nm end.
Proof. induction t1 as [|[nm' ops] t1 IH]; [done|]. cbn. by destruct (String.eqb nm nm'). Qed.

(** A driver registered under a new name is found under it, and the others as before. *)
Lemma register_found {O} (table : list (String.string * O)) nm ops :
  Z.of_nat (length table) < RTE_MEMPOOL_MAX_OPS_IDX -> str_length nm < RTE_MEMPOOL_OPS_NAMESIZE - 1 -> ops_by_name table nm = None ->
  exists table', rte_mempool_register_ops (nm, Some ops) table = (table', Ret (Z.of_nat (length table)))
    /\ ops_by_name table' nm = Some ops /\ forall nm', nm' <> nm -> ops_by_name table' nm' = ops_by_name table nm'.
Proof.
  intros Hn Hl Hnew. exists (table ++ [(nm, ops)]). unfold rte_mempool_register_ops. erewrite bind_ret; [|reflexivity].
  destruct (Z.leb_spec RTE_MEMPOOL_MAX_OPS_IDX (Z.of_nat (length table))); [lia|].
  destruct (Z.leb_spec (RTE_MEMPOOL_OPS_NAMESIZE - 1) (str_length nm)); [lia|]. split; [done|]. split.
  - rewrite ops_by_name_app, Hnew. cbn. by rewrite String.eqb_refl.
  - intros nm' Hne. rewrite ops_by_name_app. cbn. destruct (String.eqb_spec nm' nm); [done|]. by destruct (ops_by_name table nm').
Qed.

(** The name the user sets is the one that is preferred. *)
Lemma user_ops_preferred names nm :
  str_length nm < RTE_MEMPOOL_OPS_NAMESIZE ->
  exists names', rte_mbuf_set_user_mempool_ops None nm names = (names', Ret 0) /\ rte_mbuf_best_mempool_ops names' = nm.
Proof.
  intros Hl. exists (mk_ops_names (mbuf_platform_pool_ops names) (Some nm) (eal_mbuf_user_pool_ops names)).
  unfold rte_mbuf_set_user_mempool_ops. destruct (Z.leb_spec RTE_MEMPOOL_OPS_NAMESIZE (str_length nm)); [lia|].
  erewrite bind_ret; [|reflexivity]. by destruct (mbuf_user_pool_ops names).
Qed.

(** The platform's name can be set once. *)
Lemma platform_ops_once names nm nm' :
  mbuf_platform_pool_ops names = Some nm -> nm' <> nm -> str_length nm' < RTE_MEMPOOL_OPS_NAMESIZE ->
  rte_mbuf_set_platform_mempool_ops None nm' names = (names, Ret (- EEXIST)).
Proof.
  intros Hs Hne Hl. unfold rte_mbuf_set_platform_mempool_ops. destruct (Z.leb_spec RTE_MEMPOOL_OPS_NAMESIZE (str_length nm')); [lia|].
  erewrite bind_ret; [|reflexivity]. rewrite Hs. by destruct (String.eqb_spec nm nm').
Qed.

(** *** A pool of two buffers for a queue of two entries *)

(** [ring_table] is what registering the ring drivers leaves. *)
Lemma ring_table_registered :
  fst (foldl (fun '(t, _) h => rte_mempool_register_ops h t) ([], Ret 0) ring_handlers) = ring_table.
Proof. reflexivity. Qed.

Lemma example_zones_disjoint : zones_disjoint example_eal.
Proof.
  intros k1 k2 len1 len2 al1 al2 c1 c2 m1 m2 Hne (H1 & _ & _ & _ & ->)%example_reserve_inv (H2 & _ & _ & _ & ->)%example_reserve_inv.
  cbn [mz_addr mz_len]. lia.
Qed.

Lemma example_pool_request :
  pktmbuf_request 200 ops_mp_mc example_eal example_ring_zones ring_table (mk_ops_names None None None) String.EmptyString
    2 0 8 256 0 None 4096.
Proof.
  split.
  - lia.
  - split; [by exists 1|]. unfold in_range. lia.
  - split; [|lia]. split; try done; try (vm_compute; split; congruence).
    split; vm_compute; lia.
  - reflexivity.
  - split; [|split; [exact example_zones_disjoint|reflexivity]].
    split; [exact example_zones_ok|cbn; lia|split; [reflexivity|discriminate]|reflexivity|].
    split; [reflexivity|]. exists 4096, (fun _ => 0). reflexivity.
  - intros len contig Hlen. apply example_plenty. split; [lia|]. etransitivity; [apply Hlen|]. vm_compute. congruence.
  - reflexivity.
Qed.

Definition example_queue : mlx5_rxq_data := (example_rxq [0; 0] [0; 0]) <| rxq_mp := 4096 |>.
Definition no_pools : store (lcore_pools (option rte_ring) 0) := Store ∅ ∅ (fun _ => 0) (mk_pools ∅ (fun a => a)) [].

Example pktmbuf_pool_feeds_queue_witness :
  exists s' s2 p m,
    rte_pktmbuf_pool_create_by_ops 200 example_eal example_ring_zones ring_table (mk_ops_names None None None)
      String.EmptyString 2 0 8 256 0 None no_pools = (s', Ret (inl (ops_mp_mc, 4096)))
    /\ @rxq_alloc_elts_sprq _ (@lcore_pools_ops _ (@null_driver _ (ring_driver ops_mp_mc)) 0) 200 0 0 (RxState example_queue s') = (s2, Ret 0)
    /\ elts (rxq s2) !! 0%nat = Some p /\ mbufs (bufs s2) !! p = Some m
    /\ calculateSlice_HF_haswell (rte_pktmbuf_iova_offset m 0) = slice_number example_queue.
Proof.
  destruct (pktmbuf_pool_feeds_queue (lcore := 0) 200 ops_mp_mc _ _ _ _ _ _ _ _ _ _ _ _ no_pools example_pool_request) as (l & s' & Hrun & _ & Hq).
  - intros i x Hx. discriminate Hx.
  - destruct (Hq example_queue 0) as (s2 & Hrun2 & _ & He); [reflexivity|vm_compute; congruence|vm_compute; congruence|vm_compute; congruence|].
    destruct (He 0) as (p & m & Hp & _ & Hm & Hpo); [split; [lia|reflexivity]|].
    exists s', s2, p, m. split; [exact Hrun|]. split; [exact Hrun2|]. split; [exact Hp|]. split; [exact Hm|apply Hpo].
Defined.
