(* ===== verification/Lpm.v ===== *)
(** * Longest prefix match for IPv4 (lib/librte_lpm)

    The rules of a table are kept in [rules_tbl], grouped by depth; a lookup reads
    [tbl24] at the top 24 bits of the address and, if the entry says so, a group of
    256 entries of [tbl8] at the low byte.  The library has two versions of every
    function, with 8-bit ([_v20]) and with 24-bit next hops ([_v1604], the default), whose
    bodies are the same: here [nhw] is the width of a next hop in the tables. *)

From S2P Require Import Prelude Effects.
From Stdlib Require String.

Definition EINVAL : Z := 22.
Definition ENOENT : Z := 2.
Definition EEXIST : Z := 17.
Definition ENOSPC : Z := 28.
Definition ENOMEM : Z := 12.

Definition MAX_DEPTH_TBL24 : Z := 24.
Definition INVALID : Z := 0.
Definition VALID : Z := 1.
Definition RTE_LPM_MAX_DEPTH : Z := 32.
Definition RTE_LPM_TBL24_NUM_ENTRIES : Z := Z.shiftl 1 24.
Definition RTE_LPM_TBL8_GROUP_NUM_ENTRIES : Z := 256.
Definition RTE_LPM_MAX_TBL8_NUM_GROUPS : Z := Z.shiftl 1 24.
Definition RTE_LPM_TBL8_NUM_GROUPS : Z := 256.
Definition RTE_LPM_VALID_EXT_ENTRY_BITMASK : Z := 0x03000000.
Definition RTE_LPM_LOOKUP_SUCCESS : Z := 0x01000000.

(** [(int)0x80000000 >> (depth - 1)], as a [uint32_t] *)
Definition depth_to_mask (depth : Z) : Z := u32 (Z.shiftr (s32 0x80000000) (depth - 1)).

Definition depth_to_range (depth : Z) : Z :=
  if depth <=? MAX_DEPTH_TBL24 then u32 (Z.shiftl 1 (MAX_DEPTH_TBL24 - depth))
  else u32 (Z.shiftl 1 (RTE_LPM_MAX_DEPTH - depth)).

(** ** Data *)

(** An entry of [tbl24] or [tbl8], field by field. *)
Record rte_lpm_tbl_entry := mk_entry {
  te_next_hop : Z;
  te_valid : Z;
  te_valid_group : Z;
  te_depth : Z }.
Definition zero_entry : rte_lpm_tbl_entry := mk_entry 0 0 0 0.

Record rte_lpm_rule := mk_rule { rule_ip : Z; rule_next_hop : Z }.
Record rte_lpm_rule_info := mk_info { used_rules : Z; first_rule : Z }.

(** The arrays are sparse: what was never written is zero.  [tbl8_len] and [rules_len]
    are the numbers of entries that were allocated. *)
Record rte_lpm := mk_lpm {
  max_rules : Z;
  number_tbl8s : Z;
  rule_info : list rte_lpm_rule_info;
  tbl24 : gmap Z rte_lpm_tbl_entry;
  tbl8 : gmap Z rte_lpm_tbl_entry;
  tbl8_len : Z;
  rules_tbl : gmap Z rte_lpm_rule;
  rules_len : Z }.

Definition t24 (s : rte_lpm) (i : Z) : rte_lpm_tbl_entry := default zero_entry (tbl24 s !! i).
Definition t8 (s : rte_lpm) (i : Z) : rte_lpm_tbl_entry := default zero_entry (tbl8 s !! i).
Definition rule_at (s : rte_lpm) (k : Z) : rte_lpm_rule := default (mk_rule 0 0) (rules_tbl s !! k).

Local Notation M := (comp rte_lpm).

(** Array accesses; outside an array they have no defined behaviour. *)
Definition inside (i n : Z) : bool := (0 <=? i) && (i <? n).
Definition rd_tbl24 (i : Z) : M rte_lpm_tbl_entry :=
  s ← get; if inside i RTE_LPM_TBL24_NUM_ENTRIES then mret (t24 s i) else ub.
Definition wr_tbl24 (i : Z) (e : rte_lpm_tbl_entry) : M unit :=
  if inside i RTE_LPM_TBL24_NUM_ENTRIES then modify (fun s => s <| tbl24 := <[i := e]> (tbl24 s) |>) else ub.
Definition rd_tbl8 (i : Z) : M rte_lpm_tbl_entry :=
  s ← get; if inside i (tbl8_len s) then mret (t8 s i) else ub.
Definition wr_tbl8 (i : Z) (e : rte_lpm_tbl_entry) : M unit :=
  s ← get; if inside i (tbl8_len s) then modify (fun s => s <| tbl8 := <[i := e]> (tbl8 s) |>) else ub.
Definition rd_rule (k : Z) : M rte_lpm_rule :=
  s ← get; if inside k (rules_len s) then mret (rule_at s k) else ub.
Definition wr_rule (k : Z) (r : rte_lpm_rule) : M unit :=
  s ← get; if inside k (rules_len s) then modify (fun s => s <| rules_tbl := <[k := r]> (rules_tbl s) |>) else ub.
Definition rd_info (i : Z) : M rte_lpm_rule_info :=
  s ← get; if 0 <=? i then match rule_info s !! Z.to_nat i with Some x => mret x | None => ub end else ub.
Definition wr_info (i : Z) (x : rte_lpm_rule_info) : M unit :=
  rd_info i ;; modify (fun s => s <| rule_info := <[Z.to_nat i := x]> (rule_info s) |>).

(** [for (i = from; i < from + n; i++) f(i)] *)
Fixpoint for_range (from : Z) (n : nat) (f : Z -> M unit) : M unit :=
  match n with
  | O => mret tt
  | Datatypes.S n => f from ;; for_range (from + 1) n f
  end.

(** ** The rule table *)

(** The first rule for [ip] among the [n] rules from [k] on. *)
Fixpoint scan_rules (n : nat) (k ip : Z) : M (option Z) :=
  match n with
  | O => mret None
  | Datatypes.S n => r ← rd_rule k; if rule_ip r =? ip then mret (Some k) else scan_rules n (k +[32] 1) ip
  end.

(** The end of the last group in use below group [n]. *)
Fixpoint prev_end (n : nat) : M Z :=
  match n with
  | O => mret 0
  | Datatypes.S n =>
      x ← rd_info (Z.of_nat n);
      if 0 <? used_rules x then mret (first_rule x +[32] used_rules x) else prev_end n
  end.

(** One round of the loop that makes room; [true] is the return of [-ENOSPC]. *)
Definition room_step (i : Z) : M bool :=
  s ← get;
  x ← rd_info (i - 1);
  if first_rule x +[32] used_rules x =? max_rules s then mret true
  else if 0 <? used_rules x then
    r ← rd_rule (first_rule x);
    wr_rule (first_rule x +[32] used_rules x) r ;;
    wr_info (i - 1) (mk_info (used_rules x) (first_rule x +[32] 1)) ;; mret false
  else mret false.

(** [for (i = depth + n; i > depth; i--)] *)
Fixpoint make_room (n : nat) (depth : Z) : M bool :=
  match n with
  | O => mret false
  | S n' => full ← room_step (depth + Z.of_nat n); if (full : bool) then mret true else make_room n' depth
  end.

Definition rule_add (ip_masked depth next_hop : Z) : M Z :=
  x ← rd_info (depth - 1);
  r ← (if 0 <? used_rules x then
         found ← scan_rules (Z.to_nat (used_rules x)) (first_rule x) ip_masked;
         match found with
         | Some k => old ← rd_rule k; wr_rule k (mk_rule (rule_ip old) next_hop) ;; mret (inr (s32 k))
         | None =>
             s ← get;
             let rule_index := first_rule x +[32] used_rules x in
             if rule_index =? max_rules s then mret (inr (- ENOSPC)) else mret (inl rule_index)
         end
       else
         rule_index ← prev_end (Z.to_nat (depth - 1));
         s ← get;
         if rule_index =? max_rules s then mret (inr (- ENOSPC))
         else wr_info (depth - 1) (mk_info (used_rules x) rule_index) ;; mret (inl rule_index) : M (Z + Z));
  match r with
  | inr ret => mret ret
  | inl rule_index =>
      full ← make_room (Z.to_nat (RTE_LPM_MAX_DEPTH - depth)) depth;
      if (full : bool) then mret (- ENOSPC)
      else
        wr_rule rule_index (mk_rule ip_masked next_hop) ;;
        x ← rd_info (depth - 1);
        wr_info (depth - 1) (mk_info (used_rules x +[32] 1) (first_rule x)) ;;
        mret (s32 rule_index)
  end.

(** One round of the loop that closes the gap. *)
Definition close_step (i : Z) : M unit :=
  x ← rd_info i;
  if 0 <? used_rules x then
    r ← rd_rule (first_rule x +[32] used_rules x -[32] 1);
    wr_rule (first_rule x -[32] 1) r ;;
    wr_info i (mk_info (used_rules x) (first_rule x -[32] 1))
  else mret tt.

Definition rule_delete (rule_index depth : Z) : M unit :=
  x ← rd_info (depth - 1);
  last ← rd_rule (first_rule x +[32] used_rules x -[32] 1);
  wr_rule rule_index last ;;
  for_range depth (Z.to_nat (RTE_LPM_MAX_DEPTH - depth)) close_step ;;
  x ← rd_info (depth - 1);
  wr_info (depth - 1) (mk_info (used_rules x -[32] 1) (first_rule x)).

Definition rule_find (ip_masked depth : Z) : M Z :=
  x ← rd_info (depth - 1);
  found ← scan_rules (Z.to_nat (used_rules x)) (first_rule x) ip_masked;
  mret (match found with Some k => s32 k | None => - EINVAL end).

(** ** The tables *)

Section Tables.
Context (nhw : Z).

Definition group_start (group_idx : Z) : Z := group_idx *[32] RTE_LPM_TBL8_GROUP_NUM_ENTRIES.

(** The search for a free group from group [g] on, [n] groups long. *)
Fixpoint tbl8_scan (n : nat) (g : Z) : M Z :=
  match n with
  | O => mret (- ENOSPC)
  | Datatypes.S n =>
      e ← rd_tbl8 (group_start g);
      if te_valid_group e =? 0 then
        for_range (group_start g) (Z.to_nat RTE_LPM_TBL8_GROUP_NUM_ENTRIES) (fun j => wr_tbl8 j zero_entry) ;;
        wr_tbl8 (group_start g) (mk_entry 0 0 VALID 0) ;;
        mret (s32 g)
      else tbl8_scan n (g +[32] 1)
  end.

Definition tbl8_alloc : M Z := s ← get; tbl8_scan (Z.to_nat (number_tbl8s s)) 0.

Definition tbl8_free (tbl8_group_start : Z) : M unit :=
  e ← rd_tbl8 tbl8_group_start; wr_tbl8 tbl8_group_start (e <| te_valid_group := INVALID |>).

(** An array index computed in an [int32_t]. *)
Definition s32_index (i : Z) : M Z := if i <? 2 ^ 31 then mret i else ub.

Definition add_depth_small (ip depth next_hop : Z) : M Z :=
  let tbl24_index := Z.shiftr ip 8 in
  for_range tbl24_index (Z.to_nat (depth_to_range depth)) (fun i =>
    e ← rd_tbl24 i;
    if (te_valid e =? 0) || ((te_valid_group e =? 0) && (te_depth e <=? depth))
    then wr_tbl24 i (mk_entry (wrap nhw next_hop) VALID 0 depth)
    else if te_valid_group e =? 1 then
      for_range (group_start (te_next_hop e)) (Z.to_nat RTE_LPM_TBL8_GROUP_NUM_ENTRIES) (fun j =>
        e8 ← rd_tbl8 j;
        if (te_valid e8 =? 0) || (te_depth e8 <=? depth)
        then wr_tbl8 j (mk_entry (wrap nhw next_hop) VALID VALID depth) else mret tt)
    else mret tt) ;;
  mret 0.

(** The three fields that [add_depth_big] sets. *)
Definition set_hop (depth next_hop : Z) (e : rte_lpm_tbl_entry) : rte_lpm_tbl_entry :=
  e <| te_depth := depth |> <| te_next_hop := wrap nhw next_hop |> <| te_valid := VALID |>.

Definition add_depth_big (ip_masked depth next_hop : Z) : M Z :=
  let tbl24_index := Z.shiftr ip_masked 8 in
  let tbl8_range := Z.to_nat (depth_to_range depth) in
  let low := Z.land ip_masked 0xFF in
  let fill from n d nh := for_range from n (fun j => e8 ← rd_tbl8 j; wr_tbl8 j (set_hop d nh e8)) in
  let extended g := mk_entry (wrap nhw g) VALID 1 0 in
  e ← rd_tbl24 tbl24_index;
  if te_valid e =? 0 then
    g ← tbl8_alloc;
    if g <? 0 then mret g
    else
      tbl8_index ← s32_index (g * RTE_LPM_TBL8_GROUP_NUM_ENTRIES + low);
      fill tbl8_index tbl8_range depth next_hop ;;
      wr_tbl24 tbl24_index (extended g) ;; mret 0
  else if te_valid_group e =? 0 then
    g ← tbl8_alloc;
    if g <? 0 then mret g
    else
      start ← s32_index (g * RTE_LPM_TBL8_GROUP_NUM_ENTRIES);
      fill start (Z.to_nat RTE_LPM_TBL8_GROUP_NUM_ENTRIES) (te_depth e) (te_next_hop e) ;;
      fill (start + low) tbl8_range depth next_hop ;;
      wr_tbl24 tbl24_index (extended g) ;; mret 0
  else
    start ← s32_index (te_next_hop e * RTE_LPM_TBL8_GROUP_NUM_ENTRIES);
    for_range (start + low) tbl8_range (fun j =>
      e8 ← rd_tbl8 j;
      if (te_valid e8 =? 0) || (te_depth e8 <=? depth)
      then wr_tbl8 j (mk_entry (wrap nhw next_hop) VALID (te_valid_group e8) depth) else mret tt) ;;
    mret 0.

(** [lpm == NULL] is a precondition of the model. *)
Definition rte_lpm_add (ip depth next_hop : Z) : M Z :=
  if (depth <? 1) || (RTE_LPM_MAX_DEPTH <? depth) then mret (- EINVAL)
  else
    let ip_masked := Z.land ip (depth_to_mask depth) in
    rule_index ← rule_add ip_masked depth next_hop;
    if rule_index <? 0 then mret rule_index
    else if depth <=? MAX_DEPTH_TBL24 then add_depth_small ip_masked depth next_hop ;; mret 0
    else
      status ← add_depth_big ip_masked depth next_hop;
      if status <? 0 then rule_delete rule_index depth ;; mret status else mret 0.

(** The result with the next hop it stores, if any. *)
Definition rte_lpm_is_rule_present (ip depth : Z) : M (Z * option Z) :=
  if (depth <? 1) || (RTE_LPM_MAX_DEPTH <? depth) then mret (- EINVAL, None)
  else
    rule_index ← rule_find (Z.land ip (depth_to_mask depth)) depth;
    if 0 <=? rule_index then r ← rd_rule rule_index; mret (1, Some (rule_next_hop r)) else mret (0, None).

(** The rule for the longest prefix of [ip] shorter than [S n], with its depth. *)
Fixpoint find_previous_rule (n : nat) (ip : Z) : M (Z * Z) :=
  match n with
  | O => mret (-1, 0)
  | S n' =>
      let prev_depth := Z.of_nat n in
      rule_index ← rule_find (Z.land ip (depth_to_mask prev_depth)) prev_depth;
      if 0 <=? rule_index then mret (rule_index, prev_depth) else find_previous_rule n' ip
  end.

(** What replaces an entry of the deleted rule: [None] when there is no rule. *)
Definition delete_depth_small (ip_masked depth sub_rule_index sub_rule_depth : Z) : M Z :=
  let tbl24_index := Z.shiftr ip_masked 8 in
  sub ← (if sub_rule_index <? 0 then mret None else r ← rd_rule sub_rule_index; mret (Some (rule_next_hop r)));
  for_range tbl24_index (Z.to_nat (depth_to_range depth)) (fun i =>
    e ← rd_tbl24 i;
    if (te_valid_group e =? 0) && (te_depth e <=? depth) then
      wr_tbl24 i (match sub with
                  | None => e <| te_valid := INVALID |>
                  | Some nh => mk_entry (wrap nhw nh) VALID 0 sub_rule_depth
                  end)
    else if te_valid_group e =? 1 then
      for_range (group_start (te_next_hop e)) (Z.to_nat RTE_LPM_TBL8_GROUP_NUM_ENTRIES) (fun j =>
        e8 ← rd_tbl8 j;
        if te_depth e8 <=? depth then
          wr_tbl8 j (match sub with
                     | None => e8 <| te_valid := INVALID |>
                     | Some nh => mk_entry (wrap nhw nh) VALID VALID sub_rule_depth
                     end)
        else mret tt)
    else mret tt) ;;
  mret 0.

(** Whether all of the [n] entries from [j] on satisfy the test. *)
Fixpoint all_entries (n : nat) (j : Z) (test : rte_lpm_tbl_entry -> bool) : M bool :=
  match n with
  | O => mret true
  | Datatypes.S n => e8 ← rd_tbl8 j; if test e8 then all_entries n (j +[32] 1) test else mret false
  end.

Definition tbl8_recycle_check (tbl8_group_start : Z) : M Z :=
  e0 ← rd_tbl8 tbl8_group_start;
  let rest := all_entries 255 (tbl8_group_start +[32] 1) in
  if negb (te_valid e0 =? 0) then
    if te_depth e0 <=? MAX_DEPTH_TBL24 then
      same ← rest (fun e8 => te_depth e8 =? te_depth e0);
      mret (if (same : bool) then s32 tbl8_group_start else - EEXIST)
    else mret (- EEXIST)
  else
    empty ← rest (fun e8 => te_valid e8 =? 0);
    mret (if (empty : bool) then - EINVAL else - EEXIST).

Definition delete_depth_big (ip_masked depth sub_rule_index sub_rule_depth : Z) : M Z :=
  let tbl24_index := Z.shiftr ip_masked 8 in
  e ← rd_tbl24 tbl24_index;
  let tbl8_group_start := group_start (te_next_hop e) in
  let tbl8_index := tbl8_group_start +[32] Z.land ip_masked 0xFF in
  let tbl8_range := Z.to_nat (depth_to_range depth) in
  (if sub_rule_index <? 0 then
     for_range tbl8_index tbl8_range (fun j =>
       e8 ← rd_tbl8 j; if te_depth e8 <=? depth then wr_tbl8 j (e8 <| te_valid := INVALID |>) else mret tt)
   else
     first ← rd_tbl8 tbl8_group_start;
     r ← rd_rule sub_rule_index;
     for_range tbl8_index tbl8_range (fun j =>
       e8 ← rd_tbl8 j;
       if te_depth e8 <=? depth
       then wr_tbl8 j (mk_entry (wrap nhw (rule_next_hop r)) VALID (te_valid_group first) sub_rule_depth) else mret tt)) ;;
  recycle ← tbl8_recycle_check tbl8_group_start;
  (if recycle =? - EINVAL then
     e ← rd_tbl24 tbl24_index;
     wr_tbl24 tbl24_index (e <| te_valid := 0 |>) ;; tbl8_free tbl8_group_start
   else if -1 <? recycle then
     e8 ← rd_tbl8 recycle;
     wr_tbl24 tbl24_index (mk_entry (te_next_hop e8) VALID 0 (te_depth e8)) ;; tbl8_free tbl8_group_start
   else mret tt) ;;
  mret 0.

Definition rte_lpm_delete (ip depth : Z) : M Z :=
  if (depth <? 1) || (RTE_LPM_MAX_DEPTH <? depth) then mret (- EINVAL)
  else
    let ip_masked := Z.land ip (depth_to_mask depth) in
    rule_to_delete_index ← rule_find ip_masked depth;
    if rule_to_delete_index <? 0 then mret (- EINVAL)
    else
      rule_delete rule_to_delete_index depth ;;
      '(sub_rule_index, sub_rule_depth) ← find_previous_rule (Z.to_nat (depth - 1)) ip;
      if depth <=? MAX_DEPTH_TBL24
      then delete_depth_small ip_masked depth sub_rule_index sub_rule_depth
      else delete_depth_big ip_masked depth sub_rule_index sub_rule_depth.

(** The arrays are cleared up to the sizes that the table was made for. *)
Definition rte_lpm_delete_all : M unit :=
  s ← get;
  if (tbl8_len s <? RTE_LPM_TBL8_GROUP_NUM_ENTRIES * number_tbl8s s) || (rules_len s <? max_rules s) then ub
  else modify (fun s => s <| rule_info := replicate 32 (mk_info 0 0) |> <| tbl24 := ∅ |> <| tbl8 := ∅ |> <| rules_tbl := ∅ |>).
End Tables.

(** ** Lookup (24-bit next hops) *)

(** The entry as the 32-bit word that the lookups read. *)
Definition entry_word (e : rte_lpm_tbl_entry) : Z :=
  u32 (Z.lor (te_next_hop e) (Z.lor (Z.shiftl (te_valid e) 24) (Z.lor (Z.shiftl (te_valid_group e) 25) (Z.shiftl (te_depth e) 26)))).
Definition word24 (i : Z) : M Z := e ← rd_tbl24 i; mret (entry_word e).
Definition word8 (i : Z) : M Z := e ← rd_tbl8 i; mret (entry_word e).
Definition is_ext (w : Z) : bool := Z.land w RTE_LPM_VALID_EXT_ENTRY_BITMASK =? RTE_LPM_VALID_EXT_ENTRY_BITMASK.

(** The word of the entry that decides about [ip]. *)
Definition lookup_word (ip : Z) : M Z :=
  tbl_entry ← word24 (Z.shiftr ip 8);
  if is_ext tbl_entry
  then word8 (u8 ip +[32] (Z.land tbl_entry 0x00FFFFFF *[32] RTE_LPM_TBL8_GROUP_NUM_ENTRIES))
  else mret tbl_entry.

(** The result and the value of [*next_hop]. *)
Definition rte_lpm_lookup (ip : Z) : M (Z * Z) :=
  tbl_entry ← lookup_word ip;
  mret (if Z.land tbl_entry RTE_LPM_LOOKUP_SUCCESS =? 0 then - ENOENT else 0, Z.land tbl_entry 0x00FFFFFF).

(** The words stored into [next_hops]; the first loop only splits the addresses. *)
Definition rte_lpm_lookup_bulk_func (ips : list Z) : M (list Z) :=
  foldr (fun ip rest => w ← lookup_word ip; ws ← rest; mret (w :: ws)) (mret []) ips.

Definition RTE_LPM_MASKX4_RES : Z := 0x00ffffff00ffffff.

(** The low and the high half of a 64-bit register. *)
Definition lo32 (x : Z) : Z := u32 x.
Definition hi32 (x : Z) : Z := u32 (Z.shiftr x 32).

(** The lane of [tbl] after the second table was consulted; [i8] is the low byte of the
    address. *)
Definition x4_lane (pt_word tbl i8 : Z) : M Z :=
  if is_ext pt_word then word8 (i8 +[32] (u8 tbl * RTE_LPM_TBL8_GROUP_NUM_ENTRIES)) else mret tbl.

(** The four lanes of [hop]. *)
Definition rte_lpm_lookupx4 (ip0 ip1 ip2 ip3 defv : Z) : M (Z * Z * Z * Z) :=
  let mask_xv := Z.lor RTE_LPM_VALID_EXT_ENTRY_BITMASK (Z.shiftl RTE_LPM_VALID_EXT_ENTRY_BITMASK 32) in
  let mask_v := Z.lor RTE_LPM_LOOKUP_SUCCESS (Z.shiftl RTE_LPM_LOOKUP_SUCCESS 32) in
  tbl0 ← word24 (Z.shiftr ip0 8);
  tbl1 ← word24 (Z.shiftr ip1 8);
  tbl2 ← word24 (Z.shiftr ip2 8);
  tbl3 ← word24 (Z.shiftr ip3 8);
  let pt := Z.lor tbl0 (Z.shiftl tbl1 32) in
  let pt2 := Z.lor tbl2 (Z.shiftl tbl3 32) in
  if (Z.land pt mask_xv =? mask_v) && (Z.land pt2 mask_xv =? mask_v) then
    let hop01 := Z.land pt RTE_LPM_MASKX4_RES in
    let hop23 := Z.land pt2 RTE_LPM_MASKX4_RES in
    mret (lo32 hop01, hi32 hop01, lo32 hop23, hi32 hop23)
  else
    tbl0 ← x4_lane pt tbl0 (u8 ip0);
    tbl1 ← x4_lane (Z.shiftr pt 32) tbl1 (u8 ip1);
    tbl2 ← x4_lane pt2 tbl2 (u8 ip2);
    tbl3 ← x4_lane (Z.shiftr pt2 32) tbl3 (u8 ip3);
    let hop tbl := if Z.land tbl RTE_LPM_LOOKUP_SUCCESS =? 0 then defv else Z.land tbl 0x00FFFFFF in
    mret (hop tbl0, hop tbl1, hop tbl2, hop tbl3).

(** ** Creation *)

Record rte_lpm_config := mk_config { cfg_max_rules : Z; cfg_number_tbl8s : Z }.

(** What the environment answers: whether a table of the name exists, and whether each
    of the four allocations succeeds.  [rte_zmalloc] of no bytes fails. *)
Record lpm_env := mk_lpm_env {
  name_taken : bool;
  tailq_entry_ok : bool;
  zmalloc_lpm_ok : bool;
  zmalloc_rules_ok : Z -> bool;
  zmalloc_tbl8_ok : Z -> bool }.

Definition sizeof_rte_lpm_rule : Z := 8.
Definition sizeof_rte_lpm_tbl_entry : Z := 4.

(** The table, or the [rte_errno]. *)
Definition rte_lpm_create_v1604 (e : lpm_env) (name : option String.string) (socket_id : Z) (config : rte_lpm_config) : rte_lpm + Z :=
  if (bool_decide (name = None)) || (socket_id <? -1) || (cfg_max_rules config =? 0)
     || (RTE_LPM_MAX_TBL8_NUM_GROUPS <? cfg_number_tbl8s config) then inr EINVAL
  else
    let rules_size := u32 (sizeof_rte_lpm_rule * cfg_max_rules config) in
    let tbl8s_size := u32 (sizeof_rte_lpm_tbl_entry * RTE_LPM_TBL8_GROUP_NUM_ENTRIES * cfg_number_tbl8s config) in
    if name_taken e then inr EEXIST
    else if negb (tailq_entry_ok e) then inr ENOMEM
    else if negb (zmalloc_lpm_ok e) then inr ENOMEM
    else if (rules_size =? 0) || negb (zmalloc_rules_ok e rules_size) then inr ENOMEM
    else if (tbl8s_size =? 0) || negb (zmalloc_tbl8_ok e tbl8s_size) then inr ENOMEM
    else inl (mk_lpm (cfg_max_rules config) (cfg_number_tbl8s config) (replicate 32 (mk_info 0 0))
                ∅ ∅ (tbl8s_size / sizeof_rte_lpm_tbl_entry) ∅ (rules_size / sizeof_rte_lpm_rule)).

(** ** The 2.0 version of the functions

    Their text differs from the later version only in the width of the next hops and in
    the number of groups, which is the constant [RTE_LPM_TBL8_NUM_GROUPS]. *)

Definition rule_add_v20 : Z -> Z -> Z -> M Z := rule_add.
Definition rule_delete_v20 : Z -> Z -> M unit := rule_delete.
Definition rule_find_v20 : Z -> Z -> M Z := rule_find.
Definition tbl8_alloc_v20 : M Z := tbl8_scan (Z.to_nat RTE_LPM_TBL8_NUM_GROUPS) 0.
Definition tbl8_free_v20 : Z -> M unit := tbl8_free.
Definition add_depth_small_v20 : Z -> Z -> Z -> M Z := add_depth_small 8.
Definition rte_lpm_is_rule_present_v20 : Z -> Z -> M (Z * option Z) := rte_lpm_is_rule_present.
Definition find_previous_rule_v20 : nat -> Z -> M (Z * Z) := find_previous_rule.
Definition delete_depth_small_v20 : Z -> Z -> Z -> Z -> M Z := delete_depth_small 8.
Definition tbl8_recycle_check_v20 : Z -> M Z := tbl8_recycle_check.
Definition delete_depth_big_v20 : Z -> Z -> Z -> Z -> M Z := delete_depth_big 8.
Definition rte_lpm_delete_v20 : Z -> Z -> M Z := rte_lpm_delete 8.
Definition rte_lpm_delete_all_v20 : M unit := rte_lpm_delete_all.
