(* ===== verification/LpmSpec.v ===== *)
(** * What a longest prefix match is

    A set of rules is a map from a depth and a masked address to a next hop; the rule for
    an address is the one with the longest prefix that matches.  These are the
    specifications of lib/librte_lpm, with what adding and deleting a rule do to them. *)

From S2P Require Import Prelude Effects Lpm.

Abbreviation rules := (gmap (Z * Z) Z).

(** The address with the bits after the first [d] cleared. *)
Definition prefix (d ip : Z) : Z := ip / 2 ^ (32 - d) * 2 ^ (32 - d).

(** The rule of the longest prefix of [ip] of at most [n] bits, with its depth. *)
Fixpoint best (R : rules) (n : nat) (ip : Z) : option (Z * Z) :=
  match n with
  | O => None
  | S n' =>
      match R !! (Z.of_nat n, prefix (Z.of_nat n) ip) with
      | Some nh => Some (Z.of_nat n, nh)
      | None => best R n' ip
      end
  end.
Definition longest_match (R : rules) (ip : Z) : option (Z * Z) := best R 32 ip.

(** ** Masks *)

Lemma depth_to_mask_spec d ip : 1 <= d <= 32 -> in_range 32 ip -> Z.land ip (depth_to_mask d) = prefix d ip.
Proof.
  intros Hd Hip. unfold depth_to_mask, prefix. change (s32 0x80000000) with (- 2 ^ 31).
  rewrite <- Z.shiftl_mul_pow2, <- Z.shiftr_div_pow2 by lia. zbits.
  change (- 2 ^ 31) with (Z.lnot (Z.ones 31)). rewrite Z.lnot_spec by lia.
  destruct (Z.ltb_spec i 32) as [Hi32|Hi32].
  - destruct (Z.leb_spec (32 - d) i) as [Hle|Hgt].
    + rewrite Z.shiftr_spec by lia. replace (i - (32 - d) + (32 - d)) with i by lia.
      rewrite Z.ones_spec_high by lia. cbn. by rewrite andb_true_r.
    + rewrite (Z.testbit_neg_r _ (i - (32 - d))) by lia.
      rewrite Z.ones_spec_low by lia. cbn. by rewrite andb_false_r.
  - rewrite (in_range_testbit 32 ip i) by (done || lia). cbn.
    destruct (Z.neg_nonneg_cases (i - (32 - d))); [by rewrite Z.testbit_neg_r|].
    rewrite Z.shiftr_spec by lia. symmetry. apply (in_range_testbit 32); done || lia.
Qed.

Lemma depth_to_range_small d : 1 <= d <= 24 -> depth_to_range d = 2 ^ (24 - d).
Proof.
  intros Hd. unfold depth_to_range, MAX_DEPTH_TBL24. destruct (Z.leb_spec d 24); [|lia]. rewrite Z.shiftl_1_l.
  apply wrap_small. split; [lia|]. apply Z.pow_lt_mono_r; lia.
Qed.

Lemma depth_to_range_big d : 24 < d <= 32 -> depth_to_range d = 2 ^ (32 - d).
Proof.
  intros Hd. unfold depth_to_range, MAX_DEPTH_TBL24, RTE_LPM_MAX_DEPTH. destruct (Z.leb_spec d 24); [lia|]. rewrite Z.shiftl_1_l.
  apply wrap_small. split; [lia|]. apply Z.pow_lt_mono_r; lia.
Qed.

(** ** Prefixes *)

Lemma prefix_eq d ip ip' : 0 <= d <= 32 -> prefix d ip = prefix d ip' <-> ip / 2 ^ (32 - d) = ip' / 2 ^ (32 - d).
Proof.
  intros Hd. unfold prefix. pose proof (Z.pow_pos_nonneg 2 (32 - d) ltac:(lia) ltac:(lia)).
  split; [intros E; by apply Z.mul_cancel_r in E; [|lia]|by intros ->].
Qed.

Lemma prefix_shorter d d' ip ip' : 0 <= d' <= d -> d <= 32 -> prefix d ip = prefix d ip' -> prefix d' ip = prefix d' ip'.
Proof.
  intros Hd' Hd. rewrite !prefix_eq by lia. intros E.
  replace (32 - d') with ((32 - d) + (d - d')) by lia. rewrite Z.pow_add_r by lia.
  by rewrite <- !Z.div_div, E by (try apply Z.pow_nonzero; try apply Z.pow_pos_nonneg; lia).
Qed.

Lemma prefix_prefix d ip : 0 <= d <= 32 -> prefix d (prefix d ip) = prefix d ip.
Proof.
  intros Hd. apply prefix_eq; [done|]. unfold prefix. apply Z.div_mul, Z.pow_nonzero; lia.
Qed.

(** The addresses with the prefix [p] are an interval. *)
Lemma prefix_block d ip p : 0 <= d <= 32 -> prefix d p = p -> prefix d ip = p <-> p <= ip < p + 2 ^ (32 - d).
Proof.
  intros Hd Hp. pose proof (Z.pow_pos_nonneg 2 (32 - d) ltac:(lia) ltac:(lia)) as Hpos.
  set (m := 2 ^ (32 - d)) in *. unfold prefix in *. fold m in Hp |- *.
  pose proof (Z.div_mod ip m ltac:(lia)). pose proof (Z.mod_pos_bound ip m ltac:(lia)). split; [lia|].
  intros Hin. assert (ip / m = p / m) as ->; [|done].
  symmetry. apply (Z.div_unique ip m (p / m) (ip - p)); [left; lia|lia].
Qed.

Lemma prefix_range d ip : 0 <= d <= 32 -> in_range 32 ip -> in_range 32 (prefix d ip).
Proof.
  intros Hd [H0 H1]. unfold prefix, in_range. pose proof (Z.pow_pos_nonneg 2 (32 - d) ltac:(lia) ltac:(lia)) as Hpos.
  pose proof (Z.div_mod ip (2 ^ (32 - d)) ltac:(lia)). pose proof (Z.mod_pos_bound ip (2 ^ (32 - d)) ltac:(lia)).
  pose proof (Z.div_pos ip (2 ^ (32 - d)) ltac:(lia) ltac:(lia)). nia.
Qed.

(** ** The best rule *)

Lemma best_some R n ip d nh : best R n ip = Some (d, nh) -> 1 <= d <= Z.of_nat n /\ R !! (d, prefix d ip) = Some nh.
Proof.
  induction n as [|n IH]; [done|]. cbn [best]. destruct (R !! (Z.of_nat (Datatypes.S n), prefix (Z.of_nat (Datatypes.S n)) ip)) eqn:E.
  - intros [= <- <-]. split; [lia|done].
  - intros H. apply IH in H as [H1 H2]. split; [lia|done].
Qed.

Lemma best_longest R n ip d nh :
  1 <= d <= Z.of_nat n -> R !! (d, prefix d ip) = Some nh -> exists d' nh', best R n ip = Some (d', nh') /\ d <= d'.
Proof.
  induction n as [|n IH]; [lia|]. intros Hd HR. cbn [best]. destruct (R !! (Z.of_nat (Datatypes.S n), prefix (Z.of_nat (Datatypes.S n)) ip)) eqn:E.
  - eexists _, _. split; [done|lia].
  - apply IH; [|done]. destruct (decide (d = Z.of_nat (Datatypes.S n))) as [->|]; [congruence|lia].
Qed.

(** Addresses with the same prefix have the same rules up to its length. *)
Lemma best_prefix R n d ip ip' : Z.of_nat n <= d <= 32 -> prefix d ip = prefix d ip' -> best R n ip = best R n ip'.
Proof.
  intros Hn Hp. induction n as [|n IH]; [done|]. cbn [best].
  rewrite (prefix_shorter d (Z.of_nat (Datatypes.S n)) ip ip') by (done || lia). by rewrite IH by lia.
Qed.

Lemma best_same R n ip d nh ip' :
  Z.of_nat n <= 32 -> best R n ip = Some (d, nh) -> prefix d ip = prefix d ip' ->
  exists d' nh', best R n ip' = Some (d', nh') /\ d <= d' /\ (d' = d -> nh' = nh).
Proof.
  intros Hn Hb Hp. destruct (best_some _ _ _ _ _ Hb) as [Hd HR]. rewrite Hp in HR.
  destruct (best_longest R n ip' d nh Hd HR) as (d' & nh' & H1 & H2). exists d', nh'. split; [done|]. split; [done|].
  intros ->. apply best_some in H1 as [_ H1]. congruence.
Qed.

(** What a new rule of depth [d] makes of an address in its block. *)
Definition better (d nh : Z) (b : option (Z * Z)) : option (Z * Z) :=
  match b with
  | Some (d', nh') => if d <? d' then Some (d', nh') else Some (d, nh)
  | None => Some (d, nh)
  end.

Lemma best_insert R n d p nh ip :
  1 <= d <= 32 -> best (<[(d, p) := nh]> R) n ip
  = if (d <=? Z.of_nat n) && (prefix d ip =? p) then better d nh (best R n ip) else best R n ip.
Proof.
  intros Hd. induction n as [|n IH].
  - change (Z.of_nat 0) with 0. destruct (Z.leb_spec d 0); [lia|done].
  - cbn [best]. destruct (decide (d = Z.of_nat (Datatypes.S n))) as [Ed|Hne].
    + rewrite <- Ed, Z.leb_refl. cbn [andb]. destruct (Z.eqb_spec (prefix d ip) p) as [Ep|Hnp].
      * rewrite Ep, lookup_insert_eq. unfold better. destruct (R !! (d, p)) eqn:E; [by rewrite Z.ltb_irrefl|].
        destruct (best R n ip) as [[d' nh']|] eqn:Eb; [|done]. apply best_some in Eb as [Eb _].
        destruct (Z.ltb_spec d d'); [lia|done].
      * rewrite lookup_insert_ne by congruence. rewrite IH. destruct (Z.leb_spec d (Z.of_nat n)); [lia|done].
    + rewrite lookup_insert_ne by congruence. rewrite IH.
      assert ((d <=? Z.of_nat n) = (d <=? Z.of_nat (Datatypes.S n))) as <- by (destruct (Z.leb_spec d (Z.of_nat n)), (Z.leb_spec d (Z.of_nat (Datatypes.S n))); lia || done).
      destruct (R !! (Z.of_nat (Datatypes.S n), prefix (Z.of_nat (Datatypes.S n)) ip)) eqn:E; [|done]. destruct (Z.leb_spec d (Z.of_nat n)); [|done]. cbn [andb].
      destruct (prefix d ip =? p); [|done]. unfold better. destruct (Z.ltb_spec d (Z.of_nat (Datatypes.S n))); [done|lia].
Qed.

(** What deleting a rule of depth [d] makes of an address in its block; [sub] is the rule
    of the longest shorter prefix. *)
Definition without (d : Z) (sub b : option (Z * Z)) : option (Z * Z) :=
  match b with
  | Some (d', nh') => if d <? d' then Some (d', nh') else sub
  | None => sub
  end.

Lemma best_delete R n d p ip :
  1 <= d <= 32 -> best (delete (d, p) R) n ip
  = if (d <=? Z.of_nat n) && (prefix d ip =? p) then without d (best R (Z.to_nat (d - 1)) ip) (best R n ip) else best R n ip.
Proof.
  intros Hd. induction n as [|n IH].
  - change (Z.of_nat 0) with 0. destruct (Z.leb_spec d 0); [lia|done].
  - cbn [best]. destruct (decide (d = Z.of_nat (Datatypes.S n))) as [Ed|Hne].
    + rewrite <- Ed, Z.leb_refl. cbn [andb].
      assert (best (delete (d, p) R) n ip = best R n ip) as E by (rewrite IH; destruct (Z.leb_spec d (Z.of_nat n)); [lia|done]).
      replace (Z.to_nat (d - 1)) with n by lia. rewrite E.
      destruct (Z.eqb_spec (prefix d ip) p) as [Ep|Hnp]; [|by rewrite lookup_delete_ne by congruence].
      rewrite Ep, lookup_delete_eq. unfold without. destruct (R !! (d, p)); [by rewrite Z.ltb_irrefl|].
      destruct (best R n ip) as [[d' nh']|] eqn:Eb; [|done]. apply best_some in Eb as [Eb _].
      destruct (Z.ltb_spec d d'); [lia|done].
    + rewrite lookup_delete_ne by congruence. rewrite IH.
      assert ((d <=? Z.of_nat n) = (d <=? Z.of_nat (Datatypes.S n))) as <- by (destruct (Z.leb_spec d (Z.of_nat n)), (Z.leb_spec d (Z.of_nat (Datatypes.S n))); lia || done).
      destruct (R !! (Z.of_nat (Datatypes.S n), prefix (Z.of_nat (Datatypes.S n)) ip)) eqn:E; [|done]. destruct (Z.leb_spec d (Z.of_nat n)); [|done]. cbn [andb].
      destruct (prefix d ip =? p); [|done]. unfold without. destruct (Z.ltb_spec d (Z.of_nat (Datatypes.S n))); [done|lia].
Qed.
