(* ===== verification/LpmRules.v ===== *)
(** * The rule table of lib/librte_lpm

    The rules are stored one depth after the other without gaps.  Making room for a rule
    moves one rule of each deeper group to the end of its group, deleting one moves it
    back: the order inside a group is lost, its rules stay. *)

From S2P Require Import Prelude Effects Lpm LpmSpec.

(** ** Array accesses *)

Lemma inside_ok i n : 0 <= i < n -> inside i n = true.
Proof. intros H. unfold inside. destruct (Z.leb_spec 0 i), (Z.ltb_spec i n); lia || done. Qed.

Section Access.
Implicit Types (s : rte_lpm).

Lemma rd_rule_run s k : 0 <= k < rules_len s -> rd_rule k s = (s, Ret (rule_at s k)).
Proof. intros H. unfold rd_rule. erewrite bind_ret; [|reflexivity]. by rewrite inside_ok. Qed.

Lemma wr_rule_run s k r : 0 <= k < rules_len s -> wr_rule k r s = (s <| rules_tbl := <[k := r]> (rules_tbl s) |>, Ret tt).
Proof. intros H. unfold wr_rule. erewrite bind_ret; [|reflexivity]. by rewrite inside_ok. Qed.

Lemma rd_info_run s i x : 0 <= i -> rule_info s !! Z.to_nat i = Some x -> rd_info i s = (s, Ret x).
Proof. intros H E. unfold rd_info. erewrite bind_ret; [|reflexivity]. destruct (Z.leb_spec 0 i); [|lia]. by rewrite E. Qed.

Lemma wr_info_run s i x y :
  0 <= i -> rule_info s !! Z.to_nat i = Some x -> wr_info i y s = (s <| rule_info := <[Z.to_nat i := y]> (rule_info s) |>, Ret tt).
Proof. intros H E. unfold wr_info. by rewrite (bind_ret _ _ _ _ _ (rd_info_run s i x H E)). Qed.

Lemma rule_at_set s k r j : rule_at (s <| rules_tbl := <[k := r]> (rules_tbl s) |>) j = if decide (j = k) then r else rule_at s j.
Proof.
  unfold rule_at. change (rules_tbl (s <| rules_tbl := ?h |>)) with h.
  destruct (decide (j = k)) as [->|Hne]; [by rewrite lookup_insert_eq|by rewrite lookup_insert_ne].
Qed.

Lemma for_range_inv (I : Z -> rte_lpm -> Prop) (f : Z -> comp rte_lpm unit) n from s :
  (forall i x, from <= i < from + Z.of_nat n -> I i x -> exists x', f i x = (x', Ret tt) /\ I (i + 1) x') -> I from s ->
  exists s', for_range from n f s = (s', Ret tt) /\ I (from + Z.of_nat n) s'.
Proof.
  revert from s. induction n as [|n IH]; intros from s Hstep Hs; cbn [for_range].
  - exists s. rewrite Z.add_0_r. done.
  - destruct (Hstep from s ltac:(lia) Hs) as (s1 & Hf & Hs1).
    destruct (IH (from + 1) s1) as (s' & Hr & Hs'); [intros i x Hi; apply Hstep; lia|done|].
    exists s'. rewrite (bind_ret _ _ _ _ _ Hf), Hr. split; [done|].
    by replace (from + Z.of_nat (Datatypes.S n)) with (from + 1 + Z.of_nat n) by lia.
Qed.
End Access.

(** ** The layout *)

(** Only the rules and their counters change. *)
Definition only_rules (s s' : rte_lpm) : Prop := s' = s <| rules_tbl := rules_tbl s' |> <| rule_info := rule_info s' |>.

#[export] Instance only_rules_preorder : PreOrder only_rules.
Proof. split; unfold only_rules; [by intros []|]. intros [] [] [] [=] [=]. by subst. Qed.

(** The end of group [i]. *)
Definition group_end (gs : list (list rte_lpm_rule)) (i : nat) : Z := Z.of_nat (length (concat (take i gs))).

(** The counters of group [i], whose rules start at [start]; an empty group may say
    anything below the limit. *)
Definition info_ok (maxr start : Z) (g : list rte_lpm_rule) (x : rte_lpm_rule_info) : Prop :=
  used_rules x = Z.of_nat (length g) /\ 0 <= first_rule x < maxr /\ (g <> [] -> first_rule x = start).

Record layout (s : rte_lpm) (gs : list (list rte_lpm_rule)) : Prop := {
  ly_depths : length gs = 32%nat /\ length (rule_info s) = 32%nat;
  ly_info : forall i g, gs !! i = Some g -> exists x, rule_info s !! i = Some x /\ info_ok (max_rules s) (group_end gs i) g x;
  ly_rules : forall k r, concat gs !! k = Some r -> rule_at s (Z.of_nat k) = r;
  ly_max : Z.of_nat (length (concat gs)) <= max_rules s;
  ly_len : 0 < max_rules s <= rules_len s /\ rules_len s < 2 ^ 31 }.

Lemma group_end_S gs i g : gs !! i = Some g -> group_end gs (S i) = group_end gs i + Z.of_nat (length g).
Proof. intros H. unfold group_end. rewrite (take_S_r _ _ _ H), concat_app, length_app. cbn. rewrite app_nil_r. lia. Qed.

Lemma group_end_le gs i : group_end gs i <= Z.of_nat (length (concat gs)).
Proof.
  unfold group_end. rewrite <- (take_drop i gs) at 2. rewrite concat_app, length_app. lia.
Qed.

Lemma group_end_all gs i : (length gs <= i)%nat -> group_end gs i = Z.of_nat (length (concat gs)).
Proof. intros H. unfold group_end. by rewrite take_ge. Qed.

Lemma group_end_take gs i j : (i <= j)%nat -> group_end (take j gs) i = group_end gs i.
Proof. intros H. unfold group_end. by rewrite take_take, Nat.min_l. Qed.

Lemma concat_split gs i (g : list rte_lpm_rule) : gs !! i = Some g -> concat gs = concat (take i gs) ++ g ++ concat (drop (S i) gs).
Proof. intros H. rewrite <- (take_drop_middle _ _ _ H) at 1. rewrite concat_app. done. Qed.

(** A rule of a group is at its place. *)
Lemma layout_rule s gs i g k r :
  layout s gs -> gs !! i = Some g -> g !! k = Some r -> rule_at s (group_end gs i + Z.of_nat k) = r.
Proof.
  intros Hl Hg Hr. unfold group_end. rewrite <- Nat2Z.inj_add. apply (ly_rules _ _ Hl). rewrite (concat_split _ _ _ Hg).
  rewrite lookup_app_r by lia. rewrite Nat.add_sub_swap, Nat.sub_diag by lia. cbn.
  rewrite lookup_app_l; [done|]. by apply lookup_lt_Some in Hr.
Qed.

Lemma layout_info s gs i :
  layout s gs -> (i < 32)%nat ->
  exists g x, gs !! i = Some g /\ rule_info s !! i = Some x /\ info_ok (max_rules s) (group_end gs i) g x.
Proof.
  intros Hl Hi. destruct (ly_depths _ _ Hl) as [H1 _]. destruct (lookup_lt_is_Some_2 gs i) as [g Hg]; [lia|].
  destruct (ly_info _ _ Hl i g Hg) as (x & Hx & Hok). by exists g, x.
Qed.

Lemma layout_bound s gs i g : layout s gs -> gs !! i = Some g -> group_end gs i + Z.of_nat (length g) <= max_rules s.
Proof. intros Hl Hg. rewrite <- group_end_S by done. etransitivity; [apply group_end_le|apply (ly_max _ _ Hl)]. Qed.

(** ** Searching *)

(** The position of the first rule for [ip]. *)
Definition rule_pos (ip : Z) (g : list rte_lpm_rule) : option nat := fst <$> list_find (fun r => rule_ip r = ip) g.

Lemma scan_rules_run s n k ip g :
  0 <= k -> k + Z.of_nat n <= rules_len s -> rules_len s < 2 ^ 32 -> n = length g -> (forall j r, g !! j = Some r -> rule_at s (k + Z.of_nat j) = r) ->
  scan_rules n k ip s = (s, Ret ((fun j => k + Z.of_nat j) <$> rule_pos ip g)).
Proof.
  intros Hk Hb Hl. revert k g Hk Hb. induction n as [|n IH]; intros k [|r g] Hk Hb Hn Hg; try done; cbn [scan_rules].
  rewrite (bind_ret _ _ _ _ _ (rd_rule_run s k ltac:(lia))).
  pose proof (Hg 0%nat r eq_refl) as Hr. rewrite Z.add_0_r in Hr. rewrite Hr.
  unfold rule_pos. cbn [list_find]. destruct (Z.eqb_spec (rule_ip r) ip) as [E|E].
  - rewrite decide_True by done. cbn. by rewrite Z.add_0_r.
  - rewrite decide_False by done. destruct n as [|n'].
    + destruct g; [|done]. done.
    + rewrite wrap_small by (unfold in_range; lia). rewrite (IH (k + 1) g); [|lia|lia|by injection Hn|].
      * do 2 f_equal. unfold rule_pos. destruct (list_find _ g) as [[j r']|]; [|done]. cbn. f_equal. lia.
      * intros j r' Hj. rewrite <- (Hg (S j) r' Hj). f_equal. lia.
Qed.

Lemma scan_group s gs i g x ip :
  layout s gs -> gs !! i = Some g -> info_ok (max_rules s) (group_end gs i) g x ->
  scan_rules (Z.to_nat (used_rules x)) (first_rule x) ip s = (s, Ret ((fun j => group_end gs i + Z.of_nat j) <$> rule_pos ip g)).
Proof.
  intros Hl Hg (Hu & Hf & Hst). rewrite Hu, Nat2Z.id. destruct (decide (g = [])) as [->|Hne]; [done|].
  rewrite (Hst Hne). pose proof (layout_bound _ _ _ _ Hl Hg). destruct (ly_len _ _ Hl).
  apply scan_rules_run; [unfold group_end; lia|lia|lia|done|]. intros j r. by apply layout_rule.
Qed.

(** Updating a rule in place. *)
Lemma layout_update s gs i g k r :
  layout s gs -> gs !! i = Some g -> (k < length g)%nat ->
  layout (s <| rules_tbl := <[group_end gs i + Z.of_nat k := r]> (rules_tbl s) |>) (<[i := <[k := r]> g]> gs).
Proof.
  intros Hl Hg Hk. assert (i < length gs)%nat as Hi by (by eapply lookup_lt_Some).
  assert (forall j, group_end (<[i := <[k := r]> g]> gs) j = group_end gs j) as Hend.
  { intros j. unfold group_end. f_equal. rewrite !length_concat. f_equal. rewrite !fmap_take. f_equal.
    rewrite list_fmap_insert, length_insert. apply list_insert_id. by rewrite list_lookup_fmap, Hg. }
  assert (concat (<[i := <[k := r]> g]> gs) = <[Z.to_nat (group_end gs i + Z.of_nat k) := r]> (concat gs)) as Hc.
  { rewrite (concat_split _ _ _ Hg). rewrite (concat_split (<[i := <[k := r]> g]> gs) i (<[k := r]> g)) by (by apply list_lookup_insert_eq).
    rewrite take_insert_ge, drop_insert_lt by lia. unfold group_end. replace (Z.to_nat _) with (length (concat (take i gs)) + k)%nat by lia.
    rewrite insert_app_r. by rewrite insert_app_l. }
  destruct Hl as [[H1 H1'] H2 H3 H4 H5]. split; cbn [max_rules rules_len rule_info].
  - by rewrite length_insert.
  - intros j g' Hj. rewrite Hend. destruct (decide (i = j)) as [<-|Hne].
    + rewrite list_lookup_insert_eq in Hj by done. injection Hj as <-. destruct (H2 i g Hg) as (x & Hx & Hu & Hf & Hst).
      exists x. split; [done|]. split; [by rewrite length_insert|]. split; [done|]. intros _. apply Hst. by destruct g; [cbn in Hk; lia|].
    + rewrite list_lookup_insert_ne in Hj by done. by apply H2.
  - intros k' r' Hk'. rewrite rule_at_set. rewrite Hc in Hk'.
    assert (0 <= group_end gs i) by (unfold group_end; lia).
    destruct (decide (Z.of_nat k' = group_end gs i + Z.of_nat k)) as [E|Hne].
    + replace (Z.to_nat (group_end gs i + Z.of_nat k)) with k' in Hk' by lia.
      rewrite list_lookup_insert_eq in Hk'; [by injection Hk'|]. apply lookup_lt_Some in Hk'. by rewrite length_insert in Hk'.
    + rewrite list_lookup_insert_ne in Hk' by lia. by apply H3.
  - by rewrite Hc, length_insert.
  - done.
Qed.

(** ** Making room *)

(** The first rule of a group moves to its end. *)
Definition rot (g : list rte_lpm_rule) : list rte_lpm_rule := match g with [] => [] | r :: g => g ++ [r] end.

Lemma length_rot g : length (rot g) = length g.
Proof. destruct g; [done|]. cbn. rewrite length_app. cbn. lia. Qed.

(** When the groups from [m] on have moved, there is a hole at the end of group [m]. *)
Record opened (s0 : rte_lpm) (gs : list (list rte_lpm_rule)) (m : nat) (s : rte_lpm) : Prop := {
  op_frame : only_rules s0 s;
  op_below : forall k r, concat (take m gs) !! k = Some r -> rule_at s (Z.of_nat k) = r;
  op_above : forall k r, concat (rot <$> drop m gs) !! k = Some r -> rule_at s (group_end gs m + 1 + Z.of_nat k) = r;
  op_infos : length (rule_info s) = 32%nat;
  op_info_below : forall i, (i < m)%nat -> rule_info s !! i = rule_info s0 !! i;
  op_info_above : forall i g, (m <= i)%nat -> gs !! i = Some g ->
    exists x, rule_info s !! i = Some x /\ info_ok (max_rules s0) (group_end gs i + 1) g x }.

Lemma opened_start s gs : layout s gs -> opened s gs 32 s.
Proof.
  intros [[H1 H1'] H2 H3 H4 H5]. split; try done.
  - intros k r. rewrite take_ge by lia. apply H3.
  - intros k r. rewrite drop_ge by lia. done.
  - intros i g Hi Hg. apply lookup_lt_Some in Hg. lia.
Qed.

Lemma room_step_run s0 gs m s :
  layout s0 gs -> Z.of_nat (length (concat gs)) < max_rules s0 -> (m < 32)%nat -> opened s0 gs (Datatypes.S m) s ->
  exists s', room_step (Z.of_nat (Datatypes.S m)) s = (s', Ret false) /\ opened s0 gs m s'.
Proof.
  intros Hl Hroom Hm [Hfr Hb Ha Hlen Hib Hia]. destruct (layout_info _ _ m Hl Hm) as (g & x & Hg & Hx & Hu & Hf & Hst).
  destruct (ly_len _ _ Hl) as [Hlen1 Hlen2]. pose proof (layout_bound _ _ _ _ Hl Hg) as Hbound. pose proof (group_end_le gs (Datatypes.S m)) as Hle.
  pose proof (group_end_S _ _ _ Hg) as HeS. assert (0 <= group_end gs m) as H0 by (unfold group_end; lia).
  assert (max_rules s = max_rules s0 /\ rules_len s = rules_len s0) as [Em El] by (rewrite Hfr; done).
  unfold room_step. erewrite bind_ret; [|reflexivity].
  assert (rule_info s !! Z.to_nat (Z.of_nat (Datatypes.S m) - 1) = Some x) as Hxs.
  { replace (Z.to_nat _) with m by lia. by rewrite Hib by lia. }
  rewrite (bind_ret _ _ _ _ _ (rd_info_run s (Z.of_nat (Datatypes.S m) - 1) x ltac:(lia) Hxs)), Hu, Em.
  destruct g as [|r g].
  - cbn [length] in *. rewrite wrap_small by (unfold in_range; lia). destruct (Z.eqb_spec (first_rule x + Z.of_nat 0) (max_rules s0)); [lia|].
    exists s. split; [done|]. assert (group_end gs (Datatypes.S m) = group_end gs m) as E by lia. split; try done.
    + intros k r Hk. apply Hb. rewrite (take_S_r _ _ _ Hg), concat_app. cbn. by rewrite !app_nil_r.
    + intros k r Hk. rewrite <- E. apply Ha. rewrite (drop_S _ _ _ Hg) in Hk. exact Hk.
    + intros i Hi. apply Hib. lia.
    + intros i g' Hi Hg'. destruct (decide (i = m)) as [->|Hne]; [|apply Hia; [lia|done]].
      rewrite Hg in Hg'. injection Hg' as <-. exists x. split; [by rewrite Hib by lia|]. done.
  - rewrite (Hst ltac:(done)). cbn [length] in *. rewrite wrap_small by (unfold in_range; lia).
    destruct (Z.eqb_spec (group_end gs m + Z.of_nat (Datatypes.S (length g))) (max_rules s0)); [lia|].
    destruct (Z.ltb_spec 0 (Z.of_nat (Datatypes.S (length g)))); [|lia].
    rewrite (bind_ret _ _ _ _ _ (rd_rule_run s (group_end gs m) ltac:(lia))).
    assert (rule_at s (group_end gs m) = r) as Hr.
    { unfold group_end. apply Hb. rewrite (take_S_r _ _ _ Hg), concat_app. cbn. rewrite app_nil_r, lookup_app_r by lia. by rewrite Nat.sub_diag. }
    rewrite Hr, (bind_ret _ _ _ _ _ (wr_rule_run s (group_end gs m + Z.of_nat (Datatypes.S (length g))) r ltac:(lia))).
    erewrite bind_ret; [|apply (wr_info_run _ _ x); [lia|exact Hxs]].
    eexists. split; [reflexivity|]. rewrite wrap_small by (unfold in_range; lia).
    replace (Z.to_nat (Z.of_nat (Datatypes.S m) - 1)) with m by lia.
    set (s' := _ <| rule_info := _ |>).
    assert (forall j, rule_at s' j = if decide (j = group_end gs m + Z.of_nat (Datatypes.S (length g))) then r else rule_at s j) as Hat
      by (intros j; apply (rule_at_set s)).
    assert (rule_info s' = <[m := mk_info (Z.of_nat (Datatypes.S (length g))) (group_end gs m + 1)]> (rule_info s)) as Hinfo by done.
    split.
    + rewrite Hfr at 1. done.
    + intros k r' Hk. rewrite Hat. pose proof (lookup_lt_Some _ _ _ Hk). unfold group_end.
      rewrite decide_False by lia. apply Hb. rewrite (take_S_r _ _ _ Hg), concat_app. by apply lookup_app_l_Some.
    + intros k r' Hk. rewrite Hat, (drop_S _ _ _ Hg) in *. cbn in Hk. rewrite <- app_assoc in Hk.
      destruct (decide (k < length g)%nat) as [Hkg|Hkg].
      * rewrite decide_False by lia. rewrite lookup_app_l in Hk by done.
        replace (group_end gs m + 1 + Z.of_nat k) with (Z.of_nat (length (concat (take m gs)) + S k)) by (unfold group_end; lia).
        apply Hb. rewrite (take_S_r _ _ _ Hg), concat_app. cbn. rewrite app_nil_r, lookup_app_r by lia.
        by replace (_ + S k - _)%nat with (S k) by lia.
      * rewrite lookup_app_r in Hk by lia. destruct (k - length g)%nat as [|k'] eqn:Ek.
        -- rewrite decide_True by lia. by injection Hk.
        -- rewrite decide_False by lia. replace (group_end gs m + 1 + Z.of_nat k) with (group_end gs (Datatypes.S m) + 1 + Z.of_nat k') by lia.
           by apply Ha.
    + by rewrite Hinfo, length_insert.
    + intros i Hi. rewrite Hinfo, list_lookup_insert_ne by lia. apply Hib. lia.
    + intros i g' Hi Hg'. rewrite Hinfo. destruct (decide (i = m)) as [->|Hne].
      * rewrite Hg in Hg'. injection Hg' as <-. rewrite list_lookup_insert_eq by lia. eexists. split; [reflexivity|]. split; [done|]. cbn. split; [lia|done].
      * rewrite list_lookup_insert_ne by done. apply Hia; [lia|done].
Qed.

Lemma make_room_run s0 gs n d s :
  layout s0 gs -> Z.of_nat (length (concat gs)) < max_rules s0 -> (d + n <= 32)%nat -> opened s0 gs (d + n) s ->
  exists s', make_room n (Z.of_nat d) s = (s', Ret false) /\ opened s0 gs d s'.
Proof.
  intros Hl Hroom. revert s. induction n as [|n IH]; intros s Hn Hop; cbn [make_room].
  - rewrite Nat.add_0_r in Hop. by exists s.
  - replace (d + Datatypes.S n)%nat with (Datatypes.S (d + n)) in Hop by lia.
    replace (Z.of_nat d + Z.of_nat (Datatypes.S n)) with (Z.of_nat (Datatypes.S (d + n))) by lia.
    destruct (room_step_run s0 gs (d + n) s Hl Hroom ltac:(lia) Hop) as (s1 & Hr & Hop1).
    rewrite (bind_ret _ _ _ _ _ Hr). apply IH; [lia|done].
Qed.

(** A full table with rules behind group [d] is noticed before anything moves. *)
Lemma make_room_full s gs n d :
  layout s gs -> Z.of_nat (length (concat gs)) = max_rules s -> (d + n <= 32)%nat ->
  group_end gs (d + n) = max_rules s -> group_end gs d < max_rules s -> make_room n (Z.of_nat d) s = (s, Ret true).
Proof.
  intros Hl Hfull. induction n as [|n IH]; intros Hn He Hd; cbn [make_room]; [rewrite Nat.add_0_r in He; lia|].
  replace (d + Datatypes.S n)%nat with (Datatypes.S (d + n)) in He by lia.
  replace (Z.of_nat d + Z.of_nat (Datatypes.S n)) with (Z.of_nat (Datatypes.S (d + n))) by lia.
  destruct (layout_info _ _ (d + n) Hl ltac:(lia)) as (g & x & Hg & Hx & Hu & Hf & Hst).
  destruct (ly_len _ _ Hl) as [Hlen1 Hlen2]. rewrite (group_end_S _ _ _ Hg) in He.
  assert (room_step (Z.of_nat (Datatypes.S (d + n))) s = (s, Ret (negb (bool_decide (g = []))))) as Hr.
  { unfold room_step. erewrite bind_ret; [|reflexivity].
    rewrite (bind_ret _ _ _ _ _ (rd_info_run s (Z.of_nat (Datatypes.S (d + n)) - 1) x ltac:(lia) ltac:(replace (Z.to_nat _) with (d + n)%nat by lia; exact Hx))), Hu.
    assert (0 <= group_end gs (d + n)) by (unfold group_end; lia).
    destruct g as [|r g].
    - cbn [length]. rewrite wrap_small by (unfold in_range; lia). destruct (Z.eqb_spec (first_rule x + Z.of_nat 0) (max_rules s)); [lia|done].
    - rewrite (Hst ltac:(done)). rewrite wrap_small by (unfold in_range; lia). by rewrite He, Z.eqb_refl. }
  rewrite (bind_ret _ _ _ _ _ Hr). destruct g as [|r g]; [|done]. cbn. apply IH; [lia|cbn in He; lia|done].
Qed.

(** ** Adding a rule *)

Definition added (gs : list (list rte_lpm_rule)) (i : nat) (g : list rte_lpm_rule) (r : rte_lpm_rule) : list (list rte_lpm_rule) :=
  take i gs ++ (g ++ [r]) :: (rot <$> drop (Datatypes.S i) gs).

Lemma prev_end_run s gs n : layout s gs -> (n <= 32)%nat -> prev_end n s = (s, Ret (group_end gs n)).
Proof.
  intros Hl. induction n as [|n IH]; intros Hn; [done|]. cbn [prev_end].
  destruct (layout_info _ _ n Hl ltac:(lia)) as (g & x & Hg & Hx & Hu & Hf & Hst).
  rewrite (bind_ret _ _ _ _ _ (rd_info_run s (Z.of_nat n) x ltac:(lia) ltac:(by rewrite Nat2Z.id))), Hu.
  pose proof (layout_bound _ _ _ _ Hl Hg). destruct (ly_len _ _ Hl). assert (0 <= group_end gs n) by (unfold group_end; lia).
  rewrite (group_end_S _ _ _ Hg). destruct g as [|r g].
  - cbn [length]. destruct (Z.ltb_spec 0 (Z.of_nat 0)); [lia|]. rewrite IH by lia. do 2 f_equal. lia.
  - destruct (Z.ltb_spec 0 (Z.of_nat (length (r :: g)))); [|cbn [length] in *; lia]. rewrite (Hst ltac:(done)).
    rewrite wrap_small by (unfold in_range; lia). done.
Qed.

(** The position of an empty group is free to choose. *)
Lemma layout_first s gs i x first :
  layout s gs -> gs !! i = Some [] -> rule_info s !! i = Some x -> 0 <= first < max_rules s ->
  layout (s <| rule_info := <[i := mk_info (used_rules x) first]> (rule_info s) |>) gs.
Proof.
  intros [[H1 H1'] H2 H3 H4 H5] Hg Hx Hf. split; cbn; try done.
  - split; [done|]. change (rule_info (s <| rule_info := ?l |>)) with l. by rewrite length_insert.
  - intros j g Hj. change (rule_info (s <| rule_info := ?l |>)) with l. destruct (decide (i = j)) as [<-|Hne].
    + rewrite list_lookup_insert_eq by (apply lookup_lt_Some in Hx; lia). rewrite Hg in Hj. injection Hj as <-.
      destruct (H2 i [] Hg) as (x' & Hx' & Hu & _). rewrite Hx in Hx'. injection Hx' as <-. eexists. split; [done|].
      split; [exact Hu|]. split; [exact Hf|done].
    + rewrite list_lookup_insert_ne by done. by apply H2.
Qed.

Lemma added_lookup gs i g r j : gs !! i = Some g -> added gs i g r !! j
  = if decide (j < i)%nat then gs !! j else if decide (j = i) then Some (g ++ [r]) else rot <$> gs !! j.
Proof.
  intros Hg. apply lookup_lt_Some in Hg. unfold added. destruct (decide (j < i)%nat).
  - rewrite lookup_app_l by (rewrite length_take; lia). by rewrite lookup_take_lt.
  - rewrite lookup_app_r by (rewrite length_take; lia). rewrite length_take, Nat.min_l by lia.
    destruct (decide (j = i)) as [->|]; [by rewrite Nat.sub_diag|].
    destruct (j - i)%nat as [|k] eqn:E; [lia|]. change (((g ++ [r]) :: ?l) !! Datatypes.S k) with (l !! k). rewrite list_lookup_fmap, lookup_drop. do 2 f_equal. lia.
Qed.

(** Where the groups end only depends on their lengths. *)
Lemma group_end_lengths gs j : group_end gs j = Z.of_nat (sum_list (take j (length <$> gs))).
Proof. unfold group_end. by rewrite length_concat, fmap_take. Qed.

Lemma sum_list_insert (l : list nat) i n m : l !! i = Some n -> (sum_list (<[i := m]> l) + n = sum_list l + m)%nat.
Proof.
  revert i. induction l as [|a l IH]; intros [|i] H; try done.
  - injection H as ->. change (sum_list (m :: l) + n = sum_list (n :: l) + m)%nat. simpl. lia.
  - specialize (IH i H). change (sum_list (a :: <[i := m]> l) + n = sum_list (a :: l) + m)%nat. simpl. lia.
Qed.

Lemma group_end_insert gs gs' i n m j :
  (length <$> gs) !! i = Some n -> length <$> gs' = <[i := m]> (length <$> gs) ->
  group_end gs' j = group_end gs j + (if decide (i < j)%nat then Z.of_nat m - Z.of_nat n else 0).
Proof.
  intros Hn Hl. rewrite !group_end_lengths, Hl. destruct (decide (i < j)%nat) as [Hj|Hj].
  - rewrite take_insert_lt by done. pose proof (sum_list_insert (take j (length <$> gs)) i n m) as H.
    rewrite lookup_take_lt in H by done. specialize (H Hn). lia.
  - rewrite take_insert_ge by lia. lia.
Qed.

Lemma added_lengths gs i g r : gs !! i = Some g -> length <$> added gs i g r = <[i := Datatypes.S (length g)]> (length <$> gs).
Proof.
  intros Hg. apply list_eq. intros j. rewrite list_lookup_fmap, (added_lookup _ _ _ _ _ Hg).
  pose proof (lookup_lt_Some _ _ _ Hg) as Hi.
  destruct (decide (j = i)) as [->|Hne].
  - rewrite decide_False by lia. rewrite list_lookup_insert_eq by (by rewrite length_fmap). cbn. rewrite length_app. cbn. f_equal. lia.
  - rewrite list_lookup_insert_ne by done. rewrite list_lookup_fmap. destruct (decide (j < i)%nat); [done|].
    destruct (gs !! j); [|done]. cbn. by rewrite length_rot.
Qed.

(** The rule put into the hole. *)
Lemma fill_hole s0 gs i g r s :
  layout s0 gs -> gs !! i = Some g -> Z.of_nat (length (concat gs)) < max_rules s0 -> opened s0 gs (Datatypes.S i) s ->
  (g = [] -> exists x, rule_info s0 !! i = Some x /\ first_rule x = group_end gs i) ->
  exists s', (wr_rule (group_end gs i + Z.of_nat (length g)) r ;;
     x ← rd_info (Z.of_nat i); wr_info (Z.of_nat i) (mk_info (used_rules x +[32] 1) (first_rule x))) s = (s', Ret tt)
    /\ only_rules s0 s' /\ layout s' (added gs i g r).
Proof.
  intros Hl Hg Hroom [Hfr Hb Ha Hlen Hib Hia] Hempty. pose proof (lookup_lt_Some _ _ _ Hg) as Hi.
  destruct (ly_depths _ _ Hl) as [Hd1 Hd2]. destruct (ly_len _ _ Hl) as [Hlen1 Hlen2]. pose proof (layout_bound _ _ _ _ Hl Hg).
  destruct (layout_info _ _ i Hl ltac:(lia)) as (g' & x & Hg' & Hx & Hu & Hf & Hst). rewrite Hg in Hg'. injection Hg' as <-.
  assert (first_rule x = group_end gs i) as Efirst.
  { destruct g; [|by apply Hst]. destruct (Hempty eq_refl) as (x' & Hx' & Hfx). congruence. }
  assert (max_rules s = max_rules s0 /\ rules_len s = rules_len s0) as [Em El] by (rewrite Hfr; done).
  pose proof (group_end_S _ _ _ Hg) as HeS. assert (0 <= group_end gs i) by (unfold group_end; lia).
  pose proof (group_end_le gs (Datatypes.S i)).
  set (pos := group_end gs i + Z.of_nat (length g)) in *. rewrite (bind_ret _ _ _ _ _ (wr_rule_run s pos r ltac:(lia))).
  set (s1 := s <| rules_tbl := _ |>). assert (rule_info s1 !! Z.to_nat (Z.of_nat i) = Some x) as Hx1
    by (rewrite Nat2Z.id; change (rule_info s1) with (rule_info s); by rewrite Hib by lia).
  rewrite (bind_ret _ _ _ _ _ (rd_info_run s1 (Z.of_nat i) x ltac:(lia) Hx1)).
  eexists. split; [apply (wr_info_run _ (Z.of_nat i) x); [lia|exact Hx1]|].
  rewrite Nat2Z.id, wrap_small by (unfold in_range; lia).
  set (s' := _ <| rule_info := _ |>).
  assert (forall j, rule_at s' j = if decide (j = pos) then r else rule_at s j) as Hat by (intros j; apply (rule_at_set s)).
  assert (rule_info s' = <[i := mk_info (used_rules x + 1) (first_rule x)]> (rule_info s)) as Hinfo by done.
  assert (concat (added gs i g r) = concat (take i gs) ++ g ++ r :: concat (rot <$> drop (Datatypes.S i) gs)) as Hc
    by (unfold added; rewrite concat_app; cbn; by rewrite <- app_assoc).
  assert (forall j, group_end (added gs i g r) j = group_end gs j + (if decide (i < j)%nat then 1 else 0)) as Hend.
  { intros j. rewrite (group_end_insert gs _ i (length g) (Datatypes.S (length g)) j); [|by rewrite list_lookup_fmap, Hg|by apply added_lengths].
    destruct (decide (i < j)%nat); lia. }
  assert (length (added gs i g r) = 32%nat) as Hla
    by (rewrite <- Hd1, <- (length_fmap length (added _ _ _ _)), (added_lengths _ _ _ _ Hg), length_insert; apply length_fmap).
  pose proof (Hend 32%nat) as Htot. rewrite decide_True, !group_end_all in Htot by lia.
  split; [by rewrite Hfr|]. split; cbn [max_rules rules_len].
  - by rewrite Hinfo, length_insert.
  - intros j g' Hj. rewrite Hinfo, Hend. change (max_rules s') with (max_rules s). rewrite Em, (added_lookup _ _ _ _ _ Hg) in *.
    destruct (decide (j < i)%nat) as [Hji|Hji]; [|destruct (decide (j = i)) as [->|Hne]].
    + rewrite list_lookup_insert_ne by lia. rewrite Hib by lia. rewrite decide_False by lia. rewrite Z.add_0_r. by apply (ly_info _ _ Hl).
    + injection Hj as <-. rewrite list_lookup_insert_eq by lia. rewrite decide_False by lia. eexists. split; [reflexivity|].
      split; [cbn; rewrite length_app; cbn; lia|]. cbn. split; [lia|intros _; lia].
    + rewrite list_lookup_insert_ne by done. rewrite decide_True by lia. destruct (gs !! j) as [g0|] eqn:Eg; [|done]. injection Hj as <-.
      destruct (Hia j g0 ltac:(lia) Eg) as (y & Hy & Hyu & Hyf & Hys). exists y. split; [done|]. split; [by rewrite length_rot|].
      split; [done|]. intros Hnil. apply Hys. by intros ->.
  - intros k r' Hk. rewrite Hat, Hc in *. destruct (decide (k < length (concat (take i gs)) + length g)%nat) as [Hlt|Hge].
    + rewrite decide_False by (unfold pos, group_end; lia). apply Hb. rewrite (take_S_r _ _ _ Hg), concat_app. cbn. rewrite app_nil_r.
      rewrite app_assoc in Hk. rewrite lookup_app_l in Hk by (rewrite length_app; lia). done.
    + rewrite app_assoc in Hk. rewrite lookup_app_r, length_app in Hk by (rewrite length_app; lia).
      destruct (k - _)%nat as [|k'] eqn:Ek.
      * rewrite decide_True by (unfold pos, group_end; lia). by injection Hk.
      * rewrite decide_False by (unfold pos, group_end; lia).
        replace (Z.of_nat k) with (group_end gs (Datatypes.S i) + 1 + Z.of_nat k') by (rewrite HeS; unfold pos, group_end; lia). by apply Ha.
  - change (max_rules s') with (max_rules s). lia.
  - change (max_rules s') with (max_rules s). change (rules_len s') with (rules_len s). by rewrite Em, El.
Qed.

Lemma make_room_from s gs d :
  layout s gs -> Z.of_nat (length (concat gs)) < max_rules s -> (d <= 32)%nat ->
  exists s', make_room (32 - d) (Z.of_nat d) s = (s', Ret false) /\ opened s gs d s'.
Proof.
  intros Hl Hroom Hd. apply make_room_run; [done|done|lia|]. replace (d + (32 - d))%nat with 32%nat by lia. by apply opened_start.
Qed.

Lemma s32_index_small x : 0 <= x < 2 ^ 31 -> s32 x = x.
Proof. intros Hx. unfold sgn. rewrite wrap_small by clia. destruct (Z.ltb_spec x (2 ^ (32 - 1))); [done|clia]. Qed.

(** The end of [rule_add], from the index of the new rule on. *)
Lemma insert_rule_run s gs i g ip nh :
  layout s gs -> gs !! i = Some g -> group_end gs i + Z.of_nat (length g) <> max_rules s ->
  (g = [] -> exists x, rule_info s !! i = Some x /\ first_rule x = group_end gs i) ->
  exists s',
    (full ← make_room (Z.to_nat (RTE_LPM_MAX_DEPTH - Z.of_nat (Datatypes.S i))) (Z.of_nat (Datatypes.S i));
     if (full : bool) then mret (- ENOSPC)
     else
       wr_rule (group_end gs i + Z.of_nat (length g)) (mk_rule ip nh) ;;
       x ← rd_info (Z.of_nat (Datatypes.S i) - 1);
       wr_info (Z.of_nat (Datatypes.S i) - 1) (mk_info (used_rules x +[32] 1) (first_rule x)) ;;
       mret (s32 (group_end gs i + Z.of_nat (length g)))) s
    = (s', Ret (if Z.of_nat (length (concat gs)) =? max_rules s then - ENOSPC else group_end gs i + Z.of_nat (length g)))
    /\ only_rules s s' /\ layout s' (if Z.of_nat (length (concat gs)) =? max_rules s then gs else added gs i g (mk_rule ip nh)).
Proof.
  intros Hl Hg Hne Hempty. pose proof (lookup_lt_Some _ _ _ Hg) as Hi. destruct (ly_depths _ _ Hl) as [Hd1 _].
  destruct (ly_len _ _ Hl) as [Hlen1 Hlen2]. pose proof (group_end_S _ _ _ Hg) as HeS. pose proof (group_end_le gs (Datatypes.S i)).
  replace (Z.to_nat (RTE_LPM_MAX_DEPTH - Z.of_nat (Datatypes.S i))) with (32 - Datatypes.S i)%nat by (unfold RTE_LPM_MAX_DEPTH; lia).
  replace (Z.of_nat (Datatypes.S i) - 1) with (Z.of_nat i) by lia.
  pose proof (ly_max _ _ Hl) as Hmax. destruct (Z.eqb_spec (Z.of_nat (length (concat gs))) (max_rules s)) as [Hfull|Hroom].
  - exists s. rewrite (bind_ret _ _ s s true); [by split_and!|]. apply (make_room_full s gs); try done; [lia| |lia].
    rewrite group_end_all by lia. done.
  - destruct (make_room_from s gs (Datatypes.S i) Hl ltac:(lia) ltac:(lia)) as (s1 & Hr & Hop). rewrite (bind_ret _ _ _ _ _ Hr).
    destruct (fill_hole s gs i g (mk_rule ip nh) s1 Hl Hg ltac:(lia) Hop Hempty) as (s' & Hrun & Hfr & Hl').
    exists s'. split; [|by split]. assert (0 <= group_end gs i) by (unfold group_end; lia).
    unfold mbind, comp_bind in Hrun |- *. destruct (wr_rule _ _ s1) as [s2 []]; try discriminate Hrun.
    destruct (rd_info _ s2) as [s3 []]; try discriminate Hrun. rewrite Hrun. by rewrite s32_index_small by lia.
Qed.

Lemma rule_add_run s gs i g ip nh :
  layout s gs -> gs !! i = Some g ->
  exists s' ret, rule_add ip (Z.of_nat (Datatypes.S i)) nh s = (s', Ret ret) /\ only_rules s s' /\
  match rule_pos ip g with
  | Some k => ret = group_end gs i + Z.of_nat k /\ layout s' (<[i := <[k := mk_rule ip nh]> g]> gs)
  | None =>
      if Z.of_nat (length (concat gs)) =? max_rules s then ret = - ENOSPC /\ layout s' gs
      else ret = group_end gs i + Z.of_nat (length g) /\ layout s' (added gs i g (mk_rule ip nh))
  end.
Proof.
  intros Hl Hg. pose proof (lookup_lt_Some _ _ _ Hg) as Hi. destruct (ly_depths _ _ Hl) as [Hd1 _].
  destruct (layout_info _ _ i Hl ltac:(lia)) as (g' & x & Hg' & Hx & Hinfo). rewrite Hg in Hg'. injection Hg' as <-.
  pose proof Hinfo as (Hu & Hf & Hst). destruct (ly_len _ _ Hl) as [Hlen1 Hlen2]. pose proof (layout_bound _ _ _ _ Hl Hg) as Hbound.
  pose proof (group_end_le gs (Datatypes.S i)) as Hle. rewrite (group_end_S _ _ _ Hg) in Hle.
  assert (0 <= group_end gs i) as H0 by (unfold group_end; lia). pose proof (ly_max _ _ Hl) as Hmax.
  unfold rule_add. replace (Z.of_nat (Datatypes.S i) - 1) with (Z.of_nat i) by lia.
  rewrite (bind_ret _ _ _ _ _ (rd_info_run s (Z.of_nat i) x ltac:(lia) ltac:(by rewrite Nat2Z.id))).
  destruct (decide (g = [])) as [->|Hne].
  - cbn in Hu, Hbound, Hle. rewrite Hu. cbn [Z.ltb Z.compare]. change (0 <? Z.of_nat 0) with false. cbv iota.
    replace (Z.to_nat (Z.of_nat i)) with i by lia. rewrite !bind_assoc.
    rewrite (bind_ret _ _ _ _ _ (prev_end_run s gs i Hl ltac:(lia))). rewrite bind_assoc. erewrite bind_ret; [|reflexivity].
    change (rule_pos ip []) with (@None nat). cbv iota. destruct (Z.eqb_spec (group_end gs i) (max_rules s)) as [E|E].
    + rewrite (bind_ret _ _ s s (inr (- ENOSPC))) by done. exists s, (- ENOSPC). split; [done|]. split; [done|].
      destruct (Z.eqb_spec (Z.of_nat (length (concat gs))) (max_rules s)); [done|lia].
    + set (s1 := s <| rule_info := <[i := mk_info (used_rules x) (group_end gs i)]> (rule_info s) |>).
      assert (layout s1 gs) as Hl1 by (apply layout_first; [done|done|done|lia]).
      rewrite (bind_ret _ _ s s1 (inl (group_end gs i))); cycle 1.
      { rewrite (bind_ret _ _ s s1 tt); [done|]. unfold s1. rewrite (wr_info_run s (Z.of_nat i) x) by (try rewrite Nat2Z.id; done || lia).
        rewrite Nat2Z.id. by rewrite Hu. }
      destruct (insert_rule_run s1 gs i [] ip nh Hl1 Hg) as (s' & Hrun & Hfr & Hl').
      { change (max_rules s1) with (max_rules s). cbn. lia. }
      { intros _. eexists. split; [apply list_lookup_insert_eq; apply lookup_lt_Some in Hx; exact Hx|done]. }
      change (max_rules s1) with (max_rules s) in Hrun, Hl'. cbn [length] in Hrun. rewrite Z.add_0_r in Hrun.
      replace (Z.of_nat (Datatypes.S i) - 1) with (Z.of_nat i) in Hrun by lia. eexists s', _. split; [exact Hrun|].
      split; [by rewrite <- Hfr|]. cbn [length]. rewrite Z.add_0_r. by destruct (_ =? _).
  - assert (0 < used_rules x) as Hpos by (rewrite Hu; destruct g; [done|cbn; lia]).
    destruct (Z.ltb_spec 0 (used_rules x)); [|lia]. rewrite !bind_assoc.
    rewrite (bind_ret _ _ _ _ _ (scan_group s gs i g x ip Hl Hg Hinfo)).
    destruct (rule_pos ip g) as [k|] eqn:Epos; cbn [fmap option_fmap option_map].
    + unfold rule_pos in Epos. destruct (list_find (fun r => rule_ip r = ip) g) as [[k' r]|] eqn:Ef; [|done]. cbn in Epos. injection Epos as ->.
      apply list_find_Some in Ef as (Hr & Hip & _). pose proof (lookup_lt_Some _ _ _ Hr) as Hk.
      rewrite !bind_assoc. rewrite (bind_ret _ _ _ _ _ (rd_rule_run s (group_end gs i + Z.of_nat k) ltac:(lia))).
      rewrite (layout_rule _ _ _ _ _ _ Hl Hg Hr), Hip, bind_assoc.
      rewrite (bind_ret _ _ _ _ _ (wr_rule_run s (group_end gs i + Z.of_nat k) (mk_rule ip nh) ltac:(lia))).
      erewrite bind_ret; [|reflexivity]. eexists _, _. split; [reflexivity|]. split; [done|]. split; [apply s32_index_small; lia|].
      by apply layout_update.
    + rewrite bind_assoc. erewrite bind_ret; [|reflexivity]. rewrite (Hst Hne), Hu, wrap_small by (unfold in_range; lia). cbv zeta.
      destruct (Z.eqb_spec (group_end gs i + Z.of_nat (length g)) (max_rules s)) as [E|E].
      * rewrite (bind_ret _ _ s s (inr (- ENOSPC))) by done. exists s, (- ENOSPC). split; [done|]. split; [done|].
        destruct (Z.eqb_spec (Z.of_nat (length (concat gs))) (max_rules s)); [done|lia].
      * rewrite (bind_ret _ _ s s (inl (group_end gs i + Z.of_nat (length g)))) by done.
        destruct (insert_rule_run s gs i g ip nh Hl Hg E) as (s' & Hrun & Hfr & Hl'); [done|].
        replace (Z.of_nat (Datatypes.S i) - 1) with (Z.of_nat i) in Hrun by lia. eexists s', _. split; [exact Hrun|].
        split; [done|]. by destruct (_ =? _).
Qed.

Lemma rule_find_run s gs i g ip :
  layout s gs -> gs !! i = Some g ->
  rule_find ip (Z.of_nat (Datatypes.S i)) s
  = (s, Ret (match rule_pos ip g with Some k => group_end gs i + Z.of_nat k | None => - EINVAL end)).
Proof.
  intros Hl Hg. pose proof (lookup_lt_Some _ _ _ Hg) as Hi. destruct (ly_depths _ _ Hl) as [Hd1 _].
  destruct (layout_info _ _ i Hl ltac:(lia)) as (g' & x & Hg' & Hx & Hinfo). rewrite Hg in Hg'. injection Hg' as <-.
  pose proof (layout_bound _ _ _ _ Hl Hg). destruct (ly_len _ _ Hl). assert (0 <= group_end gs i) by (unfold group_end; lia).
  unfold rule_find. replace (Z.of_nat (Datatypes.S i) - 1) with (Z.of_nat i) by lia.
  rewrite (bind_ret _ _ _ _ _ (rd_info_run s (Z.of_nat i) x ltac:(lia) ltac:(by rewrite Nat2Z.id))).
  rewrite (bind_ret _ _ _ _ _ (scan_group s gs i g x ip Hl Hg Hinfo)).
  destruct (rule_pos ip g) as [k|] eqn:Epos; cbn [fmap option_fmap option_map]; [|done].
  unfold rule_pos in Epos. destruct (list_find (fun r => rule_ip r = ip) g) as [[k' r]|] eqn:Ef; [|done]. cbn in Epos. injection Epos as ->.
  apply list_find_Some in Ef as (Hr & _). apply lookup_lt_Some in Hr. by rewrite s32_index_small by lia.
Qed.

(** ** Deleting a rule *)

(** The last rule of a group moves to its front. *)
Definition rotr (g : list rte_lpm_rule) : list rte_lpm_rule := match last g with Some r => r :: take (length g - 1) g | None => [] end.

(** The last rule takes the place of rule [k]. *)
Definition swap_remove (k : nat) (g : list rte_lpm_rule) : list rte_lpm_rule :=
  match last g with Some r => take (length g - 1) (<[k := r]> g) | None => [] end.

Lemma rotr_snoc g r : rotr (g ++ [r]) = r :: g.
Proof. unfold rotr. rewrite last_snoc, length_app, Nat.add_sub. by rewrite take_app_length. Qed.

Lemma length_rotr g : length (rotr g) = length g.
Proof. destruct g as [|r g _] using rev_ind; [done|]. rewrite rotr_snoc, length_app. cbn. lia. Qed.

Lemma swap_remove_snoc k g r : (k <= length g)%nat -> swap_remove k (g ++ [r]) = <[k := r]> g.
Proof.
  intros Hk. unfold swap_remove. rewrite last_snoc, length_app, Nat.add_sub.
  destruct (decide (k = length g)) as [->|].
  - rewrite take_insert_ge by lia. rewrite take_app_length. by rewrite list_insert_ge.
  - rewrite insert_app_l by lia. by rewrite <- (length_insert g k r) at 1; rewrite take_app_length.
Qed.

Lemma swap_remove_permutation k g r : g !! k = Some r -> g ≡ₚ r :: swap_remove k g.
Proof.
  destruct g as [|l g _] using rev_ind; [done|]. intros H. pose proof (lookup_lt_Some _ _ _ H) as Hk.
  rewrite length_app in Hk. cbn in Hk. rewrite swap_remove_snoc by lia. destruct (decide (k = length g)) as [->|Hne].
  - rewrite lookup_app_r, Nat.sub_diag in H by lia. injection H as ->. rewrite list_insert_ge by lia. by rewrite Permutation_app_comm.
  - rewrite lookup_app_l in H by lia. rewrite insert_take_drop by lia. rewrite <- (take_drop_middle _ _ _ H) at 1.
    rewrite (Permutation_app_comm _ [l]). cbn. rewrite <- !Permutation_middle. apply perm_swap.
Qed.

Lemma length_swap_remove k g r : g !! k = Some r -> length g = Datatypes.S (length (swap_remove k g)).
Proof. intros H. by rewrite (swap_remove_permutation _ _ _ H) at 1. Qed.

(** The rules when the groups from [i + 1] to [m - 1] have moved and group [i] lost one. *)
Definition closed_rules (gs : list (list rte_lpm_rule)) (i : nat) (g' : list rte_lpm_rule) (m : nat) : list (list rte_lpm_rule) :=
  take i gs ++ g' :: (rotr <$> drop (Datatypes.S i) (take m gs)).

Record closed (s0 : rte_lpm) (gs : list (list rte_lpm_rule)) (i : nat) (g' : list rte_lpm_rule) (m : nat) (s : rte_lpm) : Prop := {
  cl_frame : only_rules s0 s;
  cl_below : forall k r, concat (closed_rules gs i g' m) !! k = Some r -> rule_at s (Z.of_nat k) = r;
  cl_above : forall k r, concat (drop m gs) !! k = Some r -> rule_at s (group_end gs m + Z.of_nat k) = r;
  cl_infos : length (rule_info s) = 32%nat;
  cl_info_same : forall j, (j <= i \/ m <= j)%nat -> rule_info s !! j = rule_info s0 !! j;
  cl_info_moved : forall j g, (i < j < m)%nat -> gs !! j = Some g ->
    exists x, rule_info s !! j = Some x /\ info_ok (max_rules s0) (group_end gs j - 1) g x }.

Lemma length_concat_rotr gs : length (concat (rotr <$> gs)) = length (concat gs).
Proof. induction gs as [|g gs IH]; [done|]. cbn. rewrite !length_app, length_rotr. by f_equal. Qed.

Lemma closed_length gs i g g' m :
  gs !! i = Some g -> length g = Datatypes.S (length g') -> (i < m)%nat -> Z.of_nat (length (concat (closed_rules gs i g' m))) = group_end gs m - 1.
Proof.
  intros Hg Hl Hm. unfold closed_rules. rewrite concat_app. cbn [concat]. rewrite !length_app, length_concat_rotr. unfold group_end.
  rewrite (concat_split (take m gs) i g) by (by rewrite lookup_take_lt). rewrite !length_app, take_take, Nat.min_l by lia. lia.
Qed.

Lemma closed_rules_S gs i g' m h : gs !! m = Some h -> (i < m)%nat -> closed_rules gs i g' (Datatypes.S m) = closed_rules gs i g' m ++ [rotr h].
Proof.
  intros Hh Hm. pose proof (lookup_lt_Some _ _ _ Hh). unfold closed_rules. rewrite (take_S_r _ _ _ Hh).
  rewrite drop_app_le by (rewrite length_take; lia). rewrite fmap_app, <- app_assoc. done.
Qed.

Lemma closed_length_pos gs i g m : gs !! i = Some g -> g <> [] -> (i < m)%nat -> 1 <= group_end gs m.
Proof.
  intros Hg Hne Hm. destruct g as [|r g]; [done|]. pose proof (closed_length gs i (r :: g) g m Hg eq_refl Hm). lia.
Qed.

(** A group with no rules is passed over. *)
Lemma closed_empty s0 gs i g' m s :
  layout s0 gs -> gs !! m = Some [] -> (i < m)%nat -> 1 <= group_end gs m -> closed s0 gs i g' m s -> closed s0 gs i g' (Datatypes.S m) s.
Proof.
  intros Hl Hh Hm Hpos [Hfr Hb Ha Hlen Hs Hmv]. pose proof (lookup_lt_Some _ _ _ Hh).
  assert (group_end gs (Datatypes.S m) = group_end gs m) as E by (rewrite (group_end_S _ _ _ Hh); cbn; lia). split; try done.
  - intros k r. rewrite (closed_rules_S _ _ _ _ _ Hh Hm), concat_app. cbn. rewrite app_nil_r. apply Hb.
  - intros k r Hk. rewrite E. apply Ha. by rewrite (drop_S _ _ _ Hh).
  - intros j Hj. apply Hs. lia.
  - intros j h Hj Hh'. destruct (decide (j = m)) as [->|Hne]; [|apply Hmv; [lia|done]].
    rewrite Hh in Hh'. injection Hh' as <-. destruct (ly_info _ _ Hl m [] Hh) as (x & Hx & Hu & Hf & _).
    exists x. split; [by rewrite Hs by lia|]. done.
Qed.

Lemma close_step_run s0 gs i g g' m s :
  layout s0 gs -> gs !! i = Some g -> length g = Datatypes.S (length g') -> (i < m < 32)%nat -> closed s0 gs i g' m s ->
  exists s', close_step (Z.of_nat m) s = (s', Ret tt) /\ closed s0 gs i g' (Datatypes.S m) s'.
Proof.
  intros Hl Hg Hgl Hm Hcl. pose proof (closed_length gs i g g' m Hg Hgl ltac:(lia)) as Hcb.
  destruct (layout_info _ _ m Hl ltac:(lia)) as (h & x & Hh & Hx & Hu & Hf & Hst).
  destruct (ly_len _ _ Hl) as [Hlen1 Hlen2]. pose proof (layout_bound _ _ _ _ Hl Hh) as Hbound.
  pose proof (group_end_S _ _ _ Hh) as HeS. pose proof (cl_frame _ _ _ _ _ _ Hcl) as Hfr.
  assert (max_rules s = max_rules s0 /\ rules_len s = rules_len s0) as [Em El] by (rewrite Hfr; done).
  assert (rule_info s !! m = Some x) as Hxs by (rewrite (cl_info_same _ _ _ _ _ _ Hcl) by lia; done).
  unfold close_step. rewrite (bind_ret _ _ _ _ _ (rd_info_run s (Z.of_nat m) x ltac:(lia) ltac:(by rewrite Nat2Z.id))), Hu.
  destruct h as [|r h _] using rev_ind; [exists s; split; [done|apply closed_empty; try done; lia]|].
  destruct Hcl as [_ Hb Ha Hlen Hs Hmv]. rewrite (Hst ltac:(by destruct h)). rewrite length_app in *. cbn [length] in *.
  set (n := length h) in *. destruct (Z.ltb_spec 0 (Z.of_nat (n + 1))); [|lia].
  rewrite !(wrap_small 32 (group_end gs m + Z.of_nat (n + 1))) by (unfold in_range; lia). rewrite !(wrap_small 32 (_ - 1)) by (unfold in_range; lia).
  rewrite (bind_ret _ _ _ _ _ (rd_rule_run s (group_end gs m + Z.of_nat (n + 1) - 1) ltac:(lia))).
  assert (rule_at s (group_end gs m + Z.of_nat (n + 1) - 1) = r) as Hr.
  { replace (group_end gs m + Z.of_nat (n + 1) - 1) with (group_end gs m + Z.of_nat n) by lia. apply Ha.
    rewrite (drop_S _ _ _ Hh). cbn. rewrite <- app_assoc, lookup_app_r by (unfold n; lia). unfold n. by rewrite Nat.sub_diag. }
  rewrite Hr, (bind_ret _ _ _ _ _ (wr_rule_run s (group_end gs m - 1) r ltac:(lia))).
  eexists. split; [apply (wr_info_run _ (Z.of_nat m) x); [lia|by rewrite Nat2Z.id]|]. rewrite Nat2Z.id. set (s' := _ <| rule_info := _ |>).
  assert (forall j, rule_at s' j = if decide (j = group_end gs m - 1) then r else rule_at s j) as Hat by (intros j; apply (rule_at_set s)).
  assert (rule_info s' = <[m := mk_info (Z.of_nat (n + 1)) (group_end gs m - 1)]> (rule_info s)) as Hinfo by done.
  split.
  - rewrite Hfr at 1. done.
  - intros k r' Hk. rewrite Hat. rewrite (closed_rules_S _ _ _ _ _ Hh), concat_app in Hk by lia. cbn in Hk. rewrite app_nil_r, rotr_snoc in Hk.
    destruct (decide (k < length (concat (closed_rules gs i g' m)))%nat) as [Hlt|Hge].
    + rewrite decide_False by lia. apply Hb. by rewrite lookup_app_l in Hk.
    + rewrite lookup_app_r in Hk by lia. destruct (k - _)%nat as [|k'] eqn:Ek.
      * rewrite decide_True by lia. by injection Hk.
      * rewrite decide_False by lia. pose proof (lookup_lt_Some _ _ _ Hk) as Hk'. cbn in Hk, Hk'. fold n in Hk'.
        replace (Z.of_nat k) with (group_end gs m + Z.of_nat k') by lia. apply Ha.
        rewrite (drop_S _ _ _ Hh). cbn. rewrite <- app_assoc, lookup_app_l by (unfold n in *; lia). done.
  - intros k r' Hk. rewrite Hat, decide_False by lia. replace (group_end gs (Datatypes.S m) + Z.of_nat k) with (group_end gs m + Z.of_nat (n + 1 + k)) by lia.
    apply Ha. rewrite (drop_S _ _ _ Hh). cbn. rewrite lookup_app_r, length_app by (rewrite length_app; cbn; lia). cbn. fold n. by replace (n + 1 + k - (n + 1))%nat with k by lia.
  - by rewrite Hinfo, length_insert.
  - intros j Hj. rewrite Hinfo, list_lookup_insert_ne by lia. apply Hs. lia.
  - intros j h' Hj Hh'. rewrite Hinfo. destruct (decide (j = m)) as [->|Hne].
    + rewrite list_lookup_insert_eq by lia. eexists. split; [reflexivity|]. rewrite Hh in Hh'. injection Hh' as <-.
      split; [cbn; rewrite length_app; cbn; lia|]. cbn. split; [lia|done].
    + rewrite list_lookup_insert_ne by done. apply Hmv; [lia|done].
Qed.

Lemma take_swap_remove k g r : last g = Some r -> swap_remove k g = take (length g - 1) (<[k := r]> g).
Proof. intros H. unfold swap_remove. by rewrite H. Qed.

Lemma closed_start s gs i g k r :
  layout s gs -> gs !! i = Some g -> (k < length g)%nat -> last g = Some r ->
  closed s gs i (swap_remove k g) (Datatypes.S i) (s <| rules_tbl := <[group_end gs i + Z.of_nat k := r]> (rules_tbl s) |>).
Proof.
  intros Hl Hg Hk Hr. pose proof (layout_update s gs i g k r Hl Hg Hk) as Hl'. pose proof (lookup_lt_Some _ _ _ Hg) as Hi.
  assert (0 <= group_end gs i) by (unfold group_end; lia). split; try done.
  - intros j r' Hj. apply (ly_rules _ _ Hl'). rewrite (concat_split _ i (<[k := r]> g)) by (by apply list_lookup_insert_eq).
    rewrite take_insert_ge by lia. unfold closed_rules in Hj. rewrite drop_ge in Hj by (rewrite length_take; lia).
    rewrite concat_app in Hj. cbn in Hj. rewrite app_nil_r, (take_swap_remove _ _ _ Hr) in Hj.
    rewrite <- (take_drop (length g - 1) (<[k := r]> g)). rewrite <- app_assoc, (app_assoc (concat _)). by apply lookup_app_l_Some.
  - intros j r' Hj. rewrite rule_at_set. rewrite (group_end_S _ _ _ Hg), decide_False by lia.
    replace (group_end gs i + Z.of_nat (length g) + Z.of_nat j) with (Z.of_nat (length (concat (take i gs)) + length g + j)) by (unfold group_end; lia).
    apply (ly_rules _ _ Hl). rewrite (concat_split _ _ _ Hg), app_assoc, lookup_app_r, length_app by (rewrite length_app; lia).
    by replace (_ + length g + j - _)%nat with j by lia.
  - by destruct (ly_depths _ _ Hl).
  - intros j h Hj. lia.
Qed.

Lemma closed_lengths gs i g g' : gs !! i = Some g -> length <$> closed_rules gs i g' (length gs) = <[i := length g']> (length <$> gs).
Proof.
  intros Hg. pose proof (lookup_lt_Some _ _ _ Hg). unfold closed_rules. rewrite (take_ge gs (length gs)) by lia.
  rewrite insert_take_drop by (by rewrite length_fmap). rewrite fmap_app, fmap_cons, fmap_take. do 2 f_equal.
  rewrite <- fmap_drop, <- list_fmap_compose. apply list_fmap_ext. intros j h _. apply length_rotr.
Qed.

(** The counter of the group that lost a rule. *)
Lemma closed_end s0 gs i g g' x s :
  layout s0 gs -> gs !! i = Some g -> length g = Datatypes.S (length g') -> rule_info s0 !! i = Some x -> closed s0 gs i g' 32 s ->
  layout (s <| rule_info := <[i := mk_info (used_rules x -[32] 1) (first_rule x)]> (rule_info s) |>) (closed_rules gs i g' 32).
Proof.
  intros Hl Hg Hgl Hx [Hfr Hb Ha Hlen Hs Hmv]. pose proof (lookup_lt_Some _ _ _ Hg) as Hi. destruct (ly_depths _ _ Hl) as [Hd1 Hd2].
  destruct (ly_info _ _ Hl i g Hg) as (x' & Hx' & Hu & Hf & Hst). rewrite Hx in Hx'. injection Hx' as <-.
  destruct (ly_len _ _ Hl) as [Hlen1 Hlen2]. pose proof (layout_bound _ _ _ _ Hl Hg) as Hbound.
  assert (max_rules s = max_rules s0 /\ rules_len s = rules_len s0) as [Em El] by (rewrite Hfr; done).
  assert (0 <= group_end gs i) by (unfold group_end; lia). rewrite wrap_small by (unfold in_range; lia).
  pose proof (closed_lengths gs i g g' Hg) as Hls. rewrite Hd1 in Hls.
  assert (forall j, group_end (closed_rules gs i g' 32) j = group_end gs j - (if decide (i < j)%nat then 1 else 0)) as Hend.
  { intros j. rewrite (group_end_insert gs _ i (length g) (length g') j); [|by rewrite list_lookup_fmap, Hg|done].
    destruct (decide (i < j)%nat); lia. }
  assert (length (closed_rules gs i g' 32) = 32%nat) as Hla
    by (rewrite <- Hd1 at 2; rewrite <- (length_fmap length (closed_rules _ _ _ _)), Hls, length_insert; apply length_fmap).
  split; cbn [max_rules rules_len].
  - change (rule_info (s <| rule_info := ?l |>)) with l. by rewrite length_insert.
  - intros j h Hj. change (rule_info (s <| rule_info := ?l |>)) with l. change (max_rules (s <| rule_info := _ |>)) with (max_rules s).
    rewrite Em, Hend. unfold closed_rules in Hj. rewrite (take_ge gs 32) in Hj by lia.
    destruct (decide (j < i)%nat) as [Hji|Hji]; [|destruct (decide (j = i)) as [->|Hne]].
    + rewrite list_lookup_insert_ne by lia. rewrite Hs by lia. rewrite decide_False by lia. rewrite Z.sub_0_r.
      rewrite lookup_app_l, lookup_take_lt in Hj by (try rewrite length_take; lia). by apply (ly_info _ _ Hl).
    + rewrite lookup_app_r, length_take, Nat.min_l, Nat.sub_diag in Hj by (try rewrite length_take; lia). injection Hj as <-.
      rewrite list_lookup_insert_eq by lia. rewrite decide_False by lia. eexists. split; [reflexivity|].
      split; [cbn; lia|]. cbn. split; [lia|]. intros _. rewrite Z.sub_0_r. apply Hst. by destruct g.
    + rewrite list_lookup_insert_ne by done. rewrite decide_True by lia.
      rewrite lookup_app_r, length_take, Nat.min_l in Hj by (try rewrite length_take; lia). destruct (j - i)%nat as [|k] eqn:Ek; [lia|].
      change ((g' :: ?l) !! Datatypes.S k) with (l !! k) in Hj. rewrite list_lookup_fmap, lookup_drop in Hj.
      replace (Datatypes.S i + k)%nat with j in Hj by lia. destruct (gs !! j) as [h0|] eqn:Eh; [|done]. injection Hj as <-.
      pose proof (lookup_lt_Some _ _ _ Eh). destruct (Hmv j h0 ltac:(lia) Eh) as (y & Hy & Hyu & Hyf & Hys). exists y. split; [done|].
      split; [by rewrite length_rotr|]. split; [done|]. intros Hnil. apply Hys. by intros ->.
  - intros k r Hk. by apply Hb.
  - change (max_rules (s <| rule_info := _ |>)) with (max_rules s). rewrite Em.
    pose proof (closed_length gs i g g' 32 Hg Hgl ltac:(lia)). pose proof (group_end_le gs 32). pose proof (ly_max _ _ Hl). lia.
  - change (max_rules (s <| rule_info := _ |>)) with (max_rules s). change (rules_len (s <| rule_info := _ |>)) with (rules_len s). by rewrite Em, El.
Qed.

Lemma rule_delete_run s gs i g k :
  layout s gs -> gs !! i = Some g -> (k < length g)%nat ->
  exists s', rule_delete (group_end gs i + Z.of_nat k) (Z.of_nat (Datatypes.S i)) s = (s', Ret tt)
    /\ only_rules s s' /\ layout s' (closed_rules gs i (swap_remove k g) 32).
Proof.
  intros Hl Hg Hk. pose proof (lookup_lt_Some _ _ _ Hg) as Hi. destruct (ly_depths _ _ Hl) as [Hd1 Hd2].
  destruct (lookup_lt_is_Some_2 g k Hk) as [r0 Hr0]. pose proof (length_swap_remove _ _ _ Hr0) as Hgl.
  destruct (ly_info _ _ Hl i g Hg) as (x & Hx & Hu & Hf & Hst). pose proof (layout_bound _ _ _ _ Hl Hg) as Hbound.
  destruct (ly_len _ _ Hl) as [Hlen1 Hlen2]. assert (0 <= group_end gs i) by (unfold group_end; lia).
  assert (exists r, last g = Some r) as [r Hr] by (apply last_is_Some; by destruct g).
  unfold rule_delete. replace (Z.of_nat (Datatypes.S i) - 1) with (Z.of_nat i) by lia.
  rewrite (bind_ret _ _ _ _ _ (rd_info_run s (Z.of_nat i) x ltac:(lia) ltac:(by rewrite Nat2Z.id))), Hu, (Hst ltac:(by destruct g)).
  rewrite !(wrap_small 32 (group_end gs i + Z.of_nat (length g))) by (unfold in_range; lia). rewrite !(wrap_small 32 (_ - 1)) by (unfold in_range; lia).
  rewrite (bind_ret _ _ _ _ _ (rd_rule_run s (group_end gs i + Z.of_nat (length g) - 1) ltac:(lia))).
  assert (rule_at s (group_end gs i + Z.of_nat (length g) - 1) = r) as ->.
  { replace (group_end gs i + Z.of_nat (length g) - 1) with (group_end gs i + Z.of_nat (length g - 1)) by lia.
    apply (layout_rule s gs i g _ _ Hl Hg). rewrite <- Hr, last_lookup. f_equal. lia. }
  rewrite (bind_ret _ _ _ _ _ (wr_rule_run s (group_end gs i + Z.of_nat k) r ltac:(lia))).
  pose proof (closed_start s gs i g k r Hl Hg Hk Hr) as Hcl. set (s1 := s <| rules_tbl := _ |>) in *.
  destruct (for_range_inv (fun z y => exists m, z = Z.of_nat m /\ (i < m)%nat /\ closed s gs i (swap_remove k g) m y) close_step
    (Z.to_nat (RTE_LPM_MAX_DEPTH - Z.of_nat (Datatypes.S i))) (Z.of_nat (Datatypes.S i)) s1) as (s2 & Hloop & m & Hm & Him & Hcl2).
  { intros z y Hz (m & -> & Hm & Hy). destruct (close_step_run s gs i g (swap_remove k g) m y Hl Hg Hgl ltac:(unfold RTE_LPM_MAX_DEPTH in Hz; lia) Hy) as (y' & Hrun & Hy').
    exists y'. split; [exact Hrun|]. exists (Datatypes.S m). split_and!; [lia|lia|done]. }
  { exists (Datatypes.S i). split_and!; [done|lia|done]. }
  rewrite (bind_ret _ _ _ _ _ Hloop). unfold RTE_LPM_MAX_DEPTH in Hm. assert (m = 32%nat) as -> by lia.
  assert (rule_info s2 !! i = Some x) as Hx2 by (rewrite (cl_info_same _ _ _ _ _ _ Hcl2) by lia; done).
  rewrite (bind_ret _ _ _ _ _ (rd_info_run s2 (Z.of_nat i) x ltac:(lia) ltac:(by rewrite Nat2Z.id))).
  eexists. split; [apply (wr_info_run _ (Z.of_nat i) x); [lia|by rewrite Nat2Z.id]|]. rewrite Nat2Z.id. split; [|by apply (closed_end s gs i g)].
  by rewrite (cl_frame _ _ _ _ _ _ Hcl2).
Qed.
