(* ===== verification/LpmStore.v ===== *)
(** * The rule table of lib/librte_lpm as a map

    [store s R] says that [rules_tbl] and its counters hold the rules [R]; adding, finding
    and deleting a rule are insertion, lookup and deletion on [R]. *)

From S2P Require Import Prelude Effects Lpm LpmSpec LpmRules.

Record rules_ok (gs : list (list rte_lpm_rule)) (R : rules) : Prop := {
  ro_rules : forall d p nh, R !! (d, p) = Some nh <-> 1 <= d /\ exists g, gs !! Z.to_nat (d - 1) = Some g /\ mk_rule p nh ∈ g;
  ro_nodup : forall i g, gs !! i = Some g -> NoDup (rule_ip <$> g);
  ro_keys : forall d p, is_Some (R !! (d, p)) -> in_range 32 p /\ prefix d p = p;
  ro_size : size R = length (concat gs) }.

Definition store (s : rte_lpm) (R : rules) : Prop := exists gs, layout s gs /\ rules_ok gs R.

(** ** The order inside a group *)

Lemma concat_permutation (gs gs' : list (list rte_lpm_rule)) : Forall2 Permutation gs gs' -> concat gs ≡ₚ concat gs'.
Proof. induction 1 as [|g g' gs gs' Hg _ IH]; [done|]. cbn. by rewrite Hg, IH. Qed.

Lemma rules_ok_reorder gs gs' R : Forall2 Permutation gs gs' -> rules_ok gs R -> rules_ok gs' R.
Proof.
  intros Hp [H1 H2 H3 H4]. split; [| |done|by rewrite <- (concat_permutation _ _ Hp)].
  - intros d p nh. rewrite H1. split; intros [Hd (g & Hg & Hin)]; (split; [done|]).
    + destruct (Forall2_lookup_l _ _ _ _ _ Hp Hg) as (g' & Hg' & Hgg). exists g'. split; [done|]. by rewrite <- Hgg.
    + destruct (Forall2_lookup_r _ _ _ _ _ Hp Hg) as (g' & Hg' & Hgg). exists g'. split; [done|]. by rewrite Hgg.
  - intros i g' Hg'. destruct (Forall2_lookup_r _ _ _ _ _ Hp Hg') as (g & Hg & Hgg). rewrite <- Hgg. by apply (H2 i).
Qed.

#[export] Instance rules_ok_proper : Proper (Forall2 Permutation ==> eq ==> iff) rules_ok.
Proof. intros gs gs' Hp R _ <-. split; apply rules_ok_reorder; [done|by symmetry]. Qed.

Lemma rot_permutation g : rot g ≡ₚ g.
Proof. destruct g; [done|]. cbn. by rewrite Permutation_app_comm. Qed.

Lemma rotr_permutation g : rotr g ≡ₚ g.
Proof. destruct g as [|r g _] using rev_ind; [done|]. rewrite rotr_snoc. by rewrite Permutation_app_comm. Qed.

Lemma added_reorder gs i g r : gs !! i = Some g -> Forall2 Permutation (<[i := g ++ [r]]> gs) (added gs i g r).
Proof.
  intros Hg. unfold added. rewrite insert_take_drop by (by eapply lookup_lt_Some).
  apply Forall2_app; [done|]. constructor; [done|]. apply Forall2_fmap_r, Forall_Forall2_diag, Forall_forall.
  intros h _. change (h ≡ₚ rot h). by rewrite rot_permutation.
Qed.

Lemma closed_reorder gs i g g' : gs !! i = Some g -> Forall2 Permutation (<[i := g']> gs) (closed_rules gs i g' (length gs)).
Proof.
  intros Hg. unfold closed_rules. rewrite (take_ge gs (length gs)) by lia. rewrite insert_take_drop by (by eapply lookup_lt_Some).
  apply Forall2_app; [done|]. constructor; [done|]. apply Forall2_fmap_r, Forall_Forall2_diag, Forall_forall.
  intros h _. change (h ≡ₚ rotr h). by rewrite rotr_permutation.
Qed.

Lemma length_concat_insert (gs : list (list rte_lpm_rule)) i g g' :
  gs !! i = Some g -> (length (concat (<[i := g']> gs)) + length g = length (concat gs) + length g')%nat.
Proof. intros Hg. rewrite !length_concat, list_fmap_insert. apply sum_list_insert. by rewrite list_lookup_fmap, Hg. Qed.

(** ** Positions *)

Lemma rule_ip_eq ip r : rule_ip r = ip <-> r = mk_rule ip (rule_next_hop r).
Proof. destruct r. cbn. split; [by intros ->|by intros [=]]. Qed.

Lemma rule_pos_some ip g k : rule_pos ip g = Some k -> exists nh, g !! k = Some (mk_rule ip nh).
Proof.
  unfold rule_pos. destruct (list_find _ g) as [[j r]|] eqn:E; [|done]. intros [= ->].
  apply list_find_Some in E as (Hr & Hip%rule_ip_eq & _). exists (rule_next_hop r). by rewrite <- Hip.
Qed.

Lemma rule_pos_none ip g : rule_pos ip g = None -> ip ∉ rule_ip <$> g.
Proof.
  unfold rule_pos. destruct (list_find _ g) as [[j r]|] eqn:E; [done|]. intros _ Hin.
  apply list_find_None in E. apply list_elem_of_fmap in Hin as (r & -> & Hr). rewrite Forall_forall in E. by apply (E r).
Qed.

Section Group.
Context (gs : list (list rte_lpm_rule)) (R : rules) (i : nat) (g : list rte_lpm_rule).
Context (Hok : rules_ok gs R) (Hg : gs !! i = Some g).
Notation d := (Z.of_nat (Datatypes.S i)).

Lemma group_lookup p nh : R !! (d, p) = Some nh <-> mk_rule p nh ∈ g.
Proof using Hok Hg.
  rewrite (ro_rules _ _ Hok). replace (Z.to_nat (d - 1)) with i by lia. split.
  - intros (_ & g' & Hg' & Hin). congruence.
  - intros Hin. split; [lia|]. by exists g.
Qed.

Lemma group_lookup_none p : R !! (d, p) = None <-> p ∉ rule_ip <$> g.
Proof using Hok Hg.
  split.
  - intros Hn (r & Hip & Hr)%list_elem_of_fmap. symmetry in Hip. apply rule_ip_eq in Hip. rewrite Hip in Hr. apply group_lookup in Hr. congruence.
  - intros Hn. destruct (R !! (d, p)) as [nh|] eqn:E; [|done]. destruct Hn. apply group_lookup in E. apply list_elem_of_fmap. by exists (mk_rule p nh).
Qed.

Lemma group_pos p : match rule_pos p g with Some k => exists nh, R !! (d, p) = Some nh /\ g !! k = Some (mk_rule p nh) | None => R !! (d, p) = None end.
Proof using Hok Hg.
  destruct (rule_pos p g) as [k|] eqn:E.
  - apply rule_pos_some in E as [nh Hk]. exists nh. split; [|done]. apply group_lookup. by eapply list_elem_of_lookup_2.
  - apply group_lookup_none. by apply rule_pos_none.
Qed.

(** The rules after group [i] became [g'], which differs from [g] in the rule of [p]. *)
Lemma group_replace p o g' :
  in_range 32 p -> prefix d p = p -> NoDup (rule_ip <$> g') ->
  (forall q nh, mk_rule q nh ∈ g' <-> if decide (q = p) then o = Some nh else mk_rule q nh ∈ g) ->
  (size (partial_alter (fun _ => o) (d, p) R) + length g = size R + length g')%nat ->
  rules_ok (<[i := g']> gs) (partial_alter (fun _ => o) (d, p) R).
Proof using Hok Hg.
  intros Hr Hp Hnd Hin Hsz. pose proof (lookup_lt_Some _ _ _ Hg) as Hi. split.
  - intros d' q nh. destruct (decide (d' = d)) as [->|Hne].
    + replace (Z.to_nat (d - 1)) with i by lia. rewrite list_lookup_insert_eq by done.
      transitivity (mk_rule q nh ∈ g'); [|split; [intros ?; split; [lia|by exists g']|by intros (_ & ? & [= <-] & ?)]].
      rewrite Hin. destruct (decide (q = p)) as [->|Hq]; [by rewrite lookup_partial_alter_eq|].
      rewrite lookup_partial_alter_ne by congruence. apply group_lookup.
    + rewrite lookup_partial_alter_ne by congruence. rewrite (ro_rules _ _ Hok).
      destruct (decide (1 <= d')); [|naive_solver]. by rewrite list_lookup_insert_ne by lia.
  - intros j h. destruct (decide (i = j)) as [<-|Hne].
    + rewrite list_lookup_insert_eq by done. by intros [= <-].
    + rewrite list_lookup_insert_ne by done. apply (ro_nodup _ _ Hok).
  - intros d' q. destruct (decide ((d', q) = (d, p))) as [[= -> ->]|Hne]; [done|].
    rewrite lookup_partial_alter_ne by done. apply (ro_keys _ _ Hok).
  - pose proof (length_concat_insert gs i g g' Hg). pose proof (ro_size _ _ Hok). lia.
Qed.

Lemma group_insert p nh :
  R !! (d, p) = None -> in_range 32 p -> prefix d p = p -> rules_ok (<[i := g ++ [mk_rule p nh]]> gs) (<[(d, p) := nh]> R).
Proof using Hok Hg.
  intros Hn Hr Hp. pose proof (proj1 (group_lookup_none p) Hn) as Hnin. apply group_replace; [done|done| | |].
  - rewrite fmap_app. apply NoDup_app. split; [by apply (ro_nodup _ _ Hok i)|]. split; [|apply NoDup_singleton].
    intros q Hq ->%list_elem_of_singleton. done.
  - intros q nh'. rewrite elem_of_app, list_elem_of_singleton. destruct (decide (q = p)) as [->|Hq]; [|naive_solver].
    split; [|intros [= ->]; by right]. intros [Hin|[= ->]]; [|done]. destruct Hnin. apply list_elem_of_fmap. by exists (mk_rule p nh').
  - change (partial_alter _ _ R) with (<[(d, p) := nh]> R). rewrite map_size_insert_None by done. rewrite length_app. cbn. lia.
Qed.

Lemma group_update p nh nh0 k : g !! k = Some (mk_rule p nh0) -> rules_ok (<[i := <[k := mk_rule p nh]> g]> gs) (<[(d, p) := nh]> R).
Proof using Hok Hg.
  intros Hk. pose proof (lookup_lt_Some _ _ _ Hk) as Hkl.
  assert (R !! (d, p) = Some nh0) as HR by (apply group_lookup; by eapply list_elem_of_lookup_2).
  destruct (ro_keys _ _ Hok d p ltac:(by eexists)) as [Hr Hp].
  assert (rule_ip <$> <[k := mk_rule p nh]> g = rule_ip <$> g) as Hips
    by (rewrite list_fmap_insert; apply list_insert_id; by rewrite list_lookup_fmap, Hk).
  pose proof (ro_nodup _ _ Hok i g Hg) as Hnd. apply group_replace; [done|done|by rewrite Hips| |].
  - assert (forall j, (rule_ip <$> g) !! j = Some p -> j = k) as Huniq.
    { intros j Hj. apply (NoDup_lookup _ _ _ _ Hnd Hj). by rewrite list_lookup_fmap, Hk. }
    intros q nh'. rewrite list_elem_of_lookup. destruct (decide (q = p)) as [->|Hq].
    + split; [|intros [= ->]; exists k; by apply list_lookup_insert_eq]. intros [j Hj].
      destruct (decide (k = j)) as [<-|Hne]; [rewrite list_lookup_insert_eq in Hj by done; by injection Hj as ->|].
      rewrite list_lookup_insert_ne in Hj by done. destruct Hne. symmetry. apply Huniq. by rewrite list_lookup_fmap, Hj.
    + rewrite list_elem_of_lookup. split; intros [j Hj]; exists j; destruct (decide (k = j)) as [<-|Hne]; try congruence.
      * rewrite list_lookup_insert_eq in Hj by done. congruence.
      * by rewrite list_lookup_insert_ne in Hj.
      * by rewrite list_lookup_insert_ne.
  - change (partial_alter _ _ R) with (<[(d, p) := nh]> R). rewrite map_size_insert_Some by (by eexists). by rewrite length_insert.
Qed.

Lemma group_delete p nh k : g !! k = Some (mk_rule p nh) -> rules_ok (<[i := swap_remove k g]> gs) (delete (d, p) R).
Proof using Hok Hg.
  intros Hk. pose proof (swap_remove_permutation _ _ _ Hk) as Hperm.
  assert (R !! (d, p) = Some nh) as HR by (apply group_lookup; by eapply list_elem_of_lookup_2).
  destruct (ro_keys _ _ Hok d p ltac:(by eexists)) as [Hr Hp].
  pose proof (ro_nodup _ _ Hok i g Hg) as Hnd. rewrite Hperm in Hnd. cbn in Hnd. apply NoDup_cons in Hnd as [Hnin Hnd].
  apply group_replace; [done|done|done| |].
  - intros q nh'. assert (mk_rule q nh' ∈ g <-> mk_rule q nh' = mk_rule p nh \/ mk_rule q nh' ∈ swap_remove k g) as Hmem by (rewrite Hperm at 1; apply elem_of_cons). destruct (decide (q = p)) as [->|Hq].
    + split; [|done]. intros Hin. destruct Hnin. apply list_elem_of_fmap. by exists (mk_rule p nh').
    + rewrite Hmem. naive_solver.
  - change (partial_alter _ _ R) with (delete (d, p) R). pose proof (map_size_delete_Some (d, p) R ltac:(by eexists)).
    assert (size R <> 0)%nat. { intros E%map_size_empty_inv. by rewrite E, lookup_empty in HR. }
    rewrite (length_swap_remove _ _ _ Hk). lia.
Qed.
End Group.

(** ** The operations *)

(** Entry [k] of [rules_tbl] holds the rule of [p] at depth [d]. *)
Definition located (s : rte_lpm) (R : rules) (k d p : Z) : Prop :=
  exists gs i g j nh, layout s gs /\ rules_ok gs R /\ d = Z.of_nat (Datatypes.S i) /\ gs !! i = Some g /\ g !! j = Some (mk_rule p nh)
    /\ k = group_end gs i + Z.of_nat j.

Lemma located_rule s R k d p : located s R k d p -> exists nh, R !! (d, p) = Some nh /\ rule_at s k = mk_rule p nh /\ 0 <= k < rules_len s.
Proof.
  intros (gs & i & g & j & nh & Hl & Hok & -> & Hg & Hj & ->). exists nh. pose proof (lookup_lt_Some _ _ _ Hj).
  pose proof (layout_bound _ _ _ _ Hl Hg). destruct (ly_len _ _ Hl). assert (0 <= group_end gs i) by (unfold group_end; lia). split; [|split; [|lia]].
  - rewrite (group_lookup gs R i g) by done. by eapply list_elem_of_lookup_2.
  - by apply (layout_rule s gs i g).
Qed.

Lemma located_store s R k d p : located s R k d p -> store s R.
Proof. intros (gs & i & g & j & nh & Hl & Hok & _). by exists gs. Qed.

Lemma store_group s R d : store s R -> 1 <= d <= 32 ->
  exists gs i g, layout s gs /\ rules_ok gs R /\ d = Z.of_nat (Datatypes.S i) /\ gs !! i = Some g.
Proof.
  intros (gs & Hl & Hok) Hd. destruct (ly_depths _ _ Hl) as [Hd1 _].
  destruct (lookup_lt_is_Some_2 gs (Z.to_nat (d - 1))) as [g Hg]; [lia|]. exists gs, (Z.to_nat (d - 1)), g. split_and!; try done. lia.
Qed.

Lemma store_range s R d p nh : store s R -> R !! (d, p) = Some nh -> 1 <= d <= 32 /\ in_range 32 p /\ prefix d p = p.
Proof.
  intros (gs & Hl & Hok) HR. split; [|apply (ro_keys _ _ Hok); by eexists]. apply (ro_rules _ _ Hok) in HR as (Hd & g & Hg & _).
  apply lookup_lt_Some in Hg. destruct (ly_depths _ _ Hl). lia.
Qed.

Lemma store_size s R : store s R -> Z.of_nat (size R) <= max_rules s.
Proof. intros (gs & Hl & Hok). rewrite (ro_size _ _ Hok). apply (ly_max _ _ Hl). Qed.

Lemma rule_add_store s R d p nh :
  store s R -> 1 <= d <= 32 -> in_range 32 p -> prefix d p = p ->
  exists s' ret, rule_add p d nh s = (s', Ret ret) /\ only_rules s s' /\
  if bool_decide (R !! (d, p) = None) && (Z.of_nat (size R) =? max_rules s) then ret = - ENOSPC /\ store s' R
  else 0 <= ret /\ located s' (<[(d, p) := nh]> R) ret d p.
Proof.
  intros Hs Hd Hp Hpp. destruct (store_group s R d Hs Hd) as (gs & i & g & Hl & Hok & -> & Hg).
  destruct (rule_add_run s gs i g p nh Hl Hg) as (s' & ret & Hrun & Hfr & Hres). exists s', ret. split; [done|]. split; [done|].
  pose proof (lookup_lt_Some _ _ _ Hg) as Hi. pose proof (group_pos gs R i g Hok Hg p) as Hpos. rewrite (ro_size _ _ Hok).
  assert (0 <= group_end gs i) by (unfold group_end; lia). destruct (rule_pos p g) as [k|].
  - destruct Hpos as (nh0 & HR & Hk). rewrite HR. cbn. destruct Hres as [-> Hl']. split; [lia|].
    pose proof (lookup_lt_Some _ _ _ Hk). eexists _, i, _, k, nh. split; [exact Hl'|]. split; [by eapply group_update|].
    split; [done|]. split; [by apply list_lookup_insert_eq|]. split; [by apply list_lookup_insert_eq|].
    unfold group_end. by rewrite take_insert_ge by lia.
  - rewrite bool_decide_true by done. cbn [andb]. destruct (Z.of_nat (length (concat gs)) =? max_rules s).
    + destruct Hres as [-> Hl']. split; [done|]. by exists gs.
    + destruct Hres as [-> Hl']. split; [lia|]. eexists _, i, _, (length g), nh. split; [exact Hl'|].
      split; [eapply rules_ok_reorder; [by apply added_reorder|by apply group_insert]|]. split; [done|].
      split; [rewrite added_lookup by done; rewrite decide_False, decide_True by lia; done|].
      split; [rewrite lookup_app_r by lia; by rewrite Nat.sub_diag|].
      unfold group_end, added. rewrite take_app_le by (rewrite length_take; lia). by rewrite take_take, Nat.min_id.
Qed.

Lemma rule_find_store s R d p :
  store s R -> 1 <= d <= 32 ->
  exists ret, rule_find p d s = (s, Ret ret) /\ if bool_decide (R !! (d, p) = None) then ret = - EINVAL else 0 <= ret /\ located s R ret d p.
Proof.
  intros Hs Hd. destruct (store_group s R d Hs Hd) as (gs & i & g & Hl & Hok & -> & Hg).
  eexists. split; [by eapply rule_find_run|]. pose proof (group_pos gs R i g Hok Hg p) as Hpos. destruct (rule_pos p g) as [k|].
  - destruct Hpos as (nh0 & HR & Hk). rewrite HR. cbn. split; [unfold group_end; lia|]. by exists gs, i, g, k, nh0.
  - by rewrite bool_decide_true.
Qed.

Lemma rule_delete_store s R k d p :
  located s R k d p -> exists s', rule_delete k d s = (s', Ret tt) /\ only_rules s s' /\ store s' (delete (d, p) R).
Proof.
  intros (gs & i & g & j & nh & Hl & Hok & -> & Hg & Hj & ->). pose proof (lookup_lt_Some _ _ _ Hj).
  destruct (rule_delete_run s gs i g j Hl Hg ltac:(done)) as (s' & Hrun & Hfr & Hl'). exists s'. split; [done|]. split; [done|].
  eexists. split; [exact Hl'|]. eapply rules_ok_reorder; [|by eapply group_delete].
  destruct (ly_depths _ _ Hl) as [<- _]. by apply closed_reorder with g.
Qed.

Lemma find_previous_store s R n ip :
  store s R -> in_range 32 ip -> (n <= 32)%nat ->
  exists r, find_previous_rule n ip s = (s, Ret r) /\
  match best R n ip with
  | Some (d, _) => 0 <= r.1 /\ r.2 = d /\ located s R r.1 d (prefix d ip)
  | None => r = (-1, 0)
  end.
Proof.
  intros Hs Hip. induction n as [|n IH]; intros Hn; cbn [find_previous_rule best]; [by eexists|].
  set (d := Z.of_nat (Datatypes.S n)). rewrite depth_to_mask_spec by (done || lia).
  destruct (rule_find_store s R d (prefix d ip) Hs ltac:(lia)) as (ret & Hrun & Hret). rewrite (bind_ret _ _ _ _ _ Hrun).
  destruct (R !! (d, prefix d ip)) as [nh|]; cbn in Hret.
  - destruct Hret as [Hret Hloc]. destruct (Z.leb_spec 0 ret); [|lia]. by eexists.
  - subst ret. apply IH. lia.
Qed.

(** ** Frames *)

(** Only the tables change. *)
Definition only_tables (s s' : rte_lpm) : Prop := s' = s <| tbl24 := tbl24 s' |> <| tbl8 := tbl8 s' |>.

#[export] Instance only_tables_preorder : PreOrder only_tables.
Proof. split; unfold only_tables; [by intros []|]. intros [] [] [] [=] [=]. by subst. Qed.

Lemma layout_frame s s' gs : only_tables s s' -> layout s gs -> layout s' gs.
Proof. intros -> [H1 H2 H3 H4 H5]. by split. Qed.

Lemma store_frame s s' R : only_tables s s' -> store s R -> store s' R.
Proof. intros Hfr (gs & Hl & Hok). exists gs. split; [by eapply layout_frame|done]. Qed.

Lemma located_frame s s' R k d p : only_tables s s' -> located s R k d p -> located s' R k d p.
Proof. intros Hfr (gs & i & g & j & nh & Hl & H). exists gs, i, g, j, nh. split; [by eapply layout_frame|done]. Qed.
