(* ===== verification/LpmTables.v ===== *)
(** * The lookup tables of lib/librte_lpm

    [tables_ok s B ow] says that [tbl24] and [tbl8] answer [B] for every address: a cell of
    [tbl24] is either direct, when all of its 256 addresses agree on a rule of at most 24
    bits, or extended by the group that [ow] names, when some address has a longer one.
    A group is in use exactly when it has an owner, and it has only one. *)

From S2P Require Import Prelude Effects Lpm LpmSpec LpmRules LpmStore.

(** ** Array accesses *)

Section Access.
Implicit Types (s : rte_lpm).

Lemma rd_tbl24_run s i : 0 <= i < 2 ^ 24 -> rd_tbl24 i s = (s, Ret (t24 s i)).
Proof. intros H. unfold rd_tbl24. erewrite bind_ret; [|reflexivity]. by rewrite inside_ok. Qed.

Lemma wr_tbl24_run s i e : 0 <= i < 2 ^ 24 -> wr_tbl24 i e s = (s <| tbl24 := <[i := e]> (tbl24 s) |>, Ret tt).
Proof. intros H. unfold wr_tbl24. by rewrite inside_ok. Qed.

Lemma rd_tbl8_run s i : 0 <= i < tbl8_len s -> rd_tbl8 i s = (s, Ret (t8 s i)).
Proof. intros H. unfold rd_tbl8. erewrite bind_ret; [|reflexivity]. by rewrite inside_ok. Qed.

Lemma wr_tbl8_run s i e : 0 <= i < tbl8_len s -> wr_tbl8 i e s = (s <| tbl8 := <[i := e]> (tbl8 s) |>, Ret tt).
Proof. intros H. unfold wr_tbl8. erewrite bind_ret; [|reflexivity]. by rewrite inside_ok. Qed.

Lemma t24_set s i e j : t24 (s <| tbl24 := <[i := e]> (tbl24 s) |>) j = if decide (j = i) then e else t24 s j.
Proof.
  unfold t24. change (tbl24 (s <| tbl24 := ?h |>)) with h.
  destruct (decide (j = i)) as [->|Hne]; [by rewrite lookup_insert_eq|by rewrite lookup_insert_ne].
Qed.

Lemma t8_set s i e j : t8 (s <| tbl8 := <[i := e]> (tbl8 s) |>) j = if decide (j = i) then e else t8 s j.
Proof.
  unfold t8. change (tbl8 (s <| tbl8 := ?h |>)) with h.
  destruct (decide (j = i)) as [->|Hne]; [by rewrite lookup_insert_eq|by rewrite lookup_insert_ne].
Qed.
End Access.

(** The [n] entries of [tbl8] from [lo] on were mapped by [G], nothing else changed. *)
Definition mapped8 (G : rte_lpm_tbl_entry -> rte_lpm_tbl_entry) (lo n : Z) (s s' : rte_lpm) : Prop :=
  s' = s <| tbl8 := tbl8 s' |> /\ forall k, t8 s' k = if decide (lo <= k < lo + n) then G (t8 s k) else t8 s k.

Lemma mapped8_loop G (f : Z -> comp rte_lpm unit) lo n s :
  0 <= lo -> lo + Z.of_nat n <= tbl8_len s ->
  (forall j x, 0 <= j < tbl8_len x -> exists x', f j x = (x', Ret tt) /\ mapped8 G j 1 x x') ->
  exists s', for_range lo n f s = (s', Ret tt) /\ mapped8 G lo (Z.of_nat n) s s'.
Proof.
  intros Hlo Hn Hf. destruct (for_range_inv (fun j x => mapped8 G lo (j - lo) s x) f n lo s) as (s' & Hrun & Hs').
  - intros j x Hj [Hx Ht]. destruct (Hf j x) as (x' & Hrun & Hx' & Ht'); [by rewrite Hx; change (tbl8_len _) with (tbl8_len s); lia|].
    exists x'. split; [done|]. split; [rewrite Hx' at 1; by rewrite Hx|]. intros k. rewrite Ht'.
    destruct (decide (j <= k < j + 1)) as [Hk|Hk].
    + rewrite Ht, decide_False, decide_True by lia. done.
    + rewrite Ht. destruct (decide (lo <= k < lo + (j - lo))); [by rewrite decide_True by lia|by rewrite decide_False by lia].
  - split; [by destruct s|]. intros k. rewrite decide_False by lia. done.
  - exists s'. split; [done|]. by replace (Z.of_nat n) with (lo + Z.of_nat n - lo) by lia.
Qed.

Lemma mapped8_write (e : rte_lpm_tbl_entry) G j x : 0 <= j < tbl8_len x -> e = G (t8 x j) ->
  exists x', wr_tbl8 j e x = (x', Ret tt) /\ mapped8 G j 1 x x'.
Proof.
  intros Hj ->. rewrite wr_tbl8_run by done. eexists. split; [reflexivity|]. split; [done|]. intros k. rewrite t8_set.
  destruct (decide (k = j)) as [->|]; [by rewrite decide_True by lia|by rewrite decide_False by lia].
Qed.

(** The two shapes of a loop body. *)
Lemma mapped8_body F j x : 0 <= j < tbl8_len x ->
  exists x', (e8 ← rd_tbl8 j; wr_tbl8 j (F e8)) x = (x', Ret tt) /\ mapped8 F j 1 x x'.
Proof. intros Hj. rewrite (bind_ret _ _ _ _ _ (rd_tbl8_run x j Hj)). by apply mapped8_write. Qed.

Lemma mapped8_body_if (c : rte_lpm_tbl_entry -> bool) F j x : 0 <= j < tbl8_len x ->
  exists x', (e8 ← rd_tbl8 j; if c e8 then wr_tbl8 j (F e8) else mret tt) x = (x', Ret tt)
    /\ mapped8 (fun e => if c e then F e else e) j 1 x x'.
Proof.
  intros Hj. rewrite (bind_ret _ _ _ _ _ (rd_tbl8_run x j Hj)). destruct (c (t8 x j)) eqn:E; [apply mapped8_write; [done|by rewrite E]|].
  exists x. split; [done|]. split; [by destruct x|]. intros k. destruct (decide (j <= k < j + 1)); [|done].
  replace k with j by lia. by rewrite E.
Qed.

Section Tables.
Context (nhw : Z) (Hnhw : 0 < nhw).

(** ** Representation *)

(** An entry answers [b]; an invalid one may keep what it said before. *)
Definition entry_ok (e : rte_lpm_tbl_entry) (b : option (Z * Z)) : Prop :=
  in_range nhw (te_next_hop e) /\
  match b with
  | None => te_valid e = 0
  | Some (d, nh) => te_valid e = 1 /\ te_depth e = d /\ te_next_hop e = wrap nhw nh
  end.

Definition deep (b : option (Z * Z)) : Prop := exists d nh, b = Some (d, nh) /\ 24 < d.
Definition addr (c l : Z) : Z := c * 256 + l.

Definition direct (s : rte_lpm) (B : Z -> option (Z * Z)) (c : Z) : Prop :=
  exists b, (forall l, 0 <= l < 256 -> B (addr c l) = b) /\ ~ deep b /\ entry_ok (t24 s c) b
    /\ (b <> None -> te_valid_group (t24 s c) = 0).

Definition group_ok (s : rte_lpm) (B : Z -> option (Z * Z)) (c g : Z) : Prop :=
  te_valid_group (t8 s (g * 256)) = 1 /\ forall l, 0 <= l < 256 -> entry_ok (t8 s (g * 256 + l)) (B (addr c l)).

Definition extended (s : rte_lpm) (c g : Z) : Prop :=
  te_valid (t24 s c) = 1 /\ te_valid_group (t24 s c) = 1 /\ te_next_hop (t24 s c) = g.

Definition sized (s : rte_lpm) : Prop :=
  0 <= number_tbl8s s <= 2 ^ 22 /\ number_tbl8s s <= 2 ^ nhw /\ tbl8_len s = number_tbl8s s * 256.

Record tables_ok (s : rte_lpm) (B : Z -> option (Z * Z)) (ow : gmap Z Z) : Prop := {
  tk_sized : sized s;
  tk_direct : forall c, 0 <= c < 2 ^ 24 -> ow !! c = None -> direct s B c;
  tk_ext : forall c g, ow !! c = Some g -> 0 <= c < 2 ^ 24 /\ 0 <= g < number_tbl8s s /\ extended s c g /\ group_ok s B c g;
  tk_deep : forall c g, ow !! c = Some g -> exists l, 0 <= l < 256 /\ deep (B (addr c l));
  tk_inj : forall c c' g, ow !! c = Some g -> ow !! c' = Some g -> c = c';
  tk_used : forall g, 0 <= g < number_tbl8s s -> te_valid_group (t8 s (g * 256)) <> 0 -> exists c, ow !! c = Some g }.

Lemma addr_div c l : 0 <= l < 256 -> addr c l / 256 = c.
Proof. intros Hl. unfold addr. rewrite Z.div_add_l by lia. rewrite Z.div_small by lia. lia. Qed.

Lemma tables_ok_ext s B B' ow :
  (forall c l, 0 <= c < 2 ^ 24 -> 0 <= l < 256 -> B (addr c l) = B' (addr c l)) -> tables_ok s B ow -> tables_ok s B' ow.
Proof.
  intros HB [H1 H2 H3 H4 H5 H6]. split; try done.
  - intros c Hc Ho. destruct (H2 c Hc Ho) as (b & Hb & H). exists b. split; [|done]. intros l Hl. rewrite <- HB by done. by apply Hb.
  - intros c g Ho. destruct (H3 c g Ho) as (Hc & Hg & He & Hv & Hgr). do 4 (split; [done|]). intros l Hl. rewrite <- HB by done. by apply Hgr.
  - intros c g Ho. destruct (H3 c g Ho) as (Hc & _). destruct (H4 c g Ho) as (l & Hl & Hd). exists l. split; [done|]. by rewrite <- HB.
Qed.

(** ** Changing one cell *)

(** What a change of cell [c] and of the group [og] leaves alone. *)
Record only_cell (c : Z) (og : option Z) (s s' : rte_lpm) : Prop := {
  oc_frame : only_tables s s';
  oc_t24 : forall c', c' <> c -> t24 s' c' = t24 s c';
  oc_t8 : forall g l, 0 <= l < 256 -> og <> Some g -> t8 s' (g * 256 + l) = t8 s (g * 256 + l) }.

Lemma direct_frame s s' B B' c : t24 s' c = t24 s c -> (forall l, 0 <= l < 256 -> B' (addr c l) = B (addr c l)) -> direct s B c -> direct s' B' c.
Proof.
  intros Ht HB (b & Hb & H). exists b. rewrite Ht. split; [|done]. intros l Hl. rewrite HB by done. by apply Hb.
Qed.

Lemma group_frame s s' B B' c g :
  (forall l, 0 <= l < 256 -> t8 s' (g * 256 + l) = t8 s (g * 256 + l)) -> (forall l, 0 <= l < 256 -> B' (addr c l) = B (addr c l)) ->
  group_ok s B c g -> group_ok s' B' c g.
Proof.
  intros Ht HB [Hv Hg]. split.
  - rewrite <- (Z.add_0_r (g * 256)), Ht, Z.add_0_r by lia. done.
  - intros l Hl. rewrite Ht, HB by done. by apply Hg.
Qed.

(** The cells other than [c]. *)
Definition elsewhere (c : Z) (B B' : Z -> option (Z * Z)) : Prop := forall c' l, c' <> c -> 0 <= l < 256 -> B' (addr c' l) = B (addr c' l).

(** The cell keeps its kind. *)
Lemma cell_direct s s' B B' ow c :
  tables_ok s B ow -> ow !! c = None -> only_cell c None s s' -> elsewhere c B B' -> direct s' B' c -> tables_ok s' B' ow.
Proof.
  intros [H1 H2 H3 H4 H5 H6] Hc [Hfr H24 H8] HB Hd.
  assert (forall g l, 0 <= l < 256 -> t8 s' (g * 256 + l) = t8 s (g * 256 + l)) as H8' by (intros; by apply H8). split.
  - by rewrite Hfr.
  - intros c' Hc' Ho. destruct (decide (c' = c)) as [->|Hne]; [done|].
    apply (direct_frame s s' B); [by apply H24|intros l Hl; by apply HB|by apply H2].
  - intros c' g Ho. assert (c' <> c) by congruence. destruct (H3 c' g Ho) as (Hc' & Hg & He & Hgr). split; [done|]. split; [by rewrite Hfr|]. split.
    + unfold extended. by rewrite H24.
    + apply (group_frame s s' B); [by apply H8'|intros l Hl; by apply HB|done].
  - intros c' g Ho. assert (c' <> c) by congruence. destruct (H4 c' g Ho) as (l & Hl & Hdeep). exists l. split; [done|]. by rewrite HB.
  - done.
  - intros g. assert (number_tbl8s s' = number_tbl8s s) as -> by (by rewrite Hfr). rewrite <- (Z.add_0_r (g * 256)), H8', Z.add_0_r by lia. apply H6.
Qed.

Lemma cell_ext s s' B B' ow ow' c g :
  tables_ok s B ow -> 0 <= c < 2 ^ 24 -> 0 <= g < number_tbl8s s -> (forall c', c' <> c -> ow !! c' <> Some g) -> ow' = <[c := g]> ow ->
  (ow !! c = None \/ ow !! c = Some g) ->
  only_cell c (Some g) s s' -> elsewhere c B B' -> extended s' c g -> group_ok s' B' c g -> (exists l, 0 <= l < 256 /\ deep (B' (addr c l))) ->
  tables_ok s' B' ow'.
Proof.
  intros [H1 H2 H3 H4 H5 H6] Hc Hg Huniq -> Hold [Hfr H24 H8] HB He Hgr Hdeep.
  assert (number_tbl8s s' = number_tbl8s s) as Hn by (by rewrite Hfr). split.
  - by rewrite Hfr.
  - intros c' Hc' Ho. destruct (decide (c' = c)) as [->|Hne]; [by rewrite lookup_insert_eq in Ho|]. rewrite lookup_insert_ne in Ho by done.
    apply (direct_frame s s' B); [by apply H24|intros l Hl; by apply HB|by apply H2].
  - intros c' g' Ho. rewrite Hn. destruct (decide (c' = c)) as [->|Hne].
    + rewrite lookup_insert_eq in Ho. injection Ho as <-. done.
    + rewrite lookup_insert_ne in Ho by done. destruct (H3 c' g' Ho) as (Hc' & Hg' & He' & Hgr'). do 2 (split; [done|]). split.
      * unfold extended. by rewrite H24.
      * assert (g' <> g) by (intros ->; by apply (Huniq c')).
        apply (group_frame s s' B); [intros l Hl; apply H8; congruence|intros l Hl; by apply HB|done].
  - intros c' g' Ho. destruct (decide (c' = c)) as [->|Hne]; [done|]. rewrite lookup_insert_ne in Ho by done.
    destruct (H4 c' g' Ho) as (l & Hl & Hd). exists l. split; [done|]. by rewrite HB.
  - intros c1 c2 g'. rewrite !lookup_insert. destruct (decide (c = c1)) as [<-|], (decide (c = c2)) as [<-|]; try naive_solver.
  - intros g'. rewrite Hn. intros Hg' Hv. destruct (decide (g' = g)) as [->|Hne]; [exists c; apply lookup_insert_eq|].
    destruct (H6 g' Hg') as [c' Hc']; [by rewrite <- (Z.add_0_r (g' * 256)), <- H8, Z.add_0_r by (lia || congruence)|].
    exists c'. rewrite lookup_insert_ne; [done|]. intros <-. destruct Hold; congruence.
Qed.

(** The group of a cell is freed. *)
Lemma cell_free s s' B B' ow c g :
  tables_ok s B ow -> ow !! c = Some g -> only_cell c (Some g) s s' -> elsewhere c B B' -> direct s' B' c ->
  te_valid_group (t8 s' (g * 256)) = 0 -> tables_ok s' B' (delete c ow).
Proof.
  intros [H1 H2 H3 H4 H5 H6] Hc [Hfr H24 H8] HB Hd Hfree.
  assert (number_tbl8s s' = number_tbl8s s) as Hn by (by rewrite Hfr). split.
  - by rewrite Hfr.
  - intros c' Hc' Ho. destruct (decide (c' = c)) as [->|Hne]; [done|]. rewrite lookup_delete_ne in Ho by done.
    apply (direct_frame s s' B); [by apply H24|intros l Hl; by apply HB|by apply H2].
  - intros c' g'. rewrite Hn. intros [Hne Ho]%lookup_delete_Some. destruct (H3 c' g' Ho) as (Hc' & Hg' & He' & Hgr'). do 2 (split; [done|]). split.
    + unfold extended. by rewrite H24.
    + assert (g' <> g) by (intros ->; destruct Hne; by apply (H5 c c' g)).
      apply (group_frame s s' B); [intros l Hl; apply H8; congruence|intros l Hl; by apply HB|done].
  - intros c' g' [Hne Ho]%lookup_delete_Some. destruct (H4 c' g' Ho) as (l & Hl & Hdeep). exists l. split; [done|]. by rewrite HB.
  - intros c1 c2 g' [_ Ho1]%lookup_delete_Some [_ Ho2]%lookup_delete_Some. by apply (H5 c1 c2 g').
  - intros g'. rewrite Hn. intros Hg' Hv. destruct (decide (g' = g)) as [->|Hne]; [done|].
    destruct (H6 g' Hg') as [c' Hc']; [by rewrite <- (Z.add_0_r (g' * 256)), <- H8, Z.add_0_r by (lia || congruence)|].
    exists c'. rewrite lookup_delete_ne; [done|]. intros <-. congruence.
Qed.

(** ** Changing the entries of a group *)

#[export] Instance only_cell_preorder c og : PreOrder (only_cell c og).
Proof using.
  split; [by split|]. intros s1 s2 s3 [H1 H2 H3] [H1' H2' H3']. split; [by etransitivity|..].
  - intros c' Hc. by rewrite H2', H2.
  - intros g l Hl Hg. by rewrite H3', H3.
Qed.

Lemma mapped8_only G c g lo n s s' : mapped8 G (g * 256 + lo) n s s' -> 0 <= lo -> lo + n <= 256 -> only_cell c (Some g) s s'.
Proof using.
  intros [Hfr Ht] Hlo Hn. split.
  - unfold only_tables. rewrite Hfr. by destruct s.
  - intros c' _. by rewrite Hfr.
  - intros g' l Hl Hg. rewrite Ht, decide_False; [done|]. assert (g <> g') by congruence. lia.
Qed.

Lemma write24_only c og e s : only_cell c og s (s <| tbl24 := <[c := e]> (tbl24 s) |>).
Proof using.
  split; [by destruct s| |done]. intros c' Hc. rewrite t24_set. by rewrite decide_False.
Qed.

Lemma group_mapped G s s' B B' c g lo n :
  group_ok s B c g -> mapped8 G (g * 256 + lo) n s s' -> 0 <= lo -> lo + n <= 256 ->
  (te_valid_group (t8 s (g * 256)) = 1 -> te_valid_group (G (t8 s (g * 256))) = 1) ->
  (forall l, lo <= l < lo + n -> entry_ok (t8 s (g * 256 + l)) (B (addr c l)) -> entry_ok (G (t8 s (g * 256 + l))) (B' (addr c l))) ->
  (forall l, 0 <= l < 256 -> ~ lo <= l < lo + n -> B' (addr c l) = B (addr c l)) ->
  group_ok s' B' c g.
Proof using.
  intros [Hv Hg] [Hfr Ht] Hlo Hn HG Hin Hout. split.
  - rewrite Ht. destruct (decide (g * 256 + lo <= g * 256 < g * 256 + lo + n)); [by apply HG|done].
  - intros l Hl. rewrite Ht. destruct (decide (g * 256 + lo <= g * 256 + l < g * 256 + lo + n)).
    + apply Hin; [lia|by apply Hg].
    + rewrite Hout by lia. by apply Hg.
Qed.

Lemma group_start_small s g : sized s -> 0 <= g < number_tbl8s s -> group_start g = g * 256.
Proof using. intros (H1 & _) Hg. unfold group_start. apply wrap_small. unfold in_range, RTE_LPM_TBL8_GROUP_NUM_ENTRIES. lia. Qed.

(** A loop over the [n] entries of group [g] from [lo] on. *)
Lemma group_loop G f s g lo n :
  sized s -> 0 <= g < number_tbl8s s -> 0 <= lo -> lo + Z.of_nat n <= 256 ->
  (forall j x, 0 <= j < tbl8_len x -> exists x', f j x = (x', Ret tt) /\ mapped8 G j 1 x x') ->
  exists s', for_range (g * 256 + lo) n f s = (s', Ret tt) /\ mapped8 G (g * 256 + lo) (Z.of_nat n) s s'.
Proof using. intros (_ & _ & Hlen) Hg Hlo Hn Hf. apply mapped8_loop; [lia|rewrite Hlen; lia|done]. Qed.

(** ** Short rules *)

(** The step that the loops over [tbl24] make: the cell answers [T b] where it said [b]. *)
Lemma touch_cell (T : option (Z * Z) -> option (Z * Z)) (c24 : rte_lpm_tbl_entry -> bool) F24 G8 (f : Z -> comp rte_lpm unit) s B ow c :
  tables_ok s B ow -> 0 <= c < 2 ^ 24 ->
  (forall b, deep b <-> deep (T b)) ->
  (forall j x, 0 <= j < tbl8_len x -> exists x', f j x = (x', Ret tt) /\ mapped8 G8 j 1 x x') ->
  (forall e l, 0 <= l < 256 -> entry_ok e (B (addr c l)) ->
     entry_ok (G8 e) (T (B (addr c l))) /\ (te_valid_group e = 1 -> te_valid_group (G8 e) = 1)) ->
  (forall e, te_valid e = 1 -> te_valid_group e = 1 -> c24 e = false) ->
  (forall e, let b := B (addr c 0) in entry_ok e b -> ~ deep b -> (b <> None -> te_valid_group e = 0) ->
     if c24 e then entry_ok (F24 e) (T b) /\ te_valid_group (F24 e) = (if T b then 0 else te_valid_group (F24 e))
     else te_valid_group e <> 1 /\ T b = b) ->
  exists s',
    (e ← rd_tbl24 c;
     if c24 e then wr_tbl24 c (F24 e)
     else if te_valid_group e =? 1 then for_range (group_start (te_next_hop e)) (Z.to_nat RTE_LPM_TBL8_GROUP_NUM_ENTRIES) f else mret tt) s = (s', Ret tt)
    /\ only_tables s s'
    /\ forall B', elsewhere c B B' -> (forall l, 0 <= l < 256 -> B' (addr c l) = T (B (addr c l))) -> tables_ok s' B' ow.
Proof using.
  intros Hok Hc HT Hf HG8 Hext Hdir. rewrite (bind_ret _ _ _ _ _ (rd_tbl24_run s c Hc)). destruct (ow !! c) as [g|] eqn:Ho.
  - destruct (tk_ext _ _ _ Hok c g Ho) as (_ & Hg & (He1 & He2 & He3) & Hgr). rewrite Hext, He2, He3 by done. cbn [Z.eqb Pos.eqb].
    rewrite (group_start_small s) by (done || apply (tk_sized _ _ _ Hok)). rewrite <- (Z.add_0_r (g * 256)).
    destruct (group_loop G8 f s g 0 (Z.to_nat RTE_LPM_TBL8_GROUP_NUM_ENTRIES)) as (s' & Hrun & Hm); [apply Hok|done|done|done|done|].
    exists s'. split; [done|]. pose proof (mapped8_only _ c _ _ _ _ _ Hm ltac:(lia) ltac:(done)) as Hoc. split; [apply Hoc|].
    intros B' HB HBc. destruct (tk_deep _ _ _ Hok c g Ho) as (l & Hl & Hd). pose proof (proj2 Hgr) as Hen.
    apply (cell_ext s s' B B' ow ow c g); try done.
    + intros c' Hne Ho'. apply Hne. by apply (tk_inj _ _ _ Hok c' c g).
    + by rewrite insert_id.
    + by right.
    + unfold extended. destruct Hm as [-> _]. done.
    + apply (group_mapped G8 s s' B B' c g 0 _ Hgr Hm); [done|done| | |].
      * intros Hv. apply (HG8 _ 0 ltac:(lia)); [|done]. specialize (Hen 0 ltac:(lia)). by rewrite Z.add_0_r in Hen.
      * intros l' Hl' He. change (Z.of_nat _) with 256 in Hl'. rewrite HBc by lia. by apply (HG8 _ l' ltac:(lia)).
      * intros l' Hl' Hn. change (Z.of_nat _) with 256 in Hn. lia.
    + exists l. split; [done|]. rewrite HBc by done. by rewrite <- HT.
  - destruct (tk_direct _ _ _ Hok c Hc Ho) as (b & Hb & Hnd & He & Hv). pose proof (Hb 0 ltac:(lia)) as Hb0.
    specialize (Hdir (t24 s c)). cbv zeta in Hdir. rewrite Hb0 in Hdir. specialize (Hdir He Hnd Hv). destruct (c24 (t24 s c)).
    + rewrite wr_tbl24_run by done. eexists. split; [reflexivity|]. pose proof (write24_only c None (F24 (t24 s c)) s) as Hoc.
      split; [apply Hoc|]. intros B' HB HBc. apply (cell_direct s _ B B' ow c); try done. exists (T b).
      split; [intros l Hl; by rewrite HBc, Hb|]. split; [by rewrite <- HT|]. rewrite t24_set, decide_True by done. destruct Hdir as [Hd1 Hd2].
      split; [done|]. intros Hne. rewrite Hd2. by destruct (T b).
    + destruct Hdir as [Hd1 Hd2]. destruct (Z.eqb_spec (te_valid_group (t24 s c)) 1); [done|]. exists s. split; [done|]. split; [done|].
      intros B' HB HBc. apply (cell_direct s s B B' ow c); try done. exists b. split; [|done]. intros l Hl. by rewrite HBc, Hb.
Qed.

Lemma small_block d p c l : 1 <= d <= 24 -> prefix d p = p -> 0 <= l < 256 -> prefix d (addr c l) = p <-> p / 256 <= c < p / 256 + 2 ^ (24 - d).
Proof using.
  intros Hd Hp Hl. rewrite prefix_block by (done || lia). unfold addr.
  assert (2 ^ (32 - d) = 2 ^ (24 - d) * 256) as Hpow by (replace (32 - d) with (24 - d + 8) by lia; by rewrite Z.pow_add_r by lia).
  assert (p = p / 256 * 256) as Hp256.
  { unfold prefix in Hp. rewrite Hpow, Z.mul_assoc in Hp. rewrite <- Hp at 2. rewrite Z.div_mul by lia. lia. }
  rewrite Hpow. lia.
Qed.

Lemma small_loop (T : option (Z * Z) -> option (Z * Z)) f s B ow d p :
  1 <= d <= 24 -> prefix d p = p -> in_range 32 p -> tables_ok s B ow ->
  (forall c x Bx, p / 256 <= c < p / 256 + 2 ^ (24 - d) -> 0 <= c < 2 ^ 24 -> tables_ok x Bx ow ->
     (forall l, 0 <= l < 256 -> Bx (addr c l) = B (addr c l)) ->
     exists x', f c x = (x', Ret tt) /\ only_tables x x'
       /\ forall B', elsewhere c Bx B' -> (forall l, 0 <= l < 256 -> B' (addr c l) = T (Bx (addr c l))) -> tables_ok x' B' ow) ->
  exists s', for_range (p / 256) (Z.to_nat (2 ^ (24 - d))) f s = (s', Ret tt) /\ only_tables s s'
    /\ tables_ok s' (fun ip => if prefix d ip =? p then T (B ip) else B ip) ow.
Proof using.
  intros Hd Hp Hr Hok Hstep. pose proof (Z.pow_pos_nonneg 2 (24 - d) ltac:(lia) ltac:(lia)) as Hpos.
  assert (p / 256 + 2 ^ (24 - d) <= 2 ^ 24 /\ 0 <= p / 256) as [Hend H0].
  { split; [|apply Z.div_pos; [apply Hr|lia]]. unfold in_range in Hr. pose proof (proj2 (small_block d p (p / 256 + 2 ^ (24 - d) - 1) 0 Hd Hp ltac:(lia)) ltac:(lia)) as Hb.
    unfold addr in Hb. assert (2 ^ (32 - d) = 2 ^ (24 - d) * 256) as Hpow by (replace (32 - d) with (24 - d + 8) by lia; by rewrite Z.pow_add_r by lia).
    unfold prefix in Hp. rewrite Hpow, Z.mul_assoc in Hp. set (q := p / (2 ^ (24 - d) * 256)) in Hp. rewrite <- Hp, Z.div_mul by lia.
    assert (2 ^ 24 = 2 ^ d * 2 ^ (24 - d)) as E24 by (rewrite <- Z.pow_add_r by lia; f_equal; lia). rewrite E24.
    assert (q < 2 ^ d); [|nia]. apply (Z.mul_lt_mono_pos_r (2 ^ (24 - d) * 256)); [lia|]. nia. }
  destruct (for_range_inv (fun c x => only_tables s x /\ tables_ok x (fun ip => if (ip / 256 <? c) && (prefix d ip =? p) then T (B ip) else B ip) ow)
    f (Z.to_nat (2 ^ (24 - d))) (p / 256) s) as (s' & Hrun & Hfr & Hs').
  - intros c x Hc [Hfr Hx]. assert (forall l, 0 <= l < 256 -> prefix d (addr c l) = p) as Hin by (intros l Hl; apply small_block; done || lia).
    destruct (Hstep c x _ ltac:(lia) ltac:(lia) Hx) as (x' & Hrun & Hfr' & Hx').
    { intros l Hl. rewrite addr_div, Z.ltb_irrefl by done. done. }
    exists x'. split; [done|]. split; [by etransitivity|]. apply Hx'.
    + intros c' l Hne Hl. rewrite addr_div by done. by replace (c' <? c + 1) with (c' <? c) by (destruct (Z.ltb_spec c' c), (Z.ltb_spec c' (c + 1)); lia).
    + intros l Hl. rewrite addr_div, Z.ltb_irrefl, (proj2 (Z.ltb_lt c (c + 1))) by (done || lia). rewrite Hin by done. by rewrite Z.eqb_refl.
  - split; [done|]. eapply tables_ok_ext; [|exact Hok]. intros c l Hc Hl. cbv beta. rewrite addr_div by done.
    destruct (Z.ltb_spec c (p / 256)); [|done]. destruct (Z.eqb_spec (prefix d (addr c l)) p) as [E|]; [|done].
    apply small_block in E; [lia|done|done|done].
  - exists s'. split; [done|]. split; [done|]. eapply tables_ok_ext; [|exact Hs']. intros c l Hc Hl. cbv beta. rewrite addr_div by done.
    destruct (Z.eqb_spec (prefix d (addr c l)) p) as [E|]; [|by rewrite andb_false_r]. apply small_block in E; [|done|done|done].
    destruct (Z.ltb_spec c (p / 256 + Z.of_nat (Z.to_nat (2 ^ (24 - d))))); [done|lia].
Qed.

Lemma entry_hop nh v g d : entry_ok (mk_entry (wrap nhw nh) v g d) (Some (d, nh)) <-> v = 1.
Proof using Hnhw. unfold entry_ok. cbn. pose proof (wrap_range nhw ltac:(lia) nh). naive_solver. Qed.

Lemma better_entry e b d nh g :
  entry_ok e b -> entry_ok (if (te_valid e =? 0) || (te_depth e <=? d) then mk_entry (wrap nhw nh) VALID g d else e) (better d nh b).
Proof using Hnhw.
  intros [Hr He]. destruct b as [[d' nh']|]; cbn [better].
  - destruct He as (Hv & Hd & Hn). rewrite Hv, Hd. cbn [Z.eqb orb]. destruct (Z.leb_spec d' d), (Z.ltb_spec d d'); try lia; [by apply entry_hop|done].
  - rewrite He. by apply entry_hop.
Qed.

Lemma deep_better d nh b : d <= 24 -> deep b <-> deep (better d nh b).
Proof using.
  intros Hd. unfold deep, better. destruct b as [[d' nh']|]; [destruct (Z.ltb_spec d d')|]; naive_solver lia.
Qed.

(** [add_depth_small]: every address of the block gets the rule, unless it has a better one. *)
Lemma add_small_run s B ow d p nh :
  1 <= d <= 24 -> prefix d p = p -> in_range 32 p -> tables_ok s B ow ->
  exists s', add_depth_small nhw p d nh s = (s', Ret 0) /\ only_tables s s'
    /\ tables_ok s' (fun ip => if prefix d ip =? p then better d nh (B ip) else B ip) ow.
Proof using Hnhw.
  intros Hd Hp Hr Hok. unfold add_depth_small. cbv zeta. rewrite depth_to_range_small, Z.shiftr_div_pow2 by lia. change (2 ^ 8) with 256.
  set (G8 := fun e => if (te_valid e =? 0) || (te_depth e <=? d) then mk_entry (wrap nhw nh) VALID VALID d else e).
  edestruct (small_loop (better d nh)) as (s' & Hrun & H); [exact Hd|exact Hp|exact Hr|exact Hok| |rewrite (bind_ret _ _ _ _ _ Hrun); by exists s'].
  intros c x Bx Hc Hc' Hx HBx.
  apply (touch_cell (better d nh) _ _ G8); try done.
  - intros b. apply deep_better. lia.
  - intros j y Hj. by apply (mapped8_body_if (fun e8 => (te_valid e8 =? 0) || (te_depth e8 <=? d)) (fun _ => mk_entry (wrap nhw nh) VALID VALID d)).
  - intros e l Hl He. split; [by apply better_entry|]. intros Hv. unfold G8. by destruct (_ || _).
  - intros e Hv Hg. by rewrite Hv, Hg.
  - intros e b He Hnd Hg. pose proof (better_entry e b d nh 0 He) as Hb. destruct b as [[d' nh']|].
    + rewrite Hg by done. cbn [Z.eqb andb]. destruct (_ || _) eqn:E; [split; [done|]; by destruct (better _ _ _)|]. split; [done|].
      destruct He as (_ & Hv & <- & _). rewrite Hv in E. cbn in E. unfold better. destruct (Z.ltb_spec d (te_depth e)); [done|].
      apply Z.leb_gt in E. lia.
    + destruct He as [_ Hv]. rewrite Hv in *. cbn in Hb |- *. done.
Qed.

Lemma without_entry e b d sub g :
  entry_ok e b -> b <> None ->
  entry_ok (if te_depth e <=? d then match sub with None => e <| te_valid := INVALID |> | Some (sd, nh) => mk_entry (wrap nhw nh) VALID g sd end else e)
    (without d sub b).
Proof using Hnhw.
  intros [Hr He] Hb. destruct b as [[d' nh']|]; [|done]. cbn [without]. destruct He as (Hv & Hd & Hn). rewrite Hd.
  destruct (Z.leb_spec d' d), (Z.ltb_spec d d'); try lia; [|done]. destruct sub as [[sd nhs]|]; [by apply entry_hop|]. done.
Qed.

Lemma deep_without d sub b : d <= 24 -> ~ deep sub -> deep b <-> deep (without d sub b).
Proof using.
  intros Hd Hs. unfold without. destruct b as [[d' nh']|]; [|split; [by intros (? & ? & [=] & _)|done]].
  destruct (Z.ltb_spec d d'); [done|]. split; [intros (? & ? & [= <- <-] & ?); lia|done].
Qed.

(** What the index of the replacing rule stands for. *)
Definition sub_at (s : rte_lpm) (idx sd : Z) (sub : option (Z * Z)) : Prop :=
  match sub with
  | None => idx < 0
  | Some (d, nh) => 0 <= idx < rules_len s /\ sd = d /\ rule_next_hop (rule_at s idx) = nh
  end.

(** [delete_depth_small]: every address of the block falls back to the shorter rule, unless it has a longer one. *)
Lemma delete_small_run s B ow d p idx sd sub :
  1 <= d <= 24 -> prefix d p = p -> in_range 32 p -> tables_ok s B ow -> ~ deep sub -> sub_at s idx sd sub ->
  (forall ip, prefix d ip = p -> B ip <> None) ->
  exists s', delete_depth_small nhw p d idx sd s = (s', Ret 0) /\ only_tables s s'
    /\ tables_ok s' (fun ip => if prefix d ip =? p then without d sub (B ip) else B ip) ow.
Proof using Hnhw.
  intros Hd Hp Hr Hok Hnd Hsub Hcov. unfold delete_depth_small. cbv zeta. rewrite depth_to_range_small, Z.shiftr_div_pow2 by lia. change (2 ^ 8) with 256.
  erewrite (bind_ret _ _ s s (snd <$> sub)); cycle 1.
  { destruct sub as [[sd' nh]|]; cbn in Hsub |- *; [|by rewrite (proj2 (Z.ltb_lt _ _) Hsub)].
    destruct Hsub as (Hi & _ & <-). destruct (Z.ltb_spec idx 0); [lia|]. by rewrite (bind_ret _ _ _ _ _ (rd_rule_run s idx Hi)). }
  assert (forall (e : rte_lpm_tbl_entry) g, match snd <$> sub with None => e <| te_valid := INVALID |> | Some nh => mk_entry (wrap nhw nh) VALID g sd end
    = match sub with None => e <| te_valid := INVALID |> | Some (sd, nh) => mk_entry (wrap nhw nh) VALID g sd end) as Heq.
  { intros e g. destruct sub as [[sd' nh]|]; [|done]. cbn. by destruct Hsub as (_ & -> & _). }
  edestruct (small_loop (without d sub)) as (s' & Hrun & H); [exact Hd|exact Hp|exact Hr|exact Hok| |rewrite (bind_ret _ _ _ _ _ Hrun); by exists s'].
  intros c x Bx Hc Hc' Hx HBx.
  assert (forall l, 0 <= l < 256 -> Bx (addr c l) <> None) as Hc0 by (intros l Hl; rewrite HBx by done; by apply Hcov, small_block).
  eapply (touch_cell (without d sub)) with (F24 := fun e => match snd <$> sub with None => e <| te_valid := INVALID |> | Some nh => mk_entry (wrap nhw nh) VALID 0 sd end); try done.
  - intros b. apply deep_without; [lia|done].
  - intros j y Hj. by eapply mapped8_body_if with (c := fun e8 => te_depth e8 <=? d).
  - intros e l Hl He. cbv beta. rewrite Heq. split; [by apply without_entry, Hc0|]. intros Hv. destruct (_ <=? _); [|done]. by destruct sub as [[? ?]|].
  - intros e Hv Hg. by rewrite Hg.
  - intros e b He Hnb Hg. pose proof (Hc0 0 ltac:(lia)) as Hbn. fold b in Hbn. clearbody b. cbv beta. rewrite Hg by done. cbn [Z.eqb andb]. rewrite Heq.
    pose proof (without_entry e b d sub 0 He Hbn) as Hb. destruct (te_depth e <=? d) eqn:E.
    + split; [exact Hb|]. destruct (without d sub b) eqn:Ew; [|done]. destruct sub as [[? ?]|]; [done|]. by apply Hg.
    + split; [done|]. destruct b as [[d' nh']|]; [|done]. cbn. destruct He as (_ & _ & <- & _). apply Z.leb_gt in E.
      destruct (Z.ltb_spec d (te_depth e)); [done|lia].
Qed.
End Tables.
