(* ===== verification/LpmGroups.v ===== *)
(** * The groups of [tbl8] (lib/librte_lpm)

    A rule of more than 24 bits needs a group for its cell of [tbl24]; when the last of
    them goes, the group is recycled. *)

From S2P Require Import Prelude Effects Lpm LpmSpec LpmRules LpmStore LpmTables.

Section Groups.
Context (nhw : Z) (Hnhw : 0 < nhw).
Notation tables_ok := (tables_ok nhw).
Notation group_ok := (group_ok nhw).
Notation entry_ok := (entry_ok nhw).
Notation sized := (sized nhw).

(** ** Allocation *)

Definition nothing (_ : Z) : option (Z * Z) := None.

Lemma s32_group x : 0 <= x < 2 ^ 31 -> s32 x = x.
Proof using. apply s32_index_small. Qed.

Lemma alloc_group s c g :
  sized s -> 0 <= g < number_tbl8s s ->
  exists s', (for_range (group_start g) (Z.to_nat RTE_LPM_TBL8_GROUP_NUM_ENTRIES) (fun j => wr_tbl8 j zero_entry) ;;
     wr_tbl8 (group_start g) (mk_entry 0 0 VALID 0) ;; mret (s32 g)) s = (s', Ret g)
    /\ only_cell c (Some g) s s' /\ tbl24 s' = tbl24 s /\ group_ok s' nothing c g.
Proof using Hnhw.
  intros Hs Hg. pose proof Hs as (Hn1 & Hn2 & Hlen). rewrite (group_start_small nhw s) by done.
  destruct (group_loop nhw (fun _ => zero_entry) (fun j => wr_tbl8 j zero_entry) s g 0 256) as (s1 & Hrun & Hm);
    [done|done|done|done|intros j x Hj; by apply mapped8_write|].
  rewrite Z.add_0_r in Hrun. rewrite (bind_ret _ _ _ _ _ Hrun). pose proof (mapped8_only _ c _ _ _ _ _ Hm ltac:(lia) ltac:(done)) as Hoc.
  destruct Hm as [Hfr Ht]. assert (tbl8_len s1 = tbl8_len s) as Hlen1 by (by rewrite Hfr).
  rewrite (bind_ret _ _ _ _ _ (wr_tbl8_run s1 (g * 256) (mk_entry 0 0 VALID 0) ltac:(lia))).
  eexists. rewrite s32_group by lia. split; [reflexivity|]. set (s' := s1 <| tbl8 := _ |>).
  assert (forall k, t8 s' k = if decide (k = g * 256) then mk_entry 0 0 VALID 0 else t8 s1 k) as Ht' by (intros k; apply t8_set).
  split; [|split].
  - transitivity s1; [done|]. split; [by destruct s1|done|]. intros g' l Hl Hne. rewrite Ht', decide_False; [done|]. assert (g <> g') by congruence. lia.
  - change (tbl24 s') with (tbl24 s1). by rewrite Hfr.
  - assert (in_range nhw 0) by (split; [done|by apply Z.pow_pos_nonneg; lia]). split; [by rewrite Ht', decide_True|].
    intros l Hl. unfold nothing. rewrite Ht'. destruct (decide (g * 256 + l = g * 256)); [done|]. rewrite Ht, decide_True by lia. done.
Qed.

Lemma tbl8_scan_run s c n g :
  sized s -> 0 <= g -> g + Z.of_nat n = number_tbl8s s ->
  (exists g' s', tbl8_scan n g s = (s', Ret g') /\ g <= g' < number_tbl8s s /\ te_valid_group (t8 s (g' * 256)) = 0
    /\ only_cell c (Some g') s s' /\ tbl24 s' = tbl24 s /\ group_ok s' nothing c g')
  \/ tbl8_scan n g s = (s, Ret (- ENOSPC)) /\ forall g', g <= g' < number_tbl8s s -> te_valid_group (t8 s (g' * 256)) <> 0.
Proof using Hnhw.
  intros Hs. pose proof Hs as (Hn1 & Hn2 & Hlen). revert g. induction n as [|n IH]; intros g Hg Hn; cbn [tbl8_scan]; [right; split; [done|lia]|].
  rewrite (bind_ret _ _ s s (t8 s (g * 256))); cycle 1.
  { rewrite (group_start_small nhw s) by (done || lia). apply rd_tbl8_run. lia. }
  destruct (Z.eqb_spec (te_valid_group (t8 s (g * 256))) 0) as [E|E].
  - left. destruct (alloc_group s c g Hs ltac:(lia)) as (s' & Hrun & H). exists g, s'. split; [done|]. split; [lia|]. done.
  - rewrite wrap_small by (unfold in_range; lia). destruct (IH (g + 1)) as [(g' & s' & H1 & H2 & H)|[H1 H2]]; [lia|lia| |].
    + left. exists g', s'. split; [done|]. split; [lia|done].
    + right. split; [done|]. intros g' Hg'. destruct (decide (g' = g)) as [->|]; [done|apply H2; lia].
Qed.

Lemma tbl8_alloc_run s c :
  sized s ->
  (exists g s', tbl8_alloc s = (s', Ret g) /\ 0 <= g < number_tbl8s s /\ te_valid_group (t8 s (g * 256)) = 0
    /\ only_cell c (Some g) s s' /\ tbl24 s' = tbl24 s /\ group_ok s' nothing c g)
  \/ tbl8_alloc s = (s, Ret (- ENOSPC)) /\ forall g, 0 <= g < number_tbl8s s -> te_valid_group (t8 s (g * 256)) <> 0.
Proof using Hnhw.
  intros Hs. unfold tbl8_alloc. erewrite bind_ret; [|reflexivity]. destruct Hs as (Hn1 & Hs').
  apply (tbl8_scan_run s c (Z.to_nat (number_tbl8s s)) 0); [done|lia|lia].
Qed.

(** ** Long rules *)

Lemma big_end d p : 24 < d <= 32 -> prefix d p = p -> p mod 256 + 2 ^ (32 - d) <= 256.
Proof using.
  intros Hd Hp. unfold prefix in Hp. set (m := 2 ^ (32 - d)) in *. set (q := p / m) in *.
  assert (256 = m * 2 ^ (d - 24)) as Hpow by (unfold m; rewrite <- Z.pow_add_r by lia; by replace (32 - d + (d - 24)) with 8 by lia).
  pose proof (Z.pow_pos_nonneg 2 (32 - d) ltac:(lia) ltac:(lia)) as Hm. fold m in Hm.
  pose proof (Z.pow_pos_nonneg 2 (d - 24) ltac:(lia) ltac:(lia)) as Hk. set (k := 2 ^ (d - 24)) in *.
  rewrite <- Hp, Hpow, (Z.mul_comm q m), Z.mul_mod_distr_l by lia. pose proof (Z.mod_pos_bound q k ltac:(lia)). nia.
Qed.

Lemma big_block d p c l :
  24 < d <= 32 -> prefix d p = p -> 0 <= l < 256 -> prefix d (addr c l) = p <-> c = p / 256 /\ p mod 256 <= l < p mod 256 + 2 ^ (32 - d).
Proof using.
  intros Hd Hp Hl. rewrite prefix_block by (done || lia). unfold addr. pose proof (big_end d p Hd Hp).
  pose proof (Z.div_mod p 256 ltac:(lia)). pose proof (Z.mod_pos_bound p 256 ltac:(lia)). lia.
Qed.

Lemma low_byte p : Z.land p 0xFF = p mod 256.
Proof using. change 0xFF with (Z.ones 8). by rewrite Z.land_ones. Qed.

(** What an operation on the block of a long rule leaves of [B]. *)
Definition on_block (d p : Z) (T : option (Z * Z) -> option (Z * Z)) (B : Z -> option (Z * Z)) (ip : Z) : option (Z * Z) :=
  if prefix d ip =? p then T (B ip) else B ip.

Lemma on_block_in d p T B l : 24 < d <= 32 -> prefix d p = p -> p mod 256 <= l < p mod 256 + 2 ^ (32 - d) ->
  on_block d p T B (addr (p / 256) l) = T (B (addr (p / 256) l)).
Proof using.
  intros Hd Hp Hl. unfold on_block. pose proof (big_end d p Hd Hp). pose proof (Z.mod_pos_bound p 256 ltac:(lia)).
  by rewrite (proj2 (Z.eqb_eq _ _) (proj2 (big_block d p (p / 256) l Hd Hp ltac:(lia)) ltac:(done))).
Qed.

Lemma on_block_out d p T B c l : 24 < d <= 32 -> prefix d p = p -> 0 <= l < 256 -> ~ (c = p / 256 /\ p mod 256 <= l < p mod 256 + 2 ^ (32 - d)) ->
  on_block d p T B (addr c l) = B (addr c l).
Proof using.
  intros Hd Hp Hl Hn. unfold on_block. destruct (Z.eqb_spec (prefix d (addr c l)) p) as [E|]; [|done].
  apply big_block in E; done.
Qed.

(** A loop over the block in the group of the cell. *)
Lemma block_loop T G f s B g d p :
  24 < d <= 32 -> prefix d p = p -> sized s -> 0 <= g < number_tbl8s s -> group_ok s B (p / 256) g ->
  (forall j x, 0 <= j < tbl8_len x -> exists x', f j x = (x', Ret tt) /\ mapped8 G j 1 x x') ->
  (te_valid_group (t8 s (g * 256)) = 1 -> te_valid_group (G (t8 s (g * 256))) = 1) ->
  (forall e ip, prefix d ip = p -> entry_ok e (B ip) -> entry_ok (G e) (T (B ip))) ->
  exists s', for_range (g * 256 + p mod 256) (Z.to_nat (2 ^ (32 - d))) f s = (s', Ret tt)
    /\ only_cell (p / 256) (Some g) s s' /\ tbl24 s' = tbl24 s /\ group_ok s' (on_block d p T B) (p / 256) g.
Proof using.
  intros Hd Hp Hs Hg Hgr Hf Hv HG. pose proof (big_end d p Hd Hp) as Hend. pose proof (Z.mod_pos_bound p 256 ltac:(lia)) as Hlow.
  pose proof (Z.pow_pos_nonneg 2 (32 - d) ltac:(lia) ltac:(lia)).
  destruct (group_loop nhw G f s g (p mod 256) (Z.to_nat (2 ^ (32 - d)))) as (s' & Hrun & Hm); [done|done|lia|lia|done|].
  exists s'. split; [done|]. rewrite Z2Nat.id in Hm by lia. split; [by eapply mapped8_only; [done|lia|lia]|].
  split; [by destruct Hm as [-> _]|]. apply (group_mapped nhw G s s' B _ (p / 256) g (p mod 256) (2 ^ (32 - d))); try done; [lia| |].
  - intros l Hl He. rewrite on_block_in by done. apply HG; [|done]. apply big_block; done || lia.
  - intros l Hl Hn. apply on_block_out; try done. tauto.
Qed.

Lemma deep_better_big d nh b : 24 < d -> deep (better d nh b).
Proof using.
  intros Hd. unfold better. destruct b as [[d' nh']|]; [destruct (Z.ltb_spec d d')|]; eexists _, _; (split; [done|lia]).
Qed.

Lemma on_block_elsewhere d p T B : 24 < d <= 32 -> prefix d p = p -> elsewhere (p / 256) B (on_block d p T B).
Proof using. intros Hd Hp c l Hne Hl. apply on_block_out; [done|done|done|]. intros [-> _]. done. Qed.

Lemma s32_index_run (s : rte_lpm) i : i < 2 ^ 31 -> s32_index i s = (s, Ret i).
Proof using. intros Hi. unfold s32_index. by rewrite (proj2 (Z.ltb_lt _ _) Hi). Qed.

(** The new group becomes the cell's. *)
Lemma attach_group_run s s1 B B' ow c g :
  tables_ok s B ow -> ow !! c = None -> 0 <= c < 2 ^ 24 -> 0 <= g < number_tbl8s s -> te_valid_group (t8 s (g * 256)) = 0 ->
  only_cell c (Some g) s s1 -> group_ok s1 B' c g -> elsewhere c B B' -> (exists l, 0 <= l < 256 /\ deep (B' (addr c l))) ->
  exists s', wr_tbl24 c (mk_entry (wrap nhw g) VALID 1 0) s1 = (s', Ret tt) /\ only_tables s s' /\ tables_ok s' B' (<[c := g]> ow).
Proof using Hnhw.
  intros Hok Ho Hc Hg Hfree Hoc Hgr HB Hdeep. rewrite wr_tbl24_run by done. eexists. split; [reflexivity|].
  pose proof (write24_only c (Some g) (mk_entry (wrap nhw g) VALID 1 0) s1) as Hoc'. assert (only_cell c (Some g) s (s1 <| tbl24 := <[c := mk_entry (wrap nhw g) VALID 1 0]> (tbl24 s1) |>)) as Hoc2 by (by transitivity s1).
  split; [apply Hoc2|]. eapply (cell_ext nhw s _ B B' ow _ c g); try done; [|by left|].
  - intros c' _ Ho'. destruct (tk_ext _ _ _ _ Hok c' g Ho') as (_ & _ & _ & [Hv _]). lia.
  - unfold extended. rewrite t24_set, decide_True by done. cbn. split_and!; try done. apply wrap_small.
    destruct (tk_sized _ _ _ _ Hok) as (_ & Hn & _). split; lia.
Qed.

Lemma only_cell_sized c og s s' : only_cell c og s s' -> sized s -> sized s' /\ number_tbl8s s' = number_tbl8s s.
Proof using. intros Hoc Hs. assert (number_tbl8s s' = number_tbl8s s /\ tbl8_len s' = tbl8_len s) as [E1 E2] by (by rewrite (oc_frame _ _ _ _ Hoc)).
  split; [|done]. unfold LpmTables.sized. by rewrite E1, E2. Qed.

Lemma cell_range p : in_range 32 p -> 0 <= p / 256 < 2 ^ 24.
Proof using.
  intros [H0 H1]. split; [apply Z.div_pos; lia|]. apply Z.div_lt_upper_bound; [lia|]. by change (256 * 2 ^ 24) with (2 ^ 32).
Qed.

Lemma block_deep d p nh B : 24 < d <= 32 -> prefix d p = p -> exists l, 0 <= l < 256 /\ deep (on_block d p (better d nh) B (addr (p / 256) l)).
Proof using.
  intros Hd Hp. pose proof (Z.mod_pos_bound p 256 ltac:(lia)). pose proof (Z.pow_pos_nonneg 2 (32 - d) ltac:(lia) ltac:(lia)).
  exists (p mod 256). split; [done|]. rewrite on_block_in by (done || lia). apply deep_better_big. lia.
Qed.

(** The new group, which already answers what the cell did, gets the rule and an owner. *)
Lemma fill_attach_run s s2 B Bg ow g d p nh b :
  24 < d <= 32 -> prefix d p = p -> in_range 32 p -> tables_ok s B ow -> ow !! (p / 256) = None -> 0 <= g < number_tbl8s s ->
  te_valid_group (t8 s (g * 256)) = 0 -> (forall l, 0 <= l < 256 -> B (addr (p / 256) l) = b) -> ~ deep b ->
  only_cell (p / 256) (Some g) s s2 -> group_ok s2 Bg (p / 256) g -> (forall l, 0 <= l < 256 -> Bg (addr (p / 256) l) = b) ->
  exists s' ow', (for_range (g * 256 + p mod 256) (Z.to_nat (2 ^ (32 - d))) (fun j => e8 ← rd_tbl8 j; wr_tbl8 j (set_hop nhw d nh e8)) ;;
      wr_tbl24 (p / 256) (mk_entry (wrap nhw g) VALID 1 0) ;; mret 0) s2 = (s', Ret 0)
    /\ only_tables s s' /\ tables_ok s' (on_block d p (better d nh) B) ow'.
Proof using Hnhw.
  intros Hd Hp Hr Hok Ho Hg Hfree Hb Hnd Hoc2 Hgr2 HBg.
  destruct (only_cell_sized _ _ _ _ Hoc2 (tk_sized _ _ _ _ Hok)) as [Hs2 Hn2].
  destruct (block_loop (fun _ => Some (d, nh)) (set_hop nhw d nh) (fun j => e8 ← rd_tbl8 j; wr_tbl8 j (set_hop nhw d nh e8)) s2 Bg g d p)
    as (s3 & Hrun3 & Hoc3 & _ & Hgr3); try done; [by rewrite Hn2|intros j x; apply mapped8_body|intros e ip _ _; split; [by apply wrap_range; lia|done]|].
  rewrite (bind_ret _ _ _ _ _ Hrun3).
  destruct (attach_group_run s s3 B (on_block d p (better d nh) B) ow (p / 256) g) as (s' & Hrun & Hfr & Hok'); try done.
  - by apply cell_range.
  - by transitivity s2.
  - eapply (group_frame nhw s3 s3); [done| |exact Hgr3]. intros l Hl. unfold on_block.
    destruct (prefix d (addr (p / 256) l) =? p); [|by rewrite Hb, HBg]. rewrite Hb by done. unfold better.
    destruct b as [[d' nh']|]; [|done]. destruct (Z.ltb_spec d d'); [|done]. destruct Hnd. eexists _, _. split; [done|lia].
  - by apply on_block_elsewhere.
  - by apply block_deep.
  - rewrite (bind_ret _ _ _ _ _ Hrun). by exists s', (<[p / 256 := g]> ow).
Qed.

(** A cell that has a group. *)
Lemma add_extended_run s B ow d p nh g :
  24 < d <= 32 -> prefix d p = p -> tables_ok s B ow -> ow !! (p / 256) = Some g ->
  exists s', for_range (g * 256 + p mod 256) (Z.to_nat (2 ^ (32 - d))) (fun j => e8 ← rd_tbl8 j;
      if (te_valid e8 =? 0) || (te_depth e8 <=? d) then wr_tbl8 j (mk_entry (wrap nhw nh) VALID (te_valid_group e8) d) else mret tt) s = (s', Ret tt)
    /\ only_tables s s' /\ tables_ok s' (on_block d p (better d nh) B) ow.
Proof using Hnhw.
  intros Hd Hp Hok Ho. destruct (tk_ext _ _ _ _ Hok _ g Ho) as (Hc & Hg & He & Hgr).
  set (G := fun e => if (te_valid e =? 0) || (te_depth e <=? d) then mk_entry (wrap nhw nh) VALID (te_valid_group e) d else e).
  edestruct (block_loop (better d nh) G) as (s' & Hrun & Hoc & H24 & Hgr'); [done|done|apply Hok|exact Hg|exact Hgr| | | |].
  { intros j x Hj. by apply (mapped8_body_if (fun e8 => (te_valid e8 =? 0) || (te_depth e8 <=? d)) (fun e8 => mk_entry (wrap nhw nh) VALID (te_valid_group e8) d)). }
  { intros Hv. unfold G. by destruct (_ || _). }
  { intros e ip _ Hen. by apply better_entry. }
  exists s'. split; [exact Hrun|]. split; [apply Hoc|].
  apply (cell_ext nhw s s' B _ ow ow (p / 256) g); try done; [|by rewrite insert_id|by right|by apply on_block_elsewhere| |by apply block_deep].
  - intros c' Hne Ho'. apply Hne. by apply (tk_inj _ _ _ _ Hok c' _ g).
  - unfold extended, t24. by rewrite H24.
Qed.

(** [add_depth_big]: with a group of its own or a new one, or not at all. *)
Lemma add_big_run s B ow d p nh :
  24 < d <= 32 -> prefix d p = p -> in_range 32 p -> tables_ok s B ow ->
  (exists s' ow', add_depth_big nhw p d nh s = (s', Ret 0) /\ only_tables s s' /\ tables_ok s' (on_block d p (better d nh) B) ow')
  \/ add_depth_big nhw p d nh s = (s, Ret (- ENOSPC)) /\ ow !! (p / 256) = None
     /\ forall g, 0 <= g < number_tbl8s s -> te_valid_group (t8 s (g * 256)) <> 0.
Proof using Hnhw.
  intros Hd Hp Hr Hok. pose proof (tk_sized _ _ _ _ Hok) as Hs. pose proof Hs as (Hn1 & Hn2 & Hlen).
  pose proof (Z.mod_pos_bound p 256 ltac:(lia)) as Hlow. pose proof (cell_range p Hr) as Hc.
  unfold add_depth_big. cbv zeta. rewrite depth_to_range_big, Z.shiftr_div_pow2, low_byte by lia. change (2 ^ 8) with 256.
  change RTE_LPM_TBL8_GROUP_NUM_ENTRIES with 256.
  rewrite (bind_ret _ _ _ _ _ (rd_tbl24_run s _ Hc)). destruct (ow !! (p / 256)) as [g|] eqn:Ho.
  - left. destruct (tk_ext _ _ _ _ Hok _ g Ho) as (_ & Hg & (He1 & He2 & He3) & _). rewrite He1, He2, He3. cbn [Z.eqb Pos.eqb].
    rewrite (bind_ret _ _ _ _ _ (s32_index_run s (g * 256) ltac:(lia))).
    destruct (add_extended_run s B ow d p nh g Hd Hp Hok Ho) as (s' & Hrun & H). exists s', ow. by rewrite (bind_ret _ _ _ _ _ Hrun).
  - destruct (tk_direct _ _ _ _ Hok _ Hc Ho) as (b & Hb & Hnd & [Hhop He] & Hv).
    destruct (tbl8_alloc_run s (p / 256) Hs) as [(g & s1 & Hal & Hg & Hfree & Hoc1 & _ & Hgr1)|[Hal Hfull]]; cycle 1.
    { right. destruct b as [[d' nh']|].
      - destruct He as (-> & _). rewrite Hv by done. cbn [Z.eqb]. by rewrite (bind_ret _ _ _ _ _ Hal).
      - rewrite He. cbn [Z.eqb]. by rewrite (bind_ret _ _ _ _ _ Hal). }
    left. destruct (only_cell_sized _ _ _ _ Hoc1 Hs) as [Hs1 Hnum1].
    pose proof (fun s2 Bg => fill_attach_run s s2 B Bg ow g d p nh b Hd Hp Hr Hok Ho Hg Hfree Hb Hnd) as Hfin. destruct b as [[d' nh']|].
    + destruct He as (He1 & He2 & He3). rewrite He1, Hv by done. cbn [Z.eqb]. rewrite (bind_ret _ _ _ _ _ Hal).
      rewrite (proj2 (Z.ltb_ge g 0)), (bind_ret _ _ _ _ _ (s32_index_run s1 (g * 256) ltac:(lia))) by lia.
      destruct (group_loop nhw (set_hop nhw (te_depth (t24 s (p / 256))) (te_next_hop (t24 s (p / 256))))
        (fun j => e8 ← rd_tbl8 j; wr_tbl8 j (set_hop nhw (te_depth (t24 s (p / 256))) (te_next_hop (t24 s (p / 256))) e8)) s1 g 0 256) as (s2 & Hrun2 & Hm);
        [done|by rewrite Hnum1|done|done|intros j x; apply mapped8_body|].
      rewrite Z.add_0_r in Hrun2. change (Z.to_nat 256) with 256%nat. rewrite (bind_ret _ _ _ _ _ Hrun2).
      apply (Hfin s2 B); [transitivity s1; [done|by eapply mapped8_only; [exact Hm|..]]| |done].
      apply (group_mapped nhw _ s1 s2 nothing B (p / 256) g 0 256 Hgr1 Hm); try done.
      intros l Hl _. rewrite Hb by done. unfold LpmTables.entry_ok. cbn. rewrite He2, He3. rewrite wrap_wrap by lia. split; [by apply wrap_range; lia|done].
    + rewrite He. cbn [Z.eqb]. rewrite (bind_ret _ _ _ _ _ Hal).
      rewrite (proj2 (Z.ltb_ge g 0)), (bind_ret _ _ _ _ _ (s32_index_run s1 (g * 256 + p mod 256) ltac:(lia))) by lia. by apply (Hfin s1 nothing).
Qed.

(** ** Recycling *)

Lemma all_entries_run s n j test :
  0 <= j -> j + Z.of_nat n <= tbl8_len s -> tbl8_len s <= 2 ^ 31 ->
  exists b : bool, all_entries n j test s = (s, Ret b)
    /\ if b then forall k, j <= k < j + Z.of_nat n -> test (t8 s k) = true else exists k, j <= k < j + Z.of_nat n /\ test (t8 s k) = false.
Proof using.
  intros Hj Hn Hlen. revert j Hj Hn. induction n as [|n IH]; intros j Hj Hn; cbn [all_entries].
  - exists true. split; [done|]. lia.
  - rewrite (bind_ret _ _ _ _ _ (rd_tbl8_run s j ltac:(lia))). rewrite wrap_small by (unfold in_range; lia).
    destruct (test (t8 s j)) eqn:E.
    + destruct (IH (j + 1)) as (b & Hb & Hiff); [lia|lia|]. exists b. split; [done|]. destruct b.
      * intros k Hk. destruct (decide (k = j)) as [->|]; [done|apply Hiff; lia].
      * destruct Hiff as (k & Hk & Hf). exists k. split; [lia|done].
    + exists false. split; [done|]. exists j. split; [lia|done].
Qed.

(** Rules of at most 24 bits are the same for a whole cell. *)
Definition coherent (B : Z -> option (Z * Z)) (c : Z) : Prop := forall l l' d nh,
  0 <= l < 256 -> 0 <= l' < 256 -> B (addr c l) = Some (d, nh) -> d <= 24 ->
  exists d' nh', B (addr c l') = Some (d', nh') /\ d <= d' /\ (d' = d -> nh' = nh).

(** What the check found out about a cell. *)
Definition recycle_result (B : Z -> option (Z * Z)) (c start r : Z) : Prop :=
  r = - EINVAL /\ (forall l, 0 <= l < 256 -> B (addr c l) = None)
  \/ r = start /\ (exists d nh, d <= 24 /\ forall l, 0 <= l < 256 -> B (addr c l) = Some (d, nh))
  \/ r = - EEXIST /\ exists l, 0 <= l < 256 /\ deep (B (addr c l)).

Lemma recycle_run s B c g :
  sized s -> 0 <= g < number_tbl8s s -> group_ok s B c g -> coherent B c ->
  exists r, tbl8_recycle_check (g * 256) s = (s, Ret r) /\ recycle_result B c (g * 256) r.
Proof using Hnhw.
  intros (Hn1 & Hn2 & Hlen) Hg [_ Hgr] Hco. unfold tbl8_recycle_check.
  rewrite (bind_ret _ _ _ _ _ (rd_tbl8_run s (g * 256) ltac:(lia))). cbv zeta. rewrite wrap_small by (unfold in_range; lia).
  assert (forall test, exists b : bool, all_entries 255 (g * 256 + 1) test s = (s, Ret b)
    /\ if b then forall l, 1 <= l < 256 -> test (t8 s (g * 256 + l)) = true else exists l, 1 <= l < 256 /\ test (t8 s (g * 256 + l)) = false) as Hall.
  { intros test. destruct (all_entries_run s 255 (g * 256 + 1) test) as (b & Hb & Hiff); [lia|lia|lia|]. exists b. split; [done|]. destruct b.
    - intros l Hl. apply Hiff. lia.
    - destruct Hiff as (k & Hk & Hf). exists (k - g * 256). replace (g * 256 + (k - g * 256)) with k by lia. split; [lia|done]. }
  pose proof (Hgr 0 ltac:(lia)) as [_ He0]. rewrite Z.add_0_r in He0. destruct (B (addr c 0)) as [[d nh]|] eqn:Eb.
  - destruct He0 as (Hv & Hd & _). rewrite Hv, Hd. cbn [Z.eqb negb]. unfold MAX_DEPTH_TBL24. destruct (Z.leb_spec d 24) as [Hd24|Hd24].
    + destruct (Hall (fun e8 => te_depth e8 =? d)) as (b & Hb & Hiff). rewrite (bind_ret _ _ _ _ _ Hb). eexists. split; [reflexivity|]. destruct b.
      * right; left. rewrite s32_group by lia. split; [done|]. exists d, nh. split; [done|]. intros l Hl.
        destruct (Hco 0 l d nh ltac:(lia) Hl Eb Hd24) as (d' & nh' & El & _ & Heq). destruct (decide (l = 0)) as [->|]; [done|].
        pose proof (Hiff l ltac:(lia)) as Hl'%Z.eqb_eq. pose proof (Hgr l Hl) as [_ Hel]. rewrite El in Hel |- *.
        destruct Hel as (_ & Hd' & _). assert (d' = d) as -> by lia. by rewrite (Heq eq_refl).
      * right; right. split; [done|]. destruct Hiff as (l & Hl & Hf%Z.eqb_neq). exists l. split; [lia|].
        destruct (Hco 0 l d nh ltac:(lia) ltac:(lia) Eb Hd24) as (d' & nh' & El & Hle & Heq). pose proof (Hgr l ltac:(lia)) as [_ Hel]. rewrite El in Hel |- *.
        destruct Hel as (_ & Hd' & _). exists d', nh'. split; [done|]. apply Z.nle_gt. intros Hd'24.
        destruct (Hco l 0 d' nh' ltac:(lia) ltac:(lia) El Hd'24) as (d2 & nh2 & E2 & Hle2 & _). rewrite Eb in E2. injection E2 as <- <-. lia.
    + eexists. split; [reflexivity|]. right; right. split; [done|]. exists 0. split; [lia|]. rewrite Eb. by exists d, nh.
  - rewrite He0. cbn [Z.eqb negb]. destruct (Hall (fun e8 => te_valid e8 =? 0)) as (b & Hb & Hiff). rewrite (bind_ret _ _ _ _ _ Hb).
    eexists. split; [reflexivity|]. destruct b.
    + left. split; [done|]. intros l Hl. destruct (decide (l = 0)) as [->|]; [done|]. pose proof (Hiff l ltac:(lia)) as Hz%Z.eqb_eq.
      pose proof (Hgr l Hl) as [_ Hel]. destruct (B (addr c l)) as [[d nh]|]; [|done]. destruct Hel. lia.
    + right; right. split; [done|]. destruct Hiff as (l & Hl & Hf%Z.eqb_neq). exists l. split; [lia|].
      pose proof (Hgr l ltac:(lia)) as [_ Hel]. destruct (B (addr c l)) as [[d nh]|] eqn:El; [|done].
      exists d, nh. split; [done|]. apply Z.nle_gt. intros Hd24. destruct (Hco l 0 d nh ltac:(lia) ltac:(lia) El Hd24) as (? & ? & E0 & _). congruence.
Qed.

(** The loop of [delete_depth_big]. *)
Lemma delete_block_run s B d p idx sd sub g :
  24 < d <= 32 -> prefix d p = p -> sized s -> 0 <= g < number_tbl8s s -> group_ok s B (p / 256) g -> sub_at s idx sd sub ->
  (forall ip, prefix d ip = p -> B ip <> None) ->
  exists s1, (if idx <? 0 then
       for_range (g * 256 + p mod 256) (Z.to_nat (2 ^ (32 - d))) (fun j => e8 ← rd_tbl8 j; if te_depth e8 <=? d then wr_tbl8 j (e8 <| te_valid := INVALID |>) else mret tt)
     else first ← rd_tbl8 (g * 256); r ← rd_rule idx;
       for_range (g * 256 + p mod 256) (Z.to_nat (2 ^ (32 - d))) (fun j => e8 ← rd_tbl8 j;
         if te_depth e8 <=? d then wr_tbl8 j (mk_entry (wrap nhw (rule_next_hop r)) VALID (te_valid_group first) sd) else mret tt)) s = (s1, Ret tt)
     /\ only_cell (p / 256) (Some g) s s1 /\ tbl24 s1 = tbl24 s /\ group_ok s1 (on_block d p (without d sub) B) (p / 256) g.
Proof using Hnhw.
  intros Hd Hp Hs Hg Hgr Hsub Hcov. pose proof Hs as (Hn1 & Hn2 & Hlen).
  pose (G := fun e => if te_depth e <=? d then match sub with None => e <| te_valid := INVALID |> | Some (sd, nh) => mk_entry (wrap nhw nh) VALID (te_valid_group (t8 s (g * 256))) sd end else e).
  assert (te_valid_group (t8 s (g * 256)) = 1 -> te_valid_group (G (t8 s (g * 256))) = 1) as HGv
    by (intros Hv; unfold G; destruct (_ <=? _); [|done]; by destruct sub as [[? ?]|]).
  assert (forall e ip, prefix d ip = p -> entry_ok e (B ip) -> entry_ok (G e) (without d sub (B ip))) as HGe
    by (intros e ip Hip He; apply without_entry; [done|done|by apply Hcov]).
  destruct sub as [[sd' nh]|]; cbn in Hsub.
  - destruct Hsub as (Hi & <- & <-). rewrite (proj2 (Z.ltb_ge idx 0)) by lia.
    rewrite (bind_ret _ _ _ _ _ (rd_tbl8_run s (g * 256) ltac:(lia))), (bind_ret _ _ _ _ _ (rd_rule_run s idx Hi)).
    eapply (block_loop _ G); try done. intros j x Hj. by apply (mapped8_body_if (fun e8 => te_depth e8 <=? d)).
  - rewrite (proj2 (Z.ltb_lt _ _) Hsub). eapply (block_loop _ G); try done. intros j x Hj. by apply (mapped8_body_if (fun e8 => te_depth e8 <=? d)).
Qed.

(** The cell becomes direct and its group free. *)
Lemma free_cell_run s s1 B B' ow c g e :
  tables_ok s B ow -> ow !! c = Some g -> only_cell c (Some g) s s1 -> elsewhere c B B' -> direct nhw (s1 <| tbl24 := <[c := e]> (tbl24 s1) |>) B' c ->
  exists s' ow', (wr_tbl24 c e ;; tbl8_free (g * 256)) s1 = (s', Ret tt) /\ only_tables s s' /\ tables_ok s' B' ow'.
Proof using.
  intros Hok Ho Hoc HB Hdir. destruct (tk_ext _ _ _ _ Hok c g Ho) as (Hc & Hg & _). destruct (tk_sized _ _ _ _ Hok) as (_ & _ & Hlen).
  assert (tbl8_len s1 = tbl8_len s) as Hlen1 by (by rewrite (oc_frame _ _ _ _ Hoc)).
  rewrite (bind_ret _ _ _ _ _ (wr_tbl24_run s1 c e Hc)). set (s2 := s1 <| tbl24 := _ |>) in *.
  unfold tbl8_free. rewrite (bind_ret _ _ _ _ _ (rd_tbl8_run s2 (g * 256) ltac:(change (tbl8_len s2) with (tbl8_len s1); lia))).
  rewrite wr_tbl8_run by (change (tbl8_len s2) with (tbl8_len s1); lia). set (s' := s2 <| tbl8 := _ |>). exists s', (delete c ow). split; [done|].
  assert (forall k, t8 s' k = if decide (k = g * 256) then (t8 s2 (g * 256)) <| te_valid_group := INVALID |> else t8 s2 k) as Ht' by (intros k; apply t8_set).
  assert (only_cell c (Some g) s s') as Hoc'.
  { transitivity s1; [done|]. transitivity s2; [apply write24_only|]. split; [by destruct s2|done|].
    intros g' l Hl Hne. rewrite Ht', decide_False; [done|]. assert (g <> g') by congruence. lia. }
  split; [apply Hoc'|]. apply (cell_free nhw s s' B B' ow c g); try done. by rewrite Ht', decide_True.
Qed.

(** The end of [delete_depth_big]: the group is freed when the cell has no long rule left. *)
Lemma recycle_cell_run s s1 B B' ow c g :
  tables_ok s B ow -> ow !! c = Some g -> only_cell c (Some g) s s1 -> tbl24 s1 = tbl24 s -> elsewhere c B B' -> group_ok s1 B' c g -> coherent B' c ->
  exists s' ow', (recycle ← tbl8_recycle_check (g * 256);
    (if recycle =? - EINVAL then
       e ← rd_tbl24 c; wr_tbl24 c (e <| te_valid := 0 |>) ;; tbl8_free (g * 256)
     else if -1 <? recycle then
       e8 ← rd_tbl8 recycle; wr_tbl24 c (mk_entry (te_next_hop e8) VALID 0 (te_depth e8)) ;; tbl8_free (g * 256)
     else mret tt) ;;
    mret 0) s1 = (s', Ret 0) /\ only_tables s s' /\ tables_ok s' B' ow'.
Proof using Hnhw.
  intros Hok Ho Hoc H24 HB Hgr1 Hco. destruct (tk_ext _ _ _ _ Hok c g Ho) as (Hc & Hg & Hex & _). pose proof Hex as (_ & _ & He3).
  destruct (only_cell_sized _ _ _ _ Hoc (tk_sized _ _ _ _ Hok)) as [Hs1 Hnum1]. pose proof Hs1 as (Hn1 & Hn2 & Hlen1).
  destruct (recycle_run s1 B' c g Hs1 ltac:(lia) Hgr1 Hco) as (r & Hrec & Hres). rewrite (bind_ret _ _ _ _ _ Hrec).
  pose proof (fun e => free_cell_run s s1 B B' ow c g e Hok Ho Hoc HB) as Hfree.
  destruct Hres as [(-> & Hno)|[(-> & d0 & nh0 & Hd0 & Hall)|(-> & Hdeep)]].
  - rewrite Z.eqb_refl, bind_assoc. rewrite (bind_ret _ _ _ _ _ (rd_tbl24_run s1 c Hc)).
    destruct (Hfree ((t24 s1 c) <| te_valid := 0 |>)) as (s' & ow' & Hrun' & H'); [|rewrite (bind_ret _ _ _ _ _ Hrun'); by exists s', ow'].
    exists None. split; [done|]. split; [by intros (? & ? & ? & _)|]. rewrite t24_set, decide_True by done. split; [|done]. split; [|done].
    unfold t24. rewrite H24. fold (t24 s c). cbn. rewrite He3. split; lia.
  - destruct (Z.eqb_spec (g * 256) (- EINVAL)); [unfold EINVAL in *; lia|]. rewrite (proj2 (Z.ltb_lt (-1) (g * 256))), bind_assoc by lia.
    rewrite (bind_ret _ _ _ _ _ (rd_tbl8_run s1 (g * 256) ltac:(lia))).
    pose proof (proj2 Hgr1 0 ltac:(lia)) as [Hhop He0]. rewrite Z.add_0_r, Hall in * by lia. destruct He0 as (_ & Hd' & Hnh).
    destruct (Hfree (mk_entry (te_next_hop (t8 s1 (g * 256))) VALID 0 (te_depth (t8 s1 (g * 256))))) as (s' & ow' & Hrun' & H');
      [|rewrite (bind_ret _ _ _ _ _ Hrun'); by exists s', ow'].
    exists (Some (d0, nh0)). split; [done|]. split; [intros (? & ? & [= <- <-] & ?); lia|]. rewrite t24_set, decide_True by done. done.
  - change (- EEXIST =? - EINVAL) with false. change (-1 <? - EEXIST) with false. erewrite bind_ret; [|reflexivity].
    exists s1, ow. split; [done|]. split; [apply Hoc|]. apply (cell_ext nhw s s1 B B' ow ow c g); try done.
    + intros c' Hne Ho'. apply Hne. by apply (tk_inj _ _ _ _ Hok c' c g).
    + by rewrite insert_id.
    + by right.
    + unfold extended, t24. by rewrite H24.
Qed.

(** [delete_depth_big]: the addresses of the block fall back to the shorter rule. *)
Lemma delete_big_run s B ow d p idx sd sub :
  24 < d <= 32 -> prefix d p = p -> in_range 32 p -> tables_ok s B ow -> is_Some (ow !! (p / 256)) -> sub_at s idx sd sub ->
  (forall ip, prefix d ip = p -> B ip <> None) -> coherent (on_block d p (without d sub) B) (p / 256) ->
  exists s' ow', delete_depth_big nhw p d idx sd s = (s', Ret 0) /\ only_tables s s' /\ tables_ok s' (on_block d p (without d sub) B) ow'.
Proof using Hnhw.
  intros Hd Hp Hr Hok [g Ho] Hsub Hcov Hco. pose proof (tk_sized _ _ _ _ Hok) as Hs. pose proof Hs as (Hn1 & Hn2 & Hlen).
  pose proof (Z.mod_pos_bound p 256 ltac:(lia)) as Hlow. destruct (tk_ext _ _ _ _ Hok _ g Ho) as (Hc & Hg & (_ & _ & He3) & Hgr).
  unfold delete_depth_big. cbv zeta. rewrite depth_to_range_big, Z.shiftr_div_pow2, low_byte by lia. change (2 ^ 8) with 256.
  rewrite (bind_ret _ _ _ _ _ (rd_tbl24_run s _ Hc)), He3, (group_start_small nhw s) by done. rewrite wrap_small by (unfold in_range; lia).
  destruct (delete_block_run s B d p idx sd sub g Hd Hp Hs Hg Hgr Hsub Hcov) as (s1 & Hrun & Hoc & H24 & Hgr1). rewrite (bind_ret _ _ _ _ _ Hrun).
  apply (recycle_cell_run s s1 B _ ow (p / 256) g); try done. by apply on_block_elsewhere.
Qed.
End Groups.
