(* ===== verification/LpmRefine.v ===== *)
(** * The longest prefix match library against its specification (lib/librte_lpm)

    [lpm_ok nhw s R] says that a table holds the rules [R]: its rule table stores them and
    its lookup tables answer [longest_match R].  Every operation of the API refines the
    operation on maps. *)

From S2P Require Import Prelude Effects Lpm LpmSpec LpmRules LpmStore LpmTables LpmGroups.

Definition lpm_ok (nhw : Z) (s : rte_lpm) (R : rules) : Prop :=
  store s R /\ exists ow, tables_ok nhw s (longest_match R) ow.

(** The /24 blocks with a rule of more than 24 bits: each needs a group of its own. *)
Definition deep_blocks (R : rules) : gset Z := set_map (fun k => k.2 / 256) (filter (fun k => 24 < k.1) (dom R)).

Lemma elem_deep_blocks R c : c ∈ deep_blocks R <-> exists d p nh, R !! (d, p) = Some nh /\ 24 < d /\ c = p / 256.
Proof.
  unfold deep_blocks. rewrite elem_of_map. setoid_rewrite elem_of_filter. setoid_rewrite elem_of_dom. split.
  - intros ([d p] & -> & Hd & [nh HR]). by exists d, p, nh.
  - intros (d & p & nh & HR & Hd & ->). exists (d, p). split; [done|]. split; [done|by eexists].
Qed.

Lemma deep_blocks_insert R d p nh : 24 < d -> deep_blocks (<[(d, p) := nh]> R) = {[p / 256]} ∪ deep_blocks R.
Proof.
  intros Hd. apply set_eq. intros c. rewrite elem_of_union, elem_of_singleton, !elem_deep_blocks. split.
  - intros (d' & p' & nh' & [(Hk & _)|[_ HR]]%lookup_insert_Some & Hd' & ->); [injection Hk as -> ->; by left|right; by exists d', p', nh'].
  - intros [->|(d' & p' & nh' & HR & Hd' & ->)]; [exists d, p, nh; by rewrite lookup_insert_eq|].
    destruct (decide ((d, p) = (d', p'))) as [[= <- <-]|Hne]; [exists d, p, nh; by rewrite lookup_insert_eq|].
    exists d', p', nh'. by rewrite lookup_insert_ne.
Qed.

(** The result of adding a rule of depth [d] for the prefix [p]. *)
Definition add_result (max n8 : Z) (R : rules) (d p : Z) : Z :=
  if bool_decide (R !! (d, p) = None) && (Z.of_nat (size R) =? max) then - ENOSPC
  else if (24 <? d) && bool_decide (p / 256 ∉ deep_blocks R) && (Z.of_nat (size (deep_blocks R)) =? n8) then - ENOSPC
  else 0.

Definition invalid_depth (d : Z) : bool := (d <? 1) || (RTE_LPM_MAX_DEPTH <? d).

(** ** Owners *)

(** Owners are names for groups. *)
Lemma owners_size (ow : gmap Z Z) n :
  (forall c g, ow !! c = Some g -> 0 <= g < Z.of_nat n) -> (forall c c' g, ow !! c = Some g -> ow !! c' = Some g -> c = c') ->
  (size ow <= n)%nat /\ ((forall g, 0 <= g < Z.of_nat n -> exists c, ow !! c = Some g) -> size ow = n).
Proof.
  intros Hrange Hinj. set (l := (map_to_list ow).*2).
  assert (length l = size ow) as Hl by (unfold l; rewrite length_fmap; apply length_map_to_list).
  assert (forall g, g ∈ l <-> exists c, ow !! c = Some g) as Hin.
  { intros g. unfold l. rewrite list_elem_of_fmap. split.
    - intros ([c g'] & -> & Hk%elem_of_map_to_list). by exists c.
    - intros [c Hc]. exists (c, g). split; [done|by apply elem_of_map_to_list]. }
  assert (NoDup l) as Hnd.
  { unfold l. apply NoDup_fmap_2_strong; [|apply NoDup_map_to_list]. intros [c g] [c' g'] H H'. cbn. intros <-.
    apply elem_of_map_to_list in H, H'. by rewrite (Hinj c c' g). }
  assert (l ⊆+ seqZ 0 (Z.of_nat n)) as Hsub.
  { apply NoDup_submseteq; [done|]. intros g [c Hc]%Hin. apply elem_of_seqZ. specialize (Hrange c g Hc). lia. }
  pose proof (submseteq_length _ _ Hsub) as Hlen. rewrite length_seqZ in Hlen. split; [lia|]. intros Hall.
  assert (seqZ 0 (Z.of_nat n) ⊆+ l) as Hsub'.
  { apply NoDup_submseteq; [apply NoDup_seqZ|]. intros g Hg%elem_of_seqZ. apply Hin, Hall. lia. }
  apply submseteq_length in Hsub'. rewrite length_seqZ in Hsub'. lia.
Qed.

Lemma prefix_cell d c l : 24 < d -> d <= 32 -> 0 <= l < 256 -> prefix d (addr c l) / 256 = c.
Proof.
  intros Hd Hd32 Hl. pose proof (big_block d (prefix d (addr c l)) c l ltac:(lia) (prefix_prefix d _ ltac:(lia)) Hl) as [H _].
  by destruct (H eq_refl).
Qed.

Section Refine.
Context (nhw : Z) (Hnhw : 0 < nhw).
Notation lpm_ok := (lpm_ok nhw).

Lemma owners_deep s R ow : store s R -> tables_ok nhw s (longest_match R) ow -> dom ow = deep_blocks R.
Proof using.
  intros Hs Hok. apply set_eq. intros c. rewrite elem_of_dom, elem_deep_blocks. split.
  - intros [g Hg]. destruct (tk_deep _ _ _ _ Hok c g Hg) as (l & Hl & d & nh & Hb & Hd). apply best_some in Hb as [Hd' HR].
    exists d, (prefix d (addr c l)), nh. split; [exact HR|]. split; [done|]. by rewrite prefix_cell by lia.
  - intros (d & p & nh & HR & Hd & ->). destruct (store_range _ _ _ _ _ Hs HR) as (Hd' & [Hp0 Hp1] & Hpp).
    destruct (ow !! (p / 256)) as [g|] eqn:Ho; [by eexists|]. exfalso.
    assert (0 <= p / 256 < 2 ^ 24) as Hc. { split; [apply Z.div_pos; lia|apply Z.div_lt_upper_bound; [lia|]; change (256 * 2 ^ 24) with (2 ^ 32); lia]. }
    destruct (tk_direct _ _ _ _ Hok (p / 256) Hc Ho) as (b & Hb & Hnd & _). apply Hnd.
    destruct (best_longest R 32 p d nh ltac:(lia)) as (d' & nh' & Hbest & Hle); [by rewrite Hpp|].
    exists d', nh'. split; [|lia]. rewrite <- (Hb (p mod 256)) by (apply Z.mod_pos_bound; lia).
    assert (addr (p / 256) (p mod 256) = p) as -> by (unfold addr; pose proof (Z.div_mod p 256 ltac:(lia)); lia). exact Hbest.
Qed.

Lemma deep_bound s R : lpm_ok s R -> (size (deep_blocks R) <= Z.to_nat (number_tbl8s s))%nat.
Proof using.
  intros [Hs [ow Hok]]. rewrite <- (owners_deep _ _ _ Hs Hok), size_dom.
  apply owners_size; [|apply (tk_inj _ _ _ _ Hok)]. intros c g Hg. destruct (tk_ext _ _ _ _ Hok c g Hg) as (_ & H & _). lia.
Qed.

Lemma deep_full s R ow : store s R -> tables_ok nhw s (longest_match R) ow ->
  (forall g, 0 <= g < number_tbl8s s -> te_valid_group (t8 s (g * 256)) <> 0) -> size (deep_blocks R) = Z.to_nat (number_tbl8s s).
Proof using.
  intros Hs Hok Hall. rewrite <- (owners_deep _ _ _ Hs Hok), size_dom.
  apply owners_size; [|apply (tk_inj _ _ _ _ Hok)|].
  - intros c g Hg. destruct (tk_ext _ _ _ _ Hok c g Hg) as (_ & H & _). lia.
  - intros g Hg. apply (tk_used _ _ _ _ Hok); [lia|]. apply Hall. lia.
Qed.

(** ** Changing the rules *)

Lemma longest_insert R d p nh ip : 1 <= d <= 32 -> longest_match (<[(d, p) := nh]> R) ip = on_block d p (better d nh) (longest_match R) ip.
Proof using. intros Hd. unfold longest_match, on_block. rewrite best_insert by done. by rewrite (proj2 (Z.leb_le d (Z.of_nat 32))) by lia. Qed.

Lemma longest_delete R d p ip : 1 <= d <= 32 -> prefix d p = p ->
  longest_match (delete (d, p) R) ip = on_block d p (without d (best R (Z.to_nat (d - 1)) p)) (longest_match R) ip.
Proof using.
  intros Hd Hp. unfold longest_match, on_block. rewrite best_delete by done. rewrite (proj2 (Z.leb_le d (Z.of_nat 32))) by lia. cbn [andb].
  destruct (Z.eqb_spec (prefix d ip) p) as [E|]; [|done]. by rewrite (best_prefix R _ d p ip) by (lia || by rewrite Hp).
Qed.

Lemma longest_coherent R c : coherent (longest_match R) c.
Proof using.
  intros l l' d nh Hl Hl' Hb Hd. destruct (best_some _ _ _ _ _ Hb) as [Hd' _]. apply (best_same R 32 (addr c l) d nh); [lia|done|].
  apply prefix_eq; [lia|]. replace (32 - d) with (8 + (24 - d)) by lia. rewrite Z.pow_add_r by lia.
  rewrite <- !Z.div_div by (try apply Z.pow_nonzero; try apply Z.pow_pos_nonneg; lia). change (2 ^ 8) with 256. by rewrite !addr_div.
Qed.

Lemma tables_insert s R d p nh ow : 1 <= d <= 32 ->
  tables_ok nhw s (on_block d p (better d nh) (longest_match R)) ow -> tables_ok nhw s (longest_match (<[(d, p) := nh]> R)) ow.
Proof using. intros Hd. apply tables_ok_ext. intros c l _ _. by rewrite longest_insert. Qed.

Lemma tables_delete s R d p ow : 1 <= d <= 32 -> prefix d p = p ->
  tables_ok nhw s (on_block d p (without d (best R (Z.to_nat (d - 1)) p)) (longest_match R)) ow -> tables_ok nhw s (longest_match (delete (d, p) R)) ow.
Proof using. intros Hd Hp. apply tables_ok_ext. intros c l _ _. by rewrite longest_delete. Qed.

Lemma tables_rules s s' B ow : only_rules s s' -> tables_ok nhw s B ow -> tables_ok nhw s' B ow.
Proof using. intros -> [H1 H2 H3 H4 H5 H6]. by split. Qed.

(** ** Adding *)

Lemma valid_depth d : invalid_depth d = false <-> 1 <= d <= 32.
Proof using. unfold invalid_depth, RTE_LPM_MAX_DEPTH. destruct (Z.ltb_spec d 1), (Z.ltb_spec 32 d); cbn; split; try done; lia. Qed.

Definition same_size (s s' : rte_lpm) : Prop := max_rules s' = max_rules s /\ number_tbl8s s' = number_tbl8s s.

Lemma same_size_rules s s' : only_rules s s' -> same_size s s'.
Proof using. by intros ->. Qed.

Lemma same_size_tables s s' : only_tables s s' -> same_size s s'.
Proof using. by intros ->. Qed.

#[local] Instance same_size_preorder : PreOrder same_size.
Proof using. split; unfold same_size; [done|]. intros x y z [H1 H2] [H3 H4]. by rewrite H3, H4. Qed.

(** The tables after the rule was stored. *)
Lemma add_stored s s1 R ow d p nh idx :
  store s R -> tables_ok nhw s (longest_match R) ow -> only_rules s s1 -> located s1 (<[(d, p) := nh]> R) idx d p ->
  1 <= d <= 32 -> in_range 32 p -> prefix d p = p -> 0 <= idx ->
  let full := (24 <? d) && bool_decide (p / 256 ∉ deep_blocks R) && (Z.of_nat (size (deep_blocks R)) =? number_tbl8s s) in
  exists s', (if d <=? MAX_DEPTH_TBL24 then add_depth_small nhw p d nh ;; mret 0
     else status ← add_depth_big nhw p d nh; if status <? 0 then rule_delete idx d ;; mret status else mret 0) s1
    = (s', Ret (if full then - ENOSPC else 0))
    /\ same_size s s' /\ lpm_ok s' (if full then R else <[(d, p) := nh]> R).
Proof using Hnhw.
  intros Hs Hok Hfr Hloc Hd Hp Hpp Hidx full. pose proof (tables_rules _ _ _ _ Hfr Hok) as Hok1.
  pose proof (same_size_rules _ _ Hfr) as Hsz. unfold MAX_DEPTH_TBL24. destruct (Z.leb_spec d 24) as [Hd24|Hd24].
  - assert (full = false) as -> by (unfold full; by rewrite (proj2 (Z.ltb_ge 24 d)) by lia).
    destruct (add_small_run nhw Hnhw s1 (longest_match R) ow d p nh) as (s' & Hrun & Hfr' & Hok'); try done; [lia|].
    rewrite (bind_ret _ _ _ _ _ Hrun). exists s'. split; [done|]. split; [transitivity s1; [done|by apply same_size_tables]|].
    split; [eapply store_frame; [done|by eapply located_store]|]. exists ow. by apply tables_insert.
  - destruct (add_big_run nhw Hnhw s1 (longest_match R) ow d p nh) as [(s' & ow' & Hrun & Hfr' & Hok')|(Hrun & Ho & Hall)]; try done; [lia| |].
    + rewrite (bind_ret _ _ _ _ _ Hrun). apply tables_insert in Hok'; [|done].
      assert (lpm_ok s' (<[(d, p) := nh]> R)) as Hok2 by (split; [eapply store_frame; [done|by eapply located_store]|by exists ow']).
      assert (same_size s s') as Hsz' by (transitivity s1; [done|by apply same_size_tables]).
      assert (full = false) as ->; [|by exists s'].
      unfold full. destruct (bool_decide_reflect (p / 256 ∉ deep_blocks R)) as [Hnin|]; [|by rewrite andb_false_r].
      pose proof (deep_bound _ _ Hok2) as Hb. rewrite deep_blocks_insert, size_union, size_singleton in Hb by (done || set_solver).
      destruct Hsz' as [_ Hn]. rewrite Hn in Hb. destruct (Z.eqb_spec (Z.of_nat (size (deep_blocks R))) (number_tbl8s s)); [lia|by rewrite andb_false_r].
    + rewrite (bind_ret _ _ _ _ _ Hrun). cbn [Z.ltb Z.opp Z.compare].
      change (- ENOSPC <? 0) with true. cbv iota.
      destruct (rule_delete_store _ _ _ _ _ Hloc) as (s' & Hdel & Hfr' & Hs'). rewrite (bind_ret _ _ _ _ _ Hdel).
      assert (p / 256 ∉ deep_blocks R) as Hnin by (rewrite <- (owners_deep _ _ _ Hs Hok); by apply not_elem_of_dom).
      assert (R !! (d, p) = None) as HR.
      { destruct (R !! (d, p)) as [nh'|] eqn:E; [|done]. destruct Hnin. apply elem_deep_blocks. by exists d, p, nh'. }
      assert (full = true) as ->.
      { unfold full. rewrite (proj2 (Z.ltb_lt 24 d)), bool_decide_true by (done || lia). cbn [andb]. apply Z.eqb_eq.
        rewrite (deep_full s R ow Hs Hok). 2:{ destruct Hsz as [_ Hn]. rewrite Hn in Hall. intros g Hg. rewrite Hfr in Hall. by apply Hall. }
        pose proof (tk_sized _ _ _ _ Hok) as (Hn1 & _). lia. }
      exists s'. split; [done|]. split; [transitivity s1; [done|by apply same_size_rules]|].
      rewrite delete_insert_id in Hs' by done. split; [done|]. exists ow. eapply tables_rules; [exact Hfr'|exact Hok1].
Qed.

Lemma mask_prefix d ip : 1 <= d <= 32 -> in_range 32 ip ->
  Z.land ip (depth_to_mask d) = prefix d ip /\ in_range 32 (prefix d ip) /\ prefix d (prefix d ip) = prefix d ip.
Proof using.
  intros Hd Hip. split; [by apply depth_to_mask_spec|]. split; [apply prefix_range; [lia|done]|apply prefix_prefix; lia].
Qed.

(** [rte_lpm_add]: the rule is inserted, or a table is full and nothing changes. *)
Lemma add_refines s R ip d nh :
  lpm_ok s R -> in_range 32 ip ->
  let p := prefix d ip in
  let ret := if invalid_depth d then - EINVAL else add_result (max_rules s) (number_tbl8s s) R d p in
  exists s', rte_lpm_add nhw ip d nh s = (s', Ret ret) /\ same_size s s' /\ lpm_ok s' (if ret =? 0 then <[(d, p) := nh]> R else R).
Proof using Hnhw.
  intros [Hs [ow Hok]] Hip p ret. unfold rte_lpm_add. fold (invalid_depth d). unfold ret. destruct (invalid_depth d) eqn:Ed.
  { exists s. split; [done|]. split; [done|]. split; [done|by exists ow]. }
  apply valid_depth in Ed. destruct (mask_prefix d ip Ed Hip) as (Hm & Hp & Hpp). rewrite Hm. fold p in Hm, Hp, Hpp |- *.
  destruct (rule_add_store s R d p nh Hs Ed Hp Hpp) as (s1 & idx & Hrun & Hfr & Hidx). rewrite (bind_ret _ _ _ _ _ Hrun).
  unfold add_result. destruct (bool_decide (R !! (d, p) = None) && (Z.of_nat (size R) =? max_rules s)).
  - destruct Hidx as [-> Hs1]. exists s1. split; [done|]. split; [by apply same_size_rules|]. split; [done|]. exists ow. by eapply tables_rules.
  - destruct Hidx as [Hidx Hloc]. rewrite (proj2 (Z.ltb_ge idx 0)) by lia.
    destruct (add_stored s s1 R ow d p nh idx Hs Hok Hfr Hloc Ed Hp Hpp Hidx) as (s' & Hrun' & Hsz & Hok').
    rewrite Hrun'. exists s'. split; [done|]. split; [done|]. by destruct (_ && _ && _).
Qed.

(** ** Deleting *)

Lemma best_without R d p ip : 1 <= d <= 32 -> best (delete (d, p) R) (Z.to_nat (d - 1)) ip = best R (Z.to_nat (d - 1)) ip.
Proof using. intros Hd. rewrite best_delete by done. by rewrite (proj2 (Z.leb_gt d (Z.of_nat (Z.to_nat (d - 1))))) by lia. Qed.

(** What [find_previous_rule] hands to the table code. *)
Lemma previous_sub s R n ip : store s R -> in_range 32 ip -> (n <= 32)%nat ->
  exists r, find_previous_rule n ip s = (s, Ret r) /\ sub_at s r.1 r.2 (best R n ip).
Proof using.
  intros Hs Hip Hn. destruct (find_previous_store s R n ip Hs Hip Hn) as (r & Hrun & Hr). exists r. split; [done|].
  destruct (best R n ip) as [[d nh]|] eqn:Eb; [|by rewrite Hr]. destruct Hr as (H0 & Hd & Hloc).
  destruct (located_rule _ _ _ _ _ Hloc) as (nh' & HR & Hat & Hr). split; [done|]. split; [done|]. rewrite Hat. cbn.
  apply best_some in Eb as [_ Eb]. congruence.
Qed.

(** The tables after the rule was deleted from the rule table. *)
Lemma delete_stored s R ow d p nh idx sd :
  store s (delete (d, p) R) -> tables_ok nhw s (longest_match R) ow -> dom ow = deep_blocks R ->
  R !! (d, p) = Some nh -> sub_at s idx sd (best R (Z.to_nat (d - 1)) p) -> 1 <= d <= 32 -> in_range 32 p -> prefix d p = p ->
  exists s', (if d <=? MAX_DEPTH_TBL24 then delete_depth_small nhw p d idx sd else delete_depth_big nhw p d idx sd) s = (s', Ret 0)
    /\ only_tables s s' /\ lpm_ok s' (delete (d, p) R).
Proof using Hnhw.
  intros Hs Hok How HR Hsub Hd Hp Hpp. set (sub := best R (Z.to_nat (d - 1)) p) in *.
  assert (forall ip, prefix d ip = p -> longest_match R ip <> None) as Hcov.
  { intros ip Hip. destruct (best_longest R 32 ip d nh) as (d' & nh' & Hb & _); [lia|rewrite Hip; exact HR|]. unfold longest_match. by rewrite Hb. }
  assert (forall d' nh', sub = Some (d', nh') -> d' < d) as Hsubd by (intros d' nh' E; apply best_some in E as [E _]; lia).
  unfold MAX_DEPTH_TBL24. destruct (Z.leb_spec d 24) as [Hd24|Hd24].
  - destruct (delete_small_run nhw Hnhw s (longest_match R) ow d p idx sd sub) as (s' & Hrun & Hfr & Hok'); try done; [lia| |].
    + intros (d' & nh' & E & Hd'). specialize (Hsubd _ _ E). lia.
    + exists s'. split; [done|]. split; [done|]. split; [by eapply store_frame|]. exists ow. by apply tables_delete.
  - destruct (delete_big_run nhw Hnhw s (longest_match R) ow d p idx sd sub) as (s' & ow' & Hrun & Hfr & Hok'); try done; [lia| | |].
    + apply elem_of_dom. rewrite How. apply elem_deep_blocks. by exists d, p, nh.
    + intros l l' d' nh'. unfold sub. rewrite <- !longest_delete by done. apply longest_coherent.
    + exists s'. split; [done|]. split; [done|]. split; [by eapply store_frame|]. exists ow'. by apply tables_delete.
Qed.

(** [rte_lpm_delete]: the rule is deleted, if it exists. *)
Lemma delete_refines s R ip d :
  lpm_ok s R -> in_range 32 ip ->
  let k := (d, prefix d ip) in
  let ret := if invalid_depth d then - EINVAL else if R !! k then 0 else - EINVAL in
  exists s', rte_lpm_delete nhw ip d s = (s', Ret ret) /\ same_size s s' /\ lpm_ok s' (if ret =? 0 then delete k R else R).
Proof using Hnhw.
  intros [Hs [ow Hok]] Hip k ret. unfold rte_lpm_delete. fold (invalid_depth d). unfold ret. destruct (invalid_depth d) eqn:Ed.
  { exists s. split; [done|]. split; [done|]. split; [done|by exists ow]. }
  apply valid_depth in Ed. destruct (mask_prefix d ip Ed Hip) as (Hm & Hp & Hpp). rewrite Hm. unfold k. set (p := prefix d ip) in *.
  destruct (rule_find_store s R d p Hs Ed) as (idx & Hrun & Hidx). cbv zeta. rewrite (bind_ret _ _ _ _ _ Hrun).
  destruct (R !! (d, p)) as [nh|] eqn:HR; cbn in Hidx.
  - destruct Hidx as [Hidx Hloc]. rewrite (proj2 (Z.ltb_ge idx 0)) by lia.
    destruct (rule_delete_store _ _ _ _ _ Hloc) as (s1 & Hdel & Hfr & Hs1). rewrite (bind_ret _ _ _ _ _ Hdel).
    destruct (previous_sub s1 _ (Z.to_nat (d - 1)) ip Hs1 Hip ltac:(lia)) as ([sidx sd] & Hprev & Hsub). rewrite (bind_ret _ _ _ _ _ Hprev). cbn in Hsub.
    rewrite best_without, (best_prefix R _ d ip p) in Hsub by (done || lia).
    destruct (delete_stored s1 R ow d p nh sidx sd) as (s' & Hrun' & Hfr' & Hok'); try done; [by eapply tables_rules|by apply owners_deep with s|].
    exists s'. split; [exact Hrun'|]. split; [|done]. transitivity s1; [by apply same_size_rules|by apply same_size_tables].
  - subst idx. exists s. split; [done|]. split; [done|]. split; [done|by exists ow].
Qed.

(** ** Asking *)

(** [rte_lpm_is_rule_present]: the next hop as it was given, not cut to the width of the tables. *)
Lemma is_rule_present_refines s R ip d :
  lpm_ok s R -> in_range 32 ip ->
  rte_lpm_is_rule_present ip d s
  = (s, Ret (if invalid_depth d then (- EINVAL, None) else match R !! (d, prefix d ip) with Some nh => (1, Some nh) | None => (0, None) end)).
Proof using.
  intros [Hs _] Hip. unfold rte_lpm_is_rule_present. fold (invalid_depth d). destruct (invalid_depth d) eqn:Ed; [done|].
  apply valid_depth in Ed. destruct (mask_prefix d ip Ed Hip) as (Hm & _). rewrite Hm.
  destruct (rule_find_store s R d (prefix d ip) Hs Ed) as (idx & Hrun & Hidx). rewrite (bind_ret _ _ _ _ _ Hrun).
  destruct (R !! (d, prefix d ip)) as [nh|] eqn:HR; cbn in Hidx; [|by subst idx].
  destruct Hidx as [Hidx Hloc]. rewrite (proj2 (Z.leb_le 0 idx)) by lia. destruct (located_rule _ _ _ _ _ Hloc) as (nh' & HR' & Hat & Hr).
  rewrite (bind_ret _ _ _ _ _ (rd_rule_run s idx Hr)), Hat. rewrite HR in HR'. by injection HR' as <-.
Qed.
End Refine.
