(* ===== verification/LpmLookup.v ===== *)
(** * Lookups in a longest prefix match table (lib/librte_lpm)

    The one-address lookup, the bulk lookup and the four-lane lookup read the words that
    the entries of the tables are in memory. *)

From S2P Require Import Prelude Effects Lpm LpmSpec LpmRules LpmStore LpmTables LpmGroups LpmRefine.

(** ** Words *)

Lemma word_range e : in_range 32 (entry_word e).
Proof. apply wrap_range. lia. Qed.

Lemma word_testbit e i : 0 <= i < 32 ->
  Z.testbit (entry_word e) i = Z.testbit (te_next_hop e) i || (Z.testbit (te_valid e) (i - 24)
    || (Z.testbit (te_valid_group e) (i - 25) || Z.testbit (te_depth e) (i - 26))).
Proof.
  intros Hi. unfold entry_word. rewrite wrap_testbit by lia. rewrite (proj2 (Z.ltb_lt i 32)) by lia. rewrite !Z.lor_spec, !Z.shiftl_spec by lia. done.
Qed.

Lemma word_hop e : in_range 24 (te_next_hop e) -> Z.land (entry_word e) 0x00FFFFFF = te_next_hop e.
Proof.
  intros He. change 0x00FFFFFF with (Z.ones 24). apply Z.bits_inj'. intros i Hi. rewrite Z.land_spec.
  destruct (decide (i < 24)).
  - rewrite Z.ones_spec_low, andb_true_r, word_testbit by lia. rewrite !(Z.testbit_neg_r _ (i - _)) by lia. by rewrite !orb_false_r.
  - rewrite Z.ones_spec_high, andb_false_r by lia. symmetry. apply (in_range_testbit 24); done || lia.
Qed.

Lemma word_bit24 e : in_range 24 (te_next_hop e) -> Z.testbit (entry_word e) 24 = Z.odd (te_valid e).
Proof.
  intros He. rewrite word_testbit by lia. rewrite (in_range_testbit 24 _ 24) by (done || lia).
  change (Z.testbit (te_valid_group e) (24 - 25)) with false. change (Z.testbit (te_depth e) (24 - 26)) with false. cbn [orb]. by rewrite orb_false_r, Z.bit0_odd.
Qed.

Lemma word_bit25 e : in_range 24 (te_next_hop e) -> te_valid e = 1 -> Z.testbit (entry_word e) 25 = Z.odd (te_valid_group e).
Proof.
  intros He Hv. rewrite word_testbit by lia. rewrite (in_range_testbit 24 _ 25) by (done || lia). rewrite Hv.
  change (Z.testbit (te_depth e) (25 - 26)) with false. change (Z.testbit 1 (25 - 24)) with false. cbn [orb]. by rewrite orb_false_r, Z.bit0_odd.
Qed.

Lemma land_bit w n : 0 <= n -> (Z.land w (2 ^ n) =? 0) = negb (Z.testbit w n).
Proof.
  intros Hn. rewrite <- Z.shiftl_1_l. destruct (Z.testbit w n) eqn:E; cbn.
  - apply Z.eqb_neq. intros H. assert (Z.testbit (Z.land w (Z.shiftl 1 n)) n = true) as Ht; [|by rewrite H, Z.bits_0 in Ht].
    rewrite Z.land_spec, E, Z.shiftl_spec, Z.sub_diag by lia. done.
  - apply Z.eqb_eq, Z.bits_inj'. intros i Hi. rewrite Z.land_spec, Z.bits_0, Z.shiftl_spec by lia.
    destruct (decide (i = n)) as [->|]; [by rewrite E|]. destruct (decide (i < n)); [rewrite (Z.testbit_neg_r 1) by lia; by rewrite andb_false_r|].
    replace (i - n) with (Z.succ (i - n - 1)) by lia. change 1 with (2 * 0 + 1) at 1. rewrite Z.testbit_odd_succ by lia. by rewrite Z.bits_0, andb_false_r.
Qed.

Lemma success_bit w : (Z.land w RTE_LPM_LOOKUP_SUCCESS =? 0) = negb (Z.testbit w 24).
Proof. change RTE_LPM_LOOKUP_SUCCESS with (2 ^ 24). by apply land_bit. Qed.

Lemma is_ext_bits w : is_ext w = Z.testbit w 24 && Z.testbit w 25.
Proof.
  unfold is_ext. change RTE_LPM_VALID_EXT_ENTRY_BITMASK with (2 ^ 24 + 2 ^ 25).
  destruct (Z.eqb_spec (Z.land w (2 ^ 24 + 2 ^ 25)) (2 ^ 24 + 2 ^ 25)) as [E|E].
  - assert (forall i, Z.testbit (Z.land w (2 ^ 24 + 2 ^ 25)) i = Z.testbit (2 ^ 24 + 2 ^ 25) i) as Hb by (by rewrite E).
    pose proof (Hb 24) as H24. pose proof (Hb 25) as H25. rewrite Z.land_spec in H24, H25.
    apply andb_true_iff in H24 as [-> _], H25 as [-> _]. done.
  - symmetry. destruct (Z.testbit w 24) eqn:E24; [|done]. destruct (Z.testbit w 25) eqn:E25; [|done]. destruct E.
    apply Z.bits_inj'. intros i Hi. rewrite Z.land_spec. destruct (Z.testbit (2 ^ 24 + 2 ^ 25) i) eqn:Ei; [|by rewrite andb_false_r].
    rewrite andb_true_r. change (2 ^ 24 + 2 ^ 25) with (Z.shiftl 3 24) in Ei. rewrite Z.shiftl_spec in Ei by lia.
    assert (i = 24 \/ i = 25) as [->| ->]; [|done|done]. destruct (decide (i < 24)); [by rewrite Z.testbit_neg_r in Ei by lia|].
    destruct (decide (i < 26)); [lia|]. by rewrite (in_range_testbit 2 3 (i - 24)) in Ei by (unfold in_range; lia).
Qed.

(** ** One address *)

(** What a word says: the next hop, if it is valid. *)
Definition word_answer (w : Z) : option Z := if Z.testbit w 24 then Some (Z.land w 0x00FFFFFF) else None.

Lemma entry_answer e b : entry_ok 24 e b -> word_answer (entry_word e) = wrap 24 ∘ snd <$> b.
Proof.
  intros [Hr He]. unfold word_answer. rewrite word_bit24 by done. destruct b as [[d nh]|].
  - destruct He as (-> & _ & Hn). cbn. by rewrite word_hop, Hn by done.
  - by rewrite He.
Qed.

Lemma word24_run s c : 0 <= c < 2 ^ 24 -> word24 c s = (s, Ret (entry_word (t24 s c))).
Proof. intros Hc. unfold word24. by rewrite (bind_ret _ _ _ _ _ (rd_tbl24_run s c Hc)). Qed.

Lemma word8_run s i : 0 <= i < tbl8_len s -> word8 i s = (s, Ret (entry_word (t8 s i))).
Proof. intros Hi. unfold word8. by rewrite (bind_ret _ _ _ _ _ (rd_tbl8_run s i Hi)). Qed.

(** A direct cell answers itself; an extended one names the group whose entry does. *)
Lemma cell_word s B ow c :
  tables_ok 24 s B ow -> 0 <= c < 2 ^ 24 ->
  match ow !! c with
  | None => is_ext (entry_word (t24 s c)) = false /\ forall l, 0 <= l < 256 -> word_answer (entry_word (t24 s c)) = wrap 24 ∘ snd <$> B (addr c l)
  | Some g => is_ext (entry_word (t24 s c)) = true /\ Z.land (entry_word (t24 s c)) 0x00FFFFFF = g /\ 0 <= g < number_tbl8s s
      /\ forall l, 0 <= l < 256 -> word_answer (entry_word (t8 s (g * 256 + l))) = wrap 24 ∘ snd <$> B (addr c l)
  end.
Proof.
  intros Hok Hc. rewrite is_ext_bits. destruct (ow !! c) as [g|] eqn:Ho.
  - destruct (tk_ext _ _ _ _ Hok c g Ho) as (_ & Hg & (He1 & He2 & He3) & [_ Hgr]). destruct (tk_sized _ _ _ _ Hok) as (Hn & _).
    assert (in_range 24 (te_next_hop (t24 s c))) as Hr by (rewrite He3; unfold in_range; lia).
    rewrite word_bit24, word_bit25, word_hop, He1, He2 by done. split; [done|]. split; [done|]. split; [done|]. intros l Hl. by apply entry_answer, Hgr.
  - destruct (tk_direct _ _ _ _ Hok c Hc Ho) as (b & Hb & _ & He & Hv). split.
    + destruct He as [Hr He]. rewrite word_bit24 by done. destruct b as [[d nh]|]; [|by rewrite He].
      destruct He as (He1 & _). by rewrite word_bit25, Hv, andb_false_r by done.
    + intros l Hl. rewrite Hb by done. by apply entry_answer.
Qed.

Lemma split_ip ip : in_range 32 ip -> Z.shiftr ip 8 = ip / 256 /\ 0 <= ip / 256 < 2 ^ 24 /\ u8 ip = ip mod 256 /\ addr (ip / 256) (ip mod 256) = ip.
Proof.
  intros [H0 H1]. split; [by rewrite Z.shiftr_div_pow2|]. split; [|split; [done|unfold addr; pose proof (Z.div_mod ip 256 ltac:(lia)); lia]].
  split; [apply Z.div_pos; lia|apply Z.div_lt_upper_bound; [lia|]; change (256 * 2 ^ 24) with (2 ^ 32); lia].
Qed.

Lemma lookup_word_run s R ip :
  lpm_ok 24 s R -> in_range 32 ip ->
  exists w, lookup_word ip s = (s, Ret w) /\ in_range 32 w /\ word_answer w = wrap 24 ∘ snd <$> longest_match R ip.
Proof.
  intros [Hs [ow Hok]] Hip. destruct (split_ip ip Hip) as (H1 & Hc & H2 & H3). pose proof (Z.mod_pos_bound ip 256 ltac:(lia)) as Hl.
  pose proof (cell_word s _ ow (ip / 256) Hok Hc) as Hw. destruct (tk_sized _ _ _ _ Hok) as (Hn & _ & Hlen).
  unfold lookup_word. rewrite H1, (bind_ret _ _ _ _ _ (word24_run s _ Hc)), H2. destruct (ow !! (ip / 256)) as [g|].
  - destruct Hw as (-> & -> & Hg & Ha). change RTE_LPM_TBL8_GROUP_NUM_ENTRIES with 256.
    rewrite (wrap_small 32 (g * 256)) by (unfold in_range; lia). rewrite wrap_small by (unfold in_range; lia).
    rewrite word8_run by lia. eexists. split; [reflexivity|]. split; [apply word_range|]. rewrite Z.add_comm, Ha by done. by rewrite H3.
  - destruct Hw as (-> & Ha). eexists. split; [reflexivity|]. split; [apply word_range|]. rewrite (Ha (ip mod 256)) by done. by rewrite H3.
Qed.

Lemma lookup_refines s R ip :
  lpm_ok 24 s R -> in_range 32 ip ->
  exists v, rte_lpm_lookup ip s = (s, Ret v) /\
  match longest_match R ip with Some (_, nh) => v = (0, wrap 24 nh) | None => v.1 = - ENOENT end.
Proof.
  intros Hok Hip. destruct (lookup_word_run s R ip Hok Hip) as (w & Hrun & _ & Ha). unfold rte_lpm_lookup.
  rewrite (bind_ret _ _ _ _ _ Hrun). eexists. split; [reflexivity|]. rewrite success_bit. unfold word_answer in Ha.
  destruct (Z.testbit w 24), (longest_match R ip) as [[d nh]|]; try done. cbn. by injection Ha as ->.
Qed.

Lemma lookup_bulk_run s R ips :
  lpm_ok 24 s R -> Forall (in_range 32) ips ->
  exists ws, rte_lpm_lookup_bulk_func ips s = (s, Ret ws) /\ word_answer <$> ws = (fun ip => wrap 24 ∘ snd <$> longest_match R ip) <$> ips.
Proof.
  intros Hok. unfold rte_lpm_lookup_bulk_func. induction 1 as [|ip ips Hip _ (ws & Hrun & Ha)]; [by exists []|].
  destruct (lookup_word_run s R ip Hok Hip) as (w & Hw & _ & Haw). exists (w :: ws). cbn [foldr]. rewrite (bind_ret _ _ _ _ _ Hw).
  erewrite bind_ret; [|exact Hrun]. split; [done|]. rewrite !fmap_cons. by rewrite Haw, Ha.
Qed.

(** ** Four addresses *)

Lemma lo32_pair a b : in_range 32 a -> lo32 (Z.lor a (Z.shiftl b 32)) = a.
Proof.
  intros Ha. unfold lo32. apply Z.bits_inj'. intros i Hi. rewrite wrap_testbit, Z.lor_spec, Z.shiftl_spec by lia.
  destruct (Z.ltb_spec i 32); cbn [andb]; [rewrite (Z.testbit_neg_r b) by lia; by rewrite orb_false_r|].
  symmetry. apply (in_range_testbit 32); done || lia.
Qed.

Lemma shiftr_pair a b : in_range 32 a -> Z.shiftr (Z.lor a (Z.shiftl b 32)) 32 = b.
Proof.
  intros Ha. apply Z.bits_inj'. intros i Hi. rewrite Z.shiftr_spec, Z.lor_spec, Z.shiftl_spec by lia.
  rewrite (in_range_testbit 32 a) by (done || lia). cbn. by rewrite Z.add_simpl_r.
Qed.

Lemma is_ext_pair a b : is_ext (Z.lor a (Z.shiftl b 32)) = is_ext a.
Proof. rewrite !is_ext_bits, !Z.lor_spec, !Z.shiftl_spec, !(Z.testbit_neg_r b) by lia. by rewrite !orb_false_r. Qed.

Definition answer_for (R : rules) (defv ip : Z) : Z := default defv (wrap 24 ∘ snd <$> longest_match R ip).

Definition hop_of (defv w : Z) : Z := if Z.land w RTE_LPM_LOOKUP_SUCCESS =? 0 then defv else Z.land w 0x00FFFFFF.

Lemma hop_of_answer defv w : hop_of defv w = default defv (word_answer w).
Proof. unfold hop_of, word_answer. rewrite success_bit. by destruct (Z.testbit w 24). Qed.

(** A lane reads [tbl8] as the one-address lookup does, if a byte is enough for the group. *)
Lemma lane_run s R ip :
  lpm_ok 24 s R -> in_range 32 ip -> number_tbl8s s <= 256 ->
  exists w0, word24 (Z.shiftr ip 8) s = (s, Ret w0) /\ in_range 32 w0
    /\ (is_ext w0 = false -> forall defv, hop_of defv w0 = answer_for R defv ip)
    /\ forall pw, is_ext pw = is_ext w0 -> exists w, x4_lane pw w0 (u8 ip) s = (s, Ret w) /\ forall defv, hop_of defv w = answer_for R defv ip.
Proof.
  intros [Hs [ow Hok]] Hip Hsmall. destruct (split_ip ip Hip) as (H1 & Hc & H2 & H3). pose proof (Z.mod_pos_bound ip 256 ltac:(lia)) as Hl.
  pose proof (cell_word s _ ow (ip / 256) Hok Hc) as Hw. destruct (tk_sized _ _ _ _ Hok) as (Hn & _ & Hlen).
  rewrite H1, H2, word24_run by done. eexists. split; [reflexivity|]. split; [apply word_range|].
  unfold x4_lane, answer_for. setoid_rewrite hop_of_answer. destruct (ow !! (ip / 256)) as [g|].
  - destruct Hw as (-> & Hg & Hgr & Ha). split; [done|]. intros pw ->. set (w0 := entry_word _) in *.
    assert (u8 w0 = g) as ->.
    { rewrite <- (wrap_small 8 g) by (unfold in_range; lia). rewrite <- Hg. change 0x00FFFFFF with (Z.ones 24). rewrite Z.land_ones by lia.
      unfold wrap. rewrite Z.mod_mod_divide; [done|]. exists (2 ^ 16). done. }
    change RTE_LPM_TBL8_GROUP_NUM_ENTRIES with 256. rewrite wrap_small by (unfold in_range; lia).
    rewrite word8_run by lia. eexists. split; [reflexivity|]. intros defv. rewrite Z.add_comm, Ha by done. by rewrite H3.
  - destruct Hw as (-> & Ha). split.
    + intros _ defv. rewrite (Ha (ip mod 256)) by done. by rewrite H3.
    + intros pw ->. eexists. split; [reflexivity|]. intros defv. rewrite (Ha (ip mod 256)) by done. by rewrite H3.
Qed.

(** The fast path: both lanes of a pair are valid and direct. *)
Lemma pair_fast a b :
  in_range 32 a -> in_range 32 b ->
  let pt := Z.lor a (Z.shiftl b 32) in
  (Z.land pt (Z.lor RTE_LPM_VALID_EXT_ENTRY_BITMASK (Z.shiftl RTE_LPM_VALID_EXT_ENTRY_BITMASK 32))
   =? Z.lor RTE_LPM_LOOKUP_SUCCESS (Z.shiftl RTE_LPM_LOOKUP_SUCCESS 32)) = true ->
  (is_ext a = false /\ is_ext b = false) /\
  forall defv, lo32 (Z.land pt RTE_LPM_MASKX4_RES) = hop_of defv a /\ hi32 (Z.land pt RTE_LPM_MASKX4_RES) = hop_of defv b.
Proof.
  intros Ha Hb pt Heq%Z.eqb_eq.
  assert (forall i, 0 <= i -> Z.testbit pt i = Z.testbit a i || Z.testbit b (i - 32)) as Hpt
    by (intros i Hi; unfold pt; rewrite Z.lor_spec, Z.shiftl_spec by lia; done).
  set (mx := Z.lor RTE_LPM_VALID_EXT_ENTRY_BITMASK _) in Heq. set (mv := Z.lor RTE_LPM_LOOKUP_SUCCESS _) in Heq.
  assert (forall i, 0 <= i -> Z.testbit mx i = true -> Z.testbit pt i = Z.testbit mv i) as Hbit
    by (intros i Hi Hm; rewrite <- Heq, Z.land_spec, Hm; by rewrite andb_true_r).
  pose proof (Hbit 24 ltac:(lia) eq_refl) as B24. pose proof (Hbit 25 ltac:(lia) eq_refl) as B25.
  pose proof (Hbit 56 ltac:(lia) eq_refl) as B56. pose proof (Hbit 57 ltac:(lia) eq_refl) as B57.
  rewrite Hpt in B24, B25, B56, B57 by lia. rewrite (in_range_testbit 32 a) in B56, B57 by (done || lia).
  rewrite (Z.testbit_neg_r b) in B24, B25 by lia. rewrite orb_false_r in B24, B25. cbn [orb] in B56, B57.
  change (56 - 32) with 24 in B56. change (57 - 32) with 25 in B57.
  change (Z.testbit mv 24) with true in B24. change (Z.testbit mv 25) with false in B25.
  change (Z.testbit mv 56) with true in B56. change (Z.testbit mv 57) with false in B57.
  split; [rewrite !is_ext_bits, B24, B25, B56, B57; done|]. intros defv. unfold hop_of. rewrite !success_bit, B24, B56. cbn [negb].
  assert (Z.land pt RTE_LPM_MASKX4_RES = Z.lor (Z.land a 0x00FFFFFF) (Z.shiftl (Z.land b 0x00FFFFFF) 32)) as ->.
  { unfold pt. change RTE_LPM_MASKX4_RES with (Z.lor (Z.ones 24) (Z.shiftl (Z.ones 24) 32)). change 0x00FFFFFF with (Z.ones 24).
    apply Z.bits_inj'. intros i Hi. rewrite Z.land_spec, !Z.lor_spec, !Z.shiftl_spec, !Z.land_spec by lia.
    destruct (decide (i < 32)) as [Hi32|Hi32].
    - rewrite !(Z.testbit_neg_r _ (i - 32)) by lia. cbn. by rewrite !orb_false_r.
    - rewrite (in_range_testbit 32 a) by (done || lia). rewrite (Z.ones_spec_high 24 i) by lia. done. }
  assert (forall x, in_range 32 (Z.land x 0x00FFFFFF)) as Hr.
  { intros x. change 0x00FFFFFF with (Z.ones 24). rewrite Z.land_ones by lia. pose proof (Z.mod_pos_bound x (2 ^ 24) ltac:(lia)). unfold in_range. lia. }
  split; [by apply lo32_pair|]. unfold hi32. rewrite shiftr_pair by done. by apply wrap_small.
Qed.

Lemma lookupx4_run s R ip0 ip1 ip2 ip3 defv :
  lpm_ok 24 s R -> Forall (in_range 32) [ip0; ip1; ip2; ip3] -> number_tbl8s s <= 256 ->
  rte_lpm_lookupx4 ip0 ip1 ip2 ip3 defv s
  = (s, Ret (answer_for R defv ip0, answer_for R defv ip1, answer_for R defv ip2, answer_for R defv ip3)).
Proof.
  intros Hok Hips Hsmall. inversion_clear Hips as [|? ? H0 Hips0]. inversion_clear Hips0 as [|? ? H1 Hips1].
  inversion_clear Hips1 as [|? ? H2 Hips2]. inversion_clear Hips2 as [|? ? H3 _].
  destruct (lane_run s R ip0 Hok H0 Hsmall) as (w0 & Hw0 & Hr0 & Hd0 & He0). destruct (lane_run s R ip1 Hok H1 Hsmall) as (w1 & Hw1 & Hr1 & Hd1 & He1).
  destruct (lane_run s R ip2 Hok H2 Hsmall) as (w2 & Hw2 & Hr2 & Hd2 & He2). destruct (lane_run s R ip3 Hok H3 Hsmall) as (w3 & Hw3 & Hr3 & Hd3 & He3).
  unfold rte_lpm_lookupx4. cbv zeta.
  rewrite (bind_ret _ _ _ _ _ Hw0), (bind_ret _ _ _ _ _ Hw1), (bind_ret _ _ _ _ _ Hw2), (bind_ret _ _ _ _ _ Hw3).
  destruct (_ && _) eqn:Efast.
  - apply andb_true_iff in Efast as [Ea Eb]. apply pair_fast in Ea as [[X0 X1] Ea], Eb as [[X2 X3] Eb]; try done.
    destruct (Ea defv) as [-> ->], (Eb defv) as [-> ->]. by rewrite Hd0, Hd1, Hd2, Hd3.
  - destruct (He0 (Z.lor w0 (Z.shiftl w1 32))) as (v0 & Hv0 & Ha0); [apply is_ext_pair|].
    destruct (He1 (Z.shiftr (Z.lor w0 (Z.shiftl w1 32)) 32)) as (v1 & Hv1 & Ha1); [by rewrite shiftr_pair|].
    destruct (He2 (Z.lor w2 (Z.shiftl w3 32))) as (v2 & Hv2 & Ha2); [apply is_ext_pair|].
    destruct (He3 (Z.shiftr (Z.lor w2 (Z.shiftl w3 32)) 32)) as (v3 & Hv3 & Ha3); [by rewrite shiftr_pair|].
    rewrite (bind_ret _ _ _ _ _ Hv0), (bind_ret _ _ _ _ _ Hv1), (bind_ret _ _ _ _ _ Hv2), (bind_ret _ _ _ _ _ Hv3).
    fold (hop_of defv v0) (hop_of defv v1) (hop_of defv v2) (hop_of defv v3). by rewrite Ha0, Ha1, Ha2, Ha3.
Qed.
