(* ===== verification/LpmApi.v ===== *)
(** * The interface of the longest prefix match library (lib/librte_lpm)

    What a client sees of a table from its creation on: every sequence of calls gives the
    answers of a finite map of rules with a longest match, within the limits under which
    the sizes of the allocations do not overflow. *)

From S2P Require Import Prelude Effects Lpm LpmSpec LpmRules LpmStore LpmTables LpmGroups LpmRefine LpmLookup.
From Stdlib Require String.
Import String.StringSyntax.
Delimit Scope string_scope with string.

(** ** Calls *)

Inductive lpm_op : Type :=
| Add (ip depth next_hop : Z)
| Delete (ip depth : Z)
| Is_rule_present (ip depth : Z)
| Lookup (ip : Z)
| Delete_all.

(** The results of the calls; a failed lookup leaves no next hop. *)
Inductive lpm_answer : Type :=
| Code (ret : Z)
| Presence (ret : Z) (next_hop : option Z)
| Hop (next_hop : option Z)
| Done.

Definition op_ip (o : lpm_op) : Z :=
  match o with Add ip _ _ | Delete ip _ | Is_rule_present ip _ | Lookup ip => ip | Delete_all => 0 end.

Definition exec (o : lpm_op) : comp rte_lpm lpm_answer :=
  match o with
  | Add ip depth next_hop => ret ← rte_lpm_add 24 ip depth next_hop; mret (Code ret)
  | Delete ip depth => ret ← rte_lpm_delete 24 ip depth; mret (Code ret)
  | Is_rule_present ip depth => v ← rte_lpm_is_rule_present ip depth; mret (Presence v.1 v.2)
  | Lookup ip => v ← rte_lpm_lookup ip; mret (Hop (if v.1 =? 0 then Some v.2 else None))
  | Delete_all => rte_lpm_delete_all ;; mret Done
  end.

Fixpoint exec_all (os : list lpm_op) : comp rte_lpm (list lpm_answer) :=
  match os with
  | [] => mret []
  | o :: os => a ← exec o; rest ← exec_all os; mret (a :: rest)
  end.

(** ** The specification *)

(** What a call answers and makes of the rules, for a table of [max] rules and [n8] groups. *)
Definition spec (max n8 : Z) (o : lpm_op) (R : rules) : lpm_answer * rules :=
  match o with
  | Add ip d nh =>
      let ret := if invalid_depth d then - EINVAL else add_result max n8 R d (prefix d ip) in
      (Code ret, if ret =? 0 then <[(d, prefix d ip) := nh]> R else R)
  | Delete ip d =>
      let ret := if invalid_depth d then - EINVAL else if R !! (d, prefix d ip) then 0 else - EINVAL in
      (Code ret, if ret =? 0 then delete (d, prefix d ip) R else R)
  | Is_rule_present ip d =>
      (if invalid_depth d then Presence (- EINVAL) None
       else match R !! (d, prefix d ip) with Some nh => Presence 1 (Some nh) | None => Presence 0 None end, R)
  | Lookup ip => (Hop (wrap 24 ∘ snd <$> longest_match R ip), R)
  | Delete_all => (Done, ∅)
  end.

Fixpoint spec_all (max n8 : Z) (os : list lpm_op) (R : rules) : list lpm_answer :=
  match os with
  | [] => []
  | o :: os => (spec max n8 o R).1 :: spec_all max n8 os (spec max n8 o R).2
  end.

(** The rules after the calls. *)
Fixpoint rules_all (max n8 : Z) (os : list lpm_op) (R : rules) : rules :=
  match os with
  | [] => R
  | o :: os => rules_all max n8 os (spec max n8 o R).2
  end.

(** ** Tables without rules *)

Lemma best_empty n ip : best ∅ n ip = None.
Proof. induction n as [|n IH]; [done|]. cbn [best]. by rewrite lookup_empty. Qed.

Lemma empty_ok nhw s :
  0 < nhw -> rule_info s = replicate 32 (mk_info 0 0) -> tbl24 s = ∅ -> tbl8 s = ∅ -> 0 < max_rules s <= rules_len s -> rules_len s < 2 ^ 31 ->
  sized nhw s -> lpm_ok nhw s ∅.
Proof.
  intros Hnhw Hi H24 H8 Hm Hl Hs. split.
  - exists (replicate 32 []). assert (forall n, concat (replicate n (@nil rte_lpm_rule)) = []) as Hc by (intros n; by induction n). split; split.
    + by rewrite Hi, !length_replicate.
    + intros i g [-> Hg]%lookup_replicate. rewrite Hi. exists (mk_info 0 0). split; [by apply lookup_replicate_2|]. split; [done|]. split; [cbn; lia|done].
    + intros k r. by rewrite Hc.
    + rewrite Hc. cbn. lia.
    + done.
    + intros d p nh. rewrite lookup_empty. split; [done|]. intros [_ (g & [-> _]%lookup_replicate & Hin)]. by apply not_elem_of_nil in Hin.
    + intros i g [-> _]%lookup_replicate. apply NoDup_nil_2.
    + intros d p [nh Hn]. by rewrite lookup_empty in Hn.
    + by rewrite Hc.
  - exists ∅. split; try done.
    + intros c _ _. exists None. split; [intros l _; apply best_empty|]. split; [by intros (? & ? & ? & _)|]. split; [|done].
      unfold t24. rewrite H24, lookup_empty. split; [|done]. cbn. split; [lia|by apply Z.pow_pos_nonneg; lia].
    + intros g _. unfold t8. rewrite H8, lookup_empty. done.
Qed.

Lemma delete_all_refines nhw s R :
  0 < nhw -> lpm_ok nhw s R -> exists s', rte_lpm_delete_all s = (s', Ret tt) /\ same_size s s' /\ lpm_ok nhw s' ∅.
Proof.
  intros Hnhw [(gs & Hl & _) [ow Hok]]. destruct (ly_len _ _ Hl) as [Hl1 Hl2]. destruct (tk_sized _ _ _ _ Hok) as (_ & _ & Hlen).
  unfold rte_lpm_delete_all. erewrite bind_ret; [|reflexivity]. unfold RTE_LPM_TBL8_GROUP_NUM_ENTRIES.
  rewrite (proj2 (Z.ltb_ge (tbl8_len s) (256 * number_tbl8s s))), (proj2 (Z.ltb_ge (rules_len s) (max_rules s))) by lia.
  eexists. split; [reflexivity|]. split; [done|]. by apply empty_ok; try apply (tk_sized _ _ _ _ Hok).
Qed.

(** The sizes for which [rte_lpm_create] allocates what the configuration asks for. *)
Definition config_fits (config : rte_lpm_config) : Prop := 0 < cfg_max_rules config < 2 ^ 29 /\ 0 <= cfg_number_tbl8s config < 2 ^ 22.

Lemma create_empty e name socket_id config s :
  rte_lpm_create_v1604 e name socket_id config = inl s -> config_fits config ->
  lpm_ok 24 s ∅ /\ max_rules s = cfg_max_rules config /\ number_tbl8s s = cfg_number_tbl8s config.
Proof.
  unfold rte_lpm_create_v1604. intros Hc [Hm Hn]. repeat (case_match; [discriminate|]). injection Hc as <-.
  unfold sizeof_rte_lpm_tbl_entry, sizeof_rte_lpm_rule, RTE_LPM_TBL8_GROUP_NUM_ENTRIES.
  rewrite !wrap_small by (unfold in_range; lia). rewrite (Z.mul_comm 8), Z.div_mul by lia.
  replace (4 * 256 * cfg_number_tbl8s config) with (cfg_number_tbl8s config * 256 * 4) by lia. rewrite Z.div_mul by lia.
  split; [|done]. apply empty_ok; try done; cbn; [lia|lia|]. split; [cbn; lia|]. split; [cbn; lia|done].
Qed.

(** ** Refinement *)

Lemma exec_refines s R o :
  lpm_ok 24 s R -> in_range 32 (op_ip o) ->
  exists s', exec o s = (s', Ret (spec (max_rules s) (number_tbl8s s) o R).1) /\ same_size s s'
    /\ lpm_ok 24 s' (spec (max_rules s) (number_tbl8s s) o R).2.
Proof.
  intros Hok Hip. destruct o as [ip d nh|ip d|ip d|ip|]; cbn [exec spec op_ip fst snd] in *.
  - destruct (add_refines 24 ltac:(lia) s R ip d nh Hok Hip) as (s' & Hrun & H). exists s'. by rewrite (bind_ret _ _ _ _ _ Hrun).
  - destruct (delete_refines 24 ltac:(lia) s R ip d Hok Hip) as (s' & Hrun & H). exists s'. by rewrite (bind_ret _ _ _ _ _ Hrun).
  - exists s. rewrite (bind_ret _ _ _ _ _ (is_rule_present_refines 24 s R ip d Hok Hip)). split; [|done].
    destruct (invalid_depth d); [done|]. by destruct (R !! _).
  - exists s. destruct (lookup_refines s R ip Hok Hip) as (v & Hrun & Hv). rewrite (bind_ret _ _ _ _ _ Hrun). split; [|done].
    destruct (longest_match R ip) as [[d nh]|]; [by subst v|]. destruct v as [r h]. cbn in Hv. by subst r.
  - destruct (delete_all_refines 24 s R ltac:(lia) Hok) as (s' & Hrun & H). exists s'. by rewrite (bind_ret _ _ _ _ _ Hrun).
Qed.

Lemma exec_all_refines os s R :
  lpm_ok 24 s R -> Forall (fun o => in_range 32 (op_ip o)) os ->
  exists s', exec_all os s = (s', Ret (spec_all (max_rules s) (number_tbl8s s) os R)) /\ same_size s s'
    /\ lpm_ok 24 s' (rules_all (max_rules s) (number_tbl8s s) os R).
Proof.
  intros Hok Hos. revert s R Hok. induction Hos as [|o os Ho _ IH]; intros s R Hok; cbn [exec_all spec_all rules_all]; [by exists s|].
  destruct (exec_refines s R o Hok Ho) as (s1 & Hrun & [Hs1 Hs2] & Hok1). destruct (IH s1 _ Hok1) as (s' & Hrun' & [Hs3 Hs4] & Hok').
  rewrite Hs1, Hs2 in Hrun', Hok'. exists s'. rewrite (bind_ret _ _ _ _ _ Hrun), (bind_ret _ _ _ _ _ Hrun').
  split; [done|]. split; [|done]. split; congruence.
Qed.

(** C29. From its creation on, whatever sequence of additions, deletions, questions and
    lookups a client runs, every call returns, and answers what a finite map of rules
    answers: a rule is added unless there are as many rules as the table was made for, or
    it is longer than 24 bits, its /24 block has no such rule yet and there are as many
    blocks with such rules as the table has groups; a lookup gives the next hop of the
    longest rule that matches, cut to 24 bits. *)
Theorem lpm_session_refines e name socket_id config s os :
  rte_lpm_create_v1604 e name socket_id config = inl s -> config_fits config -> Forall (fun o => in_range 32 (op_ip o)) os ->
  (exec_all os s).2 = Ret (spec_all (cfg_max_rules config) (cfg_number_tbl8s config) os ∅).
Proof.
  intros Hc Hfit Hos. destruct (create_empty _ _ _ _ _ Hc Hfit) as (Hok & <- & <-).
  destruct (exec_all_refines os s ∅ Hok Hos) as (s' & Hrun & _). by rewrite Hrun.
Qed.

(** Every allocation succeeds. *)
Definition all_ok : lpm_env := mk_lpm_env false true true (fun _ => true) (fun _ => true).

(** A table of 16 rules and 2 groups. *)
Definition sample_table : rte_lpm := mk_lpm 16 2 (replicate 32 (mk_info 0 0)) ∅ ∅ 512 ∅ 16.

(** 10.1.0.0/22 and three hosts in blocks of their own, for which there are not enough groups. *)
Definition sample_calls : list lpm_op :=
  [Add 0x0A010000 22 7; Add 0x0A010203 32 9; Add 0x0A010104 30 11; Add 0x0A010305 25 13; Lookup 0x0A010203; Lookup 0x0A010204;
   Is_rule_present 0x0A010203 32; Delete 0x0A010203 32; Lookup 0x0A010203; Add 0x0A010305 25 13; Delete 0x0A010203 32; Lookup 0x0B000000;
   Add 0x0A000000 33 1; Delete 0x0A010000 22; Lookup 0x0A010203].

Example lpm_session_refines_witness :
  (exec_all sample_calls sample_table).2 = Ret (spec_all 16 2 sample_calls ∅)
  /\ (exec_all sample_calls sample_table).2
     = Ret [Code 0; Code 0; Code 0; Code (- ENOSPC); Hop (Some 9); Hop (Some 7); Presence 1 (Some 9); Code 0; Hop (Some 7); Code 0; Code (- EINVAL); Hop None;
            Code (- EINVAL); Code 0; Hop None].
Proof.
  split; [|vm_compute; reflexivity].
  apply (lpm_session_refines all_ok (Some "sample"%string) 0 (mk_config 16 2) sample_table sample_calls); [reflexivity|split; cbn; lia|].
  repeat constructor; done.
Defined.

(** The sample table after its first three calls. *)
Definition sample_rules : rules := rules_all 16 2 (take 3 sample_calls) ∅.
Definition sample_filled : rte_lpm := (exec_all (take 3 sample_calls) sample_table).1.

Lemma sample_ok : lpm_ok 24 sample_table ∅.
Proof. destruct (create_empty all_ok (Some "sample"%string) 0 (mk_config 16 2) sample_table) as [H _]; [reflexivity|split; cbn; lia|done]. Qed.

Lemma sample_filled_ok : lpm_ok 24 sample_filled sample_rules.
Proof.
  destruct (exec_all_refines (take 3 sample_calls) sample_table ∅ sample_ok) as (s' & Hrun & _ & Hok); [repeat constructor; done|].
  unfold sample_filled. by rewrite Hrun.
Qed.

(** ** Consequences *)

(** C30. A lookup finds the next hop of the longest rule that matches the address, cut to
    24 bits, or fails when no rule of any depth matches. *)
Theorem lpm_lookup_longest s R ip :
  lpm_ok 24 s R -> in_range 32 ip ->
  exists v, rte_lpm_lookup ip s = (s, Ret v) /\
  ((exists d nh, v = (0, wrap 24 nh) /\ 1 <= d <= 32 /\ R !! (d, prefix d ip) = Some nh
      /\ forall d', d < d' <= 32 -> R !! (d', prefix d' ip) = None)
   \/ v.1 = - ENOENT /\ forall d, 1 <= d <= 32 -> R !! (d, prefix d ip) = None).
Proof.
  intros Hok Hip. destruct (lookup_refines s R ip Hok Hip) as (v & Hrun & Hv). exists v. split; [done|].
  destruct (longest_match R ip) as [[d nh]|] eqn:Eb.
  - left. exists d, nh. destruct (best_some _ _ _ _ _ Eb) as [Hd HR]. split; [done|]. split; [lia|]. split; [done|].
    intros d' Hd'. destruct (R !! (d', prefix d' ip)) as [nh'|] eqn:E; [|done].
    destruct (best_longest R 32 ip d' nh') as (d2 & nh2 & E2 & Hle); [lia|done|]. unfold longest_match in Eb. rewrite Eb in E2. injection E2 as <- <-. lia.
  - right. split; [done|]. intros d Hd. destruct (R !! (d, prefix d ip)) as [nh|] eqn:E; [|done].
    destruct (best_longest R 32 ip d nh) as (d2 & nh2 & E2 & _); [lia|done|]. unfold longest_match in Eb. congruence.
Qed.

Example lpm_lookup_longest_witness :
  (exists v, rte_lpm_lookup 0x0A010203 sample_filled = (sample_filled, Ret v) /\
   ((exists d nh, v = (0, wrap 24 nh) /\ 1 <= d <= 32 /\ sample_rules !! (d, prefix d 0x0A010203) = Some nh
       /\ forall d', d < d' <= 32 -> sample_rules !! (d', prefix d' 0x0A010203) = None)
    \/ v.1 = - ENOENT /\ forall d, 1 <= d <= 32 -> sample_rules !! (d, prefix d 0x0A010203) = None))
  /\ (rte_lpm_lookup 0x0A010203 sample_filled).2 = Ret (0, 9).
Proof. split; [apply (lpm_lookup_longest sample_filled sample_rules); [apply sample_filled_ok|done]|vm_compute; reflexivity]. Defined.

(** C31. Deleting a rule that was just added leaves a table that answers every lookup and
    every question for a rule as before, for next hops of 8 and of 24 bits alike. *)
Theorem lpm_add_delete_roundtrip nhw s R ip d nh :
  0 < nhw -> lpm_ok nhw s R -> in_range 32 ip -> R !! (d, prefix d ip) = None -> (rte_lpm_add nhw ip d nh s).2 = Ret 0 ->
  exists s2, rte_lpm_delete nhw ip d (rte_lpm_add nhw ip d nh s).1 = (s2, Ret 0) /\ lpm_ok nhw s2 R.
Proof.
  intros Hnhw Hok Hip HR Hadd. destruct (add_refines nhw Hnhw s R ip d nh Hok Hip) as (s' & Hrun & _ & Hok1).
  rewrite Hrun in Hadd |- *. cbn [fst snd] in *. injection Hadd as Hret. rewrite Hret in Hok1. cbn [Z.eqb] in Hok1.
  destruct (delete_refines nhw Hnhw s' _ ip d Hok1 Hip) as (s2 & Hdel & _ & Hok2). exists s2.
  destruct (invalid_depth d); [done|]. rewrite lookup_insert_eq in Hdel, Hok2. cbn [Z.eqb] in Hok2. rewrite delete_insert_id in Hok2 by done. done.
Qed.

Example lpm_add_delete_roundtrip_witness :
  let s1 := (rte_lpm_add 24 0x0A010203 32 9 sample_table).1 in
  (exists s2, rte_lpm_delete 24 0x0A010203 32 s1 = (s2, Ret 0) /\ lpm_ok 24 s2 ∅) /\ (rte_lpm_lookup 0x0A010203 s1).2 = Ret (0, 9).
Proof.
  intros s1. split; [|vm_compute; reflexivity].
  apply (lpm_add_delete_roundtrip 24 sample_table ∅ 0x0A010203 32 9); [lia|apply sample_ok|done|reflexivity|vm_compute; reflexivity].
Defined.

(** What every table is like: an extended cell names a group in use, which no other cell
    names, and the counters stay within the rule table. *)
Record table_wf (s : rte_lpm) : Prop := {
  wf_group : forall c, 0 <= c < 2 ^ 24 -> te_valid (t24 s c) = 1 -> te_valid_group (t24 s c) = 1 ->
    0 <= te_next_hop (t24 s c) < number_tbl8s s /\ te_valid_group (t8 s (te_next_hop (t24 s c) * 256)) = 1;
  wf_apart : forall c c', 0 <= c < 2 ^ 24 -> 0 <= c' < 2 ^ 24 -> c <> c' ->
    te_valid (t24 s c) = 1 -> te_valid_group (t24 s c) = 1 -> te_valid (t24 s c') = 1 -> te_valid_group (t24 s c') = 1 ->
    te_next_hop (t24 s c) <> te_next_hop (t24 s c');
  wf_counters : forall i x, rule_info s !! i = Some x -> 0 < used_rules x -> 0 <= first_rule x /\ first_rule x + used_rules x <= max_rules s }.

Lemma extended_owner nhw s B ow c : tables_ok nhw s B ow -> 0 <= c < 2 ^ 24 -> te_valid (t24 s c) = 1 -> te_valid_group (t24 s c) = 1 ->
  ow !! c = Some (te_next_hop (t24 s c)).
Proof.
  intros Hok Hc Hv Hg. destruct (ow !! c) as [g|] eqn:Ho.
  - destruct (tk_ext _ _ _ _ Hok c g Ho) as (_ & _ & (_ & _ & He) & _). by rewrite He.
  - destruct (tk_direct _ _ _ _ Hok c Hc Ho) as (b & _ & _ & [_ He] & Hb). destruct b; [rewrite Hb in Hg by done; done|congruence].
Qed.

Lemma lpm_ok_wf nhw s R : lpm_ok nhw s R -> table_wf s.
Proof.
  intros [(gs & Hl & _) [ow Hok]]. split.
  - intros c Hc Hv Hg. pose proof (extended_owner _ _ _ _ c Hok Hc Hv Hg) as Ho.
    destruct (tk_ext _ _ _ _ Hok _ _ Ho) as (_ & Hr & _ & [Hgr _]). done.
  - intros c c' Hc Hc' Hne Hv Hg Hv' Hg' E. apply Hne. apply (tk_inj _ _ _ _ Hok c c' (te_next_hop (t24 s c))).
    + by apply (extended_owner nhw s (longest_match R)).
    + rewrite E. by apply (extended_owner nhw s (longest_match R)).
  - intros i x Hx Hu. pose proof (lookup_lt_Some _ _ _ Hx) as Hi. destruct (ly_depths _ _ Hl) as [_ Hd]. rewrite Hd in Hi.
    destruct (layout_info _ _ i Hl Hi) as (g & x' & Hg & Hx' & Hux & Hf & Hst). rewrite Hx in Hx'. injection Hx' as <-.
    pose proof (layout_bound _ _ _ _ Hl Hg). assert (g <> []) as Hne by (intros ->; cbn in Hux; lia). rewrite (Hst Hne). rewrite (Hst Hne) in Hf. lia.
Qed.

(** C32. Every table that calls can reach from its creation is well formed: an extended
    cell names a group in use that no other cell names, and the rules of every depth stay
    inside the rule table. *)
Theorem lpm_reachable_wf e name socket_id config s os :
  rte_lpm_create_v1604 e name socket_id config = inl s -> config_fits config -> Forall (fun o => in_range 32 (op_ip o)) os ->
  table_wf (exec_all os s).1.
Proof.
  intros Hc Hfit Hos. destruct (create_empty _ _ _ _ _ Hc Hfit) as (Hok & _).
  destruct (exec_all_refines os s ∅ Hok Hos) as (s' & Hrun & _ & Hok'). rewrite Hrun. by eapply lpm_ok_wf.
Qed.

Example lpm_reachable_wf_witness : table_wf (exec_all sample_calls sample_table).1.
Proof.
  apply (lpm_reachable_wf all_ok (Some "sample"%string) 0 (mk_config 16 2) sample_table sample_calls); [reflexivity|split; cbn; lia|].
  repeat constructor; done.
Defined.

(** ** Limits *)

(** One long rule in each of the [n] blocks from 10.0.0.0 on; the next hops count them. *)
Definition host (i : Z) : Z := 0x0A000001 + i * 256.
Definition many_hosts (n : nat) : list lpm_op := (fun i => Add (host i) 32 (i + 1)) <$> seqZ 0 (Z.of_nat n).

(** C33. With at most 256 groups the four-lane lookup gives each address what the lookup
    gives it, with the default where there is no rule; it takes only the low byte of the
    number of a group, so in a table of 512 groups with a long rule in 257 blocks it gives
    an address of the last the next hop of the first. *)
Theorem lookupx4_agrees :
  (forall s R ip0 ip1 ip2 ip3 defv, lpm_ok 24 s R -> Forall (in_range 32) [ip0; ip1; ip2; ip3] -> number_tbl8s s <= 256 ->
     let answer ip := match rte_lpm_lookup ip s with (_, Ret (0, nh)) => nh | _ => defv end in
     rte_lpm_lookupx4 ip0 ip1 ip2 ip3 defv s = (s, Ret (answer ip0, answer ip1, answer ip2, answer ip3)))
  /\ match rte_lpm_create_v1604 all_ok (Some "hosts"%string) 0 (mk_config 1024 512) with
     | inl s =>
         let s' := (exec_all (many_hosts 257) s).1 in let ip := host 256 in
         (rte_lpm_lookup ip s').2 = Ret (0, 257) /\ (rte_lpm_lookupx4 ip ip ip ip 0 s').2 = Ret (1, 1, 1, 1)
     | inr _ => False
     end.
Proof.
  split.
  - intros s R ip0 ip1 ip2 ip3 defv Hok Hips Hn answer.
    assert (forall ip, in_range 32 ip -> answer ip = answer_for R defv ip) as Ha.
    { intros ip Hip. unfold answer, answer_for. destruct (lookup_refines s R ip Hok Hip) as (v & -> & Hv).
      destruct (longest_match R ip) as [[d nh]|]; [by subst v|]. destruct v as [r h]. cbn in Hv. by subst r. }
    rewrite (lookupx4_run s R ip0 ip1 ip2 ip3 defv Hok Hips Hn). apply Forall_cons in Hips as [H0 Hips].
    apply Forall_cons in Hips as [H1 Hips]. apply Forall_cons in Hips as [H2 Hips]. apply Forall_cons in Hips as [H3 _].
    by rewrite !Ha.
  - vm_compute. split; reflexivity.
Qed.

Example lookupx4_agrees_witness :
  (rte_lpm_lookupx4 0x0A010203 0x0A010204 0x0B000000 0x0A010105 99 sample_filled).2 = Ret (9, 7, 99, 11).
Proof.
  pose proof (proj1 lookupx4_agrees sample_filled sample_rules 0x0A010203 0x0A010204 0x0B000000 0x0A010105 99 sample_filled_ok) as H.
  cbv zeta in H. refine (eq_trans (f_equal snd (H _ _)) _); [repeat constructor; done|vm_compute; discriminate|]. clear H.
  vm_compute. reflexivity.
Defined.

(** A configuration with fewer than 2^29 rules and 2^22 groups gets the tables it asks
    for; from 2^22 groups on, all of which the check of the arguments lets pass, [tbl8] is
    shorter than its groups, and adding two long rules to such a table leaves the array. *)
Theorem lpm_create_sizes :
  (forall e name socket_id config s, rte_lpm_create_v1604 e name socket_id config = inl s -> 0 < cfg_max_rules config -> 0 <= cfg_number_tbl8s config ->
     (rules_len s = max_rules s <-> cfg_max_rules config < 2 ^ 29) /\ (tbl8_len s = number_tbl8s s * 256 <-> cfg_number_tbl8s config < 2 ^ 22))
  /\ match rte_lpm_create_v1604 all_ok (Some "large"%string) 0 (mk_config 16 (2 ^ 22 + 1)) with
     | inl s => (exec_all (many_hosts 2) s).2 = UB
     | inr _ => False
     end.
Proof.
  split; [|vm_compute; reflexivity].
  unfold rte_lpm_create_v1604. intros e name socket_id config s Hc Hm Hn. repeat (case_match; [discriminate|]). injection Hc as <-. cbn.
  unfold sizeof_rte_lpm_tbl_entry, sizeof_rte_lpm_rule, RTE_LPM_TBL8_GROUP_NUM_ENTRIES, wrap.
  pose proof (Z.mod_pos_bound (8 * cfg_max_rules config) (2 ^ 32) ltac:(lia)). pose proof (Z.mod_pos_bound (4 * 256 * cfg_number_tbl8s config) (2 ^ 32) ltac:(lia)).
  pose proof (Z.div_mod (8 * cfg_max_rules config) (2 ^ 32) ltac:(lia)). pose proof (Z.div_mod (4 * 256 * cfg_number_tbl8s config) (2 ^ 32) ltac:(lia)).
  split; (split; [intros E|intros Hlt; rewrite Z.mod_small by lia; symmetry; apply Z.div_unique_exact; lia]).
  - pose proof (Z.mul_div_le ((8 * cfg_max_rules config) mod 2 ^ 32) 8 ltac:(lia)). lia.
  - pose proof (Z.mul_div_le ((4 * 256 * cfg_number_tbl8s config) mod 2 ^ 32) 4 ltac:(lia)). lia.
Qed.

Example lpm_create_sizes_witness :
  (rules_len sample_table = max_rules sample_table <-> 16 < 2 ^ 29) /\ (tbl8_len sample_table = number_tbl8s sample_table * 256 <-> 2 < 2 ^ 22).
Proof. apply (proj1 lpm_create_sizes all_ok (Some "sample"%string) 0 (mk_config 16 2) sample_table); [reflexivity|done|done]. Defined.
