(* ===== verification/Bpf.v ===== *)
(** * The eBPF virtual machine (lib/librte_bpf)

    Instructions and the interpreter [bpf_exec].  The memory of a program and the external
    functions it calls are a parameter, the class [BpfEnv]. *)

From S2P Require Import Prelude Effects.

(** ** Encoding (bpf_def.h) *)

Definition BPF_LD : Z := 0x00.
Definition BPF_LDX : Z := 0x01.
Definition BPF_ST : Z := 0x02.
Definition BPF_STX : Z := 0x03.
Definition BPF_ALU : Z := 0x04.
Definition BPF_JMP : Z := 0x05.
Definition EBPF_ALU64 : Z := 0x07.
Definition BPF_W : Z := 0x00.
Definition BPF_H : Z := 0x08.
Definition BPF_B : Z := 0x10.
Definition EBPF_DW : Z := 0x18.
Definition BPF_IMM : Z := 0x00.
Definition BPF_MEM : Z := 0x60.
Definition EBPF_XADD : Z := 0xc0.
Definition BPF_ADD : Z := 0x00.
Definition BPF_SUB : Z := 0x10.
Definition BPF_MUL : Z := 0x20.
Definition BPF_DIV : Z := 0x30.
Definition BPF_OR : Z := 0x40.
Definition BPF_AND : Z := 0x50.
Definition BPF_LSH : Z := 0x60.
Definition BPF_RSH : Z := 0x70.
Definition BPF_NEG : Z := 0x80.
Definition BPF_MOD : Z := 0x90.
Definition BPF_XOR : Z := 0xa0.
Definition EBPF_MOV : Z := 0xb0.
Definition EBPF_ARSH : Z := 0xc0.
Definition EBPF_END : Z := 0xd0.
Definition BPF_JA : Z := 0x00.
Definition BPF_JEQ : Z := 0x10.
Definition BPF_JGT : Z := 0x20.
Definition BPF_JGE : Z := 0x30.
Definition BPF_JSET : Z := 0x40.
Definition EBPF_JNE : Z := 0x50.
Definition EBPF_JSGT : Z := 0x60.
Definition EBPF_JSGE : Z := 0x70.
Definition EBPF_CALL : Z := 0x80.
Definition EBPF_EXIT : Z := 0x90.
Definition EBPF_JLT : Z := 0xa0.
Definition EBPF_JLE : Z := 0xb0.
Definition EBPF_JSLT : Z := 0xc0.
Definition EBPF_JSLE : Z := 0xd0.
Definition BPF_K : Z := 0x00.
Definition BPF_X : Z := 0x08.
Definition EBPF_TO_LE : Z := 0x00.
Definition EBPF_TO_BE : Z := 0x08.
Definition EBPF_REG_NUM : Z := 11.
Definition MAX_BPF_STACK_SIZE : Z := 0x200.

Declare Scope bpf_scope.
Delimit Scope bpf_scope with bpf.
Infix "∥" := Z.lor (at level 50, left associativity) : bpf_scope.
Open Scope bpf_scope.

(** [off] and [imm] are signed, of 16 and 32 bits. *)
Record ebpf_insn := mk_insn {
  code : Z;
  dst_reg : Z;
  src_reg : Z;
  off : Z;
  imm : Z }.

(** ** Actions *)

Inductive operand := K | X.
Inductive alu_op := ADD | SUB | AND | OR | LSH | RSH | ARSH | XOR | MUL | DIV | MOD | MOV.
Inductive jump_cond := JEQ | JNE | JGT | JLT | JGE | JLE | JSGT | JSLT | JSGE | JSLE | JSET.

(** What a case of the interpreter's switch does; [w] is 32 or 64, [n] a number of bytes. *)
Inductive action :=
| Alu (w : Z) (o : alu_op) (src : operand)
| Neg (w : Z)
| To_be
| To_le
| Load (n : Z)
| Load_imm64
| Store_reg (n : Z)
| Store_imm (n : Z)
| Xadd (n : Z)
| Ja
| Jcc (c : jump_cond) (src : operand)
| Call
| Exit_insn.

(** The cases, in the order of the switch. *)
Definition switch_alu32 : list (Z * action) :=
  [(BPF_ALU ∥ BPF_ADD ∥ BPF_K, Alu 32 ADD K);
   (BPF_ALU ∥ BPF_SUB ∥ BPF_K, Alu 32 SUB K);
   (BPF_ALU ∥ BPF_AND ∥ BPF_K, Alu 32 AND K);
   (BPF_ALU ∥ BPF_OR ∥ BPF_K, Alu 32 OR K);
   (BPF_ALU ∥ BPF_LSH ∥ BPF_K, Alu 32 LSH K);
   (BPF_ALU ∥ BPF_RSH ∥ BPF_K, Alu 32 RSH K);
   (BPF_ALU ∥ BPF_XOR ∥ BPF_K, Alu 32 XOR K);
   (BPF_ALU ∥ BPF_MUL ∥ BPF_K, Alu 32 MUL K);
   (BPF_ALU ∥ BPF_DIV ∥ BPF_K, Alu 32 DIV K);
   (BPF_ALU ∥ BPF_MOD ∥ BPF_K, Alu 32 MOD K);
   (BPF_ALU ∥ EBPF_MOV ∥ BPF_K, Alu 32 MOV K);
   (BPF_ALU ∥ BPF_ADD ∥ BPF_X, Alu 32 ADD X);
   (BPF_ALU ∥ BPF_SUB ∥ BPF_X, Alu 32 SUB X);
   (BPF_ALU ∥ BPF_AND ∥ BPF_X, Alu 32 AND X);
   (BPF_ALU ∥ BPF_OR ∥ BPF_X, Alu 32 OR X);
   (BPF_ALU ∥ BPF_LSH ∥ BPF_X, Alu 32 LSH X);
   (BPF_ALU ∥ BPF_RSH ∥ BPF_X, Alu 32 RSH X);
   (BPF_ALU ∥ BPF_XOR ∥ BPF_X, Alu 32 XOR X);
   (BPF_ALU ∥ BPF_MUL ∥ BPF_X, Alu 32 MUL X);
   (BPF_ALU ∥ BPF_DIV ∥ BPF_X, Alu 32 DIV X);
   (BPF_ALU ∥ BPF_MOD ∥ BPF_X, Alu 32 MOD X);
   (BPF_ALU ∥ EBPF_MOV ∥ BPF_X, Alu 32 MOV X);
   (BPF_ALU ∥ BPF_NEG, Neg 32);
   (BPF_ALU ∥ EBPF_END ∥ EBPF_TO_BE, To_be);
   (BPF_ALU ∥ EBPF_END ∥ EBPF_TO_LE, To_le)].
Definition switch_alu64 : list (Z * action) :=
  [(EBPF_ALU64 ∥ BPF_ADD ∥ BPF_K, Alu 64 ADD K);
   (EBPF_ALU64 ∥ BPF_SUB ∥ BPF_K, Alu 64 SUB K);
   (EBPF_ALU64 ∥ BPF_AND ∥ BPF_K, Alu 64 AND K);
   (EBPF_ALU64 ∥ BPF_OR ∥ BPF_K, Alu 64 OR K);
   (EBPF_ALU64 ∥ BPF_LSH ∥ BPF_K, Alu 64 LSH K);
   (EBPF_ALU64 ∥ BPF_RSH ∥ BPF_K, Alu 64 RSH K);
   (EBPF_ALU64 ∥ EBPF_ARSH ∥ BPF_K, Alu 64 ARSH K);
   (EBPF_ALU64 ∥ BPF_XOR ∥ BPF_K, Alu 64 XOR K);
   (EBPF_ALU64 ∥ BPF_MUL ∥ BPF_K, Alu 64 MUL K);
   (EBPF_ALU64 ∥ BPF_DIV ∥ BPF_K, Alu 64 DIV K);
   (EBPF_ALU64 ∥ BPF_MOD ∥ BPF_K, Alu 64 MOD K);
   (EBPF_ALU64 ∥ EBPF_MOV ∥ BPF_K, Alu 64 MOV K);
   (EBPF_ALU64 ∥ BPF_ADD ∥ BPF_X, Alu 64 ADD X);
   (EBPF_ALU64 ∥ BPF_SUB ∥ BPF_X, Alu 64 SUB X);
   (EBPF_ALU64 ∥ BPF_AND ∥ BPF_X, Alu 64 AND X);
   (EBPF_ALU64 ∥ BPF_OR ∥ BPF_X, Alu 64 OR X);
   (EBPF_ALU64 ∥ BPF_LSH ∥ BPF_X, Alu 64 LSH X);
   (EBPF_ALU64 ∥ BPF_RSH ∥ BPF_X, Alu 64 RSH X);
   (EBPF_ALU64 ∥ EBPF_ARSH ∥ BPF_X, Alu 64 ARSH X);
   (EBPF_ALU64 ∥ BPF_XOR ∥ BPF_X, Alu 64 XOR X);
   (EBPF_ALU64 ∥ BPF_MUL ∥ BPF_X, Alu 64 MUL X);
   (EBPF_ALU64 ∥ BPF_DIV ∥ BPF_X, Alu 64 DIV X);
   (EBPF_ALU64 ∥ BPF_MOD ∥ BPF_X, Alu 64 MOD X);
   (EBPF_ALU64 ∥ EBPF_MOV ∥ BPF_X, Alu 64 MOV X);
   (EBPF_ALU64 ∥ BPF_NEG, Neg 64)].
Definition switch_mem : list (Z * action) :=
  [(BPF_LDX ∥ BPF_MEM ∥ BPF_B, Load 1);
   (BPF_LDX ∥ BPF_MEM ∥ BPF_H, Load 2);
   (BPF_LDX ∥ BPF_MEM ∥ BPF_W, Load 4);
   (BPF_LDX ∥ BPF_MEM ∥ EBPF_DW, Load 8);
   (BPF_LD ∥ BPF_IMM ∥ EBPF_DW, Load_imm64);
   (BPF_STX ∥ BPF_MEM ∥ BPF_B, Store_reg 1);
   (BPF_STX ∥ BPF_MEM ∥ BPF_H, Store_reg 2);
   (BPF_STX ∥ BPF_MEM ∥ BPF_W, Store_reg 4);
   (BPF_STX ∥ BPF_MEM ∥ EBPF_DW, Store_reg 8);
   (BPF_ST ∥ BPF_MEM ∥ BPF_B, Store_imm 1);
   (BPF_ST ∥ BPF_MEM ∥ BPF_H, Store_imm 2);
   (BPF_ST ∥ BPF_MEM ∥ BPF_W, Store_imm 4);
   (BPF_ST ∥ BPF_MEM ∥ EBPF_DW, Store_imm 8);
   (BPF_STX ∥ EBPF_XADD ∥ BPF_W, Xadd 4);
   (BPF_STX ∥ EBPF_XADD ∥ EBPF_DW, Xadd 8)].
Definition switch_jmp : list (Z * action) :=
  [(BPF_JMP ∥ BPF_JA, Ja);
   (BPF_JMP ∥ BPF_JEQ ∥ BPF_K, Jcc JEQ K);
   (BPF_JMP ∥ EBPF_JNE ∥ BPF_K, Jcc JNE K);
   (BPF_JMP ∥ BPF_JGT ∥ BPF_K, Jcc JGT K);
   (BPF_JMP ∥ EBPF_JLT ∥ BPF_K, Jcc JLT K);
   (BPF_JMP ∥ BPF_JGE ∥ BPF_K, Jcc JGE K);
   (BPF_JMP ∥ EBPF_JLE ∥ BPF_K, Jcc JLE K);
   (BPF_JMP ∥ EBPF_JSGT ∥ BPF_K, Jcc JSGT K);
   (BPF_JMP ∥ EBPF_JSLT ∥ BPF_K, Jcc JSLT K);
   (BPF_JMP ∥ EBPF_JSGE ∥ BPF_K, Jcc JSGE K);
   (BPF_JMP ∥ EBPF_JSLE ∥ BPF_K, Jcc JSLE K);
   (BPF_JMP ∥ BPF_JSET ∥ BPF_K, Jcc JSET K);
   (BPF_JMP ∥ BPF_JEQ ∥ BPF_X, Jcc JEQ X);
   (BPF_JMP ∥ EBPF_JNE ∥ BPF_X, Jcc JNE X);
   (BPF_JMP ∥ BPF_JGT ∥ BPF_X, Jcc JGT X);
   (BPF_JMP ∥ EBPF_JLT ∥ BPF_X, Jcc JLT X);
   (BPF_JMP ∥ BPF_JGE ∥ BPF_X, Jcc JGE X);
   (BPF_JMP ∥ EBPF_JLE ∥ BPF_X, Jcc JLE X);
   (BPF_JMP ∥ EBPF_JSGT ∥ BPF_X, Jcc JSGT X);
   (BPF_JMP ∥ EBPF_JSLT ∥ BPF_X, Jcc JSLT X);
   (BPF_JMP ∥ EBPF_JSGE ∥ BPF_X, Jcc JSGE X);
   (BPF_JMP ∥ EBPF_JSLE ∥ BPF_X, Jcc JSLE X);
   (BPF_JMP ∥ BPF_JSET ∥ BPF_X, Jcc JSET X);
   (BPF_JMP ∥ EBPF_CALL, Call);
   (BPF_JMP ∥ EBPF_EXIT, Exit_insn)].
Definition switch : list (Z * action) := switch_alu32 ++ switch_alu64 ++ switch_mem ++ switch_jmp.

(** [None]: the default case. *)
Definition action_of (c : Z) : option action := (fun e => snd (snd e)) <$> list_find (fun e => fst e = c) switch.

(** ** Operations on registers *)

(** A C operation on two operands of [w] bits; [None] where it is undefined. *)
Definition alu (w : Z) (o : alu_op) (a b : Z) : option Z :=
  match o with
  | ADD => Some (wrap w (a + b))
  | SUB => Some (wrap w (a - b))
  | AND => Some (Z.land a b)
  | OR => Some (Z.lor a b)
  | LSH => if b <? w then Some (wrap w (Z.shiftl a b)) else None
  | RSH => if b <? w then Some (Z.shiftr a b) else None
  | ARSH => if (0 <=? sgn w b) && (sgn w b <? w) then Some (wrap w (Z.shiftr (sgn w a) (sgn w b))) else None
  | XOR => Some (Z.lxor a b)
  | MUL => Some (wrap w (a * b))
  | DIV => if b =? 0 then None else Some (a / b)
  | MOD => if b =? 0 then None else Some (a mod b)
  | MOV => Some b
  end.

Definition jump_taken (c : jump_cond) (a b : Z) : bool :=
  match c with
  | JEQ => a =? b
  | JNE => negb (a =? b)
  | JGT => b <? a
  | JLT => a <? b
  | JGE => b <=? a
  | JLE => a <=? b
  | JSGT => s64 b <? s64 a
  | JSLT => s64 a <? s64 b
  | JSGE => s64 b <=? s64 a
  | JSLE => s64 a <=? s64 b
  | JSET => negb (Z.land a b =? 0)
  end.

(** The [n] low bytes of [x] in the opposite order. *)
Fixpoint bswap (n : nat) (x : Z) : Z :=
  match n with
  | O => 0
  | Datatypes.S n => Z.lor (Z.shiftl (u8 x) (8 * Z.of_nat n)) (bswap n (Z.shiftr x 8))
  end.

(** On a little-endian processor: [rte_cpu_to_be_*] swaps, [rte_cpu_to_le_*] is the
    identity, without a conversion to the narrower type. *)
Definition bpf_alu_be (i v : Z) : Z :=
  if i =? 16 then bswap 2 v else if i =? 32 then bswap 4 v else if i =? 64 then bswap 8 v else v.
Definition bpf_alu_le (i v : Z) : Z := v.

(** ** The interpreter *)

(** The memory a program accesses, [n] bytes at an address, and the external functions,
    by the index that the call instruction holds; [None] where that is undefined. *)
Class BpfEnv (mem : Type) := {
  ld : mem -> Z -> Z -> option Z;
  st : mem -> Z -> Z -> Z -> option mem;
  xsym_func : mem -> Z -> list Z -> option (mem * Z) }.

(** How an execution ends: with a return; with one of the two errors, for which the
    interpreter returns 0; or without defined behaviour, an instruction outside the
    program apart. *)
Inductive bpf_stop :=
| Returned (v : Z)
| Division_by_zero
| Invalid_opcode
| Left_program
| Undefined.

Section Exec.
Context {mem : Type} {env : BpfEnv mem}.

Record bpf_state := mk_bpf { reg : list Z; pc : Z; bmem : mem }.

Definition get_reg (s : bpf_state) (i : Z) : option Z := reg s !! Z.to_nat i.
Definition set_reg (s : bpf_state) (i v : Z) : option bpf_state :=
  if i <? EBPF_REG_NUM then Some (mk_bpf (<[Z.to_nat i := v]> (reg s)) (pc s) (bmem s)) else None.

Definition defined (o : option bpf_state) : bpf_state + bpf_stop :=
  match o with Some s => inl s | None => inr Undefined end.

(** The second operand as a [w]-bit number. *)
Definition operand_val (w : Z) (s : bpf_state) (ins : ebpf_insn) (src : operand) : option Z :=
  match src with K => Some (wrap w (imm ins)) | X => wrap w <$> get_reg s (src_reg ins) end.

Definition exec_alu (w : Z) (o : alu_op) (src : operand) (s : bpf_state) (ins : ebpf_insn) : bpf_state + bpf_stop :=
  match operand_val w s ins src with
  | None => inr Undefined
  | Some b =>
      if match o, src with DIV, X | MOD, X => b =? 0 | _, _ => false end then inr Division_by_zero
      else defined (a ← get_reg s (dst_reg ins); v ← alu w o (wrap w a) b; set_reg s (dst_reg ins) v)
  end.

(** The address an instruction names: a register and [off]. *)
Definition address (s : bpf_state) (r o : Z) : option Z := (fun b => u64 (b + o)) <$> get_reg s r.
Definition exec_store (n : Z) (s : bpf_state) (a v : Z) : option bpf_state :=
  m ← st (bmem s) a n (wrap (8 * n) v); Some (mk_bpf (reg s) (pc s) m).

(** One case of the switch; the loop adds 1 to [pc] afterwards. *)
Definition exec_action (prog : list ebpf_insn) (s : bpf_state) (ins : ebpf_insn) (act : action) : bpf_state + bpf_stop :=
  let jump := mk_bpf (reg s) (pc s + off ins) (bmem s) in
  match act with
  | Alu w o src => exec_alu w o src s ins
  | Neg w => defined (a ← get_reg s (dst_reg ins); set_reg s (dst_reg ins) (wrap w (- a)))
  | To_be => defined (a ← get_reg s (dst_reg ins); set_reg s (dst_reg ins) (bpf_alu_be (imm ins) a))
  | To_le => defined (a ← get_reg s (dst_reg ins); set_reg s (dst_reg ins) (bpf_alu_le (imm ins) a))
  | Load n => defined (a ← address s (src_reg ins) (off ins); v ← ld (bmem s) a n; set_reg s (dst_reg ins) v)
  | Load_imm64 =>
      match prog !! Z.to_nat (pc s + 1) with
      | None => inr Left_program
      | Some ins1 =>
          defined (s' ← set_reg s (dst_reg ins) (Z.lor (u32 (imm ins)) (u64 (Z.shiftl (u32 (imm ins1)) 32)));
                   Some (mk_bpf (reg s') (pc s' + 1) (bmem s')))
      end
  | Store_reg n => defined (a ← address s (dst_reg ins) (off ins); v ← get_reg s (src_reg ins); exec_store n s a v)
  | Store_imm n => defined (a ← address s (dst_reg ins) (off ins); exec_store n s a (imm ins))
  | Xadd n =>
      defined (a ← address s (dst_reg ins) (off ins); v ← get_reg s (src_reg ins); old ← ld (bmem s) a n; exec_store n s a (old + v))
  | Ja => inl jump
  | Jcc c src =>
      match get_reg s (dst_reg ins), operand_val 64 s ins src with
      | Some a, Some b => inl (if jump_taken c a b then jump else s)
      | _, _ => inr Undefined
      end
  | Call =>
      match xsym_func (bmem s) (imm ins) (take 5 (drop 1 (reg s))) with
      | Some (m, v) => inl (mk_bpf (<[0%nat := v]> (reg s)) (pc s) m)
      | None => inr Undefined
      end
  | Exit_insn => match get_reg s 0 with Some v => inr (Returned v) | None => inr Undefined end
  end.

Definition bpf_step (prog : list ebpf_insn) (s : bpf_state) : bpf_state + bpf_stop :=
  if pc s <? 0 then inr Left_program
  else match prog !! Z.to_nat (pc s) with
  | None => inr Left_program
  | Some ins =>
      match action_of (code ins) with
      | None => inr Invalid_opcode
      | Some act =>
          match exec_action prog s ins act with
          | inl s' => inl (mk_bpf (reg s') (pc s' + 1) (bmem s'))
          | inr e => inr e
          end
      end
  end.

(** The end of the execution with the state there; [None]: more than [fuel] instructions. *)
Fixpoint bpf_run (prog : list ebpf_insn) (fuel : nat) (s : bpf_state) : option (bpf_state * bpf_stop) :=
  match fuel with
  | O => None
  | Datatypes.S n => match bpf_step prog s with inl s' => bpf_run prog n s' | inr e => Some (s, e) end
  end.

(** The return value. *)
Definition stop_value (e : bpf_stop) : outcome Z :=
  match e with Returned v => Ret v | Division_by_zero | Invalid_opcode => Ret 0 | Left_program | Undefined => UB end.

(** On the registers and the memory. *)
Definition bpf_exec (prog : list ebpf_insn) (fuel : nat) : comp (list Z * mem) Z := fun x =>
  match bpf_run prog fuel (mk_bpf (fst x) 0 (snd x)) with
  | Some (s, e) => ((reg s, bmem s), stop_value e)
  | None => (x, NoFuel)
  end.

(** The context goes to R1, the end of the stack to R10; the other registers keep what they
    hold, across the executions of a burst too. *)
Fixpoint rte_bpf_exec_burst (prog : list ebpf_insn) (fuel : nat) (stack : Z) (ctx : list Z) : comp (list Z * mem) (list Z) :=
  match ctx with
  | [] => mret []
  | c :: ctx =>
      modify (fun x => (<[10%nat := stack + MAX_BPF_STACK_SIZE]> (<[1%nat := c]> (fst x)), snd x)) ;;
      rc ← bpf_exec prog fuel; rest ← rte_bpf_exec_burst prog fuel stack ctx; mret (rc :: rest)
  end.

Definition rte_bpf_exec (prog : list ebpf_insn) (fuel : nat) (stack : Z) (ctx : Z) : comp (list Z * mem) Z :=
  rc ← rte_bpf_exec_burst prog fuel stack [ctx]; mret (default 0 (head rc)).
End Exec.
Arguments bpf_state mem : clear implicits.
