(* ===== verification/BpfValidate.v ===== *)
(** * The first pass of the eBPF verifier (lib/librte_bpf/bpf_validate.c)

    The syntax of each instruction, the control flow graph, and the depth-first search
    that rejects unreachable instructions and loops. *)

From S2P Require Import Prelude Effects Bpf.

Definition EINVAL : Z := 22.
Definition UINT16_MAX : Z := 0xffff.
Definition UINT32_MAX : Z := 0xffffffff.

(** ** Syntax *)

Definition ALL_REGS : Z := 0x7ff.
Definition WRT_REGS : Z := 0x3ff.
Definition ZERO_REG : Z := 0x1.

(** The functions of the second pass. *)
Inductive eval_fn := Eval_alu | Eval_bele | Eval_load | Eval_ld_imm64 | Eval_store | Eval_jcc | Eval_call | Eval_exit.

Record bpf_ins_check := mk_check {
  mask_dreg : Z;
  mask_sreg : Z;
  off_min : Z;
  off_max : Z;
  imm_min : Z;
  imm_max : Z;
  check_bele : bool;
  eval : option eval_fn }.

Definition check_alu_bele (ins : ebpf_insn) : bool := (imm ins =? 16) || (imm ins =? 32) || (imm ins =? 64).

(** The entries that the initialiser names; the others are zero. *)
Definition ins_chk_alu_imm : list (Z * bpf_ins_check) :=
  [(BPF_ALU ∥ BPF_ADD ∥ BPF_K, mk_check WRT_REGS ZERO_REG 0 0 0 UINT32_MAX false (Some Eval_alu));
   (BPF_ALU ∥ BPF_SUB ∥ BPF_K, mk_check WRT_REGS ZERO_REG 0 0 0 UINT32_MAX false (Some Eval_alu));
   (BPF_ALU ∥ BPF_AND ∥ BPF_K, mk_check WRT_REGS ZERO_REG 0 0 0 UINT32_MAX false (Some Eval_alu));
   (BPF_ALU ∥ BPF_OR ∥ BPF_K, mk_check WRT_REGS ZERO_REG 0 0 0 UINT32_MAX false (Some Eval_alu));
   (BPF_ALU ∥ BPF_LSH ∥ BPF_K, mk_check WRT_REGS ZERO_REG 0 0 0 UINT32_MAX false (Some Eval_alu));
   (BPF_ALU ∥ BPF_RSH ∥ BPF_K, mk_check WRT_REGS ZERO_REG 0 0 0 UINT32_MAX false (Some Eval_alu));
   (BPF_ALU ∥ BPF_XOR ∥ BPF_K, mk_check WRT_REGS ZERO_REG 0 0 0 UINT32_MAX false (Some Eval_alu));
   (BPF_ALU ∥ BPF_MUL ∥ BPF_K, mk_check WRT_REGS ZERO_REG 0 0 0 UINT32_MAX false (Some Eval_alu));
   (BPF_ALU ∥ EBPF_MOV ∥ BPF_K, mk_check WRT_REGS ZERO_REG 0 0 0 UINT32_MAX false (Some Eval_alu));
   (BPF_ALU ∥ BPF_DIV ∥ BPF_K, mk_check WRT_REGS ZERO_REG 0 0 1 UINT32_MAX false (Some Eval_alu));
   (BPF_ALU ∥ BPF_MOD ∥ BPF_K, mk_check WRT_REGS ZERO_REG 0 0 1 UINT32_MAX false (Some Eval_alu));
   (EBPF_ALU64 ∥ BPF_ADD ∥ BPF_K, mk_check WRT_REGS ZERO_REG 0 0 0 UINT32_MAX false (Some Eval_alu));
   (EBPF_ALU64 ∥ BPF_SUB ∥ BPF_K, mk_check WRT_REGS ZERO_REG 0 0 0 UINT32_MAX false (Some Eval_alu));
   (EBPF_ALU64 ∥ BPF_AND ∥ BPF_K, mk_check WRT_REGS ZERO_REG 0 0 0 UINT32_MAX false (Some Eval_alu));
   (EBPF_ALU64 ∥ BPF_OR ∥ BPF_K, mk_check WRT_REGS ZERO_REG 0 0 0 UINT32_MAX false (Some Eval_alu));
   (EBPF_ALU64 ∥ BPF_LSH ∥ BPF_K, mk_check WRT_REGS ZERO_REG 0 0 0 UINT32_MAX false (Some Eval_alu));
   (EBPF_ALU64 ∥ BPF_RSH ∥ BPF_K, mk_check WRT_REGS ZERO_REG 0 0 0 UINT32_MAX false (Some Eval_alu));
   (EBPF_ALU64 ∥ EBPF_ARSH ∥ BPF_K, mk_check WRT_REGS ZERO_REG 0 0 0 UINT32_MAX false (Some Eval_alu));
   (EBPF_ALU64 ∥ BPF_XOR ∥ BPF_K, mk_check WRT_REGS ZERO_REG 0 0 0 UINT32_MAX false (Some Eval_alu));
   (EBPF_ALU64 ∥ BPF_MUL ∥ BPF_K, mk_check WRT_REGS ZERO_REG 0 0 0 UINT32_MAX false (Some Eval_alu));
   (EBPF_ALU64 ∥ EBPF_MOV ∥ BPF_K, mk_check WRT_REGS ZERO_REG 0 0 0 UINT32_MAX false (Some Eval_alu));
   (EBPF_ALU64 ∥ BPF_DIV ∥ BPF_K, mk_check WRT_REGS ZERO_REG 0 0 1 UINT32_MAX false (Some Eval_alu));
   (EBPF_ALU64 ∥ BPF_MOD ∥ BPF_K, mk_check WRT_REGS ZERO_REG 0 0 1 UINT32_MAX false (Some Eval_alu))].
Definition ins_chk_alu_reg : list (Z * bpf_ins_check) :=
  [(BPF_ALU ∥ BPF_ADD ∥ BPF_X, mk_check WRT_REGS ALL_REGS 0 0 0 0 false (Some Eval_alu));
   (BPF_ALU ∥ BPF_SUB ∥ BPF_X, mk_check WRT_REGS ALL_REGS 0 0 0 0 false (Some Eval_alu));
   (BPF_ALU ∥ BPF_AND ∥ BPF_X, mk_check WRT_REGS ALL_REGS 0 0 0 0 false (Some Eval_alu));
   (BPF_ALU ∥ BPF_OR ∥ BPF_X, mk_check WRT_REGS ALL_REGS 0 0 0 0 false (Some Eval_alu));
   (BPF_ALU ∥ BPF_LSH ∥ BPF_X, mk_check WRT_REGS ALL_REGS 0 0 0 0 false (Some Eval_alu));
   (BPF_ALU ∥ BPF_RSH ∥ BPF_X, mk_check WRT_REGS ALL_REGS 0 0 0 0 false (Some Eval_alu));
   (BPF_ALU ∥ BPF_XOR ∥ BPF_X, mk_check WRT_REGS ALL_REGS 0 0 0 0 false (Some Eval_alu));
   (BPF_ALU ∥ BPF_MUL ∥ BPF_X, mk_check WRT_REGS ALL_REGS 0 0 0 0 false (Some Eval_alu));
   (BPF_ALU ∥ BPF_DIV ∥ BPF_X, mk_check WRT_REGS ALL_REGS 0 0 0 0 false (Some Eval_alu));
   (BPF_ALU ∥ BPF_MOD ∥ BPF_X, mk_check WRT_REGS ALL_REGS 0 0 0 0 false (Some Eval_alu));
   (BPF_ALU ∥ EBPF_MOV ∥ BPF_X, mk_check WRT_REGS ALL_REGS 0 0 0 0 false (Some Eval_alu));
   (BPF_ALU ∥ BPF_NEG, mk_check WRT_REGS ZERO_REG 0 0 0 0 false (Some Eval_alu));
   (BPF_ALU ∥ EBPF_END ∥ EBPF_TO_BE, mk_check WRT_REGS ZERO_REG 0 0 16 64 true (Some Eval_bele));
   (BPF_ALU ∥ EBPF_END ∥ EBPF_TO_LE, mk_check WRT_REGS ZERO_REG 0 0 16 64 true (Some Eval_bele));
   (EBPF_ALU64 ∥ BPF_ADD ∥ BPF_X, mk_check WRT_REGS ALL_REGS 0 0 0 0 false (Some Eval_alu));
   (EBPF_ALU64 ∥ BPF_SUB ∥ BPF_X, mk_check WRT_REGS ALL_REGS 0 0 0 0 false (Some Eval_alu));
   (EBPF_ALU64 ∥ BPF_AND ∥ BPF_X, mk_check WRT_REGS ALL_REGS 0 0 0 0 false (Some Eval_alu));
   (EBPF_ALU64 ∥ BPF_OR ∥ BPF_X, mk_check WRT_REGS ALL_REGS 0 0 0 0 false (Some Eval_alu));
   (EBPF_ALU64 ∥ BPF_LSH ∥ BPF_X, mk_check WRT_REGS ALL_REGS 0 0 0 0 false (Some Eval_alu));
   (EBPF_ALU64 ∥ BPF_RSH ∥ BPF_X, mk_check WRT_REGS ALL_REGS 0 0 0 0 false (Some Eval_alu));
   (EBPF_ALU64 ∥ EBPF_ARSH ∥ BPF_X, mk_check WRT_REGS ALL_REGS 0 0 0 0 false (Some Eval_alu));
   (EBPF_ALU64 ∥ BPF_XOR ∥ BPF_X, mk_check WRT_REGS ALL_REGS 0 0 0 0 false (Some Eval_alu));
   (EBPF_ALU64 ∥ BPF_MUL ∥ BPF_X, mk_check WRT_REGS ALL_REGS 0 0 0 0 false (Some Eval_alu));
   (EBPF_ALU64 ∥ BPF_DIV ∥ BPF_X, mk_check WRT_REGS ALL_REGS 0 0 0 0 false (Some Eval_alu));
   (EBPF_ALU64 ∥ BPF_MOD ∥ BPF_X, mk_check WRT_REGS ALL_REGS 0 0 0 0 false (Some Eval_alu));
   (EBPF_ALU64 ∥ EBPF_MOV ∥ BPF_X, mk_check WRT_REGS ALL_REGS 0 0 0 0 false (Some Eval_alu));
   (EBPF_ALU64 ∥ BPF_NEG, mk_check WRT_REGS ZERO_REG 0 0 0 0 false (Some Eval_alu))].
Definition ins_chk_mem : list (Z * bpf_ins_check) :=
  [(BPF_LDX ∥ BPF_MEM ∥ BPF_B, mk_check WRT_REGS ALL_REGS 0 UINT16_MAX 0 0 false (Some Eval_load));
   (BPF_LDX ∥ BPF_MEM ∥ BPF_H, mk_check WRT_REGS ALL_REGS 0 UINT16_MAX 0 0 false (Some Eval_load));
   (BPF_LDX ∥ BPF_MEM ∥ BPF_W, mk_check WRT_REGS ALL_REGS 0 UINT16_MAX 0 0 false (Some Eval_load));
   (BPF_LDX ∥ BPF_MEM ∥ EBPF_DW, mk_check WRT_REGS ALL_REGS 0 UINT16_MAX 0 0 false (Some Eval_load));
   (BPF_LD ∥ BPF_IMM ∥ EBPF_DW, mk_check WRT_REGS ZERO_REG 0 0 0 UINT32_MAX false (Some Eval_ld_imm64));
   (BPF_STX ∥ BPF_MEM ∥ BPF_B, mk_check ALL_REGS ALL_REGS 0 UINT16_MAX 0 0 false (Some Eval_store));
   (BPF_STX ∥ BPF_MEM ∥ BPF_H, mk_check ALL_REGS ALL_REGS 0 UINT16_MAX 0 0 false (Some Eval_store));
   (BPF_STX ∥ BPF_MEM ∥ BPF_W, mk_check ALL_REGS ALL_REGS 0 UINT16_MAX 0 0 false (Some Eval_store));
   (BPF_STX ∥ BPF_MEM ∥ EBPF_DW, mk_check ALL_REGS ALL_REGS 0 UINT16_MAX 0 0 false (Some Eval_store));
   (BPF_STX ∥ EBPF_XADD ∥ BPF_W, mk_check ALL_REGS ALL_REGS 0 UINT16_MAX 0 0 false (Some Eval_store));
   (BPF_STX ∥ EBPF_XADD ∥ EBPF_DW, mk_check ALL_REGS ALL_REGS 0 UINT16_MAX 0 0 false (Some Eval_store));
   (BPF_ST ∥ BPF_MEM ∥ BPF_B, mk_check ALL_REGS ZERO_REG 0 UINT16_MAX 0 UINT32_MAX false (Some Eval_store));
   (BPF_ST ∥ BPF_MEM ∥ BPF_H, mk_check ALL_REGS ZERO_REG 0 UINT16_MAX 0 UINT32_MAX false (Some Eval_store));
   (BPF_ST ∥ BPF_MEM ∥ BPF_W, mk_check ALL_REGS ZERO_REG 0 UINT16_MAX 0 UINT32_MAX false (Some Eval_store));
   (BPF_ST ∥ BPF_MEM ∥ EBPF_DW, mk_check ALL_REGS ZERO_REG 0 UINT16_MAX 0 UINT32_MAX false (Some Eval_store))].
Definition ins_chk_jmp : list (Z * bpf_ins_check) :=
  [(BPF_JMP ∥ BPF_JA, mk_check ZERO_REG ZERO_REG 0 UINT16_MAX 0 0 false None);
   (BPF_JMP ∥ BPF_JEQ ∥ BPF_K, mk_check ALL_REGS ZERO_REG 0 UINT16_MAX 0 UINT32_MAX false (Some Eval_jcc));
   (BPF_JMP ∥ EBPF_JNE ∥ BPF_K, mk_check ALL_REGS ZERO_REG 0 UINT16_MAX 0 UINT32_MAX false (Some Eval_jcc));
   (BPF_JMP ∥ BPF_JGT ∥ BPF_K, mk_check ALL_REGS ZERO_REG 0 UINT16_MAX 0 UINT32_MAX false (Some Eval_jcc));
   (BPF_JMP ∥ EBPF_JLT ∥ BPF_K, mk_check ALL_REGS ZERO_REG 0 UINT16_MAX 0 UINT32_MAX false (Some Eval_jcc));
   (BPF_JMP ∥ BPF_JGE ∥ BPF_K, mk_check ALL_REGS ZERO_REG 0 UINT16_MAX 0 UINT32_MAX false (Some Eval_jcc));
   (BPF_JMP ∥ EBPF_JLE ∥ BPF_K, mk_check ALL_REGS ZERO_REG 0 UINT16_MAX 0 UINT32_MAX false (Some Eval_jcc));
   (BPF_JMP ∥ EBPF_JSGT ∥ BPF_K, mk_check ALL_REGS ZERO_REG 0 UINT16_MAX 0 UINT32_MAX false (Some Eval_jcc));
   (BPF_JMP ∥ EBPF_JSLT ∥ BPF_K, mk_check ALL_REGS ZERO_REG 0 UINT16_MAX 0 UINT32_MAX false (Some Eval_jcc));
   (BPF_JMP ∥ EBPF_JSGE ∥ BPF_K, mk_check ALL_REGS ZERO_REG 0 UINT16_MAX 0 UINT32_MAX false (Some Eval_jcc));
   (BPF_JMP ∥ EBPF_JSLE ∥ BPF_K, mk_check ALL_REGS ZERO_REG 0 UINT16_MAX 0 UINT32_MAX false (Some Eval_jcc));
   (BPF_JMP ∥ BPF_JSET ∥ BPF_K, mk_check ALL_REGS ZERO_REG 0 UINT16_MAX 0 UINT32_MAX false (Some Eval_jcc));
   (BPF_JMP ∥ BPF_JEQ ∥ BPF_X, mk_check ALL_REGS ALL_REGS 0 UINT16_MAX 0 0 false (Some Eval_jcc));
   (BPF_JMP ∥ EBPF_JNE ∥ BPF_X, mk_check ALL_REGS ALL_REGS 0 UINT16_MAX 0 0 false (Some Eval_jcc));
   (BPF_JMP ∥ BPF_JGT ∥ BPF_X, mk_check ALL_REGS ALL_REGS 0 UINT16_MAX 0 0 false (Some Eval_jcc));
   (BPF_JMP ∥ EBPF_JLT ∥ BPF_X, mk_check ALL_REGS ALL_REGS 0 UINT16_MAX 0 0 false (Some Eval_jcc));
   (BPF_JMP ∥ BPF_JGE ∥ BPF_X, mk_check ALL_REGS ALL_REGS 0 UINT16_MAX 0 0 false (Some Eval_jcc));
   (BPF_JMP ∥ EBPF_JLE ∥ BPF_X, mk_check ALL_REGS ALL_REGS 0 UINT16_MAX 0 0 false (Some Eval_jcc));
   (BPF_JMP ∥ EBPF_JSGT ∥ BPF_X, mk_check ALL_REGS ALL_REGS 0 UINT16_MAX 0 0 false (Some Eval_jcc));
   (BPF_JMP ∥ EBPF_JSLT ∥ BPF_X, mk_check ALL_REGS ALL_REGS 0 UINT16_MAX 0 0 false None);
   (BPF_JMP ∥ EBPF_JSGE ∥ BPF_X, mk_check ALL_REGS ALL_REGS 0 UINT16_MAX 0 0 false (Some Eval_jcc));
   (BPF_JMP ∥ EBPF_JSLE ∥ BPF_X, mk_check ALL_REGS ALL_REGS 0 UINT16_MAX 0 0 false (Some Eval_jcc));
   (BPF_JMP ∥ BPF_JSET ∥ BPF_X, mk_check ALL_REGS ALL_REGS 0 UINT16_MAX 0 0 false (Some Eval_jcc));
   (BPF_JMP ∥ EBPF_CALL, mk_check ZERO_REG ZERO_REG 0 0 0 UINT32_MAX false (Some Eval_call));
   (BPF_JMP ∥ EBPF_EXIT, mk_check ZERO_REG ZERO_REG 0 0 0 0 false (Some Eval_exit))].
Definition ins_chk : list (Z * bpf_ins_check) := ins_chk_alu_imm ++ ins_chk_alu_reg ++ ins_chk_mem ++ ins_chk_jmp.
Definition no_check : bpf_ins_check := mk_check 0 0 0 0 0 0 false None.
Definition ins_chk_at (op : Z) : bpf_ins_check := from_option (fun e => snd (snd e)) no_check (list_find (fun e => fst e = op) ins_chk).

(** The conditions on the fields of an instruction. *)
Definition syntax_ok (ins : ebpf_insn) : bool :=
  let c := ins_chk_at (code ins) in
  negb (mask_dreg c =? 0)
  && negb (Z.land (mask_dreg c) (Z.shiftl 1 (dst_reg ins)) =? 0)
  && negb (Z.land (mask_sreg c) (Z.shiftl 1 (src_reg ins)) =? 0)
  && (off_min c <=? u16 (off ins)) && (u16 (off ins) <=? off_max c)
  && (imm_min c <=? u32 (imm ins)) && (u32 (imm ins) <=? imm_max c)
  && (negb (check_bele c) || check_alu_bele ins).

(** Whether the instruction is valid; the table has 255 entries, so the last opcode has none. *)
Definition check_syntax {S} (ins : ebpf_insn) : comp S bool :=
  if 255 <=? code ins then ub else mret (syntax_ok ins).

(** ** The graph *)

Inductive colour := WHITE | GREY | BLACK.
Inductive edge_type := UNKNOWN_EDGE | TREE_EDGE | BACK_EDGE | CROSS_EDGE.
#[export] Instance colour_eq_dec : EqDecision colour.
Proof. solve_decision. Defined.
#[export] Instance edge_type_eq_dec : EqDecision edge_type.
Proof. solve_decision. Defined.

(** [nb_edge] is the length of [edge_dest]; the types of the edges only serve the log. *)
Record inst_node := mk_node {
  n_colour : colour;
  cur_edge : Z;
  edge_dest : list Z;
  prev_node : Z }.
Definition MAX_EDGES : Z := 2.

Record bpf_verifier := mk_bvf {
  prm : list ebpf_insn;
  in_ : list inst_node;
  nb_nodes : Z;
  nb_jcc_nodes : Z;
  node_colour : colour -> Z;
  edge_types : edge_type -> Z }.

Definition nb_ins (s : bpf_verifier) : Z := Z.of_nat (length (prm s)).

Local Notation M := (comp bpf_verifier).

Definition get_node (i : Z) : M inst_node :=
  s ← get; if i <? 0 then ub else match in_ s !! Z.to_nat i with Some n => mret n | None => ub end.
Definition set_node (i : Z) (n : inst_node) : M unit :=
  get_node i ;; modify (fun s => s <| in_ := <[Z.to_nat i := n]> (in_ s) |>).

(** Counters of 32 bits. *)
Definition bump {A} `{EqDecision A} (d : Z) (a : A) (f : A -> Z) : A -> Z := fun x => if decide (x = a) then u32 (f x + d) else f x.

Definition add_edge (node nidx : Z) : M Z :=
  s ← get;
  if nb_ins s <? nidx then mret (- EINVAL)
  else
    n ← get_node node;
    if MAX_EDGES <=? Z.of_nat (length (edge_dest n)) then mret (- EINVAL)
    else set_node node (n <| edge_dest := edge_dest n ++ [nidx] |>) ;; mret 0.

Definition get_next_node (node : Z) : M (option Z) :=
  n ← get_node node;
  match edge_dest n !! Z.to_nat (cur_edge n) with
  | None => mret None
  | Some dst => set_node node (n <| cur_edge := cur_edge n + 1 |>) ;; mret (Some dst)
  end.

Definition set_node_colour (node : Z) (new : colour) : M unit :=
  n ← get_node node;
  set_node node (n <| n_colour := new |>) ;;
  modify (fun s => s <| node_colour := bump 1 new (bump (-1) (n_colour n) (node_colour s)) |>).

Definition set_edge_type (node next : Z) : M unit :=
  get_node node ;;
  n ← get_node next;
  let type := match n_colour n with WHITE => TREE_EDGE | GREY => BACK_EDGE | BLACK => CROSS_EDGE end in
  modify (fun s => s <| edge_types := bump 1 type (edge_types s) |>).

(** ** Depth-first search *)

(** [do ... while (next->colour != WHITE)]: the next white child. *)
Definition find_white (node : Z) : unit -> M (unit + option Z) := fun _ =>
  next ← get_next_node node;
  match next with
  | None => mret (inr None)
  | Some next =>
      set_edge_type node next ;;
      n ← get_node next;
      mret (if decide (n_colour n = WHITE) then inr (Some next) else inl tt)
  end.

(** One round of the outer loop, on the current node. *)
Definition dfs_body (node : Z) : M (Z + unit) :=
  n ← get_node node;
  (if decide (n_colour n = WHITE) then set_node_colour node GREY else mret tt) ;;
  n ← get_node node;
  if decide (n_colour n = GREY) then
    next ← comp_loop (find_white node) (Z.to_nat MAX_EDGES + 1) tt;
    match next with
    | Some next =>
        n ← get_node next;
        set_node next (n <| prev_node := node |>) ;; mret (inl next)
    | None =>
        set_node_colour node BLACK ;;
        n ← get_node node;
        set_node node (n <| cur_edge := 0 |>) ;; mret (inl (prev_node n))
    end
  else mret (inr tt).

Definition dfs : M unit := s ← get; comp_loop dfs_body (2 * length (in_ s) + 2) 0.

(** ** The first pass *)

(** The opcodes with two outgoing edges. *)
Definition jcc_codes : list Z :=
  [BPF_JMP ∥ BPF_JEQ ∥ BPF_K; BPF_JMP ∥ EBPF_JNE ∥ BPF_K; BPF_JMP ∥ BPF_JGT ∥ BPF_K; BPF_JMP ∥ EBPF_JLT ∥ BPF_K;
   BPF_JMP ∥ BPF_JGE ∥ BPF_K; BPF_JMP ∥ EBPF_JLE ∥ BPF_K; BPF_JMP ∥ EBPF_JSGT ∥ BPF_K; BPF_JMP ∥ EBPF_JSLT ∥ BPF_K;
   BPF_JMP ∥ EBPF_JSGE ∥ BPF_K; BPF_JMP ∥ EBPF_JSLE ∥ BPF_K; BPF_JMP ∥ BPF_JSET ∥ BPF_K;
   BPF_JMP ∥ BPF_JEQ ∥ BPF_X; BPF_JMP ∥ EBPF_JNE ∥ BPF_X; BPF_JMP ∥ BPF_JGT ∥ BPF_X; BPF_JMP ∥ EBPF_JLT ∥ BPF_X;
   BPF_JMP ∥ BPF_JGE ∥ BPF_X; BPF_JMP ∥ EBPF_JLE ∥ BPF_X; BPF_JMP ∥ EBPF_JSGT ∥ BPF_X; BPF_JMP ∥ EBPF_JSLT ∥ BPF_X;
   BPF_JMP ∥ EBPF_JSGE ∥ BPF_X; BPF_JMP ∥ EBPF_JSLE ∥ BPF_X; BPF_JMP ∥ BPF_JSET ∥ BPF_X].
Definition is_ld_imm64 (ins : ebpf_insn) : bool := code ins =? (BPF_LD ∥ BPF_IMM ∥ EBPF_DW).

(** The edges of the instruction at [i], and the result of adding them. *)
Definition add_edges (i : Z) (ins : ebpf_insn) : M Z :=
  if code ins =? (BPF_JMP ∥ EBPF_EXIT) then mret 0
  else if decide (code ins ∈ jcc_codes) then
    rc ← add_edge i (u32 (i + off ins + 1));
    rc' ← add_edge i (u32 (i + 1));
    modify (fun s => s <| nb_jcc_nodes := u32 (nb_jcc_nodes s + 1) |>) ;;
    mret (Z.lor rc rc')
  else if code ins =? (BPF_JMP ∥ BPF_JA) then add_edge i (u32 (i + off ins + 1))
  else if is_ld_imm64 ins then add_edge i (u32 (i + 2))
  else add_edge i (u32 (i + 1)).

(** One round: the loop variables are [i] and [rc]. *)
Definition pass_body : Z * Z -> M (Z * Z + Z) := fun '(i, rc) =>
  s ← get;
  match prm s !! Z.to_nat i with
  | None => mret (inr rc)
  | Some ins =>
      ok ← check_syntax ins;
      rc' ← add_edges i ins;
      modify (fun s => s <| nb_nodes := u32 (nb_nodes s + 1) |> <| node_colour := bump 1 WHITE (node_colour s) |>) ;;
      mret (inl (if is_ld_imm64 ins then i + 2 else i + 1, Z.lor (Z.lor rc (if (ok : bool) then 0 else - EINVAL)) rc'))
  end.
Definition pass : M Z := s ← get; comp_loop pass_body (length (prm s) + 1) (0, 0).

Definition validate : M Z :=
  rc ← pass;
  if negb (rc =? 0) then mret rc
  else
    dfs ;;
    s ← get;
    if negb (node_colour s BLACK =? nb_nodes s) then mret (- EINVAL)
    else if negb (node_colour s GREY =? 0) || negb (node_colour s WHITE =? 0) || negb (edge_types s UNKNOWN_EDGE =? 0) then mret (- EINVAL)
    else if negb (edge_types s BACK_EDGE =? 0) then mret (- EINVAL)
    else mret 0.

(** The state after [memset] and [calloc]. *)
Definition new_verifier (prog : list ebpf_insn) : bpf_verifier :=
  mk_bvf prog (replicate (length prog) (mk_node WHITE 0 [] 0)) 0 0 (fun _ => 0) (fun _ => 0).
