(* ===== verification/BpfDfs.v ===== *)
(** * The depth-first search of the eBPF verifier (lib/librte_bpf/bpf_validate.c)

    The search blackens exactly the nodes that are reachable from the first, each after
    its children unless it met a back edge, and it meets one only on a cycle. *)

From stdpp Require Import functions.
From S2P Require Import Prelude Effects Bpf BpfValidate.

(** Either undefined, which has a reason, or a result with a property. *)
Definition ub_or {S A} (bad : Prop) (Q : A -> S -> Prop) (o : S * outcome A) : Prop :=
  (bad /\ snd o = UB) \/ exists s a, o = (s, Ret a) /\ Q a s.

Section UbOr.
Context {S : Type}.

Lemma ub_or_ret {A} bad (Q : A -> S -> Prop) s a : Q a s -> ub_or bad Q (s, Ret a).
Proof. intros H. right. by exists s, a. Qed.

Lemma ub_or_bind {A B} bad (R : A -> S -> Prop) (Q : B -> S -> Prop) (c : comp S A) (k : A -> comp S B) s :
  ub_or bad R (c s) -> (forall a s', R a s' -> ub_or bad Q (k a s')) -> ub_or bad Q ((c ≫= k) s).
Proof.
  unfold mbind, comp_bind. intros [[Hbad Hub]|(s' & a & Hc & HR)] Hk.
  - left. split; [done|]. destruct (c s) as [s' o]. cbn in Hub. by subst o.
  - rewrite Hc. by apply Hk.
Qed.

Lemma ub_or_weaken {A} bad (R Q : A -> S -> Prop) o : ub_or bad R o -> (forall a s, R a s -> Q a s) -> ub_or bad Q o.
Proof. intros [H|(s & a & -> & H)] HRQ; [by left|]. right. exists s, a. split; [done|]. by apply HRQ. Qed.

(** A loop with an invariant that carries its measure. *)
Lemma comp_loop_ub_or {X R} bad (J : nat -> X -> S -> Prop) (Q : R -> S -> Prop) (body : X -> comp S (X + R)) fuel k x s :
  (forall k x s, J k x s -> ub_or bad (fun r s' => match r with inl y => exists k', (k' < k)%nat /\ J k' y s' | inr r => Q r s' end) (body x s)) ->
  J k x s -> (k < fuel)%nat -> ub_or bad Q (comp_loop body fuel x s).
Proof.
  intros Hb. revert k x s. induction fuel as [|fuel IH]; intros k x s HJ Hm; [lia|]. cbn [comp_loop].
  eapply ub_or_bind; [by eapply Hb|]. intros [y|r] s' Hr; cbv beta iota in Hr |- *.
  - destruct Hr as (k' & Hk & HJ'). apply (IH k'); [done|lia].
  - by apply ub_or_ret.
Qed.
End UbOr.

(** ** Nodes *)

Definition node_at (s : bpf_verifier) (i : Z) : option inst_node := if i <? 0 then None else in_ s !! Z.to_nat i.

Lemma get_node_run s i nd : node_at s i = Some nd -> get_node i s = (s, Ret nd).
Proof. unfold node_at, get_node. intros H. erewrite bind_ret; [|reflexivity]. destruct (i <? 0); [done|]. by rewrite H. Qed.

Lemma get_node_ub s i : node_at s i = None -> get_node i s = (s, UB).
Proof. unfold node_at, get_node. intros H. erewrite bind_ret; [|reflexivity]. destruct (i <? 0); [done|]. by rewrite H. Qed.

Lemma set_node_run s i nd nd' : node_at s i = Some nd -> set_node i nd' s = (s <| in_ := <[Z.to_nat i := nd']> (in_ s) |>, Ret tt).
Proof. intros H. unfold set_node. by rewrite (bind_ret _ _ _ _ _ (get_node_run s i nd H)). Qed.

Lemma node_at_set s i nd nd' j : node_at s i = Some nd ->
  node_at (s <| in_ := <[Z.to_nat i := nd']> (in_ s) |>) j = if decide (j = i) then Some nd' else node_at s j.
Proof.
  unfold node_at. change (in_ (s <| in_ := ?l |>)) with l. intros H. destruct (Z.ltb_spec i 0) as [|Hi]; [done|].
  destruct (decide (j = i)) as [->|Hne].
  - rewrite (proj2 (Z.ltb_ge i 0)) by lia. apply list_lookup_insert_eq. by eapply lookup_lt_Some.
  - destruct (Z.ltb_spec j 0); [done|]. rewrite list_lookup_insert_ne by lia. done.
Qed.

Lemma node_at_range s i nd : node_at s i = Some nd -> 0 <= i < Z.of_nat (length (in_ s)).
Proof. unfold node_at. destruct (Z.ltb_spec i 0); [done|]. intros Hl%lookup_lt_Some. lia. Qed.

(** ** Graphs *)

Section Graph.
Context (E : Z -> list Z).

(** [i] can be reached from the first node. *)
Inductive reachable : Z -> Prop :=
| reach_0 : reachable 0
| reach_edge i j : reachable i -> j ∈ E i -> reachable j.

(** A path of at least one edge. *)
Definition edge (i j : Z) : Prop := j ∈ E i.
Definition cyclic : Prop := exists i, reachable i /\ tc edge i i.

(** Every node after its children. *)
Fixpoint topo (fin : list Z) : Prop :=
  match fin with
  | [] => True
  | u :: fin => (forall d, d ∈ E u -> d ∈ fin) /\ topo fin
  end.

Lemma topo_acyclic fin : topo fin -> NoDup fin -> forall i, i ∈ fin -> ~ tc edge i i.
Proof.
  induction fin as [|u fin IH]; intros Ht Hnd i Hi; [by apply not_elem_of_nil in Hi|]. destruct Ht as [Hu Ht].
  apply NoDup_cons in Hnd as [Hnin Hnd].
  assert (forall a b, tc edge a b -> a ∈ fin -> b ∈ fin) as Hclosed.
  { assert (forall a b, edge a b -> a ∈ fin -> b ∈ fin) as H1.
    { clear - Ht. intros a b Hab Ha. induction fin as [|w fin IH]; [by apply not_elem_of_nil in Ha|]. destruct Ht as [Hw Ht].
      apply elem_of_cons in Ha as [->|Ha]; apply elem_of_cons; right; [by apply Hw|by apply IH]. }
    induction 1; eauto. }
  intros Hc. apply elem_of_cons in Hi as [->|Hi]; [|by apply (IH Ht Hnd i)].
  apply Hnin. inversion Hc as [? ? Hab|? b ? Hab Hbc]; subst; [by apply Hu|]. apply (Hclosed b); [done|by apply Hu].
Qed.
End Graph.

(** ** The invariant *)

Section Walk.
Context (E : Z -> list Z) (n : Z).

(** The grey nodes are the path from the current node to the first. *)
Fixpoint linked (prev : Z -> Z) (stk : list Z) : Prop :=
  match stk with
  | [] => True
  | x :: stk => prev x = hd 0 stk /\ (if stk is y :: _ then x ∈ E y else x = 0) /\ linked prev stk
  end.

(** The first [cur] edges of the grey node [x], whose child is [child], are processed. *)
Definition grey_done (fin : list Z) (nback : nat) (cur : nat) (child : option Z) (stk : list Z) (x : Z) : Prop :=
  (cur <= length (E x))%nat
  /\ forall j d, (j < cur)%nat -> E x !! j = Some d -> d ∈ fin \/ child = Some d \/ (d ∈ stk /\ (0 < nback)%nat).

Fixpoint greys_done (fin : list Z) (nback : nat) (cur : Z -> nat) (child : option Z) (all stk : list Z) : Prop :=
  match stk with
  | [] => True
  | x :: stk => grey_done fin nback (cur x) child all x /\ greys_done fin nback cur (Some x) all stk
  end.

Definition processed (cur : Z -> nat) (stk : list Z) : nat := sum_list (cur <$> stk).

Lemma processed_ext cur cur' stk : (forall i, i ∈ stk -> cur' i = cur i) -> processed cur' stk = processed cur stk.
Proof.
  unfold processed. intros H. f_equal. apply map_ext_in. intros i Hi. by apply H, list_elem_of_In.
Qed.

(** The grey nodes [stk], the black nodes [fin] (the last one first), the number of back edges. *)
Record walk (child : option Z) (stk fin : list Z) (nback : nat) (cur : Z -> nat) (prev : Z -> Z) : Prop := {
  wk_range : forall i, i ∈ stk ++ fin -> 0 <= i < n /\ reachable E i;
  wk_nodup : NoDup (stk ++ fin);
  wk_cur : forall i, i ∉ stk -> cur i = 0%nat;
  wk_linked : linked prev stk;
  wk_grey : greys_done fin nback cur child stk stk;
  wk_fin : forall u d, u ∈ fin -> d ∈ E u -> d ∈ stk ++ fin;
  wk_topo : nback = 0%nat -> topo E fin;
  wk_back : (nback <= 2 * length fin + processed cur stk)%nat;
  wk_cycle : (0 < nback)%nat -> cyclic E }.

Lemma linked_path prev stk x d : linked prev (x :: stk) -> d ∈ stk -> tc (edge E) d x.
Proof.
  revert x. induction stk as [|y stk IH]; intros x (_ & Hx & Hl) Hd; [by apply not_elem_of_nil in Hd|].
  apply elem_of_cons in Hd as [->|Hd]; [by apply tc_once|]. eapply tc_r; [by apply IH|done].
Qed.

Lemma linked_ext prev prev' stk : (forall i, i ∈ stk -> prev' i = prev i) -> linked prev stk -> linked prev' stk.
Proof.
  induction stk as [|x stk IH]; [done|]. intros Hp (H1 & H2 & H3). split; [|split; [done|]].
  - rewrite Hp; [done|]. by apply elem_of_cons; left.
  - apply IH; [|done]. intros i Hi. apply Hp. apply elem_of_cons. by right.
Qed.

Lemma greys_done_mono fin fin' nb nb' cur child child' all all' stk cur' :
  greys_done fin nb cur child all stk ->
  (forall i, i ∈ stk -> cur' i = cur i) ->
  (forall d, d ∈ fin -> d ∈ fin') -> (forall d, d ∈ all -> d ∈ all' \/ d ∈ fin') -> (nb <= nb')%nat ->
  (forall d, child = Some d -> d ∈ fin' \/ child' = Some d) ->
  greys_done fin' nb' cur' child' all' stk.
Proof.
  revert child child'. induction stk as [|x stk IH]; intros child child' H Hcur Hfin Hall Hnb Hch; [done|].
  destruct H as [[Hle Hd] Hg]. split.
  - unfold grey_done. rewrite Hcur; [|apply elem_of_cons; by left]. split; [done|]. intros j d Hj Hjd.
    destruct (Hd j d Hj Hjd) as [?|[Hc|[Ha ?]]]; [by left; apply Hfin|destruct (Hch _ Hc); auto|].
    destruct (Hall _ Ha); [|by left]. right. right. split; [done|lia].
  - eapply IH; [done| |done|done|done|by right]. intros i Hi. apply Hcur. apply elem_of_cons. by right.
Qed.

(** An edge is processed. *)
Lemma walk_edge child x stk fin nb nb' cur prev d :
  walk None (x :: stk) fin nb cur prev -> E x !! cur x = Some d ->
  d ∈ fin \/ child = Some d \/ (d ∈ x :: stk /\ (0 < nb')%nat) ->
  (nb <= nb' <= nb + 1)%nat -> ((0 < nb')%nat -> cyclic E) ->
  walk child (x :: stk) fin nb' (<[x := Datatypes.S (cur x)]> cur) prev.
Proof.
  intros [Hr Hnd Hc Hl Hg Hf Ht Hb Hy] Hx Hd Hnb Hcy.
  assert (x ∉ stk) as Hxs by (apply NoDup_cons in Hnd as [Hnd _]; contradict Hnd; apply elem_of_app; by left).
  assert (forall i, i ∈ stk -> <[x := Datatypes.S (cur x)]> cur i = cur i) as Hcs
    by (intros i Hi; apply fn_lookup_insert_ne; congruence).
  split; [done|done| |done| |done| | |done].
  - intros i Hi. rewrite fn_lookup_insert_ne; [by apply Hc|]. intros ->. apply Hi. apply elem_of_cons. by left.
  - destruct Hg as [[Hle Hg1] Hg2]. split.
    + unfold grey_done. rewrite fn_lookup_insert. split; [by apply lookup_lt_Some in Hx|]. intros j d' Hj Hjd.
      destruct (decide (j = cur x)) as [->|]; [by rewrite Hx in Hjd; injection Hjd as <-|].
      destruct (Hg1 j d') as [?|[?|[? ?]]]; [lia|done|by left|done|]. right. right. split; [done|lia].
    + eapply greys_done_mono; [done|done|done|by left|lia|by right].
  - intros ?. apply Ht. lia.
  - change (processed ?c (x :: stk)) with (c x + processed c stk)%nat in Hb |- *.
    rewrite fn_lookup_insert, (processed_ext _ _ _ Hcs). lia.
Qed.

(** A white child becomes grey. *)
Lemma walk_enter x stk fin nb cur prev :
  walk (Some x) stk fin nb cur prev -> x ∉ stk ++ fin -> 0 <= x < n -> reachable E x ->
  prev x = hd 0 stk -> (if stk is y :: _ then x ∈ E y else x = 0) ->
  walk None (x :: stk) fin nb cur prev.
Proof.
  intros [Hr Hnd Hc Hl Hg Hf Ht Hb Hy] Hx Hxn Hxr Hprev Hpar.
  assert (cur x = 0%nat) as Hx0 by (apply Hc; contradict Hx; apply elem_of_app; by left).
  split; [|by apply NoDup_cons| | | | |done| |done].
  - intros i [->|Hi]%elem_of_cons; [done|by apply Hr].
  - intros i Hi. apply Hc. contradict Hi. apply elem_of_cons. by right.
  - by split.
  - split; [split; [lia|intros j d Hj; lia]|].
    eapply greys_done_mono; [done|done|done| |done|by right]. intros d Hd. left. apply elem_of_cons. by right.
  - intros u d Hu Hd. apply elem_of_cons. right. by eapply Hf.
  - change (processed cur (x :: stk)) with (cur x + processed cur stk)%nat. lia.
Qed.

Lemma walk_prev child stk fin nb cur prev x v : x ∉ stk ->
  walk child stk fin nb cur prev -> walk child stk fin nb cur (<[x := v]> prev).
Proof.
  intros Hx []. split; try done. eapply linked_ext; [|done]. intros i Hi. apply fn_lookup_insert_ne. congruence.
Qed.

(** A grey node whose edges are processed becomes black. *)
Lemma walk_finish x stk fin nb cur prev :
  (length (E x) <= 2)%nat ->
  walk None (x :: stk) fin nb cur prev -> cur x = length (E x) ->
  walk None stk (x :: fin) nb (<[x := 0%nat]> cur) prev.
Proof.
  intros HE [Hr Hnd Hc Hl Hg Hf Ht Hb Hy] Hx.
  assert (x ∉ stk) as Hxs by (apply NoDup_cons in Hnd as [Hnd _]; contradict Hnd; apply elem_of_app; by left).
  assert (forall i, i ∈ stk -> <[x := 0%nat]> cur i = cur i) as Hcs
    by (intros i Hi; apply fn_lookup_insert_ne; congruence).
  assert (Permutation (stk ++ x :: fin) ((x :: stk) ++ fin)) as HP by (symmetry; apply Permutation_middle).
  destruct Hg as [[Hle Hg1] Hg2].
  assert (forall d, d ∈ E x -> d ∈ fin \/ (d ∈ x :: stk /\ (0 < nb)%nat)) as Hxd.
  { intros d [j Hj]%list_elem_of_lookup. destruct (Hg1 j d) as [?|[?|?]]; [|done|by left|done|by right].
    apply lookup_lt_Some in Hj. lia. }
  split; [intros i; rewrite HP; apply Hr|by rewrite HP| |by destruct Hl as (_ & _ & Hl)| | | | |done].
  - intros i Hi. destruct (decide (i = x)) as [->|Hne]; [by rewrite fn_lookup_insert|].
    rewrite fn_lookup_insert_ne by done. apply Hc. intros [?|?]%elem_of_cons; done.
  - eapply greys_done_mono; [done|done| | |done|].
    + intros d Hd. apply elem_of_cons. by right.
    + intros d [->|Hd]%elem_of_cons; [right; apply elem_of_cons; by left|by left].
    + intros d [= <-]. left. apply elem_of_cons. by left.
  - intros u d [->|Hu]%elem_of_cons Hd; rewrite HP.
    + destruct (Hxd d Hd) as [?|[? _]]; apply elem_of_app; auto.
    + by eapply Hf.
  - intros ->. split; [|by apply Ht]. intros d Hd. destruct (Hxd d Hd) as [?|[_ ?]]; [done|lia].
  - change (processed cur (x :: stk)) with (cur x + processed cur stk)%nat in Hb.
    rewrite (processed_ext _ _ _ Hcs). cbn [length]. lia.
Qed.

(** The search meets a grey node only on a cycle. *)
Lemma walk_cyclic child x stk fin nb cur prev d :
  walk child (x :: stk) fin nb cur prev -> d ∈ E x -> d ∈ x :: stk -> cyclic E.
Proof.
  intros W Hd Hin. exists d. split; [apply (wk_range _ _ _ _ _ _ W); apply elem_of_app; by left|].
  apply elem_of_cons in Hin as [->|Hin]; [by apply tc_once|].
  eapply tc_r; [by eapply linked_path, Hin; apply (wk_linked _ _ _ _ _ _ W)|done].
Qed.

Lemma nodup_length (l : list Z) : NoDup l -> (forall i, i ∈ l -> 0 <= i < n) -> (length l <= Z.to_nat n)%nat.
Proof.
  intros Hnd Hr. replace (Z.to_nat n) with (length (seqZ 0 n)) by apply length_seqZ.
  apply submseteq_length, NoDup_submseteq; [done|]. intros i Hi. apply elem_of_seqZ. specialize (Hr i Hi). lia.
Qed.

Lemma walk_length child stk fin nb cur prev : walk child stk fin nb cur prev -> (length stk + length fin <= Z.to_nat n)%nat.
Proof.
  intros W. rewrite <- length_app. apply nodup_length; [by eapply wk_nodup|]. intros i Hi. by eapply wk_range.
Qed.

Lemma walk_back child stk fin nb cur prev : (forall i, (length (E i) <= 2)%nat) ->
  walk child stk fin nb cur prev -> (nb <= 2 * Z.to_nat n)%nat.
Proof.
  intros HE W. pose proof (walk_length _ _ _ _ _ _ W). pose proof (wk_back _ _ _ _ _ _ W).
  assert (forall c all l, greys_done fin nb cur c all l -> (processed cur l <= 2 * length l)%nat) as Hp.
  { intros c all l. revert c. induction l as [|x l IH]; intros c Hl; [done|]. destruct Hl as [[Hx _] Hl].
    change (processed cur (x :: l)) with (cur x + processed cur l)%nat. specialize (IH _ Hl). specialize (HE x). cbn [length]. lia. }
  specialize (Hp _ _ _ (wk_grey _ _ _ _ _ _ W)). lia.
Qed.

(** At the end the black nodes are the ones that can be reached. *)
Lemma walk_end fin nb cur prev : walk None [] fin nb cur prev -> 0 ∈ fin -> forall i, i ∈ fin <-> reachable E i.
Proof.
  intros W H0 i. split; [intros Hi; by eapply wk_range|]. induction 1 as [|i j _ IH Hj]; [done|]. by eapply (wk_fin _ _ _ _ _ _ W).
Qed.
End Walk.

(** ** The search *)

Section Dfs.
Context (E : Z -> list Z) (n : Z) (prog : list ebpf_insn) (nbn nbj w0 : Z).
Context (HE : forall i, (length (E i) <= 2)%nat) (Hn : 0 < n < 2 ^ 31).

Definition colour_in (stk fin : list Z) (i : Z) : colour :=
  if decide (i ∈ stk) then GREY else if decide (i ∈ fin) then BLACK else WHITE.

Definition nodes (s : bpf_verifier) (f : Z -> inst_node) : Prop :=
  Z.of_nat (length (in_ s)) = n /\ forall i, 0 <= i < n -> node_at s i = Some (f i).

(** What the search leaves alone, and the counters. *)
Definition counts (w g b nback : Z) (s : bpf_verifier) : Prop :=
  (prm s = prog /\ nb_nodes s = nbn /\ nb_jcc_nodes s = nbj)
  /\ node_colour s WHITE = u32 w /\ node_colour s GREY = u32 g /\ node_colour s BLACK = u32 b
  /\ edge_types s BACK_EDGE = u32 nback /\ edge_types s UNKNOWN_EDGE = 0.

Lemma counts_eq w g b nback w' g' b' s : counts w g b nback s -> w = w' -> g = g' -> b = b' -> counts w' g' b' nback s.
Proof. by intros H -> -> ->. Qed.

Definition node_of (stk fin : list Z) (cur : Z -> nat) (prev : Z -> Z) (i : Z) : inst_node :=
  mk_node (colour_in stk fin i) (Z.of_nat (cur i)) (E i) (prev i).

Record shows (stk fin : list Z) (nback : nat) (cur : Z -> nat) (prev : Z -> Z) (s : bpf_verifier) : Prop := {
  sh_nodes : nodes s (node_of stk fin cur prev);
  sh_counts : counts (w0 - Z.of_nat (length stk + length fin)) (Z.of_nat (length stk)) (Z.of_nat (length fin)) (Z.of_nat nback) s }.

(** What makes the search leave the array of nodes. *)
Definition leaves : Prop := exists u d, reachable E u /\ d ∈ E u /\ ~ 0 <= d < n.

Lemma nodes_get s f i : nodes s f -> 0 <= i < n -> get_node i s = (s, Ret (f i)).
Proof. intros [_ H] Hi. by apply get_node_run, H. Qed.

Lemma nodes_get_ub s f i : nodes s f -> ~ 0 <= i < n -> get_node i s = (s, UB).
Proof.
  intros [H _] Hi. apply get_node_ub. destruct (node_at s i) eqn:Hx; [|done]. apply node_at_range in Hx. lia.
Qed.

(** Writing a node; the other fields stay. *)
Lemma nodes_set s f f' i nd : nodes s f -> 0 <= i < n ->
  (forall j, 0 <= j < n -> f' j = if decide (j = i) then nd else f j) ->
  exists s', set_node i nd s = (s', Ret tt) /\ nodes s' f' /\ (forall w g b nback, counts w g b nback s -> counts w g b nback s').
Proof.
  intros [Hl H] Hi Hf'. exists (s <| in_ := <[Z.to_nat i := nd]> (in_ s) |>).
  split; [by apply (set_node_run s i (f i) nd), H|]. split; [|done]. split.
  - change (in_ (s <| in_ := ?l |>)) with l. by rewrite length_insert.
  - intros j Hj. rewrite (node_at_set s i (f i) nd j) by by apply H. rewrite Hf' by done. destruct (decide (j = i)); [done|by apply H].
Qed.

Lemma node_of_cur stk fin cur prev x c j :
  node_of stk fin (<[x := c]> cur) prev j
  = if decide (j = x) then mk_node (colour_in stk fin x) (Z.of_nat c) (E x) (prev x) else node_of stk fin cur prev j.
Proof.
  unfold node_of. destruct (decide (j = x)) as [->|]; [by rewrite fn_lookup_insert|by rewrite fn_lookup_insert_ne by done].
Qed.

Lemma node_of_prev stk fin cur prev x v j :
  node_of stk fin cur (<[x := v]> prev) j
  = if decide (j = x) then mk_node (colour_in stk fin x) (Z.of_nat (cur x)) (E x) v else node_of stk fin cur prev j.
Proof.
  unfold node_of. destruct (decide (j = x)) as [->|]; [by rewrite fn_lookup_insert|by rewrite fn_lookup_insert_ne by done].
Qed.

Lemma colour_grey stk fin x : x ∈ stk -> colour_in stk fin x = GREY.
Proof. intros H. unfold colour_in. by rewrite decide_True. Qed.

Lemma colour_white stk fin x : x ∉ stk ++ fin <-> colour_in stk fin x = WHITE.
Proof.
  unfold colour_in. rewrite not_elem_of_app. destruct (decide (x ∈ stk)), (decide (x ∈ fin)); split; intros; try done; tauto.
Qed.

Lemma colour_skip stk fin x j : j <> x ->
  colour_in (x :: stk) fin j = colour_in stk fin j /\ colour_in stk (x :: fin) j = colour_in stk fin j.
Proof. intros Hne. unfold colour_in. split; repeat case_decide; set_solver. Qed.

Lemma colour_black stk fin x : x ∉ stk -> x ∈ fin -> colour_in stk fin x = BLACK.
Proof. intros H1 H2. unfold colour_in. rewrite decide_False by done. by rewrite decide_True. Qed.

Lemma bump_eq {A} `{EqDecision A} d (a : A) f v w : f a = u32 v -> v + d = w -> bump d a f a = u32 w.
Proof. intros Hf <-. unfold bump. rewrite decide_True by done. by rewrite Hf, wrap_add_l. Qed.

Lemma bump_ne {A} `{EqDecision A} d (a b : A) f : b <> a -> bump d a f b = f b.
Proof. intros H. unfold bump. by rewrite decide_False. Qed.

(** [get_next_node] *)
Lemma get_next_run stk fin nback cur prev s x : shows stk fin nback cur prev s -> 0 <= x < n -> (cur x <= length (E x))%nat ->
  (cur x = length (E x) /\ get_next_node x s = (s, Ret None))
  \/ exists d s', E x !! cur x = Some d /\ get_next_node x s = (s', Ret (Some d))
       /\ shows stk fin nback (<[x := Datatypes.S (cur x)]> cur) prev s'.
Proof.
  intros [Hs Hc] Hx Hle. unfold get_next_node. rewrite (bind_ret _ _ _ _ _ (nodes_get s _ x Hs Hx)).
  change (edge_dest (node_of stk fin cur prev x)) with (E x).
  change (cur_edge (node_of stk fin cur prev x)) with (Z.of_nat (cur x)). rewrite Nat2Z.id.
  destruct (E x !! cur x) as [d|] eqn:Hd.
  - right. exists d.
    destruct (nodes_set s _ (node_of stk fin (<[x := Datatypes.S (cur x)]> cur) prev) x ((node_of stk fin cur prev x) <| cur_edge := Z.of_nat (cur x) + 1 |>) Hs Hx)
      as (s' & Hrun & Hn' & Hc'); [|exists s'; split; [done|]; split; [by rewrite (bind_ret _ _ _ _ _ Hrun)|split; [done|by apply Hc']]].
    intros j _. rewrite node_of_cur. replace (Z.of_nat (Datatypes.S (cur x))) with (Z.of_nat (cur x) + 1) by lia. done.
  - left. apply lookup_ge_None in Hd. split; [lia|done].
Qed.

(** [set_edge_type] *)
Lemma set_edge_type_run stk fin nback cur prev s x d : shows stk fin nback cur prev s -> 0 <= x < n -> 0 <= d < n ->
  exists s', set_edge_type x d s = (s', Ret tt)
    /\ shows stk fin (if decide (colour_in stk fin d = GREY) then Datatypes.S nback else nback) cur prev s'.
Proof.
  intros [Hs Hc] Hx Hd. unfold set_edge_type.
  rewrite (bind_ret _ _ _ _ _ (nodes_get s _ x Hs Hx)), (bind_ret _ _ _ _ _ (nodes_get s _ d Hs Hd)). cbv zeta.
  change (n_colour (node_of stk fin cur prev d)) with (colour_in stk fin d).
  eexists. split; [reflexivity|]. split; [done|]. destruct Hc as (Hf & Hw & Hg & Hb & Hbk & Hu).
  split; [done|]. split; [done|]. split; [done|]. split; [done|].
  change (edge_types (s <| edge_types := ?h |>)) with h.
  destruct (colour_in stk fin d); rewrite (bump_ne _ _ UNKNOWN_EDGE) by done; (split; [|done]);
    [by rewrite bump_ne| |by rewrite bump_ne].
  eapply bump_eq; [done|]. cbn [decide]. destruct (decide _); [lia|done].
Qed.

(** [set_node_colour] *)
Lemma set_node_colour_run s f f' x new w g b nback : nodes s f -> 0 <= x < n -> counts w g b nback s -> n_colour (f x) <> new ->
  (forall j, 0 <= j < n -> f' j = if decide (j = x) then (f x) <| n_colour := new |> else f j) ->
  exists s', set_node_colour x new s = (s', Ret tt) /\ nodes s' f'
    /\ let d c := (if decide (c = new) then 1 else 0) - (if decide (c = n_colour (f x)) then 1 else 0) in
       counts (w + d WHITE) (g + d GREY) (b + d BLACK) nback s'.
Proof.
  intros Hs Hx Hc Hne Hf'. unfold set_node_colour. rewrite (bind_ret _ _ _ _ _ (nodes_get s f x Hs Hx)).
  destruct (nodes_set s f f' x ((f x) <| n_colour := new |>) Hs Hx Hf') as (s1 & Hrun & Hn1 & Hc1).
  rewrite (bind_ret _ _ _ _ _ Hrun). eexists. split; [reflexivity|]. split; [done|]. cbv zeta.
  destruct (Hc1 _ _ _ _ Hc) as (Hfr & Hw & Hg & Hb & Hbk & Hu). split; [done|].
  change (node_colour (s1 <| node_colour := ?h |>)) with h.
  assert (forall c v, node_colour s1 c = u32 v ->
    bump 1 new (bump (-1) (n_colour (f x)) (node_colour s1)) c
    = u32 (v + ((if decide (c = new) then 1 else 0) - (if decide (c = n_colour (f x)) then 1 else 0)))) as Hb2.
  { intros c v Hv. destruct (decide (c = new)) as [->|]; destruct (decide (_ = n_colour (f x))) as [He|].
    - congruence.
    - eapply bump_eq; [by rewrite bump_ne|lia].
    - rewrite bump_ne by done. subst c. eapply bump_eq; [done|lia].
    - rewrite !bump_ne by done. rewrite Hv. f_equal. lia. }
  split; [by apply Hb2|]. split; [by apply Hb2|]. split; [by apply Hb2|]. done.
Qed.

(** The next white child of the grey node [x]. *)
Lemma find_white_run x stk fin nback cur prev s :
  walk E n None (x :: stk) fin nback cur prev -> shows (x :: stk) fin nback cur prev s ->
  ub_or leaves (fun r s' => exists nback cur,
    walk E n r (x :: stk) fin nback cur prev /\ shows (x :: stk) fin nback cur prev s'
    /\ match r with
       | None => cur x = length (E x)
       | Some d => d ∈ E x /\ d ∉ (x :: stk) ++ fin /\ 0 <= d < n
       end)
    (comp_loop (find_white x) (Z.to_nat MAX_EDGES + 1) tt s).
Proof.
  intros W Hs. eapply (comp_loop_ub_or _ (fun k _ s => exists nback cur,
    walk E n None (x :: stk) fin nback cur prev /\ shows (x :: stk) fin nback cur prev s /\ k = (length (E x) - cur x)%nat));
    [|by exists nback, cur|change (Z.to_nat MAX_EDGES) with 2%nat; specialize (HE x); lia].
  clear nback cur s W Hs. intros k [] s (nback & cur & W & Hs & Hk).
  destruct (wk_range _ _ _ _ _ _ _ _ W x) as [Hx Hxr]; [apply elem_of_app; left; apply elem_of_cons; by left|].
  pose proof (proj1 (proj1 (wk_grey _ _ _ _ _ _ _ _ W))) as Hle. unfold find_white.
  destruct (get_next_run _ _ _ _ _ _ _ Hs Hx Hle) as [[Hc Hrun]|(d & s1 & Hd & Hrun & Hs1)]; rewrite (bind_ret _ _ _ _ _ Hrun).
  { apply ub_or_ret. by exists nback, cur. }
  pose proof (lookup_lt_Some _ _ _ Hd) as Hlt. pose proof (list_elem_of_lookup_2 _ _ _ Hd) as Hdx.
  destruct (decide (0 <= d < n)) as [Hdn|Hdn].
  2: { left. split; [by exists x, d|]. unfold set_edge_type. destruct Hs1 as [Hs1 _].
       rewrite bind_assoc, (bind_ret _ _ _ _ _ (nodes_get s1 _ x Hs1 Hx)), bind_assoc.
       unfold mbind, comp_bind. by rewrite (nodes_get_ub s1 _ d Hs1 Hdn). }
  destruct (set_edge_type_run _ _ _ _ _ _ x d Hs1 Hx Hdn) as (s2 & Hrun2 & Hs2). rewrite (bind_ret _ _ _ _ _ Hrun2).
  rewrite (bind_ret _ _ _ _ _ (nodes_get s2 _ d (sh_nodes _ _ _ _ _ _ Hs2) Hdn)). apply ub_or_ret.
  change (n_colour (node_of ?a ?b ?c ?e d)) with (colour_in a b d).
  destruct (decide (colour_in (x :: stk) fin d = GREY)) as [Hg|Hg].
  - rewrite decide_False by congruence. exists (length (E x) - Datatypes.S (cur x))%nat. split; [lia|].
    exists (Datatypes.S nback), (<[x := Datatypes.S (cur x)]> cur). split; [|split; [done|by rewrite fn_lookup_insert]].
    assert (d ∈ x :: stk) as Hin by (unfold colour_in in Hg; destruct (decide (d ∈ x :: stk)); [done|by destruct (decide (d ∈ fin))]).
    eapply walk_edge; [done|done|right; right; split; [done|lia]|lia|]. intros _. by eapply walk_cyclic.
  - destruct (decide (colour_in (x :: stk) fin d = WHITE)) as [Hw|Hw].
    + exists nback, (<[x := Datatypes.S (cur x)]> cur). split; [|split; [done|split; [done|by rewrite colour_white]]].
      eapply walk_edge; [done|done|right; by left|lia|]. apply (wk_cycle _ _ _ _ _ _ _ _ W).
    + exists (length (E x) - Datatypes.S (cur x))%nat. split; [lia|].
      exists nback, (<[x := Datatypes.S (cur x)]> cur). split; [|split; [done|by rewrite fn_lookup_insert]].
      eapply walk_edge; [done|done|left|lia|apply (wk_cycle _ _ _ _ _ _ _ _ W)].
      unfold colour_in in Hg, Hw. destruct (decide (d ∈ x :: stk)); [done|]. by destruct (decide (d ∈ fin)).
Qed.

(** The rounds left, for nodes that are not white and for grey ones. *)
Definition cost (stk fin : list Z) : nat := (2 * (Z.to_nat n - length stk - length fin) + length stk)%nat.

(** The loop of [dfs], at the node [x]. *)
Inductive dfs_at : nat -> Z -> bpf_verifier -> Prop :=
| at_new x stk fin nback cur prev s :
    walk E n (Some x) stk fin nback cur prev -> shows stk fin nback cur prev s ->
    x ∉ stk ++ fin -> 0 <= x < n -> reachable E x -> prev x = hd 0 stk -> (if stk is y :: _ then x ∈ E y else x = 0) ->
    dfs_at (cost stk fin) x s
| at_grey x stk fin nback cur prev s :
    walk E n None (x :: stk) fin nback cur prev -> shows (x :: stk) fin nback cur prev s ->
    dfs_at (cost (x :: stk) fin + 1) x s
| at_done fin nback cur prev s :
    walk E n None [] fin nback cur prev -> shows [] fin nback cur prev s -> 0 ∈ fin ->
    dfs_at (cost [] fin + 1) 0 s.

Definition dfs_done (s : bpf_verifier) : Prop :=
  exists fin nback cur prev, walk E n None [] fin nback cur prev /\ shows [] fin nback cur prev s /\ 0 ∈ fin.

(** A grey node that has no white child is finished. *)
Lemma finish_run x stk fin nback cur prev s :
  walk E n None (x :: stk) fin nback cur prev -> shows (x :: stk) fin nback cur prev s -> cur x = length (E x) ->
  exists s' k, ((set_node_colour x BLACK ;; n ← get_node x; set_node x (n <| cur_edge := 0 |>) ;; mret (inl (prev_node n))) : comp bpf_verifier (Z + unit)) s
    = (s', Ret (inl (hd 0 stk))) /\ (k < cost (x :: stk) fin + 1)%nat /\ dfs_at k (hd 0 stk) s'.
Proof.
  intros W [Hs Hc] Hcur. destruct (wk_range _ _ _ _ _ _ _ _ W x) as [Hx _]; [apply elem_of_app; left; apply elem_of_cons; by left|].
  pose proof (walk_finish _ _ _ _ _ _ _ _ (HE x) W Hcur) as W'. pose proof (walk_length _ _ _ _ _ _ _ _ W) as Hlen.
  assert (x ∉ stk) as Hxs by (pose proof (wk_nodup _ _ _ _ _ _ _ _ W) as [H _]%NoDup_cons; contradict H; apply elem_of_app; by left).
  destruct (set_node_colour_run s _ (node_of stk (x :: fin) cur prev) x BLACK _ _ _ _ Hs Hx Hc) as (s1 & Hrun1 & Hn1 & Hc1).
  { unfold node_of. cbn [n_colour]. by rewrite colour_grey by (apply elem_of_cons; by left). }
  { intros j _. unfold node_of. destruct (decide (j = x)) as [->|Hne].
    - rewrite colour_black; [done|done|apply elem_of_cons; by left].
    - by rewrite (proj1 (colour_skip _ _ _ _ Hne)), (proj2 (colour_skip _ _ _ _ Hne)). }
  destruct (nodes_set s1 _ (node_of stk (x :: fin) (<[x := 0%nat]> cur) prev) x
    ((node_of stk (x :: fin) cur prev x) <| cur_edge := 0 |>) Hn1 Hx) as (s2 & Hrun2 & Hn2 & Hc2).
  { intros j _. by rewrite node_of_cur. }
  exists s2. rewrite (bind_ret _ _ _ _ _ Hrun1), (bind_ret _ _ _ _ _ (nodes_get s1 _ x Hn1 Hx)), (bind_ret _ _ _ _ _ Hrun2).
  change (prev_node (node_of ?a ?b ?c ?e x)) with (e x). pose proof (wk_linked _ _ _ _ _ _ _ _ W) as (Hp & Hpar & _).
  assert (shows stk (x :: fin) nback (<[x := 0%nat]> cur) prev s2) as Hs2.
  { split; [done|]. apply Hc2. cbv zeta in Hc1.
    change (n_colour (node_of ?a ?b ?c ?e x)) with (colour_in a b x) in Hc1.
    rewrite colour_grey in Hc1 by (apply elem_of_cons; by left).
    eapply counts_eq; [exact Hc1|repeat case_decide; try congruence; cbn [length]; lia..]. }
  destruct stk as [|y stk].
  - cbn in Hpar. subst x. exists (cost [] (0%Z :: fin) + 1)%nat. rewrite Hp. split; [done|]. cbn [length] in Hlen. split.
    + unfold cost. cbn [length]. lia.
    + eapply at_done; [done|done|apply elem_of_cons; by left].
  - exists (cost (y :: stk) (x :: fin) + 1)%nat. rewrite Hp. split; [done|]. cbn [length] in Hlen. split.
    + unfold cost. cbn [length]. lia.
    + by eapply at_grey.
Qed.

(** The rounds of a grey node. *)
Lemma grey_round x stk fin nback cur prev s :
  walk E n None (x :: stk) fin nback cur prev -> shows (x :: stk) fin nback cur prev s ->
  ub_or leaves (fun r s' => match r with inl y => exists k, (k < cost (x :: stk) fin + 1)%nat /\ dfs_at k y s' | inr _ => dfs_done s' end)
    ((n ← get_node x;
      if decide (n_colour n = GREY) then
        next ← comp_loop (find_white x) (Z.to_nat MAX_EDGES + 1) tt;
        match next with
        | Some next => n ← get_node next; set_node next (n <| prev_node := x |>) ;; mret (inl next)
        | None => set_node_colour x BLACK ;; n ← get_node x; set_node x (n <| cur_edge := 0 |>) ;; mret (inl (prev_node n))
        end
      else mret (inr tt)) s).
Proof.
  intros W Hs. destruct (wk_range _ _ _ _ _ _ _ _ W x) as [Hx Hxr]; [apply elem_of_app; left; apply elem_of_cons; by left|].
  rewrite (bind_ret _ _ _ _ _ (nodes_get s _ x (sh_nodes _ _ _ _ _ _ Hs) Hx)).
  change (n_colour (node_of ?a ?b ?c ?e x)) with (colour_in a b x). rewrite decide_True by (apply colour_grey, elem_of_cons; by left).
  eapply ub_or_bind; [by eapply find_white_run|]. clear nback cur s W Hs. intros [d|] s (nback & cur & W & Hs & Hr).
  - destruct Hr as (Hd & Hnin & Hdn). destruct Hs as [Hs Hc]. rewrite (bind_ret _ _ _ _ _ (nodes_get s _ d Hs Hdn)).
    destruct (nodes_set s _ (node_of (x :: stk) fin cur (<[d := x]> prev)) d ((node_of (x :: stk) fin cur prev d) <| prev_node := x |>) Hs Hdn)
      as (s' & Hrun & Hn' & Hc'); [intros j _; by rewrite node_of_prev|].
    rewrite (bind_ret _ _ _ _ _ Hrun). apply ub_or_ret. exists (cost (x :: stk) fin). split; [lia|].
    eapply at_new; [|split; [done|by apply Hc']|done|done|by eapply reach_edge|by rewrite fn_lookup_insert|done].
    apply walk_prev; [|done]. contradict Hnin. apply elem_of_app. by left.
  - destruct (finish_run _ _ _ _ _ _ _ W Hs Hr) as (s' & k & Hrun & Hk & Hat). rewrite Hrun. apply ub_or_ret. by exists k.
Qed.

Lemma dfs_round k x s : dfs_at k x s ->
  ub_or leaves (fun r s' => match r with inl y => exists k', (k' < k)%nat /\ dfs_at k' y s' | inr _ => dfs_done s' end) (dfs_body x s).
Proof.
  intros [x' stk fin nback cur prev s' W [Hs Hc] Hnin Hx Hxr Hprev Hpar|x' stk fin nback cur prev s' W Hs|fin nback cur prev s' W Hs H0].
  - unfold dfs_body. rewrite (bind_ret _ _ _ _ _ (nodes_get s' _ x' Hs Hx)).
    assert (n_colour (node_of stk fin cur prev x') = WHITE) as Hw by by apply colour_white.
    rewrite decide_True by done.
    destruct (set_node_colour_run s' _ (node_of (x' :: stk) fin cur prev) x' GREY _ _ _ _ Hs Hx Hc) as (s1 & Hrun & Hn1 & Hc1); [by rewrite Hw| |].
    { intros j _. unfold node_of. destruct (decide (j = x')) as [->|Hne].
      - by rewrite colour_grey by (apply elem_of_cons; by left).
      - by rewrite (proj1 (colour_skip _ _ _ _ Hne)). }
    rewrite (bind_ret _ _ _ _ _ Hrun).
    assert (shows (x' :: stk) fin nback cur prev s1) as Hs1.
    { split; [done|]. cbv zeta in Hc1. rewrite Hw in Hc1.
      eapply counts_eq; [exact Hc1|repeat case_decide; try congruence; cbn [length]; lia..]. }
    pose proof (walk_enter _ _ _ _ _ _ _ _ W Hnin Hx Hxr Hprev Hpar) as W1. pose proof (walk_length _ _ _ _ _ _ _ _ W1) as Hlen.
    cbn [length] in Hlen. replace (cost stk fin) with (cost (x' :: stk) fin + 1)%nat by (unfold cost; cbn [length]; lia).
    by eapply grey_round.
  - destruct (wk_range _ _ _ _ _ _ _ _ W x') as [Hx _]; [apply elem_of_app; left; apply elem_of_cons; by left|].
    unfold dfs_body. rewrite (bind_ret _ _ _ _ _ (nodes_get s' _ x' (sh_nodes _ _ _ _ _ _ Hs) Hx)).
    change (n_colour (node_of ?a ?b ?c ?e x')) with (colour_in a b x').
    rewrite decide_False by by (rewrite colour_grey by (apply elem_of_cons; by left)). by eapply grey_round.
  - unfold dfs_body. rewrite (bind_ret _ _ _ _ _ (nodes_get s' _ 0 (sh_nodes _ _ _ _ _ _ Hs) ltac:(lia))).
    change (n_colour (node_of ?a ?b ?c ?e 0)) with (colour_in a b 0).
    assert (colour_in [] fin 0 = BLACK) as Hb by by apply colour_black; [apply not_elem_of_nil|].
    rewrite Hb. cbn [decide]. rewrite decide_False by done. rewrite (bind_ret _ _ s' s' tt) by done.
    rewrite (bind_ret _ _ _ _ _ (nodes_get s' _ 0 (sh_nodes _ _ _ _ _ _ Hs) ltac:(lia))).
    change (n_colour (node_of ?a ?b ?c ?e 0)) with (colour_in a b 0). rewrite Hb, decide_False by done.
    apply ub_or_ret. by exists fin, nback, cur, prev.
Qed.

(** The state before the search. *)
Definition dfs_ready (s : bpf_verifier) : Prop :=
  nodes s (fun i => mk_node WHITE 0 (E i) 0) /\ counts w0 0 0 0 s.

(** The search: it either leaves the array, or blackens the nodes that can be reached. *)
Theorem dfs_run s : dfs_ready s -> ub_or leaves (fun _ s' => dfs_done s') (dfs s).
Proof.
  intros [Hs Hc]. unfold dfs. rewrite (bind_ret get _ s s s) by reflexivity.
  apply (comp_loop_ub_or _ dfs_at _ dfs_body _ (cost [] [])); [intros k x s1; apply dfs_round| |].
  - apply (at_new 0 [] [] 0 (fun _ => 0%nat) (fun _ => 0)); [| |apply not_elem_of_nil|lia|apply reach_0|done|done].
    + split; [intros i []%elem_of_nil|apply NoDup_nil_2|done|done|done|intros u d []%elem_of_nil|done|done|lia].
    + split; [done|]. cbn. by rewrite Z.sub_0_r.
  - destruct Hs as [Hl _]. unfold cost. cbn. lia.
Qed.
End Dfs.
