(* ===== verification/BpfPass.v ===== *)
(** * The control flow graph of the eBPF verifier (lib/librte_bpf/bpf_validate.c)

    The first pass refuses exactly the programs with an invalid instruction or an edge
    that leaves the program, and builds the graph of the others. *)

From stdpp Require Import functions.
From S2P Require Import Prelude Effects Bpf BpfValidate BpfDfs.

(** ** The graph of a program *)

(** The instructions with their indices; the second half of a 64-bit load is no instruction. *)
Fixpoint program_nodes (i : Z) (prog : list ebpf_insn) : list (Z * ebpf_insn) :=
  match prog with
  | [] => []
  | ins :: prog =>
      (i, ins) :: (if is_ld_imm64 ins then match prog with [] => [] | _ :: prog => program_nodes (i + 2) prog end
                   else program_nodes (i + 1) prog)
  end.

(** Where an instruction goes, in 32 bits. *)
Definition targets (i : Z) (ins : ebpf_insn) : list Z :=
  if code ins =? (BPF_JMP ∥ EBPF_EXIT) then []
  else if decide (code ins ∈ jcc_codes) then [u32 (i + off ins + 1); u32 (i + 1)]
  else if code ins =? (BPF_JMP ∥ BPF_JA) then [u32 (i + off ins + 1)]
  else if is_ld_imm64 ins then [u32 (i + 2)]
  else [u32 (i + 1)].

Definition edges_of (ns : list (Z * ebpf_insn)) (n : Z) (j : Z) : list Z :=
  match list_find (fun e => fst e = j) ns with
  | Some (_, (_, ins)) => filter (fun t => t <= n) (targets j ins)
  | None => []
  end.

(** What the first pass asks of an instruction. *)
Definition insn_ok (n : Z) (e : Z * ebpf_insn) : bool :=
  syntax_ok (snd e) && forallb (fun t => t <=? n) (targets (fst e) (snd e)).
Definition pass_ok (prog : list ebpf_insn) : bool :=
  forallb (insn_ok (Z.of_nat (length prog))) (program_nodes 0 prog).

Lemma program_nodes_ge i prog e : e ∈ program_nodes i prog -> i <= fst e < i + Z.of_nat (length prog).
Proof.
  remember (length prog) as k eqn:Hk. assert (length prog <= k)%nat as Hle by lia. clear Hk.
  revert i prog Hle. induction k as [k IH] using lt_wf_ind. intros i prog Hle He.
  destruct prog as [|ins prog]; [by apply not_elem_of_nil in He|]. cbn [length] in Hle. cbn [program_nodes] in He.
  apply elem_of_cons in He as [->|He]; [cbn; lia|]. destruct (is_ld_imm64 ins).
  - destruct prog as [|? prog]; [by apply not_elem_of_nil in He|]. cbn [length] in Hle.
    apply (IH (k - 2)%nat) in He; [lia|lia|lia].
  - apply (IH (k - 1)%nat) in He; [lia|lia|lia].
Qed.

Lemma edges_of_length ns n j : (length (edges_of ns n j) <= 2)%nat.
Proof.
  unfold edges_of. destruct (list_find _ ns) as [[? [? ins]]|]; [|cbn; lia]. etransitivity; [apply length_filter|].
  unfold targets. repeat case_match; cbn; lia.
Qed.

Lemma edges_of_snoc ns n i ins j : (forall e, e ∈ ns -> fst e < i) ->
  edges_of (ns ++ [(i, ins)]) n j = if decide (j = i) then filter (fun t => t <= n) (targets i ins) else edges_of ns n j.
Proof.
  intros Hns. unfold edges_of. destruct (decide (j = i)) as [->|Hne].
  - rewrite list_find_app_r; [|apply list_find_None, Forall_forall; intros e He; specialize (Hns e He); lia].
    cbn. rewrite decide_True by done. done.
  - destruct (list_find (fun e => fst e = j) ns) as [[k e]|] eqn:Hf; [by rewrite (list_find_app_l _ _ _ _ _ Hf)|].
    rewrite list_find_app_r by done. cbn. by rewrite decide_False by done.
Qed.

(** ** The pass *)

Section Pass.
Context (n : Z) (Hn : 0 < n < 2 ^ 31) (prog : list ebpf_insn) (Hprog : Z.of_nat (length prog) = n).

Definition blank (ed : Z -> list Z) (i : Z) : inst_node := mk_node WHITE 0 (ed i) 0.

(** The state with the graph [ed] and [k] nodes. *)
Definition graph (ed : Z -> list Z) (k : Z) (s : bpf_verifier) : Prop :=
  nodes n s (blank ed) /\ exists j, counts prog (u32 k) j k 0 0 0 s.

Definition errno (ok : bool) : Z := if ok then 0 else - EINVAL.

Lemma errno_lor a b : Z.lor (errno a) (errno b) = errno (a && b).
Proof. by destruct a, b. Qed.

Lemma add_edge_run s ed k i t : graph ed k s -> 0 <= i < n -> (length (ed i) < 2)%nat ->
  exists s', add_edge i t s = (s', Ret (errno (t <=? n)))
    /\ graph (<[i := ed i ++ filter (fun t => t <= n) [t]]> ed) k s'.
Proof.
  intros [Hs [j Hc]] Hi Hlen. unfold add_edge. rewrite (bind_ret get _ s s s) by reflexivity.
  assert (nb_ins s = n) as Hnb by (unfold nb_ins; destruct Hc as ((-> & _) & _); done). rewrite Hnb.
  cbn [filter list_filter]. destruct (Z.leb_spec t n) as [Hle|Hgt].
  - rewrite (proj2 (Z.ltb_ge n t)), decide_True by lia.
    rewrite (bind_ret _ _ _ _ _ (nodes_get n s _ i Hs Hi)). change (edge_dest (blank ed i)) with (ed i).
    rewrite (proj2 (Z.leb_gt MAX_EDGES _)) by (change MAX_EDGES with 2; lia).
    destruct (nodes_set n prog (u32 k) j s _ (blank (<[i := ed i ++ [t]]> ed)) i ((blank ed i) <| edge_dest := ed i ++ [t] |>) Hs Hi)
      as (s' & Hrun & Hn' & Hc').
    { intros x _. unfold blank. destruct (decide (x = i)) as [->|]; [by rewrite fn_lookup_insert|by rewrite fn_lookup_insert_ne]. }
    rewrite (bind_ret _ _ _ _ _ Hrun). exists s'. split; [done|]. split; [done|]. exists j. by apply Hc'.
  - rewrite (proj2 (Z.ltb_lt n t)), decide_False by lia. exists s. split; [done|]. rewrite app_nil_r. split; [|by exists j].
    destruct Hs as [Hl Hs]. split; [done|]. intros x Hx. rewrite Hs by done. unfold blank.
    destruct (decide (x = i)) as [->|]; [by rewrite fn_lookup_insert|by rewrite fn_lookup_insert_ne].
Qed.

Lemma graph_ext ed ed' k s : (forall j, 0 <= j < n -> ed j = ed' j) -> graph ed k s -> graph ed' k s.
Proof.
  intros He [[Hl Hs] Hc]. split; [|done]. split; [done|]. intros i Hi. rewrite Hs by done. unfold blank. by rewrite He.
Qed.

(** The edges of an instruction that has none yet. *)
Lemma add_edges_run s ed k i ins : graph ed k s -> 0 <= i < n -> ed i = [] ->
  exists s', add_edges i ins s = (s', Ret (errno (forallb (fun t => t <=? n) (targets i ins))))
    /\ graph (<[i := filter (fun t => t <= n) (targets i ins)]> ed) k s'.
Proof.
  intros Hg Hi He. unfold add_edges, targets.
  assert (forall t, exists s', add_edge i t s = (s', Ret (errno (forallb (fun t => t <=? n) [t])))
    /\ graph (<[i := filter (fun t => t <= n) [t]]> ed) k s') as H1.
  { intros t. destruct (add_edge_run s ed k i t Hg Hi) as (s' & Hrun & Hg'); [rewrite He; cbn; lia|].
    exists s'. rewrite He in Hg'. cbn [forallb]. rewrite andb_true_r. split; [done|exact Hg']. }
  destruct (code ins =? (BPF_JMP ∥ EBPF_EXIT)).
  { exists s. split; [done|]. eapply graph_ext; [|done]. intros j _. destruct (decide (j = i)) as [->|]; [by rewrite fn_lookup_insert, He|by rewrite fn_lookup_insert_ne]. }
  destruct (decide (code ins ∈ jcc_codes)); [|repeat case_match; apply H1].
  destruct (add_edge_run s ed k i (u32 (i + off ins + 1)) Hg Hi) as (s1 & Hrun1 & Hg1); [rewrite He; cbn; lia|].
  rewrite (bind_ret _ _ _ _ _ Hrun1). rewrite He in Hg1. cbn [app] in Hg1.
  destruct (add_edge_run s1 _ k i (u32 (i + 1)) Hg1 Hi) as (s2 & Hrun2 & Hg2).
  { rewrite fn_lookup_insert. pose proof (length_filter (fun t => t <= n) [u32 (i + off ins + 1)]). cbn in *. lia. }
  rewrite (bind_ret _ _ _ _ _ Hrun2). eexists. split.
  { unfold mbind, comp_bind, modify, mret, comp_ret. rewrite errno_lor. cbn [forallb]. by rewrite andb_true_r. }
  rewrite fn_lookup_insert in Hg2. destruct Hg2 as [[Hl Hs] [j Hc]]. split; [|eexists; destruct Hc as ((? & ? & _) & Hr); split; [split; [done|split; [done|reflexivity]]|exact Hr]].
  split; [done|]. intros x Hx. change (node_at (s2 <| nb_jcc_nodes := ?v |>) x) with (node_at s2 x). rewrite Hs by done.
  unfold blank. f_equal. destruct (decide (x = i)) as [->|].
  - rewrite !fn_lookup_insert. by rewrite <- filter_app.
  - by rewrite !fn_lookup_insert_ne by done.
Qed.

(** The loop, from the node [i] on. *)
Lemma pass_loop fuel done_ rest i ok s :
  program_nodes 0 prog = done_ ++ program_nodes i rest -> drop (Z.to_nat i) prog = rest -> 0 <= i ->
  (forall e, e ∈ done_ -> fst e < i) -> (forall e, e ∈ program_nodes i rest -> code (snd e) < 255) ->
  graph (edges_of done_ n) (Z.of_nat (length done_)) s -> (length rest < fuel)%nat ->
  exists s', comp_loop pass_body fuel (i, errno ok) s = (s', Ret (errno (ok && forallb (insn_ok n) (program_nodes i rest))))
    /\ graph (edges_of (program_nodes 0 prog) n) (Z.of_nat (length (program_nodes 0 prog))) s'.
Proof.
  revert done_ rest i ok s. induction fuel as [|fuel IH]; [lia|]. intros dn rest i ok s Hall Hrest Hi0 Hlt Hcode Hg Hfuel.
  cbn [comp_loop]. unfold pass_body at 2. cbv beta iota. rewrite bind_assoc, (bind_ret get _ s s s) by reflexivity.
  assert (prm s = prog) as Hprm by (by destruct Hg as [_ [? ((? & _) & _)]]). rewrite Hprm.
  assert (prog !! Z.to_nat i = head rest) as Hhd by (rewrite <- Hrest, head_lookup, lookup_drop; f_equal; lia).
  destruct rest as [|ins rest]; cbn [head] in Hhd; rewrite Hhd.
  { exists s. cbn [program_nodes forallb]. rewrite andb_true_r. split; [done|]. by rewrite Hall, app_nil_r. }
  assert (0 <= i < n) as Hi by (apply lookup_lt_Some in Hhd; lia).
  assert (code ins < 255) as Hc by (apply (Hcode (i, ins)); cbn [program_nodes]; apply elem_of_cons; by left).
  unfold check_syntax. rewrite (proj2 (Z.leb_gt 255 _) Hc), bind_assoc. erewrite bind_ret; [|reflexivity].
  assert (edges_of dn n i = []) as Hnew.
  { unfold edges_of. replace (list_find (fun e => fst e = i) dn) with (@None (nat * (Z * ebpf_insn))); [done|].
    symmetry. apply list_find_None, Forall_forall. intros e He. specialize (Hlt e He). lia. }
  destruct (add_edges_run s _ _ i ins Hg Hi Hnew) as (s1 & Hrun1 & Hg1). rewrite bind_assoc, (bind_ret _ _ _ _ _ Hrun1).
  rewrite bind_assoc. erewrite bind_ret; [|reflexivity]. erewrite bind_ret; [|reflexivity]. cbv beta iota.
  change (if syntax_ok ins then 0 else - EINVAL) with (errno (syntax_ok ins)). rewrite !errno_lor.
  match goal with |- exists s', comp_loop _ _ _ ?s = _ /\ _ => set (s2 := s) end.
  assert (graph (edges_of (dn ++ [(i, ins)]) n) (Z.of_nat (length (dn ++ [(i, ins)]))) s2) as Hg2.
  { destruct Hg1 as [[Hl Hs] [j (Hf & Hw & Hg1 & Hb & Hbk & Hu)]]. rewrite length_app, Nat2Z.inj_add. split.
    - split; [done|]. intros x Hx. unfold s2. change (node_at _ x) with (node_at s1 x). rewrite Hs by done. unfold blank. f_equal.
      rewrite edges_of_snoc by done. destruct (decide (x = i)) as [->|]; [by rewrite fn_lookup_insert|by rewrite fn_lookup_insert_ne].
    - exists j. destruct Hf as (Hf1 & Hf2 & Hf3). split; [split; [done|split; [|done]]|].
      + change (nb_nodes s2) with (u32 (nb_nodes s1 + 1)). by rewrite Hf2, wrap_add_l.
      + change (node_colour s2) with (bump 1 WHITE (node_colour s1)). split; [by eapply bump_eq|]. by rewrite !bump_ne. }
  cbn [program_nodes] in Hall, Hcode |- *. cbn [forallb]. unfold insn_ok at 1. cbn [fst snd]. rewrite !andb_assoc.
  rewrite cons_middle, app_assoc in Hall. cbn [length] in Hfuel.
  set (step := if is_ld_imm64 ins then 2 else 1).
  set (rest' := if is_ld_imm64 ins then tail rest else rest).
  assert ((if is_ld_imm64 ins then match rest with [] => [] | _ :: prog => program_nodes (i + 2) prog end else program_nodes (i + 1) rest)
    = program_nodes (i + step) rest') as Hnext by (unfold step, rest'; by destruct (is_ld_imm64 ins), rest).
  rewrite Hnext in Hall, Hcode |- *. replace (if is_ld_imm64 ins then i + 2 else i + 1) with (i + step) by (unfold step; by destruct (is_ld_imm64 ins)).
  apply (IH (dn ++ [(i, ins)])); [done| |unfold step; destruct (is_ld_imm64 ins); lia| | |done|].
  - unfold step, rest'. destruct (is_ld_imm64 ins);
      [replace (Z.to_nat (i + 2)) with (Z.to_nat i + 2)%nat by lia|replace (Z.to_nat (i + 1)) with (Z.to_nat i + 1)%nat by lia];
      rewrite <- drop_drop, Hrest; [by destruct rest|done].
  - intros e [He|He%list_elem_of_singleton]%elem_of_app; [specialize (Hlt e He)|subst e; cbn];
      unfold step; destruct (is_ld_imm64 ins); lia.
  - intros e He. apply Hcode. apply elem_of_cons. by right.
  - unfold rest'. destruct (is_ld_imm64 ins); [|lia]. destruct rest; cbn [tail length] in *; lia.
Qed.

Definition edges : Z -> list Z := edges_of (program_nodes 0 prog) n.

(** The first pass without an instruction of the last opcode: the graph, and the errors. *)
Lemma pass_run : (forall e, e ∈ program_nodes 0 prog -> code (snd e) < 255) ->
  exists s', pass (new_verifier prog) = (s', Ret (errno (pass_ok prog)))
    /\ graph edges (Z.of_nat (length (program_nodes 0 prog))) s'.
Proof.
  intros Hcode. unfold pass. erewrite bind_ret; [|reflexivity]. change (prm (new_verifier prog)) with prog.
  destruct (pass_loop (length prog + 1) [] prog 0 true (new_verifier prog)) as (s' & Hrun & Hg); [done|done|lia| |done| |lia|].
  - intros e []%elem_of_nil.
  - split; [|by exists 0]. split; [change (in_ (new_verifier prog)) with (replicate (length prog) (mk_node WHITE 0 [] 0)); by rewrite length_replicate|].
    intros i Hi. unfold node_at. rewrite (proj2 (Z.ltb_ge i 0)) by lia.
    change (in_ (new_verifier prog)) with (replicate (length prog) (mk_node WHITE 0 [] 0)).
    apply lookup_replicate_2. lia.
  - exists s'. split; [|done]. rewrite <- Hprog in Hrun. exact Hrun.
Qed.
End Pass.
