(* ===== verification/BpfVerify.v ===== *)
(** * What the first pass of the eBPF verifier accepts (lib/librte_bpf/bpf_validate.c)

    The result of [validate] in terms of the graph, and what it means for the
    interpreter: an accepted program whose jumps land on instructions terminates. *)

From stdpp Require Import functions.
From S2P Require Import Prelude Effects Bpf BpfValidate BpfDfs BpfPass.

(** ** The result of the pass *)

Section Validate.
Context (prog : list ebpf_insn) (Hlen : 0 < Z.of_nat (length prog) < 2 ^ 31).
Context (Hcode : forall e, e ∈ program_nodes 0 prog -> code (snd e) < 255).

Local Notation n := (Z.of_nat (length prog)).
Local Notation E := (edges n prog).

(** The indices of the instructions. *)
Definition insns (prog : list ebpf_insn) : list Z := fst <$> program_nodes 0 prog.

(** The nodes that can be reached from the first, each once. *)
Definition reached (l : list Z) : Prop := NoDup l /\ forall i, i ∈ l <-> reachable E i.

Definition accepted : Prop :=
  pass_ok prog = true /\ ~ leaves E n /\ ~ cyclic E /\ exists l, reached l /\ length l = length (insns prog).

Lemma reached_length l l' : reached l -> reached l' -> length l = length l'.
Proof.
  intros [H1 H2] [H1' H2']. apply Permutation_length, NoDup_Permutation; [done..|]. intros i. by rewrite H2, H2'.
Qed.

Lemma insns_length : (length (insns prog) <= length prog)%nat.
Proof.
  unfold insns. rewrite length_fmap. generalize 0. remember (length prog) as k eqn:Hk.
  assert (length prog <= k)%nat as Hle by lia. clear Hk Hlen Hcode. revert prog Hle.
  induction k as [k IH] using lt_wf_ind. intros p Hle i.
  destruct p as [|ins p]; [cbn; lia|]. cbn [length program_nodes] in *. destruct (is_ld_imm64 ins).
  - destruct p as [|? p]; [cbn; lia|]. cbn [length] in *. specialize (IH (k - 2)%nat ltac:(lia) p ltac:(lia) (i + 2)). lia.
  - specialize (IH (k - 1)%nat ltac:(lia) p ltac:(lia) (i + 1)). lia.
Qed.

(** The end of [validate], after a search that stayed in the array. *)
Lemma validate_end j s k : Z.of_nat k = Z.of_nat (length (insns prog)) ->
  dfs_done E n prog (u32 (Z.of_nat k)) j (Z.of_nat k) s ->
  exists l, reached l /\ ~ leaves E n
    /\ ((~ cyclic E /\ length l = k /\ forall A (a b : A), (if negb (node_colour s BLACK =? nb_nodes s) then a
          else if negb (node_colour s GREY =? 0) || negb (node_colour s WHITE =? 0) || negb (edge_types s UNKNOWN_EDGE =? 0) then a
          else if negb (edge_types s BACK_EDGE =? 0) then a else b) = b)
       \/ (~ (~ cyclic E /\ length l = k) /\ forall A (a b : A), (if negb (node_colour s BLACK =? nb_nodes s) then a
          else if negb (node_colour s GREY =? 0) || negb (node_colour s WHITE =? 0) || negb (edge_types s UNKNOWN_EDGE =? 0) then a
          else if negb (edge_types s BACK_EDGE =? 0) then a else b) = a)).
Proof.
  intros Hk (fin & nback & cur & prev & W & [_ Hc] & H0). exists fin. pose proof insns_length as Hil.
  pose proof (walk_length _ _ _ _ _ _ _ _ W) as Hfl. cbn [length] in Hfl. rewrite Nat2Z.id in Hfl.
  pose proof (walk_back _ _ _ _ _ _ _ _ (edges_of_length _ _) W) as Hbk. rewrite Nat2Z.id in Hbk.
  pose proof (walk_end _ _ _ _ _ _ W H0) as Hr.
  split; [split; [by pose proof (wk_nodup _ _ _ _ _ _ _ _ W)|done]|]. split.
  { intros (u & d & Hu & Hd & Hout). apply Hout, (wk_range _ _ _ _ _ _ _ _ W). by eapply (wk_fin _ _ _ _ _ _ _ _ W), Hd; apply Hr. }
  destruct Hc as ((_ & Hnb & _) & Hw & Hg & Hb & Hbe & Hu). cbn [length] in Hw, Hg.
  assert (forall x, 0 <= x < 2 ^ 32 -> u32 x = x) as Hs by (intros x Hx; apply wrap_small; unfold in_range; lia).
  rewrite Hs in Hb by lia. rewrite Hs in Hnb by lia. rewrite Hs in Hbe by lia. rewrite Hb, Hnb, Hbe, Hg, Hu.
  destruct (decide (length fin = k)) as [He|He].
  - replace (node_colour s WHITE) with 0 by (rewrite Hw; cbn; rewrite He; by replace (Z.of_nat k - Z.of_nat k) with 0 by lia).
    rewrite He, Z.eqb_refl. cbn. destruct nback as [|nback].
    + left. split; [|done]. intros (i & Hi & Hcyc). eapply topo_acyclic, Hcyc; [by eapply wk_topo|by pose proof (wk_nodup _ _ _ _ _ _ _ _ W)|by apply Hr].
    + right. split; [|done]. intros [Hac _]. apply Hac. apply (wk_cycle _ _ _ _ _ _ _ _ W). lia.
  - right. split; [by intros [_ ?]|]. rewrite (proj2 (Z.eqb_neq _ _)) by lia. done.
Qed.

(** The result of the first pass. *)
Lemma validate_run :
  let o := snd (validate (new_verifier prog)) in
  (accepted /\ o = Ret 0)
  \/ (pass_ok prog = true /\ leaves E n /\ o = UB)
  \/ (~ accepted /\ ~ (pass_ok prog = true /\ leaves E n) /\ o = Ret (- EINVAL)).
Proof.
  cbv zeta. unfold validate. destruct (pass_run n Hlen prog eq_refl Hcode) as (s1 & Hrun & [Hn1 [j Hc1]]).
  rewrite (bind_ret _ _ _ _ _ Hrun). destruct (pass_ok prog) eqn:Hok.
  2: { right. right. split; [by intros [? _]; congruence|]. split; [by intros [? _]|done]. }
  change (negb (errno true =? 0)) with false. cbv iota.
  assert (dfs_ready E n prog (u32 (Z.of_nat (length (insns prog)))) j (Z.of_nat (length (insns prog))) s1) as Hready
    by (unfold insns; rewrite length_fmap; by split).
  destruct (dfs_run _ _ _ _ _ _ (edges_of_length _ _) Hlen s1 Hready) as [[Hl Hub]|(s2 & [] & Hd & Hdone)].
  - right. left. split; [done|]. split; [done|]. unfold mbind, comp_bind. destruct (dfs s1) as [? []]; cbn in Hub |- *; congruence.
  - rewrite (bind_ret _ _ _ _ _ Hd), (bind_ret get _ s2 s2 s2) by reflexivity.
    destruct (validate_end j s2 _ eq_refl Hdone) as (l & Hl & Hnl & [(Hac & Hk & Hif)|(Hne & Hif)]); rewrite Hif.
    + left. split; [|done]. split; [done|]. split; [done|]. split; [done|by exists l].
    + right. right. split; [|split; [by intros [_ ?]|done]]. intros (_ & _ & Hac & l' & Hl' & Hk). apply Hne. split; [done|].
      rewrite <- Hk. by apply reached_length.
Qed.
End Validate.
