(* ===== verification/BpfRun.v ===== *)
(** * Programs that the eBPF verifier accepts (lib/librte_bpf)

    The interpreter on a program that passed the first pass: it goes along the edges of
    the graph, so it stops, and it meets no instruction that it does not know. *)

From stdpp Require Import functions.
From S2P Require Import Prelude Effects Bpf BpfValidate BpfDfs BpfPass BpfVerify.

(** ** Instructions *)

(** The ranges of the fields. *)
Definition insn_wf (ins : ebpf_insn) : Prop :=
  0 <= code ins < 256 /\ 0 <= dst_reg ins < 16 /\ 0 <= src_reg ins < 16 /\ - 2 ^ 15 <= off ins < 2 ^ 15 /\ - 2 ^ 31 <= imm ins < 2 ^ 31.

Definition uses_src (act : action) : bool :=
  match act with Alu _ _ X | Load _ | Store_reg _ | Xadd _ | Jcc _ X => true | _ => false end.

Definition mask_regs (m : Z) : bool := bool_decide (m ∈ [ZERO_REG; WRT_REGS; ALL_REGS]).

(** What the tables say of an opcode that has an entry. *)
Definition entry_ok (op : Z) : bool :=
  let c := ins_chk_at op in
  (mask_dreg c =? 0)
  || match action_of op with
     | None => false
     | Some act =>
         mask_regs (mask_dreg c) && mask_regs (mask_sreg c)
         && Bool.eqb (op =? (BPF_JMP ∥ EBPF_EXIT)) (match act with Exit_insn => true | _ => false end)
         && Bool.eqb (bool_decide (op ∈ jcc_codes)) (match act with Jcc _ _ => true | _ => false end)
         && Bool.eqb (op =? (BPF_JMP ∥ BPF_JA)) (match act with Ja => true | _ => false end)
         && Bool.eqb (op =? (BPF_LD ∥ BPF_IMM ∥ EBPF_DW)) (match act with Load_imm64 => true | _ => false end)
         && match act with Alu w (DIV | MOD) K => 1 <=? imm_min c | _ => true end
         && match act with Alu w _ _ => (w =? 32) || (w =? 64) | _ => true end
     end.

Lemma entries_ok : forallb entry_ok (seqZ 0 255) = true.
Proof. vm_compute. reflexivity. Qed.

Lemma mask_reg m r : mask_regs m = true -> 0 <= r < 16 -> Z.land m (Z.shiftl 1 r) <> 0 -> r <= 10.
Proof.
  intros Hm Hr Hl. apply bool_decide_eq_true in Hm. destruct (Z.le_gt_cases r 10) as [|Hgt]; [done|]. exfalso. apply Hl.
  assert (r = 11 \/ r = 12 \/ r = 13 \/ r = 14 \/ r = 15) as Hcases by lia.
  repeat (apply elem_of_cons in Hm as [->|Hm]; [destruct Hcases as [->|[->|[->|[->| ->]]]]; reflexivity|]). by apply not_elem_of_nil in Hm.
Qed.

(** The next instructions, by the action. *)
Definition action_targets (i : Z) (act : action) (ins : ebpf_insn) : list Z :=
  match act with
  | Exit_insn => []
  | Jcc _ _ => [u32 (i + off ins + 1); u32 (i + 1)]
  | Ja => [u32 (i + off ins + 1)]
  | Load_imm64 => [u32 (i + 2)]
  | _ => [u32 (i + 1)]
  end.

(** What the check says of the constant of an operation. *)
Definition imm_ok (ins : ebpf_insn) (act : action) : Prop :=
  match act with Alu w o src => (w = 32 \/ w = 64) /\ ((o = DIV \/ o = MOD) -> src = K -> u32 (imm ins) <> 0) | _ => True end.

(** A valid instruction has an action and names existing registers. *)
Lemma syntax_action ins : insn_wf ins -> code ins < 255 -> syntax_ok ins = true ->
  exists act, action_of (code ins) = Some act /\ dst_reg ins <= 10 /\ src_reg ins <= 10
    /\ (forall i, targets i ins = action_targets i act ins)
    /\ imm_ok ins act.
Proof.
  intros (Hc & Hd & Hs & _) Hlt Hok.
  assert (entry_ok (code ins) = true) as He.
  { pose proof entries_ok as He. rewrite forallb_forall in He. apply He, list_elem_of_In, elem_of_seqZ. lia. }
  unfold syntax_ok in Hok. cbv zeta in Hok. unfold entry_ok in He. cbv zeta in He.
  destruct (mask_dreg (ins_chk_at (code ins)) =? 0) eqn:Hm; [done|]. cbn [negb orb andb] in Hok, He.
  destruct (action_of (code ins)) as [act|]; [|done]. exists act. split; [done|].
  do 5 apply andb_prop in Hok as [Hok ?]. apply andb_prop in Hok as [Hd0 Hs0].
  do 5 apply andb_prop in He as [He ?]. rename He into Hmasks.
  rewrite negb_true_iff, Z.eqb_neq in Hd0, Hs0.
  apply andb_prop in Hmasks as [Hmasks Hexit]. apply andb_prop in Hmasks as [Hmd Hms].
  split; [by apply (mask_reg _ _ Hmd Hd)|]. split; [by apply (mask_reg _ _ Hms Hs)|].
  split.
  - intros i. unfold targets, is_ld_imm64.
    repeat match goal with H : Bool.eqb ?a ?b = true |- _ => apply Bool.eqb_prop in H end.
    match goal with H : (code ins =? (BPF_JMP ∥ EBPF_EXIT)) = _ |- _ => rewrite H end.
    match goal with H : bool_decide (_ ∈ jcc_codes) = _ |- _ => rename H into Hj end.
    match goal with H : (code ins =? (BPF_JMP ∥ BPF_JA)) = _ |- _ => rewrite H end.
    match goal with H : (code ins =? (BPF_LD ∥ BPF_IMM ∥ EBPF_DW)) = _ |- _ => rewrite H end.
    destruct act; rewrite ?bool_decide_eq_true, ?bool_decide_eq_false in Hj; try done;
      (rewrite decide_True by done) || (rewrite decide_False by done); done.
  - destruct act as [w o src| | | | | | | | | | | | ]; try done. split; [lia|]. intros Ho ->.
    assert (1 <= imm_min (ins_chk_at (code ins))) by (destruct Ho as [-> | ->]; lia). lia.
Qed.

(** ** The nodes of a program *)

Lemma program_nodes_lookup i prog k ins : 0 <= i -> (k, ins) ∈ program_nodes i prog -> prog !! Z.to_nat (k - i) = Some ins.
Proof.
  remember (length prog) as m eqn:Hm. assert (length prog <= m)%nat as Hle by lia. clear Hm.
  revert i prog Hle. induction m as [m IH] using lt_wf_ind. intros i prog Hle Hi Hk.
  destruct prog as [|ins0 prog]; [by apply not_elem_of_nil in Hk|]. cbn [length] in Hle. cbn [program_nodes] in Hk.
  apply elem_of_cons in Hk as [[= -> ->]|Hk]; [by rewrite Z.sub_diag|]. destruct (is_ld_imm64 ins0).
  - destruct prog as [|ins1 prog]; [by apply not_elem_of_nil in Hk|]. cbn [length] in Hle.
    pose proof (program_nodes_ge _ _ _ Hk) as Hge. cbn [fst] in Hge.
    apply (IH (m - 2)%nat) in Hk; [|lia..]. replace (Z.to_nat (k - i)) with (S (S (Z.to_nat (k - (i + 2))))) by lia. done.
  - pose proof (program_nodes_ge _ _ _ Hk) as Hge. cbn [fst] in Hge.
    apply (IH (m - 1)%nat) in Hk; [|lia..]. replace (Z.to_nat (k - i)) with (S (Z.to_nat (k - (i + 1)))) by lia. done.
Qed.

Lemma filter_all {A} (P : A -> Prop) `{forall x, Decision (P x)} (l : list A) : (forall x, x ∈ l -> P x) -> filter P l = l.
Proof.
  induction l as [|x l IH]; intros HP; [done|]. rewrite filter_cons_True by (apply HP, elem_of_cons; by left).
  f_equal. apply IH. intros y Hy. apply HP, elem_of_cons. by right.
Qed.

(** The edges of an instruction whose targets are in the program. *)
Lemma edges_of_node prog i ins n : (i, ins) ∈ program_nodes 0 prog -> insn_ok n (i, ins) = true ->
  edges_of (program_nodes 0 prog) n i = targets i ins.
Proof.
  intros Hin Hok. unfold edges_of. destruct (list_find _ _) as [[k [j ins']]|] eqn:Hf.
  - apply list_find_Some in Hf as (Hk & Hj & _). cbn [fst] in Hj. subst j.
    apply list_elem_of_lookup_2 in Hk. apply program_nodes_lookup in Hk; [|done]. apply program_nodes_lookup in Hin; [|done].
    rewrite Hk in Hin. injection Hin as ->. unfold insn_ok in Hok. apply andb_prop in Hok as [_ Hok]. cbn [fst snd] in Hok.
    rewrite forallb_forall in Hok. apply filter_all. intros t Ht%list_elem_of_In. specialize (Hok t Ht). lia.
  - apply list_find_None in Hf. rewrite Forall_forall in Hf. by apply (Hf _) in Hin.
Qed.

(** ** The interpreter *)

(** No jump into the second half of a 64-bit load. *)
Definition no_mid_jump (prog : list ebpf_insn) : bool :=
  forallb (fun e => forallb (fun t => bool_decide (t ∈ insns prog)) (targets (fst e) (snd e))) (program_nodes 0 prog).

Section Run.
Context {mem : Type} {env : BpfEnv mem}.

(** Why an operation of a valid instruction is undefined. *)
Definition hazard (s : bpf_state mem) (ins : ebpf_insn) (act : action) : Prop :=
  match act with
  | Alu w (LSH | RSH) src => exists b, operand_val w s ins src = Some b /\ w <= b
  | Alu w ARSH src => exists b, operand_val w s ins src = Some b /\ ~ 0 <= sgn w b < w
  | Load n => exists a, address s (src_reg ins) (off ins) = Some a /\ ld (bmem s) a n = None
  | Store_reg n | Store_imm n => exists a v, address s (dst_reg ins) (off ins) = Some a /\ st (bmem s) a n v = None
  | Xadd n =>
      exists a, address s (dst_reg ins) (off ins) = Some a /\ (ld (bmem s) a n = None \/ exists v, st (bmem s) a n v = None)
  | Call => xsym_func (bmem s) (imm ins) (take 5 (drop 1 (reg s))) = None
  | _ => False
  end.

(** The stops of a program that was checked. *)
Definition good_stop (prog : list ebpf_insn) (s : bpf_state mem) (e : bpf_stop) : Prop :=
  match e with
  | Returned _ | Division_by_zero => True
  | Invalid_opcode | Left_program => False
  | Undefined => exists ins act, prog !! Z.to_nat (pc s) = Some ins /\ action_of (code ins) = Some act /\ hazard s ins act
  end.

Definition regs_ok (s : bpf_state mem) : Prop := length (reg s) = 11%nat.

Lemma get_reg_some (s : bpf_state mem) i : regs_ok s -> i <= 10 -> exists v, get_reg s i = Some v.
Proof. intros Hr Hi. apply lookup_lt_is_Some_2. unfold regs_ok in Hr. lia. Qed.

Lemma set_reg_some (s : bpf_state mem) i v : i <= 10 -> set_reg s i v = Some (mk_bpf (<[Z.to_nat i := v]> (reg s)) (pc s) (bmem s)).
Proof. intros Hi. unfold set_reg. by rewrite (proj2 (Z.ltb_lt i EBPF_REG_NUM)) by (change EBPF_REG_NUM with 11; lia). Qed.

Lemma imm_nonzero w x : w = 32 \/ w = 64 -> u32 x <> 0 -> wrap w x <> 0.
Proof.
  unfold wrap. intros [-> | ->] Hx; [done|]. contradict Hx. apply Z.mod_divide in Hx as [k ->]; [|done].
  apply Z.mod_divide; [done|]. exists (k * 2 ^ 32). rewrite <- Z.mul_assoc. done.
Qed.

(** The goal after an instruction that writes one register, or whose operation is undefined. *)
Definition writes (prog : list ebpf_insn) (s : bpf_state mem) (r : bpf_state mem + bpf_stop) : Prop :=
  match r with inl s' => regs_ok s' /\ pc s' = pc s | inr e => good_stop prog s e end.

Lemma writes_reg prog s i v : regs_ok s -> i <= 10 -> writes prog s (defined (set_reg s i v)).
Proof. intros Hr Hi. rewrite set_reg_some by done. split; [|done]. unfold regs_ok. cbn [reg]. by rewrite length_insert. Qed.

Lemma alu_progress prog s ins w o src : regs_ok s -> dst_reg ins <= 10 -> src_reg ins <= 10 ->
  prog !! Z.to_nat (pc s) = Some ins -> action_of (code ins) = Some (Alu w o src) -> imm_ok ins (Alu w o src) ->
  writes prog s (exec_alu w o src s ins).
Proof.
  intros Hr Hd Hs Hins Hact [Hw Himm]. unfold exec_alu.
  destruct (get_reg_some s _ Hr Hd) as [vd Hvd], (get_reg_some s _ Hr Hs) as [vs Hvs].
  assert (exists b, operand_val w s ins src = Some b) as [b Hb]
    by (unfold operand_val; destruct src; [by eexists|rewrite Hvs; by eexists]).
  rewrite Hb. case_match; [done|]. rewrite Hvd.
  change (writes prog s (defined (alu w o (wrap w vd) b ≫= set_reg s (dst_reg ins)))).
  destruct (alu w o (wrap w vd) b) as [v|] eqn:Ha; [by apply writes_reg|]. exists ins, (Alu w o src). split; [done|]. split; [done|].
  assert ((o = DIV \/ o = MOD) -> b <> 0) as Hnz.
  { intros Ho. destruct src; [|by destruct Ho as [-> | ->]; apply Z.eqb_neq].
    unfold operand_val in Hb. injection Hb as <-. apply imm_nonzero; auto. }
  clear H. destruct o; cbn [hazard alu] in *; try done.
  - destruct (Z.ltb_spec b w); [done|]. by exists b.
  - destruct (Z.ltb_spec b w); [done|]. by exists b.
  - destruct ((0 <=? sgn w b) && (sgn w b <? w)) eqn:Hr2; [done|]. exists b. split; [done|lia].
  - rewrite (proj2 (Z.eqb_neq b 0)) in Ha by auto. done.
  - rewrite (proj2 (Z.eqb_neq b 0)) in Ha by auto. done.
Qed.

(** An instruction either goes on, its registers kept and its [pc] moved for the jumps and
    the long load only, or stops for a good reason. *)
Lemma action_progress prog s ins act : regs_ok s -> dst_reg ins <= 10 -> src_reg ins <= 10 ->
  prog !! Z.to_nat (pc s) = Some ins -> action_of (code ins) = Some act -> imm_ok ins act ->
  (act = Load_imm64 -> is_Some (prog !! Z.to_nat (pc s + 1))) ->
  match exec_action prog s ins act with
  | inl s' => regs_ok s' /\ match act with
      | Exit_insn => False
      | Jcc _ _ => pc s' = pc s + off ins \/ pc s' = pc s
      | Ja => pc s' = pc s + off ins
      | Load_imm64 => pc s' = pc s + 1
      | _ => pc s' = pc s
      end
  | inr e => good_stop prog s e
  end.
Proof.
  intros Hr Hd Hs Hins Hact Halu Hld.
  destruct (get_reg_some s _ Hr Hd) as [vd Hvd], (get_reg_some s _ Hr Hs) as [vs Hvs].
  destruct act as [w o src|w| | |k| |k|k|k| |c src| |]; cbn [exec_action].
  - by apply (alu_progress prog s ins w o src).
  - rewrite Hvd. by apply writes_reg.
  - rewrite Hvd. by apply writes_reg.
  - rewrite Hvd. by apply writes_reg.
  - unfold address. rewrite Hvs. cbn [fmap option_fmap option_map mbind option_bind].
    destruct (ld (bmem s) (u64 (vs + off ins)) k) as [v|] eqn:Hl; [by apply writes_reg|].
    exists ins, (Load k). split; [done|]. split; [done|]. exists (u64 (vs + off ins)). split; [unfold address; by rewrite Hvs|done].
  - destruct (Hld eq_refl) as [ins1 ->]. rewrite set_reg_some by done. split; [|done]. unfold regs_ok. cbn [reg]. by rewrite length_insert.
  - unfold address. rewrite Hvd, Hvs. cbn [fmap option_fmap option_map mbind option_bind]. unfold exec_store.
    destruct (st _ _ _ _) as [m|] eqn:Hst; [done|].
    exists ins, (Store_reg k). split; [done|]. split; [done|]. exists (u64 (vd + off ins)), (wrap (8 * k) vs). split; [unfold address; by rewrite Hvd|done].
  - unfold address. rewrite Hvd. cbn [fmap option_fmap option_map mbind option_bind]. unfold exec_store.
    destruct (st _ _ _ _) as [m|] eqn:Hst; [done|].
    exists ins, (Store_imm k). split; [done|]. split; [done|]. exists (u64 (vd + off ins)), (wrap (8 * k) (imm ins)). split; [unfold address; by rewrite Hvd|done].
  - unfold address. rewrite Hvd, Hvs. cbn [fmap option_fmap option_map mbind option_bind]. unfold exec_store.
    destruct (ld _ _ _) as [old|] eqn:Hl; cbn [mbind option_bind]; [destruct (st _ _ _ _) as [m|] eqn:Hst; [done|]|];
      exists ins, (Xadd k); (split; [done|]); (split; [done|]); exists (u64 (vd + off ins)); (split; [unfold address; by rewrite Hvd|]);
      [right; by eexists|by left].
  - done.
  - rewrite Hvd. assert (exists b, operand_val 64 s ins src = Some b) as [b ->]
      by (unfold operand_val; destruct src; [by eexists|rewrite Hvs; by eexists]).
    destruct (jump_taken c vd b); (split; [done|]); [by left|by right].
  - destruct (xsym_func _ _ _) as [[m v]|] eqn:Hx; [split; [unfold regs_ok; cbn [reg]; by rewrite length_insert|done]|].
    exists ins, Call. done.
  - destruct (get_reg_some s 0 Hr) as [v ->]; [lia|]. done.
Qed.

(** ** Termination *)

Section Accepted.
Context (prog : list ebpf_insn) (Hlen : 0 < Z.of_nat (length prog) < 2 ^ 31).
Context (Hcode : forall e, e ∈ program_nodes 0 prog -> code (snd e) < 255) (Hwf : forall ins, ins ∈ prog -> insn_wf ins).
Context (Hacc : accepted prog) (Hmid : no_mid_jump prog = true).

Local Notation n := (Z.of_nat (length prog)).
Local Notation E := (edges n prog).

(** The targets of a checked instruction are the indices they stand for. *)
Lemma target_value x : - 2 ^ 16 <= x < 2 ^ 32 -> u32 x <= n -> u32 x = x.
Proof using Hlen.
  intros Hx Hle. unfold wrap in *. destruct (Z.le_gt_cases 0 x); [apply Z.mod_small; lia|].
  replace (x mod 2 ^ 32) with (x + 2 ^ 32) in Hle; [lia|]. apply (Z.mod_unique_pos x (2 ^ 32) (-1)); lia.
Qed.

Lemma accepted_insn i : i ∈ insns prog -> exists ins, (i, ins) ∈ program_nodes 0 prog /\ insn_ok n (i, ins) = true
  /\ prog !! Z.to_nat i = Some ins /\ 0 <= i < n /\ forall t, t ∈ targets i ins -> t <= n /\ t ∈ insns prog.
Proof using Hacc Hmid.
  intros ([i' ins] & -> & Hin)%list_elem_of_fmap. exists ins. cbn [fst]. split; [done|].
  pose proof Hacc as [Hok _]. unfold pass_ok in Hok. rewrite forallb_forall in Hok.
  pose proof (Hok _ (proj1 (list_elem_of_In _ _) Hin)) as Hi. split; [done|].
  split; [by apply program_nodes_lookup in Hin; [rewrite Z.sub_0_r in Hin|]|].
  split; [by apply program_nodes_ge in Hin|]. intros t Ht. unfold insn_ok in Hi. apply andb_prop in Hi as [_ Hi]. cbn [fst snd] in Hi.
  rewrite forallb_forall in Hi. specialize (Hi t (proj1 (list_elem_of_In _ _) Ht)). split; [lia|].
  unfold no_mid_jump in Hmid. rewrite forallb_forall in Hmid. specialize (Hmid _ (proj1 (list_elem_of_In _ _) Hin)). cbn [fst snd] in Hmid.
  rewrite forallb_forall in Hmid. apply (bool_decide_eq_true_1 _), Hmid, list_elem_of_In, Ht.
Qed.

(** One instruction: along an edge, or a good stop. *)
Lemma step_edge s : regs_ok s -> pc s ∈ insns prog ->
  match bpf_step prog s with
  | inl s' => regs_ok s' /\ pc s' ∈ insns prog /\ pc s' ∈ E (pc s)
  | inr e => good_stop prog s e
  end.
Proof using Hlen Hcode Hwf Hacc Hmid.
  intros Hr Hpc. destruct (accepted_insn _ Hpc) as (ins & Hin & Hok & Hins & Hrange & Ht).
  assert (insn_wf ins) as Hw by (apply Hwf; by eapply list_elem_of_lookup_2).
  pose proof (andb_prop _ _ Hok) as [Hsyn _]. cbn [snd] in Hsyn.
  destruct (syntax_action ins Hw (Hcode _ Hin) Hsyn) as (act & Hact & Hd & Hs & Htg & Himm).
  assert (E (pc s) = targets (pc s) ins) as HE by by apply edges_of_node.
  unfold bpf_step. rewrite (proj2 (Z.ltb_ge _ _)) by lia. rewrite Hins, Hact.
  assert (forall t, t ∈ action_targets (pc s) act ins -> t <= n /\ t ∈ insns prog) as Ht' by (rewrite <- Htg; done).
  destruct Hw as (_ & _ & _ & Hoff & _). pose proof (target_value (pc s + 1) ltac:(lia)) as V1.
  pose proof (target_value (pc s + off ins + 1) ltac:(lia)) as Vj. pose proof (target_value (pc s + 2) ltac:(lia)) as V2.
  pose proof (action_progress prog s ins act Hr Hd Hs Hins Hact Himm) as Hprog.
  assert (act = Load_imm64 -> is_Some (prog !! Z.to_nat (pc s + 1))) as Hld.
  { intros ->. destruct (Ht' (u32 (pc s + 2))) as [Hle _]; [by apply elem_of_cons; left|]. apply lookup_lt_is_Some_2.
    rewrite V2 in Hle by done. lia. }
  specialize (Hprog Hld). destruct (exec_action prog s ins act) as [s'|e]; [|done]. destruct Hprog as [Hr' Hpc'].
  split; [done|]. cbn [pc]. rewrite HE, Htg.
  assert (forall x, u32 x ∈ action_targets (pc s) act ins -> (u32 x <= n -> u32 x = x) -> pc s' + 1 = x ->
    pc s' + 1 ∈ insns prog /\ pc s' + 1 ∈ action_targets (pc s) act ins) as Hgo.
  { intros x Hx Hv ->. destruct (Ht' _ Hx) as [Hle Hi]. rewrite Hv in Hi, Hx by done. done. }
  destruct act; try done; cbn [action_targets] in *;
    try (apply (Hgo (pc s + 1)); [apply elem_of_cons; by left|done|lia]).
  - apply (Hgo (pc s + 2)); [apply elem_of_cons; by left|done|lia].
  - apply (Hgo (pc s + off ins + 1)); [apply elem_of_cons; by left|done|lia].
  - destruct Hpc' as [Hp|Hp].
    + apply (Hgo (pc s + off ins + 1)); [apply elem_of_cons; by left|done|lia].
    + apply (Hgo (pc s + 1)); [apply elem_of_cons; right; apply elem_of_cons; by left|done|lia].
Qed.

(** An execution visits no instruction twice. *)
Lemma run_acyclic fuel visited l s : regs_ok s -> pc s ∈ insns prog -> reachable E (pc s) ->
  NoDup (pc s :: visited) -> (forall v, v ∈ visited -> tc (edge E) v (pc s)) -> (forall i, i ∈ visited -> reachable E i) ->
  reached prog l -> (length l <= length visited + fuel)%nat ->
  exists s' e, bpf_run prog fuel s = Some (s', e) /\ good_stop prog s' e.
Proof using Hlen Hcode Hwf Hacc Hmid.
  revert visited s. induction fuel as [|fuel IH]; intros visited s Hr Hpc Hre Hnd Hv Hvr Hl Hf.
  - exfalso. assert (length (pc s :: visited) <= length l)%nat as Hle; [|cbn in Hle; lia].
    apply submseteq_length, NoDup_submseteq; [done|]. intros i [->|Hi]%elem_of_cons; apply Hl; [done|by apply Hvr].
  - cbn [bpf_run]. pose proof (step_edge s Hr Hpc) as Hstep. destruct (bpf_step prog s) as [s'|e]; [|by exists s, e].
    destruct Hstep as (Hr' & Hpc' & He). assert (forall v, v ∈ pc s :: visited -> tc (edge E) v (pc s')) as Hv'.
    { intros v [->|Hi]%elem_of_cons; [by apply tc_once|]. by eapply tc_r; [apply Hv|]. }
    assert (reachable E (pc s')) as Hre' by by eapply reach_edge.
    apply (IH (pc s :: visited)); try done.
    + apply NoDup_cons. split; [|done]. intros Hin. destruct Hacc as (_ & _ & Hac & _). apply Hac. exists (pc s'). split; [done|by apply Hv'].
    + intros i [->|Hi]%elem_of_cons; [done|by apply Hvr].
    + cbn [length]. lia.
Qed.

Lemma run_terminates s : regs_ok s -> pc s = 0 ->
  exists s' e, bpf_run prog (length prog) s = Some (s', e) /\ good_stop prog s' e.
Proof using Hlen Hcode Hwf Hacc Hmid.
  intros Hr Hpc. pose proof Hacc as (_ & _ & _ & l & Hl & Hk). apply (run_acyclic _ [] l); rewrite ?Hpc; try done.
  - unfold insns. destruct prog as [|ins p] eqn:Hp; [cbn in Hlen; lia|]. cbn [program_nodes]. apply elem_of_cons. by left.
  - apply reach_0.
  - apply NoDup_singleton.
  - intros v Hv. by apply not_elem_of_nil in Hv.
  - intros v Hv. by apply not_elem_of_nil in Hv.
  - rewrite Hk. cbn. apply insns_length.
Qed.
End Accepted.
End Run.

(** ** Properties *)

(** C39. What the first pass of the verifier answers: it accepts exactly the programs whose
    instructions are valid and have their targets in the program, whose graph has no cycle
    and as many reachable nodes as the program has instructions; it leaves the array of
    nodes when a reachable instruction has the end of the program for its target, which
    [add_edge] lets through; it refuses the others. *)
Theorem validate_outcome (prog : list ebpf_insn)
  (Hlen : 0 < Z.of_nat (length prog) < 2 ^ 31) (Hcode : forall e, e ∈ program_nodes 0 prog -> code (snd e) < 255) :
  let o := snd (validate (new_verifier prog)) in
  let leaves := leaves (edges (Z.of_nat (length prog)) prog) (Z.of_nat (length prog)) in
  (o = Ret 0 <-> accepted prog) /\ (o = UB <-> pass_ok prog = true /\ leaves)
  /\ (o = Ret (- EINVAL) <-> ~ accepted prog /\ ~ (pass_ok prog = true /\ leaves)).
Proof.
  cbv zeta. pose proof (validate_run prog Hlen Hcode) as H. cbv zeta in H.
  assert (accepted prog -> ~ leaves (edges (Z.of_nat (length prog)) prog) (Z.of_nat (length prog))) as Hx by by intros (_ & ? & _).
  destruct H as [[Ha ->]|[(Hp & Hl & ->)|(Hna & Hnl & ->)]]; split_and!; split; intros; try done; try tauto.
Qed.

(** Moving a constant to R0, and a return. *)
Definition mov_exit : list ebpf_insn :=
  [mk_insn (EBPF_ALU64 ∥ EBPF_MOV ∥ BPF_K) 0 0 0 7; mk_insn (BPF_JMP ∥ EBPF_EXIT) 0 0 0 0].

Example validate_outcome_witness :
  snd (validate (new_verifier mov_exit)) = Ret 0 /\ accepted mov_exit.
Proof.
  assert (snd (validate (new_verifier mov_exit)) = Ret 0) as H by reflexivity. split; [exact H|].
  refine (proj1 (proj1 (validate_outcome mov_exit _ _)) H).
  - cbn. lia.
  - by apply Forall_forall; vm_compute; repeat constructor.
Defined.

Lemma bpf_run_more {mem} {env : BpfEnv mem} prog f f' s r : (f <= f')%nat -> bpf_run prog f s = Some r -> bpf_run prog f' s = Some r.
Proof.
  revert f' s. induction f as [|f IH]; intros f' s Hle Hr; [done|]. destruct f' as [|f']; [lia|]. cbn [bpf_run] in *.
  destruct (bpf_step prog s); [|done]. apply (IH f'); [lia|done].
Qed.

(** C38. A program that the first pass accepts and whose jumps land on instructions runs to
    an end within as many steps as it has instructions, from any registers and memory: it
    returns or divides by zero, it never meets an unknown opcode nor leaves the program,
    and the behaviour is undefined only for a shift by too much, an access the memory
    refuses, or a call of an external function that is undefined. *)
Theorem accepted_terminates {mem} {env : BpfEnv mem} (prog : list ebpf_insn) (fuel : nat) (s : bpf_state mem)
  (Hlen : 0 < Z.of_nat (length prog) < 2 ^ 31) (Hcode : forall e, e ∈ program_nodes 0 prog -> code (snd e) < 255)
  (Hwf : forall ins, ins ∈ prog -> insn_wf ins) (Hok : snd (validate (new_verifier prog)) = Ret 0) (Hmid : no_mid_jump prog = true)
  (Hreg : length (reg s) = 11%nat) (Hpc : pc s = 0) (Hfuel : (length prog <= fuel)%nat) :
  exists s' e, bpf_run prog fuel s = Some (s', e) /\ good_stop prog s' e.
Proof.
  pose proof (validate_run prog Hlen Hcode) as H. cbv zeta in H. rewrite Hok in H.
  destruct H as [[Ha _]|[(_ & _ & ?)|(_ & _ & ?)]]; [|done|done].
  destruct (run_terminates prog Hlen Hcode Hwf Ha Hmid s Hreg Hpc) as (s' & e & Hrun & Hgood).
  exists s', e. split; [by eapply bpf_run_more|done].
Qed.

(** No memory and no external functions. *)
Definition no_memory : BpfEnv unit := {| ld := fun _ _ _ => None; st := fun _ _ _ _ => None; xsym_func := fun _ _ _ => None |}.

(** A branch: R0 is 1 when R1 is 5, and 2 otherwise. *)
Definition branch : list ebpf_insn :=
  [mk_insn (EBPF_ALU64 ∥ EBPF_MOV ∥ BPF_K) 0 0 0 1; mk_insn (BPF_JMP ∥ BPF_JEQ ∥ BPF_K) 1 0 1 5;
   mk_insn (EBPF_ALU64 ∥ EBPF_MOV ∥ BPF_K) 0 0 0 2; mk_insn (BPF_JMP ∥ EBPF_EXIT) 0 0 0 0].

Example accepted_terminates_witness :
  (exists s' e, bpf_run (env := no_memory) branch 4 (mk_bpf (replicate 11 5) 0 tt) = Some (s', e) /\ good_stop (env := no_memory) branch s' e)
  /\ snd (bpf_exec (env := no_memory) branch 4 (replicate 11 5, tt)) = Ret 1
  /\ snd (bpf_exec (env := no_memory) branch 4 (replicate 11 6, tt)) = Ret 2.
Proof.
  split; [|split; reflexivity].
  apply (accepted_terminates (env := no_memory) branch 4 (mk_bpf (replicate 11 5) 0 tt)); [cbn; lia| | |reflexivity|reflexivity|reflexivity|reflexivity|cbn; lia].
  - by apply Forall_forall; vm_compute; repeat constructor.
  - apply Forall_forall. repeat (apply Forall_cons; split); try apply Forall_nil_2; by vm_compute.
Defined.

(** A conditional jump into the second half of a 64-bit load, which reads as a jump back. *)
Definition mid_jump : list ebpf_insn :=
  [mk_insn (BPF_JMP ∥ BPF_JEQ ∥ BPF_K) 0 0 1 0; mk_insn (BPF_LD ∥ BPF_IMM ∥ EBPF_DW) 0 0 0 0;
   mk_insn (BPF_JMP ∥ BPF_JA) 0 0 (-1) 0; mk_insn (BPF_JMP ∥ EBPF_EXIT) 0 0 0 0; mk_insn (BPF_JMP ∥ EBPF_EXIT) 0 0 0 0].

(** C40. The condition on jumps is needed: the verifier counts nodes, so a jump into the
    second half of a 64-bit load makes up for an instruction that cannot be reached; a
    program it accepts runs forever. *)
Theorem mid_jump_diverges {mem} {env : BpfEnv mem} (m : mem) (fuel : nat) :
  snd (validate (new_verifier mid_jump)) = Ret 0 /\ no_mid_jump mid_jump = false
  /\ snd (bpf_exec mid_jump fuel (replicate 11 0, m)) = NoFuel.
Proof.
  split; [reflexivity|]. split; [reflexivity|]. unfold bpf_exec. cbn [fst snd].
  assert (forall f, bpf_run mid_jump f (mk_bpf (replicate 11 0) 2 m) = None) as H2.
  { induction f as [|f IH]; [done|]. cbn [bpf_run].
    change (bpf_step mid_jump (mk_bpf (replicate 11 0) 2 m)) with (@inl (bpf_state mem) bpf_stop (mk_bpf (replicate 11 0) 2 m)). done. }
  destruct fuel as [|fuel]; [done|]. cbn [bpf_run].
  change (bpf_step mid_jump (mk_bpf (replicate 11 0) 0 m)) with (@inl (bpf_state mem) bpf_stop (mk_bpf (replicate 11 0) 2 m)).
  cbv beta iota. by rewrite H2.
Qed.
