(* ===== verification/BpfEval.v ===== *)
(** * The second pass of the eBPF verifier: values (lib/librte_bpf/bpf_validate.c)

    What the verifier knows about a register or a word of the stack, and how each
    instruction changes it.  A function that returns a message in the code returns [Err] of
    it, after which the code looks at nothing it has changed.  [Undef] is undefined
    behaviour: an overflow of signed arithmetic, a shift by 64 or more, an access outside an
    array.  A left shift of a signed number wraps, as GCC defines it. *)

From S2P Require Import Prelude Effects Bpf BpfValidate.

(** ** Results *)

(** The messages. *)
Inductive eval_err :=
| Undefined_return_value
| Division_by_0
| Undefined_dest_reg
| Undefined_src_reg
| Not_a_pointer
| Pointer_truncation
| Memory_boundary_violation
| Unaligned_access
| Stack_variable_offset
| Mbuf_variable_offset
| Undefined_stack_value
| Read_only_mbuf_field
| Undefined_argument_type
| Invalid_argument_type
| Invalid_function_index.

Inductive res (A : Type) := Ok (a : A) | Err (e : eval_err) | Undef.
Arguments Ok {A} a.
Arguments Err {A} e.
Arguments Undef {A}.

#[global] Instance res_ret : MRet res := fun A a => Ok a.
#[global] Instance res_bind : MBind res := fun A B k r =>
  match r with Ok a => k a | Err e => Err e | Undef => Undef end.

#[global] Instance res_fmap : FMap res := fun A B f r => match r with Ok a => Ok (f a) | Err e => Err e | Undef => Undef end.

Definition of_option {A} (o : option A) : res A := match o with Some a => Ok a | None => Undef end.
Definition err_if (b : bool) (e : eval_err) : res unit := if b then Err e else Ok tt.
Definition defined_if (b : bool) : res unit := if b then Ok tt else Undef.

(** ** Data *)

Definition RTE_BPF_ARG_UNDEF : Z := 0.
Definition RTE_BPF_ARG_RAW : Z := 1.
Definition RTE_BPF_ARG_PTR : Z := 0x10.
Definition RTE_BPF_ARG_PTR_MBUF : Z := 0x11.
Definition RTE_BPF_ARG_PTR_STACK : Z := 0x12.
Definition RTE_BPF_ARG_PTR_TYPE (x : Z) : Z := Z.land x RTE_BPF_ARG_PTR.

Record rte_bpf_arg := mk_arg { type : Z; size : Z; buf_size : Z }.

(** [s] is of 64 signed bits, [u] of 64 unsigned bits. *)
Record bpf_reg_val := mk_rv {
  v : rte_bpf_arg;
  mask : Z;
  s_min : Z;
  s_max : Z;
  u_min : Z;
  u_max : Z }.

Record bpf_eval_state := mk_evst { rv : list bpf_reg_val; sv : list bpf_reg_val }.

Definition zero_rv : bpf_reg_val := mk_rv (mk_arg RTE_BPF_ARG_UNDEF 0 0) 0 0 0 0 0.
(** As [calloc] leaves it. *)
Definition zero_evst : bpf_eval_state := mk_evst (replicate 11 zero_rv) (replicate 64 zero_rv).

(** A symbol without a name or of another type is [Xinvalid]. *)
Inductive rte_bpf_xsym :=
| Xfunc (args : list rte_bpf_arg) (ret : rte_bpf_arg)
| Xvar (val : Z) (desc : rte_bpf_arg)
| Xinvalid.

Definition UINT64_MAX : Z := 2 ^ 64 - 1.

(** [RTE_LEN2MASK(ln, uint64_t)] *)
Definition RTE_LEN2MASK (ln : Z) : res Z := let n := u64 (64 - ln) in defined_if (n <? 64) ;; Ok (Z.shiftr UINT64_MAX n).
Definition mask_of (opsz : Z) : Z := 2 ^ opsz - 1.

(** Signed arithmetic, and a signed number masked. *)
Definition int64 (x : Z) : res Z := defined_if ((- 2 ^ 63 <=? x) && (x <? 2 ^ 63)) ;; Ok x.
Definition mask_s (x msk : Z) : Z := s64 (Z.land (u64 x) msk).

(** ** Bounds *)

Definition eval_umax_bound (r : bpf_reg_val) (msk : Z) : bpf_reg_val := r <| u_max := msk |> <| u_min := 0 |>.
Definition eval_smax_bound (r : bpf_reg_val) (msk : Z) : bpf_reg_val :=
  let smax := s64 (Z.shiftr msk 1) in r <| s_max := smax |> <| s_min := s64 (Z.lxor (u64 smax) UINT64_MAX) |>.
Definition eval_max_bound (r : bpf_reg_val) (msk : Z) : bpf_reg_val := eval_smax_bound (eval_umax_bound r msk) msk.
Definition set_type (r : bpf_reg_val) (t : Z) : bpf_reg_val := r <| v := (v r) <| type := t |> |>.
Definition eval_fill_max_bound (r : bpf_reg_val) (msk : Z) : bpf_reg_val :=
  (set_type (eval_max_bound r msk) RTE_BPF_ARG_RAW) <| mask := msk |>.
Definition eval_fill_imm64 (r : bpf_reg_val) (msk val : Z) : bpf_reg_val :=
  r <| mask := msk |> <| s_min := s64 val |> <| s_max := s64 val |> <| u_min := val |> <| u_max := val |>.
Definition eval_fill_imm (r : bpf_reg_val) (msk imm : Z) : bpf_reg_val :=
  eval_fill_imm64 (set_type r RTE_BPF_ARG_RAW) msk (Z.land (u64 imm) msk).

Definition eval_apply_mask (r : bpf_reg_val) (msk : Z) : bpf_reg_val :=
  let umin := Z.land (u_min r) msk in
  let umax := Z.land (u_max r) msk in
  let r := if negb (umin =? u_min r) || negb (umax =? u_max r) then r <| u_max := Z.max umax msk |> <| u_min := 0 |> else r in
  let rt := eval_smax_bound zero_rv msk in
  r <| s_max := Z.min (s_max rt) (s_max r) |> <| s_min := Z.max (s_min rt) (s_min r) |> <| mask := msk |>.

Definition u_const (r : bpf_reg_val) : bool := u_min r =? u_max r.
Definition s_const (r : bpf_reg_val) : bool := s_min r =? s_max r.
Definition copy_bounds (rd r : bpf_reg_val) : bpf_reg_val :=
  rd <| s_min := s_min r |> <| s_max := s_max r |> <| u_min := u_min r |> <| u_max := u_max r |>.

(** ** Operations *)

Definition eval_add (rd rs : bpf_reg_val) (msk : Z) : res bpf_reg_val :=
  a ← int64 (s_min rd + s_min rs); b ← int64 (s_max rd + s_max rs);
  let r := mk_rv (v rd) (mask rd) (mask_s a msk) (mask_s b msk)
             (Z.land (u64 (u_min rd + u_min rs)) msk) (Z.land (u64 (u_min rd + u_max rs)) msk) in
  let r := if (negb (u_const rd) || negb (u_const rs)) && ((u_min r <? u_min rd) || (u_max r <? u_max rd))
           then eval_umax_bound r msk else r in
  let r := if (negb (s_const rd) || negb (s_const rs))
              && ((((s_min rs <? 0) && (s_min rd <? s_min r)) || (s_min r <? s_min rd))
                  || (((s_max rs <? 0) && (s_max rd <? s_max r)) || (s_max r <? s_max rd)))
           then eval_smax_bound r msk else r in
  mret (copy_bounds rd r).

Definition eval_sub (rd rs : bpf_reg_val) (msk : Z) : res bpf_reg_val :=
  a ← int64 (s_min rd - s_min rs); b ← int64 (s_max rd - s_max rs);
  let r := mk_rv (v rd) (mask rd) (mask_s a msk) (mask_s b msk)
             (Z.land (u64 (u_min rd - u_min rs)) msk) (Z.land (u64 (u_min rd - u_max rs)) msk) in
  let r := if (negb (u_const rd) || negb (u_const rs)) && ((u_min rd <? u_min r) || (u_max rd <? u_max r))
           then eval_umax_bound r msk else r in
  let r := if (negb (s_const rd) || negb (s_const rs))
              && ((((s_min rs <? 0) && (s_min r <? s_min rd)) || (s_min rd <? s_min r))
                  || (((s_max rs <? 0) && (s_max r <? s_max rd)) || (s_max rd <? s_max r)))
           then eval_smax_bound r msk else r in
  mret (copy_bounds rd r).

(** Shifts of 64-bit numbers. *)
Definition shl (x n : Z) : res Z := defined_if (n <? 64) ;; Ok (u64 (Z.shiftl x n)).
Definition shl_s (x n : Z) : res Z := defined_if (n <? 64) ;; Ok (s64 (Z.shiftl x n)).
Definition shr (x n : Z) : res Z := defined_if (n <? 64) ;; Ok (Z.shiftr x n).

Definition eval_lsh (rd rs : bpf_reg_val) (opsz msk : Z) : res bpf_reg_val :=
  if opsz <=? u_max rs then mret (eval_max_bound rd msk)
  else
    m ← RTE_LEN2MASK (opsz - u_max rs);
    rd ← (if m <? u_max rd then mret (eval_umax_bound rd msk)
          else b ← shl (u_max rd) (u_max rs); a ← shl (u_min rd) (u_min rs); mret (rd <| u_max := b |> <| u_min := a |>));
    neg ← shr (u64 (s_min rd)) (opsz - 1);
    big ← (if negb (neg =? 0) then mret true else m ← RTE_LEN2MASK (opsz - u_max rs - 1); mret (s64 m <=? s_max rd));
    if (big : bool) then mret (eval_smax_bound rd msk)
    else b ← shl_s (s_max rd) (u_max rs); a ← shl_s (s_min rd) (u_min rs); mret (rd <| s_max := b |> <| s_min := a |>).

Definition eval_rsh (rd rs : bpf_reg_val) (opsz msk : Z) : res bpf_reg_val :=
  if opsz <=? u_max rs then mret (eval_max_bound rd msk)
  else
    b ← shr (u_max rd) (u_min rs); a ← shr (u_min rd) (u_max rs);
    let rd := rd <| u_max := b |> <| u_min := a |> in
    neg ← shr (u64 (s_min rd)) (opsz - 1);
    if negb (neg =? 0) then mret (eval_smax_bound rd msk)
    else b ← shr (s_max rd) (u_min rs); a ← shr (s_min rd) (u_max rs); mret (rd <| s_max := b |> <| s_min := a |>).

Definition eval_arsh (rd rs : bpf_reg_val) (opsz msk : Z) : res bpf_reg_val :=
  if opsz <=? u_max rs then mret (eval_max_bound rd msk)
  else
    b ← shr (s64 (u_max rd)) (u_min rs); a ← shr (s64 (u_min rd)) (u_max rs);
    let rd := rd <| u_max := u64 b |> <| u_min := u64 a |> in
    smin ← (if opsz =? 32 then shl_s (s_min rd) opsz else mret (s_min rd));
    smax ← (if opsz =? 32 then shl_s (s_max rd) opsz else mret (s_max rd));
    let shv := if opsz =? 32 then opsz else 0 in
    a ← (if smin <? 0 then shr smin (u64 (u_min rs + shv)) else shr smin (u64 (u_max rs + shv)));
    b ← (if smax <? 0 then shr smax (u64 (u_max rs + shv)) else shr smax (u64 (u_min rs + shv)));
    mret (rd <| s_min := mask_s a msk |> <| s_max := mask_s b msk |>).

Definition eval_umax_bits (x opsz : Z) : res Z :=
  if x =? 0 then mret 0 else RTE_LEN2MASK (u64 (opsz - (63 - Z.log2 x))).
Definition eval_uand_max (v1 v2 opsz : Z) : res Z :=
  v1 ← eval_umax_bits v1 opsz; v2 ← eval_umax_bits v2 opsz; mret (Z.land v1 v2).
Definition eval_uor_max (v1 v2 opsz : Z) : res Z :=
  v1 ← eval_umax_bits v1 opsz; v2 ← eval_umax_bits v2 opsz; mret (Z.lor v1 v2).

Definition eval_and (rd rs : bpf_reg_val) (opsz msk : Z) : res bpf_reg_val :=
  rd ← (if u_const rd && u_const rs then mret (rd <| u_min := Z.land (u_min rd) (u_min rs) |> <| u_max := Z.land (u_max rd) (u_max rs) |>)
        else m ← eval_uand_max (u_max rd) (u_max rs) opsz; mret (rd <| u_max := m |> <| u_min := Z.land (u_min rd) (u_min rs) |>));
  if s_const rd && s_const rs then mret (rd <| s_min := Z.land (s_min rd) (s_min rs) |> <| s_max := Z.land (s_max rd) (s_max rs) |>)
  else if (0 <=? s_min rd) || (0 <=? s_min rs) then
    m ← eval_uand_max (Z.land (u64 (s_max rd)) (Z.shiftr msk 1)) (Z.land (u64 (s_max rs)) (Z.shiftr msk 1)) opsz;
    mret (rd <| s_max := s64 m |> <| s_min := Z.land (s_min rd) (s_min rs) |>)
  else mret (eval_smax_bound rd msk).

Definition eval_or (rd rs : bpf_reg_val) (opsz msk : Z) : res bpf_reg_val :=
  rd ← (if u_const rd && u_const rs then mret (rd <| u_min := Z.lor (u_min rd) (u_min rs) |> <| u_max := Z.lor (u_max rd) (u_max rs) |>)
        else m ← eval_uor_max (u_max rd) (u_max rs) opsz; mret (rd <| u_max := m |> <| u_min := Z.lor (u_min rd) (u_min rs) |>));
  if s_const rd && s_const rs then mret (rd <| s_min := Z.lor (s_min rd) (s_min rs) |> <| s_max := Z.lor (s_max rd) (s_max rs) |>)
  else if (0 <=? s_min rd) || (0 <=? s_min rs) then
    m ← eval_uor_max (u64 (s_max rd)) (u64 (s_max rs)) opsz;
    mret (rd <| s_max := s64 m |> <| s_min := Z.lor (s_min rd) (s_min rs) |>)
  else mret (eval_smax_bound rd msk).

Definition eval_xor (rd rs : bpf_reg_val) (opsz msk : Z) : res bpf_reg_val :=
  rd ← (if u_const rd && u_const rs then mret (rd <| u_min := Z.lxor (u_min rd) (u_min rs) |> <| u_max := Z.lxor (u_max rd) (u_max rs) |>)
        else m ← eval_uor_max (u_max rd) (u_max rs) opsz; mret (rd <| u_max := m |> <| u_min := 0 |>));
  if s_const rd && s_const rs then mret (rd <| s_min := Z.lxor (s_min rd) (s_min rs) |> <| s_max := Z.lxor (s_max rd) (s_max rs) |>)
  else if (0 <=? s_min rd) || (0 <=? s_min rs) then
    m ← eval_uor_max (u64 (s_max rd)) (u64 (s_max rs)) opsz; mret (rd <| s_max := s64 m |> <| s_min := 0 |>)
  else mret (eval_smax_bound rd msk).

(** The minima are squared. *)
Definition eval_mul (rd rs : bpf_reg_val) (opsz msk : Z) : res bpf_reg_val :=
  rd ← (if u_const rd && u_const rs then
          mret (rd <| u_min := Z.land (u64 (u_min rd * u_min rs)) msk |> <| u_max := Z.land (u64 (u_max rd * u_max rs)) msk |>)
        else
          fits ← (if u_max rd <=? Z.shiftr msk (opsz / 2) then m ← shr msk opsz; mret (u_max rs <=? m) else mret false);
          if (fits : bool) then mret (rd <| u_max := u64 (u_max rd * u_max rs) |> <| u_min := u64 (u_min rd * u_min rd) |>)
          else mret (eval_umax_bound rd msk));
  if s_const rd && s_const rs then
    a ← int64 (s_min rd * s_min rs); b ← int64 (s_max rd * s_max rs); mret (rd <| s_min := mask_s a msk |> <| s_max := mask_s b msk |>)
  else if (0 <=? s_min rd) && (0 <=? s_min rs) then
    b ← int64 (s_max rd * s_max rs); a ← int64 (s_min rd * s_min rd); mret (rd <| s_max := b |> <| s_min := a |>)
  else mret (eval_smax_bound rd msk).

Definition sext (opsz x : Z) : Z := if opsz =? 32 then sgn 32 (u32 x) else x.

Definition eval_divmod (op : Z) (rd rs : bpf_reg_val) (opsz msk : Z) : res bpf_reg_val :=
  rd ← (if u_const rd && u_const rs then
          err_if (u_max rs =? 0) Division_by_0 ;;
          mret (if op =? BPF_DIV then rd <| u_min := u_min rd / u_min rs |> <| u_max := u_max rd / u_max rs |>
                else rd <| u_min := u_min rd mod u_min rs |> <| u_max := u_max rd mod u_max rs |>)
        else mret ((if op =? BPF_MOD then rd <| u_max := Z.min (u_max rd) (u64 (u_max rs - 1)) |> else rd) <| u_min := 0 |>));
  let rd := rd <| s_min := sext opsz (s_min rd) |> <| s_max := sext opsz (s_max rd) |> in
  let rs := rs <| s_min := sext opsz (s_min rs) |> <| s_max := sext opsz (s_max rs) |> in
  rd ← (if s_const rd && s_const rs then
          err_if (s_max rs =? 0) Division_by_0 ;;
          a ← int64 (Z.quot (s_min rd) (s_min rs)); b ← int64 (Z.quot (s_max rd) (s_max rs));
          mret (if op =? BPF_DIV then rd <| s_min := a |> <| s_max := b |>
                else rd <| s_min := Z.rem (s_min rd) (s_min rs) |> <| s_max := Z.rem (s_max rd) (s_max rs) |>)
        else if op =? BPF_MOD then
          let rd := rd <| s_min := Z.max (s_max rd) 0 |> in mret (rd <| s_min := Z.min (s_min rd) 0 |>)
        else mret (eval_smax_bound rd msk));
  let rd := rd <| s_max := mask_s (s_max rd) msk |> in
  mret (rd <| s_min := mask_s (s_min rd) msk |>).

Definition eval_neg (rd : bpf_reg_val) (opsz msk : Z) : res bpf_reg_val :=
  let rd := rd <| u_min := u64 (sext opsz (u_min rd)) |> <| u_max := u64 (sext opsz (u_max rd)) |> in
  ux ← int64 (- s64 (u_min rd)); uy ← int64 (- s64 (u_max rd));
  let ux := Z.land (u64 ux) msk in
  let uy := Z.land (u64 uy) msk in
  let rd := rd <| u_max := Z.max ux uy |> <| u_min := Z.min ux uy |> in
  let rd := rd <| s_min := sext opsz (s_min rd) |> <| s_max := sext opsz (s_max rd) |> in
  sx ← int64 (- s_min rd); sy ← int64 (- s_max rd);
  let sx := mask_s sx msk in
  let sy := mask_s sy msk in
  mret (rd <| s_max := Z.max sx sy |> <| s_min := Z.min sx sy |>).
