(* ===== verification/BpfEvalInsn.v ===== *)
(** * The second pass of the eBPF verifier: instructions (lib/librte_bpf/bpf_validate.c)

    The evaluation functions of the table [ins_chk], on the current state, and for a
    conditional jump also on the state saved for its other branch. *)

From S2P Require Import Prelude Effects Bpf BpfValidate BpfEval.

Definition BPF_CLASS (code : Z) : Z := Z.land code 0x07.
Definition BPF_SIZE (code : Z) : Z := Z.land code 0x18.
Definition BPF_MODE (code : Z) : Z := Z.land code 0xe0.
Definition BPF_OP (code : Z) : Z := Z.land code 0xf0.
Definition BPF_SRC (code : Z) : Z := Z.land code 0x08.

Definition bpf_size (sz : Z) : Z :=
  if sz =? BPF_B then 1 else if sz =? BPF_H then 2 else if sz =? BPF_W then 4 else if sz =? EBPF_DW then 8 else 0.

(** Offsets in [struct rte_mbuf], and its configured headroom. *)
Definition off_buf_addr : Z := 0.
Definition off_data_off : Z := 16.
Definition off_refcnt : Z := 18.
Definition off_nb_segs : Z := 20.
Definition off_buf_len : Z := 54.
Definition off_pool : Z := 72.
Definition off_next : Z := 80.
Definition off_priv_size : Z := 96.

(** ** The state *)

Definition get_rv (st : bpf_eval_state) (i : Z) : res bpf_reg_val := of_option (rv st !! Z.to_nat i).
Definition set_rv (st : bpf_eval_state) (i : Z) (r : bpf_reg_val) : bpf_eval_state := st <| rv := <[Z.to_nat i := r]> (rv st) |>.
Definition get_sv (st : bpf_eval_state) (i : Z) : res bpf_reg_val := of_option (sv st !! Z.to_nat i).
Definition set_sv (st : bpf_eval_state) (i : Z) (r : bpf_reg_val) : bpf_eval_state := st <| sv := <[Z.to_nat i := r]> (sv st) |>.

(** The parameters that the evaluation reads, apart from the program. *)
Class BpfParams := { xsym : list rte_bpf_xsym; prog_arg : rte_bpf_arg }.

Section Insn.
Context {prms : BpfParams}.

Definition eval_exit (st : bpf_eval_state) : res bpf_eval_state :=
  r0 ← get_rv st 0; err_if (type (v r0) =? RTE_BPF_ARG_UNDEF) Undefined_return_value ;; mret st.

(** A variable among the external symbols. *)
Fixpoint find_var (xs : list rte_bpf_xsym) (val : Z) : option rte_bpf_arg :=
  match xs with
  | [] => None
  | Xvar a desc :: xs => if a =? val then Some desc else find_var xs val
  | _ :: xs => find_var xs val
  end.

Definition eval_ld_imm64 (st : bpf_eval_state) (ins ins1 : ebpf_insn) : res bpf_eval_state :=
  let val := Z.lor (u32 (imm ins)) (u64 (Z.shiftl (u32 (imm ins1)) 32)) in
  rd ← get_rv st (dst_reg ins);
  let rd := eval_fill_imm64 (set_type rd RTE_BPF_ARG_RAW) UINT64_MAX val in
  mret (set_rv st (dst_reg ins)
    match find_var xsym val with
    | Some desc => eval_fill_imm64 (rd <| v := desc |>) UINT64_MAX 0
    | None => rd
    end).

Definition eval_defined (dst src : option bpf_reg_val) : res unit :=
  err_if (match dst with Some r => type (v r) =? RTE_BPF_ARG_UNDEF | None => false end) Undefined_dest_reg ;;
  err_if (match src with Some r => type (v r) =? RTE_BPF_ARG_UNDEF | None => false end) Undefined_src_reg.

(** The operation of an arithmetic instruction. *)
Definition eval_op (op : Z) (rd rs : bpf_reg_val) (opsz msk : Z) : res bpf_reg_val :=
  if op =? BPF_ADD then eval_add rd rs msk
  else if op =? BPF_SUB then eval_sub rd rs msk
  else if op =? BPF_LSH then eval_lsh rd rs opsz msk
  else if op =? BPF_RSH then eval_rsh rd rs opsz msk
  else if op =? EBPF_ARSH then eval_arsh rd rs opsz msk
  else if op =? BPF_AND then eval_and rd rs opsz msk
  else if op =? BPF_OR then eval_or rd rs opsz msk
  else if op =? BPF_XOR then eval_xor rd rs opsz msk
  else if op =? BPF_MUL then eval_mul rd rs opsz msk
  else if (op =? BPF_DIV) || (op =? BPF_MOD) then eval_divmod op rd rs opsz msk
  else if op =? BPF_NEG then eval_neg rd opsz msk
  else if op =? EBPF_MOV then mret rs
  else mret (eval_max_bound rd msk).

Definition eval_alu (st : bpf_eval_state) (ins : ebpf_insn) : res bpf_eval_state :=
  let opsz := if BPF_CLASS (code ins) =? BPF_ALU then 32 else 64 in
  msk ← RTE_LEN2MASK opsz;
  rd ← get_rv st (dst_reg ins);
  rs ← (if BPF_SRC (code ins) =? BPF_X then r ← get_rv st (src_reg ins); mret (eval_apply_mask r msk)
        else mret (eval_fill_imm zero_rv msk (imm ins)));
  let rd := eval_apply_mask rd msk in
  let op := BPF_OP (code ins) in
  eval_defined (if op =? EBPF_MOV then None else Some rd) (if op =? BPF_NEG then None else Some rs) ;;
  rd ← eval_op op rd rs opsz msk;
  mret (set_rv st (dst_reg ins) rd).

Definition eval_bele (st : bpf_eval_state) (ins : ebpf_insn) : res bpf_eval_state :=
  msk ← RTE_LEN2MASK (imm ins);
  rd ← get_rv st (dst_reg ins);
  eval_defined (Some rd) None ;;
  mret (set_rv st (dst_reg ins)
    (if code ins =? (BPF_ALU ∥ EBPF_END ∥ EBPF_TO_BE) then eval_max_bound rd msk else eval_apply_mask rd msk)).

(** ** Memory *)

(** The deepest byte of the stack that was used, and the pointer with its offset added. *)
Definition eval_ptr (stack_sz : Z) (rm : bpf_reg_val) (opsz align off : Z) : res (Z * bpf_reg_val) :=
  rm ← eval_add rm (eval_fill_imm zero_rv (mask rm) off) (mask rm);
  err_if (RTE_BPF_ARG_PTR_TYPE (type (v rm)) =? 0) Not_a_pointer ;;
  err_if (negb (mask rm =? UINT64_MAX)) Pointer_truncation ;;
  err_if ((size (v rm) <? u64 (u_max rm + opsz)) || (size (v rm) <? u64 (s_max rm + opsz)) || (s_min rm <? 0)) Memory_boundary_violation ;;
  err_if (negb (u_max rm mod align =? 0)) Unaligned_access ;;
  let variable := negb (u_max rm =? u_min rm) || negb (s_max rm =? s_min rm) || negb (u_max rm =? u64 (s_max rm)) in
  if type (v rm) =? RTE_BPF_ARG_PTR_STACK then
    err_if variable Stack_variable_offset ;;
    mret (Z.max stack_sz (u64 (size (v rm) - u_max rm)), rm)
  else if type (v rm) =? RTE_BPF_ARG_PTR_MBUF then
    err_if variable Mbuf_variable_offset ;; mret (stack_sz, rm)
  else mret (stack_sz, rm).

(** The signed bounds of a full load are those of the unsigned ones, converted. *)
Definition eval_max_load (r : bpf_reg_val) (msk : Z) : bpf_reg_val :=
  let r := eval_umax_bound r msk in
  let r := if msk =? UINT64_MAX then eval_smax_bound r msk else r in
  r <| s_min := s64 (u_min r) |> <| s_max := s64 (u_max r) |>.

Definition eval_load (st : bpf_eval_state) (stack_sz : Z) (ins : ebpf_insn) : res (bpf_eval_state * Z) :=
  rd ← get_rv st (dst_reg ins);
  rs ← get_rv st (src_reg ins);
  let opsz := bpf_size (BPF_SIZE (code ins)) in
  msk ← RTE_LEN2MASK (opsz * 8);
  p ← eval_ptr stack_sz rs opsz 1 (off ins);
  let rs := snd p in
  rd ← (if type (v rs) =? RTE_BPF_ARG_PTR_STACK then
          w ← get_sv st (u_max rs / 8);
          err_if ((type (v w) =? RTE_BPF_ARG_UNDEF) || (mask w <? msk)) Undefined_stack_value ;; mret w
        else if type (v rs) =? RTE_BPF_ARG_PTR_MBUF then
          mret (if u_max rs =? off_next then (eval_fill_imm rd msk 0) <| v := v rs |>
                else if u_max rs =? off_buf_addr then
                  let rd := set_type (eval_fill_imm rd msk 0) RTE_BPF_ARG_PTR in rd <| v := (v rd) <| size := buf_size (v rs) |> |>
                else if u_max rs =? off_data_off then set_type (eval_fill_imm rd msk RTE_PKTMBUF_HEADROOM) RTE_BPF_ARG_RAW
                else set_type (eval_max_load rd msk) RTE_BPF_ARG_RAW)
        else mret (set_type (eval_max_load rd msk) RTE_BPF_ARG_RAW));
  mret (set_rv st (dst_reg ins) rd, fst p).

(** The sizes of the fields are not given, so they are 0. *)
Definition mbuf_ro_fields : list (Z * Z) :=
  [(off_buf_addr, 0); (off_refcnt, 0); (off_nb_segs, 0); (off_buf_len, 0); (off_pool, 0); (off_next, 0); (off_priv_size, 0)].
Definition eval_mbuf_store (r : bpf_reg_val) (opsz : Z) : res unit :=
  err_if (negb (forallb (fun f => (u64 (fst f + snd f) <=? u_max r) || (u64 (u_max r + opsz) <=? fst f)) mbuf_ro_fields)) Read_only_mbuf_field.

Definition eval_store (st : bpf_eval_state) (stack_sz : Z) (ins : ebpf_insn) : res (bpf_eval_state * Z) :=
  let opsz := bpf_size (BPF_SIZE (code ins)) in
  msk ← RTE_LEN2MASK (opsz * 8);
  rd ← get_rv st (dst_reg ins);
  rs ← (if BPF_CLASS (code ins) =? BPF_STX then r ← get_rv st (src_reg ins); mret (eval_apply_mask r msk)
        else mret (eval_fill_imm zero_rv msk (imm ins)));
  eval_defined None (Some rs) ;;
  p ← eval_ptr stack_sz rd opsz 1 (off ins);
  let rd := snd p in
  if type (v rd) =? RTE_BPF_ARG_PTR_STACK then
    w ← get_sv st (u_max rd / 8);
    mret (set_sv st (u_max rd / 8)
            (if (BPF_CLASS (code ins) =? BPF_STX) && (BPF_MODE (code ins) =? EBPF_XADD) then eval_max_bound w msk else rs), fst p)
  else if type (v rd) =? RTE_BPF_ARG_PTR_MBUF then eval_mbuf_store rd opsz ;; mret (st, fst p)
  else mret (st, fst p).

(** ** Calls *)

(** [while (i != n)]: the words of the stack that a function may have written. *)
Fixpoint mark_stack (fuel : nat) (st : bpf_eval_state) (i n : Z) : res bpf_eval_state :=
  match fuel with
  | O => Undef
  | Datatypes.S fuel =>
      if i =? n then mret st
      else w ← get_sv st i; mark_stack fuel (set_sv st i (eval_fill_max_bound w UINT64_MAX)) (u32 (i + 1)) n
  end.

Definition eval_func_arg (st : bpf_eval_state) (stack_sz : Z) (arg : rte_bpf_arg) (r : Z) : res (bpf_eval_state * Z) :=
  x ← get_rv st r;
  err_if (type (v x) =? RTE_BPF_ARG_UNDEF) Undefined_argument_type ;;
  err_if (negb (type arg =? type (v x)) && negb (type arg =? RTE_BPF_ARG_RAW)
          && (negb (type arg =? RTE_BPF_ARG_PTR) || (RTE_BPF_ARG_PTR_TYPE (type (v x)) =? 0))) Invalid_argument_type ;;
  if RTE_BPF_ARG_PTR_TYPE (type arg) =? 0 then mret (st, stack_sz)
  else
    p ← eval_ptr stack_sz x (u32 (size arg)) 1 0;
    let x := snd p in
    let st := set_rv st r x in
    if type (v x) =? RTE_BPF_ARG_PTR_STACK then
      let i := u32 (u_max x / 8) in
      st ← mark_stack 65 st i (u32 (i + size arg / 8)); mret (st, fst p)
    else mret (st, fst p).

Fixpoint eval_func_args (st : bpf_eval_state) (stack_sz : Z) (args : list rte_bpf_arg) (r : Z) : res (bpf_eval_state * Z) :=
  match args with
  | [] => mret (st, stack_sz)
  | arg :: args => p ← eval_func_arg st stack_sz arg r; eval_func_args (fst p) (snd p) args (r + 1)
  end.

Definition undef_reg (st : bpf_eval_state) (r : Z) : res bpf_eval_state :=
  x ← get_rv st r; mret (set_rv st r (set_type x RTE_BPF_ARG_UNDEF)).

Definition eval_call (st : bpf_eval_state) (stack_sz : Z) (ins : ebpf_insn) : res (bpf_eval_state * Z) :=
  match xsym !! Z.to_nat (u32 (imm ins)) with
  | Some (Xfunc args ret) =>
      msk ← (if type ret =? RTE_BPF_ARG_RAW then RTE_LEN2MASK (size ret * 8) else mret UINT64_MAX);
      p ← eval_func_args st stack_sz args 1;
      st ← undef_reg (fst p) 1; st ← undef_reg st 2; st ← undef_reg st 3; st ← undef_reg st 4; st ← undef_reg st 5;
      r0 ← get_rv st 0;
      mret (set_rv st 0 ((eval_max_bound (r0 <| v := ret |>) msk) <| mask := msk |>), snd p)
  | _ => Err Invalid_function_index
  end.

(** ** Conditional jumps *)

Definition copy_u (rd rs : bpf_reg_val) : bpf_reg_val := rd <| u_min := u_min rs |> <| u_max := u_max rs |>.
Definition copy_s (rd rs : bpf_reg_val) : bpf_reg_val := rd <| s_min := s_min rs |> <| s_max := s_max rs |>.

Definition eval_jeq_jne (trd trs : bpf_reg_val) : bpf_reg_val * bpf_reg_val :=
  let '(trd, trs) :=
    if u_const trs then (copy_u trd trs, trs)
    else if u_const trd then (trd, copy_u trs trd)
    else let trd := trd <| u_max := Z.min (u_max trd) (u_max trs) |> <| u_min := Z.max (u_min trd) (u_min trs) |> in (trd, copy_u trs trd) in
  if s_const trs then (copy_s trd trs, trs)
  else if s_const trd then (trd, copy_s trs trd)
  else let trd := trd <| s_max := Z.min (s_max trd) (s_max trs) |> <| s_min := Z.max (s_min trd) (s_min trs) |> in (trd, copy_s trs trd).

(** The destination where the condition holds and where it does not; the source stays. *)
Definition eval_jgt_jle (trd trs frd frs : bpf_reg_val) : res (bpf_reg_val * bpf_reg_val) :=
  mret (trd <| u_min := Z.max (u_min trd) (u64 (u_min trs + 1)) |>, frd <| u_max := Z.min (u_max frd) (u_min frs) |>).
Definition eval_jlt_jge (trd trs frd frs : bpf_reg_val) : res (bpf_reg_val * bpf_reg_val) :=
  mret (trd <| u_max := Z.min (u_max trd) (u64 (u_max trs - 1)) |>, frd <| u_min := Z.max (u_min frd) (u_min frs) |>).
Definition eval_jsgt_jsle (trd trs frd frs : bpf_reg_val) : res (bpf_reg_val * bpf_reg_val) :=
  a ← int64 (s_min trs + 1);
  mret (trd <| s_min := Z.max (s_min trd) a |>, frd <| s_max := Z.min (s_max frd) (s_min frs) |>).
Definition eval_jslt_jsge (trd trs frd frs : bpf_reg_val) : res (bpf_reg_val * bpf_reg_val) :=
  a ← int64 (s_max trs - 1);
  mret (trd <| s_max := Z.min (s_max trd) a |>, frd <| s_min := Z.max (s_min frd) (s_min frs) |>).

Definition swap {A} (p : A * A) : A * A := (snd p, fst p).

(** [tst] is the current state, [fst_] the one saved for the second edge.  The test for
    [EBPF_JSLT] names [EBPF_JLT] again, so a signed comparison teaches nothing there. *)
Definition eval_jcc (tst fst_ : bpf_eval_state) (ins : ebpf_insn) : res (bpf_eval_state * bpf_eval_state) :=
  let d := dst_reg ins in
  let x := BPF_SRC (code ins) =? BPF_X in
  frd ← get_rv fst_ d; trd ← get_rv tst d;
  frs ← (if x then get_rv fst_ (src_reg ins) else mret (eval_fill_imm zero_rv UINT64_MAX (imm ins)));
  trs ← (if x then get_rv tst (src_reg ins) else mret (eval_fill_imm zero_rv UINT64_MAX (imm ins)));
  eval_defined (Some trd) (Some trs) ;;
  let op := BPF_OP (code ins) in
  let both (p : res (bpf_reg_val * bpf_reg_val)) := p ← p; mret (set_rv tst d (fst p), set_rv fst_ d (snd p)) in
  let equal st '(rd, rs) := set_rv (if x then set_rv st (src_reg ins) rs else st) d rd in
  if op =? BPF_JEQ then mret (equal tst (eval_jeq_jne trd trs), fst_)
  else if op =? EBPF_JNE then mret (tst, equal fst_ (eval_jeq_jne frd frs))
  else if op =? BPF_JGT then both (eval_jgt_jle trd trs frd frs)
  else if op =? EBPF_JLE then both (swap <$> eval_jgt_jle frd frs trd trs)
  else if op =? EBPF_JLT then both (eval_jlt_jge trd trs frd frs)
  else if op =? BPF_JGE then both (swap <$> eval_jlt_jge frd frs trd trs)
  else if op =? EBPF_JSGT then both (eval_jsgt_jsle trd trs frd frs)
  else if op =? EBPF_JSLE then both (swap <$> eval_jsgt_jsle frd frs trd trs)
  else if op =? EBPF_JLT then both (eval_jslt_jsge trd trs frd frs)
  else if op =? EBPF_JSGE then both (swap <$> eval_jslt_jsge frd frs trd trs)
  else mret (tst, fst_).

(** The function of the table for an opcode, if any. *)
Definition eval_insn (prog : list ebpf_insn) (pc : Z) (ins : ebpf_insn) (st : bpf_eval_state) (saved : option bpf_eval_state) (stack_sz : Z)
  : res (bpf_eval_state * option bpf_eval_state * Z) :=
  let keep (r : res bpf_eval_state) := st ← r; mret (st, saved, stack_sz) in
  let mem (r : res (bpf_eval_state * Z)) := p ← r; mret (fst p, saved, snd p) in
  match eval (ins_chk_at (code ins)) with
  | None => mret (st, saved, stack_sz)
  | Some Eval_alu => keep (eval_alu st ins)
  | Some Eval_bele => keep (eval_bele st ins)
  | Some Eval_load => mem (eval_load st stack_sz ins)
  | Some Eval_ld_imm64 => ins1 ← of_option (prog !! Z.to_nat (pc + 1)); keep (eval_ld_imm64 st ins ins1)
  | Some Eval_store => mem (eval_store st stack_sz ins)
  | Some Eval_jcc =>
      f ← of_option saved; p ← eval_jcc st f ins; mret (fst p, Some (snd p), stack_sz)
  | Some Eval_call => mem (eval_call st stack_sz ins)
  | Some Eval_exit => keep (eval_exit st)
  end.
End Insn.
