(* ===== verification/BpfDomain.v ===== *)
(** * The ranges of the eBPF verifier (lib/librte_bpf/bpf_validate.c)

    What the signed bounds of a register mean, and which of the evaluation functions keep
    that meaning.  The accesses that the verifier lets through are bounded by the signed
    bounds alone: the unsigned ones are wrong after an addition already. *)

From S2P Require Import Prelude Effects Bpf BpfValidate BpfEval BpfEvalInsn.

(** ** Signed numbers of 64 bits *)

Definition int64_range (x : Z) : Prop := - 2 ^ 63 <= x < 2 ^ 63.

Lemma s64_range x : int64_range (s64 x).
Proof. unfold int64_range, sgn. pose proof (wrap_range 64 ltac:(lia) x) as H. unfold in_range in H. destruct (Z.ltb_spec (wrap 64 x) (2 ^ (64 - 1))); pow_norm; lia. Qed.

Lemma s64_id x : int64_range x -> s64 x = x.
Proof. unfold int64_range, sgn. intros H. destruct (Z.ltb_spec (wrap 64 x) (2 ^ (64 - 1))); clia. Qed.

Lemma s64_u64 x : s64 (u64 x) = s64 x.
Proof. unfold sgn. by rewrite wrap_wrap. Qed.

Lemma u64_s64 x : u64 (s64 x) = u64 x.
Proof. unfold sgn. destruct (Z.ltb_spec (wrap 64 x) (2 ^ (64 - 1))); [apply wrap_wrap|clia]. Qed.

Lemma u64_eq_s64 x y : u64 x = u64 y -> s64 x = s64 y.
Proof. intros H. by rewrite <- s64_u64, H, s64_u64. Qed.

Lemma s64_add x y : int64_range (s64 x + s64 y) -> s64 (u64 (x + y)) = s64 x + s64 y.
Proof. intros H. rewrite <- (s64_id _ H). rewrite s64_u64. apply u64_eq_s64. unfold wrap. rewrite (Z.add_mod x), (Z.add_mod (s64 x)) by lia. pose proof (u64_s64 x). pose proof (u64_s64 y). unfold wrap in *. congruence. Qed.

(** The mask of the 64-bit operations. *)
Lemma mask_s_full x : mask_s x UINT64_MAX = s64 x.
Proof. unfold mask_s. change UINT64_MAX with (Z.ones 64). by rewrite <- wrap_land, s64_u64, s64_u64. Qed.

(** ** Results *)

Lemma bind_Ok {A B} (r : res A) (k : A -> res B) b : (r ≫= k) = Ok b -> exists a, r = Ok a /\ k a = Ok b.
Proof. destruct r; [by eexists|done..]. Qed.

Lemma int64_Ok x y : int64 x = Ok y -> x = y /\ int64_range x.
Proof.
  unfold int64, int64_range. destruct ((- 2 ^ 63 <=? x) && (x <? 2 ^ 63)) eqn:H; [|done]. intros [= ->]. split; [done|lia].
Qed.

Lemma defined_if_Ok b : defined_if b = Ok tt -> b = true.
Proof. by destruct b. Qed.

Lemma err_if_Ok b e : err_if b e = Ok tt -> b = false.
Proof. by destruct b. Qed.

(** Splits the hypothesis that a computation ended well. *)
Ltac inv_ok :=
  repeat match goal with
  | H : (_ ≫= _) = Ok _ |- _ => apply bind_Ok in H as (? & ? & H); cbv beta in H
  | H : int64 _ = Ok _ |- _ => apply int64_Ok in H as [<- ?]
  | H : defined_if _ = Ok ?u |- _ => destruct u; apply defined_if_Ok in H
  | H : err_if _ _ = Ok ?u |- _ => destruct u; apply err_if_Ok in H
  | H : mret _ = Ok _ |- _ => injection H as H
  | H : Ok _ = Ok _ |- _ => injection H as H
  | H : Err _ = Ok _ |- _ => discriminate H
  | H : Undef = Ok _ |- _ => discriminate H
  end.

(** ** Meaning of the bounds *)

(** The signed number [x] is in the bounds of [r], which are signed numbers of 64 bits. *)
Definition within (r : bpf_reg_val) (x : Z) : Prop := int64_range (s_min r) /\ int64_range (s_max r) /\ s_min r <= x <= s_max r.

Lemma top_bounds r : s_min (eval_smax_bound r UINT64_MAX) = - 2 ^ 63 /\ s_max (eval_smax_bound r UINT64_MAX) = 2 ^ 63 - 1.
Proof. done. Qed.

Lemma within_top r x : int64_range x -> within (eval_smax_bound r UINT64_MAX) x.
Proof. unfold within, int64_range. change (s_min (eval_smax_bound r UINT64_MAX)) with (- 2 ^ 63). change (s_max (eval_smax_bound r UINT64_MAX)) with (2 ^ 63 - 1). lia. Qed.

Lemma within_apply_mask r x : int64_range x -> within r x -> within (eval_apply_mask r UINT64_MAX) x.
Proof.
  unfold within, int64_range, eval_apply_mask. cbv zeta. intros Hi H.
  change (s_max (eval_smax_bound zero_rv UINT64_MAX)) with (2 ^ 63 - 1). change (s_min (eval_smax_bound zero_rv UINT64_MAX)) with (- 2 ^ 63).
  destruct (negb _ || negb _); cbn - [Z.pow Z.min Z.max]; lia.
Qed.

(** What masking keeps. *)
Lemma apply_mask_v r msk : v (eval_apply_mask r msk) = v r.
Proof. unfold eval_apply_mask. cbv zeta. by destruct (negb _ || negb _). Qed.

Lemma apply_mask_mask r msk : mask (eval_apply_mask r msk) = msk.
Proof. unfold eval_apply_mask. cbv zeta. by destruct (negb _ || negb _). Qed.

(** A constant. *)
Definition imm_val (imm : Z) : bpf_reg_val := eval_fill_imm zero_rv UINT64_MAX imm.

Lemma within_imm i : within (imm_val i) (s64 i).
Proof.
  unfold within, imm_val, eval_fill_imm, eval_fill_imm64. cbn - [UINT64_MAX].
  change UINT64_MAX with (Z.ones 64). rewrite <- wrap_land, !s64_u64 by lia. pose proof (s64_range i). split_and!; [apply s64_range..|lia|lia].
Qed.

Lemma imm_bounds i : s_min (imm_val i) = s64 i /\ s_max (imm_val i) = s64 i /\ u_min (imm_val i) = u64 i /\ u_max (imm_val i) = u64 i.
Proof.
  unfold imm_val, eval_fill_imm, eval_fill_imm64. cbn - [UINT64_MAX].
  change UINT64_MAX with (Z.ones 64). rewrite <- !wrap_land, wrap_wrap, !s64_u64 by lia. done.
Qed.

(** ** Operations *)

Lemma eval_add_sound rd rs r x y : eval_add rd rs UINT64_MAX = Ok r -> within rd x -> within rs y ->
  int64_range (x + y) /\ within r (x + y) /\ v r = v rd /\ mask r = mask rd.
Proof.
  unfold eval_add, within. intros H Hx Hy. inv_ok.
  assert (int64_range (x + y)) as Hr by (unfold int64_range in *; lia).
  split; [done|]. rewrite <- H. cbv zeta. rewrite !mask_s_full, !s64_id by done.
  split; [|done]. unfold copy_bounds. repeat case_match; cbn - [Z.add Z.pow eval_smax_bound];
    rewrite ?(proj1 (top_bounds _)), ?(proj2 (top_bounds _)); unfold int64_range in *; lia.
Qed.

Lemma eval_sub_imm_sound rd i r x : eval_sub rd (imm_val i) UINT64_MAX = Ok r -> within rd x ->
  int64_range (x - s64 i) /\ within r (x - s64 i) /\ v r = v rd /\ mask r = mask rd.
Proof.
  unfold eval_sub, within. destruct (imm_bounds i) as (-> & -> & _). intros H Hx. inv_ok.
  assert (int64_range (x - s64 i)) as Hr by (unfold int64_range in *; lia).
  split; [done|]. rewrite <- H. cbv zeta.
  rewrite !mask_s_full, (s64_id (s_min rd - s64 i)), (s64_id (s_max rd - s64 i)) by done.
  split; [|done]. unfold copy_bounds. repeat case_match; cbn - [Z.sub Z.pow eval_smax_bound];
    rewrite ?(proj1 (top_bounds _)), ?(proj2 (top_bounds _)); unfold int64_range in *; lia.
Qed.

Lemma eval_neg_sound rd r x : eval_neg rd 64 UINT64_MAX = Ok r -> within rd x -> int64_range x ->
  int64_range (- x) /\ within r (- x) /\ v r = v rd /\ mask r = mask rd.
Proof.
  unfold eval_neg, within. intros H (Hmin & Hmax & Hx) Hr. cbv zeta in H. change (sext 64) with (fun x : Z => x) in H. cbv beta in H. inv_ok.
  cbn - [Z.opp Z.pow Z.max Z.min mask_s UINT64_MAX] in *.
  assert (int64_range (- x)) as Hr' by (unfold int64_range in *; lia).
  split; [done|]. rewrite <- H. cbn - [Z.opp Z.pow Z.max Z.min mask_s UINT64_MAX].
  rewrite !mask_s_full, (s64_id (- s_min rd)), (s64_id (- s_max rd)) by done. split; [|done]. unfold int64_range in *. lia.
Qed.

(** Shifts by a constant below 64. *)
Section Shift.
Context (i : Z) (Hi : 0 <= i < 64).

Lemma shift_imm : u_min (imm_val i) = i /\ u_max (imm_val i) = i.
Proof using Hi. destruct (imm_bounds i) as (_ & _ & -> & ->). by rewrite wrap_small by (unfold in_range; clia). Qed.

Lemma shr_Ok x n y : shr x n = Ok y -> n < 64 /\ y = Z.shiftr x n.
Proof using. unfold shr. intros H. inv_ok. split; [lia|done]. Qed.

Lemma shl_s_Ok x n y : shl_s x n = Ok y -> n < 64 /\ y = s64 (Z.shiftl x n).
Proof using. unfold shl_s. intros H. inv_ok. split; [lia|done]. Qed.

(** The sign test of the shifts. *)
Lemma sign_bit x y : shr (u64 x) 63 = Ok y -> int64_range x -> (y =? 0) = (0 <=? x).
Proof using.
  intros [_ ->]%shr_Ok Hx. rewrite Z.shiftr_div_pow2 by lia. unfold int64_range in Hx. unfold wrap.
  destruct (Z.leb_spec 0 x); [rewrite Z.mod_small by lia; rewrite Z.div_small by lia; done|].
  apply Z.eqb_neq. assert (x mod 2 ^ 64 = x + 2 ^ 64) as -> by (symmetry; apply (Z.mod_unique_pos x (2 ^ 64) (-1)); lia).
  pose proof (Z.div_le_lower_bound (x + 2 ^ 64) (2 ^ 63) 1). lia.
Qed.

Lemma shiftr_range x : int64_range x -> int64_range (Z.shiftr x i).
Proof using Hi.
  unfold int64_range. intros Hx. rewrite Z.shiftr_div_pow2 by lia.
  pose proof (Z.pow_pos_nonneg 2 i ltac:(lia) ltac:(lia)) as Hp. split.
  - apply Z.div_le_lower_bound; nia.
  - apply Z.div_lt_upper_bound; nia.
Qed.

Lemma shiftr_mono x y : x <= y -> Z.shiftr x i <= Z.shiftr y i.
Proof using Hi. intros H. rewrite !Z.shiftr_div_pow2 by lia. apply Z.div_le_mono; [apply Z.pow_pos_nonneg; lia|done]. Qed.

Lemma eval_arsh_imm_sound rd r x : eval_arsh rd (imm_val i) 64 UINT64_MAX = Ok r -> within rd x -> int64_range x ->
  within r (Z.shiftr x i) /\ v r = v rd /\ mask r = mask rd.
Proof using Hi.
  unfold eval_arsh, within. destruct shift_imm as [-> ->]. rewrite (proj2 (Z.leb_gt 64 i)) by lia. intros H (Hmin & Hmax & Hx) Hr.
  cbv zeta in H. change (64 =? 32) with false in H. cbv iota in H. rewrite Z.add_0_r, wrap_small in H by (unfold in_range; clia).
  inv_ok. cbn - [Z.pow mask_s UINT64_MAX shr] in *.
  assert (forall (b : bool) y z, (if b then shr y i else shr y i) = Ok z -> z = Z.shiftr y i) as Hsh
    by (intros [] y z Hz; by apply shr_Ok in Hz as [_ ->]).
  repeat match goal with H : (if _ then shr _ i else shr _ i) = Ok _ |- _ => apply Hsh in H end. subst.
  cbn - [Z.pow mask_s UINT64_MAX]. rewrite !mask_s_full, !s64_id by by apply shiftr_range.
  split; [|done]. split; [by apply shiftr_range|]. split; [by apply shiftr_range|]. split; apply shiftr_mono; lia.
Qed.

(** Logical shifts act on the bits; they agree with the signed number when it is not negative. *)
Lemma eval_rsh_imm_sound rd r x : eval_rsh rd (imm_val i) 64 UINT64_MAX = Ok r -> within rd (s64 x) -> in_range 64 x ->
  within r (s64 (Z.shiftr x i)) /\ v r = v rd /\ mask r = mask rd.
Proof using Hi.
  unfold eval_rsh, within. destruct shift_imm as [-> ->]. rewrite (proj2 (Z.leb_gt 64 i)) by lia. intros H (Hmin & Hmax & Hx) Hr.
  cbv zeta in H. inv_ok. cbn - [Z.pow mask_s UINT64_MAX shr Z.sub] in *. change (64 - 1) with 63 in *.
  match goal with H1 : shr (u64 _) 63 = Ok _ |- _ => rewrite (sign_bit _ _ H1 Hmin) in H end.
  destruct (Z.leb_spec 0 (s_min rd)); cbn [negb] in H; inv_ok; subst r.
  - assert (s64 x = x) as Hsx.
    { unfold sgn in *. rewrite (wrap_small 64 x Hr) in *. unfold in_range in Hr. destruct (Z.ltb_spec x (2 ^ (64 - 1))); [done|]. pow_norm. lia. }
    rewrite Hsx in Hx.
    repeat match goal with H1 : shr _ _ = Ok _ |- _ => apply shr_Ok in H1 as [_ ->] end.
    assert (int64_range x) as Hxr by (rewrite <- Hsx; apply s64_range).
    rewrite (s64_id (Z.shiftr x i)) by by apply shiftr_range. cbn. split; [|done].
    split; [by apply shiftr_range|]. split; [by apply shiftr_range|]. split; apply shiftr_mono; lia.
  - split; [|done]. apply within_top, s64_range.
Qed.

Lemma len2mask_Ok n m : RTE_LEN2MASK n = Ok m -> 0 <= n <= 64 -> 1 <= n /\ m = 2 ^ n - 1.
Proof using Hi.
  unfold RTE_LEN2MASK. cbv zeta. intros H Hn. inv_ok. rewrite wrap_small in H by (unfold in_range; clia).
  match goal with H1 : (_ <? _) = true |- _ => rewrite wrap_small in H1 by (unfold in_range; clia) end. split; [lia|]. subst m.
  change UINT64_MAX with (Z.ones 64). rewrite Z.ones_equiv. rewrite Z.shiftr_div_pow2 by lia.
  assert (Z.pred (2 ^ 64) = (2 ^ n - 1) * 2 ^ (64 - n) + (2 ^ (64 - n) - 1)) as ->.
  { replace 64 with (n + (64 - n)) at 1 by lia. rewrite Z.pow_add_r by lia. lia. }
  pose proof (Z.pow_pos_nonneg 2 (64 - n) ltac:(lia) ltac:(lia)). rewrite Z.div_add_l by lia. rewrite Z.div_small by lia. lia.
Qed.

Lemma eval_lsh_imm_sound rd r x : eval_lsh rd (imm_val i) 64 UINT64_MAX = Ok r -> within rd (s64 x) -> in_range 64 x ->
  within r (s64 (Z.shiftl x i)) /\ v r = v rd /\ mask r = mask rd.
Proof using Hi.
  unfold eval_lsh, within. destruct shift_imm as [-> ->]. rewrite (proj2 (Z.leb_gt 64 i)) by lia. intros H (Hmin & Hmax & Hx) Hr.
  inv_ok. change (64 - 1) with 63 in *.
  match goal with H1 : (if _ <? u_max rd then _ else _) = Ok ?y |- _ =>
    assert (s_min y = s_min rd /\ s_max y = s_max rd /\ v y = v rd /\ mask y = mask rd) as (E1 & E2 & <- & <-)
      by (destruct (_ <? u_max rd); inv_ok; by subst y); clear H1 end.
  rewrite E1 in *. rewrite E2 in *. clear E1 E2.
  match goal with H1 : shr (u64 _) 63 = Ok _ |- _ => rewrite (sign_bit _ _ H1 Hmin) in *; clear H1 end.
  pose proof (fun rd => within_top rd _ (s64_range (Z.shiftl x i))) as Htop. unfold within in Htop.
  destruct (Z.leb_spec 0 (s_min rd)); cbn [negb] in *; inv_ok; subst; [|inv_ok; subst; split; [apply Htop|done]].
  match goal with H1 : RTE_LEN2MASK (64 - i - 1) = Ok _ |- _ => apply len2mask_Ok in H1 as [? ->]; [|lia] end.
  assert (int64_range (2 ^ (64 - i - 1) - 1)) as Hm.
  { unfold int64_range. pose proof (Z.pow_le_mono_r 2 (64 - i - 1) 63). pose proof (Z.pow_pos_nonneg 2 (64 - i - 1)). lia. }
  rewrite (s64_id _ Hm) in H. destruct (Z.leb_spec (2 ^ (64 - i - 1) - 1) (s_max rd)); inv_ok; [subst r; split; [apply Htop|done]|].
  assert (s64 x = x) as Hsx.
  { unfold sgn in *. rewrite (wrap_small 64 x Hr) in *. unfold in_range in Hr. destruct (Z.ltb_spec x (2 ^ (64 - 1))); [done|]. pow_norm. lia. }
  rewrite Hsx in Hx.
  repeat match goal with H1 : shl_s _ _ = Ok _ |- _ => apply shl_s_Ok in H1 as [_ ->] end.
  assert (forall y, 0 <= y <= s_max rd -> int64_range (y * 2 ^ i) /\ s64 (Z.shiftl y i) = y * 2 ^ i) as Hsh.
  { intros y Hy. rewrite Z.shiftl_mul_pow2 by lia. assert (int64_range (y * 2 ^ i)) as Hr'; [|split; [done|by apply s64_id]]. unfold int64_range.
    assert (2 ^ 63 = 2 ^ (64 - i - 1) * 2 ^ i) as -> by (rewrite <- Z.pow_add_r by lia; f_equal; lia).
    pose proof (Z.pow_pos_nonneg 2 i). nia. }
  subst r. cbn - [Z.pow Z.shiftl]. destruct (Hsh x ltac:(lia)) as [? ->], (Hsh (s_min rd) ltac:(lia)) as [? ->], (Hsh (s_max rd) ltac:(lia)) as [? ->].
  split; [|done]. split; [done|]. split; [done|]. pose proof (Z.pow_pos_nonneg 2 i). nia.
Qed.
End Shift.

(** ** Comparisons *)

Lemma eval_jeq_jne_sound rd rs x : within rd x -> within rs x ->
  within (fst (eval_jeq_jne rd rs)) x /\ v (fst (eval_jeq_jne rd rs)) = v rd
  /\ within (snd (eval_jeq_jne rd rs)) x /\ v (snd (eval_jeq_jne rd rs)) = v rs.
Proof.
  unfold within, eval_jeq_jne, u_const, s_const, copy_s, copy_u. intros Hd Hs.
  destruct (u_min rs =? u_max rs), (u_min rd =? u_max rd); cbn - [Z.min Z.max];
    destruct (Z.eqb_spec (s_min rs) (s_max rs)), (Z.eqb_spec (s_min rd) (s_max rd)); cbn - [Z.min Z.max];
    unfold int64_range in *; split_and!; try done; lia.
Qed.

(** An unsigned comparison keeps the signed bounds. *)
Lemma within_u rd r x : s_min r = s_min rd -> s_max r = s_max rd -> within rd x -> within r x.
Proof. unfold within. by intros -> ->. Qed.

(** A signed comparison with [>], sound against a constant only. *)
Lemma eval_jsgt_jsle_sound trd frd i r x : eval_jsgt_jsle trd (imm_val i) frd (imm_val i) = Ok r ->
  (s64 i < x -> within trd x -> within (fst r) x) /\ (x <= s64 i -> within frd x -> within (snd r) x)
  /\ v (fst r) = v trd /\ v (snd r) = v frd.
Proof.
  unfold eval_jsgt_jsle. destruct (imm_bounds i) as (-> & _). intros H. inv_ok. subst r. unfold within. cbn - [Z.min Z.max].
  pose proof (s64_range i). unfold int64_range in *. split_and!; try done; lia.
Qed.

Lemma eval_jslt_jsge_sound trd trs frd frs r x y : eval_jslt_jsge trd trs frd frs = Ok r -> within trs y -> within frs y ->
  (x < y -> within trd x -> within (fst r) x) /\ (y <= x -> within frd x -> within (snd r) x)
  /\ v (fst r) = v trd /\ v (snd r) = v frd.
Proof.
  unfold eval_jslt_jsge. intros H Ht Hf. inv_ok. subst r. unfold within in *. cbn - [Z.min Z.max].
  unfold int64_range in *. split_and!; try done; lia.
Qed.

(** ** Accesses *)

(** The offset of an access that is let through stays in the object; on the stack it is known. *)
Lemma eval_ptr_sound stack_sz rm n i p o : eval_ptr stack_sz rm n 1 i = Ok p -> within rm o -> int64_range i -> 0 <= n <= 8 ->
  0 <= o + i /\ o + i + n <= size (v rm) /\ v (snd p) = v rm
  /\ (type (v rm) = RTE_BPF_ARG_PTR_STACK -> u_max (snd p) = o + i).
Proof.
  unfold eval_ptr. intros H Hw Hi Hn. inv_ok. rename x into r.
  match goal with H1 : eval_add _ _ _ = Ok r |- _ => rename H1 into Ha end.
  match goal with H1 : negb (mask r =? UINT64_MAX) = false |- _ => apply negb_false_iff, Z.eqb_eq in H1; rename H1 into Hm end.
  assert (mask rm = UINT64_MAX) as Hmm.
  { rewrite <- Hm. unfold eval_add in Ha. inv_ok. by rewrite <- Ha. }
  rewrite Hmm in Ha. pose proof (within_imm i) as Hwi. rewrite (s64_id _ Hi) in Hwi.
  destruct (eval_add_sound _ _ _ _ _ Ha Hw Hwi) as (Hr & (Hmin & Hmax & Hb) & Hv & _). unfold int64_range in *.
  rewrite Hv in *. repeat match goal with H1 : _ || _ = false |- _ => apply orb_false_iff in H1 as [H1 ?] end.
  assert (0 <= s_min r) by lia. assert (u64 (s_max r + n) = s_max r + n) as Hu by (apply wrap_small; unfold in_range; lia).
  rewrite Hu in *. split; [lia|]. split; [lia|].
  destruct (type (v rm) =? RTE_BPF_ARG_PTR_STACK) eqn:Ht.
  - inv_ok. subst p. cbn [snd]. split; [done|]. intros _. repeat match goal with H1 : _ || _ = false |- _ => apply orb_false_iff in H1 as [H1 ?] end.
    repeat match goal with H1 : negb _ = false |- _ => apply negb_false_iff, Z.eqb_eq in H1 end.
    assert (u64 (s_max r) = s_max r) by (apply wrap_small; unfold in_range; lia). lia.
  - apply Z.eqb_neq in Ht. destruct (_ =? RTE_BPF_ARG_PTR_MBUF); inv_ok; subst p; cbn [snd]; done.
Qed.

(** What a load from a buffer learns of a number of less than 64 bits. *)
Lemma eval_max_load_sound r n x : 0 < n < 64 -> 0 <= x < 2 ^ n -> within (eval_max_load r (2 ^ n - 1)) x.
Proof.
  intros Hn Hx. pose proof (Z.pow_le_mono_r 2 n 63 ltac:(lia) ltac:(lia)).
  assert (2 ^ n - 1 <> UINT64_MAX) as Hne by (unfold UINT64_MAX; lia).
  unfold eval_max_load. rewrite (proj2 (Z.eqb_neq _ _) Hne). unfold within. cbn - [Z.pow sgn].
  rewrite (s64_id (2 ^ n - 1)) by (unfold int64_range; lia). rewrite (s64_id 0) by (unfold int64_range; lia). unfold int64_range. lia.
Qed.
