(* ===== verification/BpfEvaluate.v ===== *)
(** * The second pass of the eBPF verifier (lib/librte_bpf/bpf_validate.c)

    The walk along every path of the control flow graph, with a pool of states for the
    branches, and [bpf_validate]. *)

From S2P Require Import Prelude Effects Bpf BpfValidate BpfEval BpfEvalInsn.

Definition ENOMEM : Z := 12.
Definition ENOTSUP : Z := 95.

(** The rest of [struct bpf_verifier] and of its nodes.  A pointer to a state is its index
    in the pool. *)
Record evaluator := mk_ev {
  bvf : bpf_verifier;
  stack_sz : Z;
  evst : Z;
  ent : list bpf_eval_state;
  pool_num : Z;
  pool_cur : Z;
  node_evst : list (option Z) }.

Local Notation M := (comp evaluator).

Definition on_bvf {A} (c : comp bpf_verifier A) : M A := fun s => let '(b, o) := c (bvf s) in (s <| bvf := b |>, o).

Definition get_state (p : Z) : M bpf_eval_state := s ← get; match ent s !! Z.to_nat p with Some st => mret st | None => ub end.
Definition put_state (p : Z) (st : bpf_eval_state) : M unit := get_state p ;; modify (fun s => s <| ent := <[Z.to_nat p := st]> (ent s) |>).
Definition get_node_evst (node : Z) : M (option Z) :=
  s ← get; match node_evst s !! Z.to_nat node with Some p => mret p | None => ub end.
Definition set_node_evst (node : Z) (p : option Z) : M unit :=
  get_node_evst node ;; modify (fun s => s <| node_evst := <[Z.to_nat node := p]> (node_evst s) |>).

(** ** States for the branches *)

Definition pull_eval_state : M (option Z) :=
  s ← get;
  if pool_cur s =? pool_num s then mret None
  else modify (fun s => s <| pool_cur := u32 (pool_cur s + 1) |>) ;; mret (Some (pool_cur s)).
Definition push_eval_state : M unit := modify (fun s => s <| pool_cur := u32 (pool_cur s - 1) |>).

Definition save_eval_state (node : Z) : M Z :=
  p ← pull_eval_state;
  match p with
  | None => mret (- ENOMEM)
  | Some p =>
      s ← get;
      st ← get_state (evst s);
      put_state p st ;; set_node_evst node (Some (evst s)) ;; modify (fun s => s <| evst := p |>) ;; mret 0
  end.

Definition restore_eval_state (node p : Z) : M unit :=
  modify (fun s => s <| evst := p |>) ;; set_node_evst node None ;; push_eval_state.

(** ** The walk *)

Section Evaluate.
Context {prms : BpfParams}.

(** [ins_chk[op].eval(bvf, ins + idx)], and whether it succeeded. *)
Definition eval_current (node : Z) : M Z :=
  s ← get;
  match prm (bvf s) !! Z.to_nat node with
  | None => ub
  | Some ins =>
      st ← get_state (evst s);
      p ← get_node_evst node;
      saved ← match p with Some p => f ← get_state p; mret (Some f) | None => mret None end;
      match eval_insn (prm (bvf s)) node ins st saved (stack_sz s) with
      | Undef => ub
      | Err _ => mret (- EINVAL)
      | Ok (st', saved', sz) =>
          put_state (evst s) st' ;;
          match p, saved' with Some p, Some f => put_state p f | _, _ => mret tt end ;;
          modify (fun s => s <| stack_sz := sz |>) ;; mret 0
      end
  end.

(** The evaluation of a node that is entered. *)
Definition eval_node (node : Z) : M Z :=
  n ← on_bvf (get_node node);
  rc ← (if (1 <? length (edge_dest n))%nat then save_eval_state node else mret 0);
  if rc =? 0 then eval_current node else mret rc.

(** One round: the node, and whether it is entered; the result is the return code. *)
Definition evaluate_body : Z * bool -> M (Z * bool + Z) := fun '(node, entered) =>
  rc ← (if (entered : bool) then eval_node node else mret 0);
  let continue x := mret (if rc =? 0 then inl x else inr rc) in
  next ← on_bvf (get_next_node node);
  match next with
  | Some next =>
      n ← on_bvf (get_node node);
      p ← get_node_evst node;
      match p with
      | Some p => if cur_edge n =? Z.of_nat (length (edge_dest n)) then restore_eval_state node p else mret tt
      | None => mret tt
      end ;;
      m ← on_bvf (get_node next);
      on_bvf (set_node next (m <| prev_node := node |>)) ;;
      continue (next, true)
  | None =>
      n ← on_bvf (get_node node);
      on_bvf (set_node node (n <| cur_edge := 0 |>)) ;;
      if prev_node n =? 0 then mret (inr rc) else continue (prev_node n, false)
  end.

(** The frame pointer: the end of the stack. *)
Definition rvfp : bpf_reg_val :=
  mk_rv (mk_arg RTE_BPF_ARG_PTR_STACK MAX_BPF_STACK_SIZE 0) UINT64_MAX
    MAX_BPF_STACK_SIZE MAX_BPF_STACK_SIZE MAX_BPF_STACK_SIZE MAX_BPF_STACK_SIZE.

Definition first_state (st : bpf_eval_state) : bpf_eval_state :=
  let r1 := from_option id zero_rv (rv st !! 1%nat) in
  let r1 := r1 <| v := prog_arg |> <| mask := UINT64_MAX |> in
  let r1 := if type prog_arg =? RTE_BPF_ARG_RAW then eval_max_bound r1 UINT64_MAX else r1 in
  set_rv (set_rv st 1 r1) 10 rvfp.

Definition evaluate (fuel : nat) : M Z :=
  s ← get; st ← get_state (evst s); put_state (evst s) (first_state st) ;;
  comp_loop evaluate_body fuel (0, true).

(** Whether the system serves the allocation of the nodes and of the states, the mapping of
    the program and its protection. *)
Class BpfSystem := { calloc_nodes : bool; calloc_states : bool; mmap_ok : bool; mprotect_ok : bool }.
Context {sys : BpfSystem}.

(** [evst_pool_init], with the pool allocated. *)
Definition evst_pool_init (b : bpf_verifier) : evaluator :=
  let n := u32 (nb_jcc_nodes b + 1) in
  mk_ev b 0 0 (replicate (Z.to_nat n) zero_evst) n 1 (replicate (length (prm b)) None).

(** The return code, and the size of the stack that is stored with the program. *)
Definition bpf_validate (prog : list ebpf_insn) (fuel : nat) : outcome (Z * Z) :=
  if negb (type prog_arg =? RTE_BPF_ARG_RAW) && negb (type prog_arg =? RTE_BPF_ARG_PTR) && negb (type prog_arg =? RTE_BPF_ARG_PTR_MBUF)
  then Ret (- ENOTSUP, 0)
  else if negb calloc_nodes then Ret (- ENOMEM, 0)
  else
    match validate (new_verifier prog) with
    | (b, Ret rc) =>
        if negb (rc =? 0) then Ret (rc, 0)
        else if negb calloc_states then Ret (- ENOMEM, 0)
        else
          match evaluate fuel (evst_pool_init b) with
          | (s, Ret rc) => Ret (rc, if rc =? 0 then stack_sz s else 0)
          | (_, o) => reraise o
          end
    | (_, o) => reraise o
    end.

(** ** Loading (bpf_load.c) *)

Definition EBPF_FUNC_MAX_ARGS : nat := 5.

(** The checks of an external symbol that depend on its type. *)
Definition bpf_check_xsym (x : rte_bpf_xsym) : bool :=
  match x with
  | Xinvalid => false
  | Xvar _ desc => negb (type desc =? RTE_BPF_ARG_UNDEF)
  | Xfunc args ret =>
      (length args <=? EBPF_FUNC_MAX_ARGS)%nat && forallb (fun a => negb (type a =? RTE_BPF_ARG_UNDEF)) args
      && ((type ret =? RTE_BPF_ARG_UNDEF) || negb (size ret =? 0))
  end.

(** The value of [rte_errno], 0 for a program that was loaded. *)
Definition rte_bpf_load (prog : list ebpf_insn) (fuel : nat) : outcome Z :=
  if negb (forallb bpf_check_xsym xsym) then Ret EINVAL
  else if negb mmap_ok then Ret ENOMEM
  else
    match bpf_validate prog fuel with
    | Ret (rc, _) => Ret (- (if (rc =? 0) && negb mprotect_ok then - ENOMEM else rc))
    | o => reraise o
    end.
End Evaluate.
