(* ===== verification/BpfPaths.v ===== *)
(** * The walk of the second pass of the eBPF verifier (lib/librte_bpf/bpf_validate.c)

    When [evaluate] succeeds, every path that it is meant to check was evaluated: those
    that start with the first edge of the first instruction. *)

From S2P Require Import Prelude Effects Bpf BpfValidate BpfDfs BpfPass BpfVerify BpfEval BpfEvalInsn BpfDomain BpfEvaluate.

Section Paths.
Context {prms : BpfParams} (prog : list ebpf_insn) (E : Z -> list Z).

(** The paths from [i] on, with what is known before [i]. *)
Inductive checked : Z -> bpf_eval_state -> Prop :=
| checked_node i st ins st' saved' sz sz' :
    prog !! Z.to_nat i = Some ins ->
    eval_insn prog i ins st (if (1 <? length (E i))%nat then Some st else None) sz = Ok (st', saved', sz') ->
    (forall a, E i !! 0%nat = Some a -> checked a st') ->
    (forall b f, E i !! 1%nat = Some b -> saved' = Some f -> checked b f) ->
    checked i st.

(** ** Steps of the walk *)

Definition set_nd (i : Z) (nd : inst_node) (s : evaluator) : evaluator :=
  s <| bvf := (bvf s) <| in_ := <[Z.to_nat i := nd]> (in_ (bvf s)) |> |>.

Lemma node_at_set_nd s i nd nd' j : node_at (bvf s) i = Some nd ->
  node_at (bvf (set_nd i nd' s)) j = if decide (j = i) then Some nd' else node_at (bvf s) j.
Proof. apply node_at_set. Qed.

Lemma same_bvf (s : evaluator) : s <| bvf := bvf s |> = s.
Proof. by destruct s. Qed.

Lemma on_get_node s i nd : node_at (bvf s) i = Some nd -> on_bvf (get_node i) s = (s, Ret nd).
Proof. intros H. unfold on_bvf. rewrite (get_node_run _ _ _ H). by rewrite same_bvf. Qed.

Lemma on_set_node s i nd nd' : node_at (bvf s) i = Some nd -> on_bvf (set_node i nd') s = (set_nd i nd' s, Ret tt).
Proof. intros H. unfold on_bvf. by rewrite (set_node_run _ _ _ _ H). Qed.

Lemma on_next_none s i nd : node_at (bvf s) i = Some nd -> edge_dest nd !! Z.to_nat (cur_edge nd) = None ->
  on_bvf (get_next_node i) s = (s, Ret None).
Proof. intros H Hn. unfold on_bvf, get_next_node. rewrite (bind_ret _ _ _ _ _ (get_node_run _ _ _ H)), Hn. cbn. by rewrite same_bvf. Qed.

Lemma on_next_some s i nd d : node_at (bvf s) i = Some nd -> edge_dest nd !! Z.to_nat (cur_edge nd) = Some d ->
  on_bvf (get_next_node i) s = (set_nd i (nd <| cur_edge := cur_edge nd + 1 |>) s, Ret (Some d)).
Proof.
  intros H Hn. unfold on_bvf, get_next_node. rewrite (bind_ret _ _ _ _ _ (get_node_run _ _ _ H)), Hn.
  by rewrite (bind_ret _ _ _ _ _ (set_node_run _ _ _ _ H)).
Qed.

(** The second half of a round, after an evaluation that succeeded. *)
Definition proceed (node : Z) : comp evaluator (Z * bool + Z) :=
  next ← on_bvf (get_next_node node);
  match next with
  | Some next =>
      n ← on_bvf (get_node node);
      p ← get_node_evst node;
      match p with
      | Some p => if cur_edge n =? Z.of_nat (length (edge_dest n)) then restore_eval_state node p else mret tt
      | None => mret tt
      end ;;
      m ← on_bvf (get_node next);
      on_bvf (set_node next (m <| prev_node := node |>)) ;;
      mret (inl (next, true))
  | None =>
      n ← on_bvf (get_node node);
      on_bvf (set_node node (n <| cur_edge := 0 |>)) ;;
      if prev_node n =? 0 then mret (inr 0) else mret (inl (prev_node n, false))
  end.

Definition go_on (fuel : nat) (y : Z * bool + Z) : comp evaluator Z :=
  match y with inl x => comp_loop evaluate_body fuel x | inr r => mret r end.

(** A round of a walk that succeeds. *)
Lemma round_succeeds fuel i entered s s1 : comp_loop evaluate_body (Datatypes.S fuel) (i, entered) s = (s1, Ret 0) ->
  exists s0, (if (entered : bool) then eval_node i else mret 0) s = (s0, Ret 0) /\ (proceed i ≫= go_on fuel) s0 = (s1, Ret 0).
Proof.
  cbn [comp_loop]. intros H. apply bind_ret_inv in H as (s2 & y & Hb & Hy). unfold evaluate_body in Hb.
  apply bind_ret_inv in Hb as (s0 & rc & Hrc & Hb). cbv zeta in Hb. exists s0.
  destruct (Z.eqb_spec rc 0) as [->|Hne].
  - split; [done|]. unfold proceed. change (0 =? 0) with true in Hb. cbv iota in Hb. by rewrite (bind_ret _ _ _ _ _ Hb).
  - exfalso. assert (y = inr rc) as ->; [|injection Hy as _ ->; done].
    apply bind_ret_inv in Hb as (s3 & nx & _ & Hb). destruct nx as [d|].
    + do 2 apply bind_ret_inv in Hb as (? & ? & _ & Hb). apply bind_ret_inv in Hb as (? & [] & _ & Hb).
      do 2 apply bind_ret_inv in Hb as (? & ? & _ & Hb). by injection Hb.
    + do 2 apply bind_ret_inv in Hb as (? & ? & _ & Hb). destruct (_ =? 0); by injection Hb.
Qed.

(** ** Clean nodes *)

(** A node that is not being visited. *)
Definition clean (s : evaluator) (j : Z) : Prop :=
  exists nd, node_at (bvf s) j = Some nd /\ edge_dest nd = E j /\ cur_edge nd = 0 /\ node_evst s !! Z.to_nat j = Some None.

Definition reach (i j : Z) : Prop := rtc (edge E) i j.

Lemma reach_reachable i j : reach i j -> reachable E i -> reachable E j.
Proof. induction 1 as [|i k j Hik _ IH]; [done|]. intros Hi. apply IH. by eapply reach_edge. Qed.

(** The state [st] is the current one, at the index [e], and the states above are free. *)
Record at_state (e : Z) (st : bpf_eval_state) (s : evaluator) : Prop := {
  as_prm : prm (bvf s) = prog;
  as_evst : evst s = e;
  as_cur : pool_cur s = e + 1;
  as_num : 0 <= e /\ e + 1 <= pool_num s < 2 ^ 32;
  as_ent : ent s !! Z.to_nat e = Some st }.

(** What the visit of the nodes below [i] changes. *)
Record visited (e i : Z) (s s' : evaluator) : Prop := {
  vi_prm : prm (bvf s') = prm (bvf s);
  vi_evst : evst s' = evst s;
  vi_cur : pool_cur s' = pool_cur s;
  vi_num : pool_num s' = pool_num s;
  vi_len : length (ent s') = length (ent s);
  vi_ent : forall k, (k < Z.to_nat e)%nat -> ent s' !! k = ent s !! k;
  vi_clean : forall j, clean s j -> clean s' j;
  vi_frame : forall j, 0 <= j -> ~ reach i j -> node_at (bvf s') j = node_at (bvf s) j /\ node_evst s' !! Z.to_nat j = node_evst s !! Z.to_nat j }.

(** ** The evaluation of a node *)

Lemma get_state_run s p st : ent s !! Z.to_nat p = Some st -> get_state p s = (s, Ret st).
Proof. intros H. unfold get_state. erewrite bind_ret; [|reflexivity]. by rewrite H. Qed.

Lemma put_state_run s p st st' : ent s !! Z.to_nat p = Some st ->
  put_state p st' s = (s <| ent := <[Z.to_nat p := st']> (ent s) |>, Ret tt).
Proof. intros H. unfold put_state. by rewrite (bind_ret _ _ _ _ _ (get_state_run _ _ _ H)). Qed.

Lemma get_node_evst_run s i p : node_evst s !! Z.to_nat i = Some p -> get_node_evst i s = (s, Ret p).
Proof. intros H. unfold get_node_evst. erewrite bind_ret; [|reflexivity]. by rewrite H. Qed.

Lemma set_node_evst_run s i p p' : node_evst s !! Z.to_nat i = Some p ->
  set_node_evst i p' s = (s <| node_evst := <[Z.to_nat i := p']> (node_evst s) |>, Ret tt).
Proof. intros H. unfold set_node_evst. by rewrite (bind_ret _ _ _ _ _ (get_node_evst_run _ _ _ H)). Qed.

(** A conditional jump keeps a saved state. *)
Lemma eval_insn_saved i ins st saved sz st' saved' sz' :
  eval_insn prog i ins st saved sz = Ok (st', saved', sz') -> is_Some saved -> is_Some saved'.
Proof.
  unfold eval_insn. intros H Hs. cbv zeta in H. destruct (eval (ins_chk_at (code ins))) as [[]|];
    repeat match goal with H : (_ ≫= _) = Ok _ |- _ => apply bind_Ok in H as (? & ? & H); cbv beta in H end;
    inversion H; subst; first [done|by eexists].
Qed.

(** The saved state of a node, if any. *)
Definition saved_state (s : evaluator) (p : option Z) : option bpf_eval_state := p ≫= fun q => ent s !! Z.to_nat q.

Lemma eval_current_inv i e st s s' p : prm (bvf s) = prog -> evst s = e -> ent s !! Z.to_nat e = Some st ->
  node_evst s !! Z.to_nat i = Some p -> (forall q, p = Some q -> is_Some (ent s !! Z.to_nat q)) ->
  eval_current i s = (s', Ret 0) ->
  exists ins st' saved' sz', prog !! Z.to_nat i = Some ins
    /\ eval_insn prog i ins st (saved_state s p) (stack_sz s) = Ok (st', saved', sz')
    /\ s' = s <| ent := match p, saved' with
                       | Some q, Some f => <[Z.to_nat q := f]> (<[Z.to_nat e := st']> (ent s))
                       | _, _ => <[Z.to_nat e := st']> (ent s)
                       end |> <| stack_sz := sz' |>.
Proof.
  intros Hp He Hst Hq Hqs H. unfold eval_current in H. rewrite (bind_ret get _ s s s) in H by reflexivity. rewrite Hp, He in H.
  destruct (prog !! Z.to_nat i) as [ins|] eqn:Hins; [|done]. rewrite (bind_ret _ _ _ _ _ (get_state_run _ _ _ Hst)) in H.
  rewrite (bind_ret _ _ _ _ _ (get_node_evst_run _ _ _ Hq)) in H.
  assert ((match p with Some q => f ← get_state q; mret (Some f) | None => mret None end : comp evaluator (option bpf_eval_state)) s = (s, Ret (saved_state s p))) as Hsv.
  { destruct p as [q|]; [|done]. destruct (Hqs q eq_refl) as [f Hf]. rewrite (bind_ret _ _ _ _ _ (get_state_run _ _ _ Hf)).
    unfold saved_state. cbn. by rewrite Hf. }
  rewrite (bind_ret _ _ _ _ _ Hsv) in H. destruct (eval_insn _ _ _ _ _ _) as [[[st' saved'] sz']| |] eqn:Hev; [|done..].
  rewrite (bind_ret _ _ _ _ _ (put_state_run _ _ _ st' Hst)) in H. exists ins, st', saved', sz'. split; [done|]. split; [done|].
  destruct p as [q|]; [|injection H as <-; done]. destruct (Hqs q eq_refl) as [f Hf].
  destruct (eval_insn_saved _ _ _ _ _ _ _ _ Hev) as [f' ->]; [unfold saved_state; cbn; rewrite Hf; done|].
  assert (is_Some ((<[Z.to_nat e := st']> (ent s)) !! Z.to_nat q)) as [f2 Hf2].
  { apply lookup_lt_is_Some_2. rewrite length_insert. by eapply lookup_lt_Some. }
  set (s1 := s <| ent := <[Z.to_nat e := st']> (ent s) |>) in H.
  assert (ent s1 !! Z.to_nat q = Some f2) as Hf3 by exact Hf2.
  rewrite (bind_ret _ _ _ _ _ (put_state_run s1 q f2 f' Hf3)) in H.
  by injection H as <-.
Qed.

(** What entering [i] leaves: the state for the first edge, and with two edges also the
    saved one below it. *)
Lemma eval_node_inv i e st s s' : at_state e st s -> clean s i -> eval_node i s = (s', Ret 0) ->
  exists ins st' saved' sz sz', prog !! Z.to_nat i = Some ins
    /\ eval_insn prog i ins st (if (1 <? length (E i))%nat then Some st else None) sz = Ok (st', saved', sz')
    /\ bvf s' = bvf s /\ pool_num s' = pool_num s /\ length (ent s') = length (ent s)
    /\ (forall k, (k < Z.to_nat e)%nat -> ent s' !! k = ent s !! k)
    /\ if (1 <? length (E i))%nat then
         exists f, saved' = Some f /\ at_state (e + 1) st' s' /\ ent s' !! Z.to_nat e = Some f
           /\ node_evst s' = <[Z.to_nat i := Some e]> (node_evst s)
       else at_state e st' s' /\ node_evst s' = node_evst s.
Proof.
  intros [Hp He Hcur Hnum Hst] (nd & Hnd & Hed & _ & Hev) H. unfold eval_node in H.
  rewrite (bind_ret _ _ _ _ _ (on_get_node _ _ _ Hnd)), Hed in H. destruct (1 <? length (E i))%nat.
  - unfold save_eval_state at 1 in H. unfold pull_eval_state in H.
    rewrite !bind_assoc, (bind_ret get _ s s s) in H by reflexivity.
    destruct (Z.eqb_spec (pool_cur s) (pool_num s)); [done|].
    rewrite bind_assoc in H. erewrite bind_ret in H; [|reflexivity]. rewrite (bind_ret (mret _) _ _ _ _ eq_refl) in H.
    set (s1 := s <| pool_cur := u32 (pool_cur s + 1) |>) in H.
    rewrite bind_assoc, (bind_ret get _ s1 s1 s1) in H by reflexivity.
    change (evst s1) with (evst s) in H. rewrite He, bind_assoc in H.
    rewrite (bind_ret _ _ _ _ _ (get_state_run s1 e st Hst)), Hcur in H.
    destruct (ent s !! Z.to_nat (e + 1)) as [old|] eqn:Hold.
    2: { exfalso. unfold put_state, get_state in H. do 3 (unfold mbind, comp_bind in H; cbn - [s1] in H). change (ent s1) with (ent s) in H. by rewrite Hold in H. }
    rewrite bind_assoc, (bind_ret _ _ _ _ _ (put_state_run s1 (e + 1) old st Hold)) in H.
    match type of H with _ ?x = _ => set (s2 := x) in H end.
    rewrite bind_assoc, (bind_ret _ _ _ _ _ (set_node_evst_run s2 i None (Some e) Hev)) in H.
    rewrite bind_assoc in H. erewrite bind_ret in H; [|reflexivity]. rewrite (bind_ret (mret _) _ _ _ _ eq_refl) in H.
    change (0 =? 0) with true in H. cbv iota in H.
    match type of H with eval_current i ?x = _ => set (s3 := x) in H end.
    assert (Z.to_nat (e + 1) = Datatypes.S (Z.to_nat e)) as Hidx by lia.
    assert (ent s3 = <[Z.to_nat (e + 1) := st]> (ent s)) as Hent3 by done.
    assert (ent s3 !! Z.to_nat e = Some st) as Hent3e by (rewrite Hent3, list_lookup_insert_ne by lia; done).
    eapply (eval_current_inv i (e + 1) st s3 s' (Some e)) in H as (ins & st' & saved' & sz' & Hins & Hok & ->); try done.
    + unfold saved_state in Hok. cbn [mbind option_bind] in Hok. rewrite Hent3e in Hok.
      destruct (eval_insn_saved _ _ _ _ _ _ _ _ Hok ltac:(done)) as [f ->].
      exists ins, st', (Some f), (stack_sz s3), sz'. split; [done|]. split; [done|]. split; [done|]. split; [done|].
      split; [cbn; by rewrite !length_insert|]. split.
      * intros k Hk. cbn. rewrite !list_lookup_insert_ne by lia. done.
      * exists f. split; [done|]. rewrite Hent3. split; [split|].
        -- done.
        -- done.
        -- cbn. rewrite Hcur. unfold wrap. rewrite Z.mod_small; lia.
        -- cbn. lia.
        -- cbn. rewrite list_lookup_insert_ne by lia. apply list_lookup_insert_eq. rewrite length_insert. by eapply lookup_lt_Some.
        -- cbn. split; [|done]. apply list_lookup_insert_eq. rewrite !length_insert. by eapply lookup_lt_Some.
    + rewrite Hent3. apply list_lookup_insert_eq. by eapply lookup_lt_Some.
    + cbn. apply list_lookup_insert_eq. by eapply lookup_lt_Some.
    + intros q [= <-]. by eexists.
  - rewrite (bind_ret (mret 0) _ s s 0) in H by reflexivity. change (0 =? 0) with true in H. cbv iota in H.
    eapply (eval_current_inv i e st s s' None) in H as (ins & st' & saved' & sz' & Hins & Hok & ->); try done.
    exists ins, st', saved', (stack_sz s), sz'. split; [done|]. split; [done|]. split; [done|]. split; [done|].
    split; [cbn; by rewrite length_insert|]. split; [intros k Hk; cbn; by rewrite list_lookup_insert_ne by lia|].
    split; [|done]. split; [done|done|done|done|]. cbn. apply list_lookup_insert_eq. by eapply lookup_lt_Some.
Qed.

(** ** The walk below a node *)

Definition after (fuel : nat) (p : Z) : comp evaluator Z := if p =? 0 then mret 0 else comp_loop evaluate_body fuel (p, false).

Lemma proceed_finish fuel i nd s s1 : node_at (bvf s) i = Some nd -> edge_dest nd !! Z.to_nat (cur_edge nd) = None ->
  (proceed i ≫= go_on fuel) s = (s1, Ret 0) -> after fuel (prev_node nd) (set_nd i (nd <| cur_edge := 0 |>) s) = (s1, Ret 0).
Proof.
  intros Hnd Hno H. unfold proceed in H. rewrite bind_assoc, (bind_ret _ _ _ _ _ (on_next_none _ _ _ Hnd Hno)) in H. cbv iota in H.
  rewrite bind_assoc, (bind_ret _ _ _ _ _ (on_get_node _ _ _ Hnd)), bind_assoc in H.
  rewrite (bind_ret _ _ _ _ _ (on_set_node _ _ _ (nd <| cur_edge := 0 |>) Hnd)) in H. unfold after.
  by destruct (prev_node nd =? 0); rewrite (bind_ret (mret _) _ _ _ _ eq_refl) in H.
Qed.

(** The saved state comes back with the last edge. *)
Definition restored (i : Z) (last : bool) (p : option Z) (s : evaluator) : evaluator :=
  match p with
  | Some q => if last then s <| evst := q |> <| node_evst := <[Z.to_nat i := None]> (node_evst s) |> <| pool_cur := u32 (pool_cur s - 1) |> else s
  | None => s
  end.

Lemma restore_run s i q p : node_evst s !! Z.to_nat i = Some p -> restore_eval_state i q s = (restored i true (Some q) s, Ret tt).
Proof.
  intros H. unfold restore_eval_state. erewrite bind_ret; [|reflexivity]. unfold set_node_evst. rewrite bind_assoc.
  erewrite bind_ret; [|by apply get_node_evst_run; exact H]. done.
Qed.

Lemma proceed_child fuel i nd a ma p s s1 : node_at (bvf s) i = Some nd -> edge_dest nd !! Z.to_nat (cur_edge nd) = Some a ->
  a <> i -> node_at (bvf s) a = Some ma -> node_evst s !! Z.to_nat i = Some p -> (proceed i ≫= go_on fuel) s = (s1, Ret 0) ->
  comp_loop evaluate_body fuel (a, true)
    (set_nd a (ma <| prev_node := i |>)
       (restored i (cur_edge nd + 1 =? Z.of_nat (length (edge_dest nd))) p (set_nd i (nd <| cur_edge := cur_edge nd + 1 |>) s))) = (s1, Ret 0).
Proof.
  intros Hnd Hd Hne Hma Hp H. unfold proceed in H.
  rewrite bind_assoc, (bind_ret _ _ _ _ _ (on_next_some _ _ _ _ Hnd Hd)) in H. cbv iota in H.
  set (nd' := nd <| cur_edge := cur_edge nd + 1 |>) in *. set (s2 := set_nd i nd' s) in *.
  assert (node_at (bvf s2) i = Some nd') as Hi by (unfold s2; by rewrite (node_at_set_nd _ _ _ _ _ Hnd), decide_True).
  assert (node_at (bvf s2) a = Some ma) as Ha by (unfold s2; by rewrite (node_at_set_nd _ _ _ _ _ Hnd), decide_False).
  rewrite bind_assoc, (bind_ret _ _ _ _ _ (on_get_node _ _ _ Hi)), bind_assoc in H.
  assert (node_evst s2 !! Z.to_nat i = Some p) as Hp2 by done.
  rewrite (bind_ret _ _ _ _ _ (get_node_evst_run s2 i p Hp2)), bind_assoc in H.
  change (cur_edge nd') with (cur_edge nd + 1) in H. change (edge_dest nd') with (edge_dest nd) in H.
  set (last := cur_edge nd + 1 =? Z.of_nat (length (edge_dest nd))) in *.
  assert ((match p with Some q => if last then restore_eval_state i q else mret tt | None => mret tt end) s2 = (restored i last p s2, Ret tt)) as Hr.
  { destruct p as [q|]; [|done]. destruct last; [|done]. by apply (restore_run s2 i q (Some q)). }
  rewrite (bind_ret _ _ _ _ _ Hr), bind_assoc in H.
  assert (node_at (bvf (restored i last p s2)) a = Some ma) as Ha2 by (unfold restored; destruct p; [by destruct last|done]).
  rewrite (bind_ret _ _ _ _ _ (on_get_node _ _ _ Ha2)), bind_assoc in H.
  rewrite (bind_ret _ _ _ _ _ (on_set_node _ _ _ (ma <| prev_node := i |>) Ha2)) in H.
  by rewrite (bind_ret (mret _) _ _ _ _ eq_refl) in H.
Qed.

(** What a part of the visit of [i] changes, [i] itself apart. *)
Record steps (e i : Z) (s s' : evaluator) : Prop := {
  sp_prm : prm (bvf s') = prm (bvf s);
  sp_num : pool_num s' = pool_num s;
  sp_len : length (ent s') = length (ent s);
  sp_ent : forall k, (k < Z.to_nat e)%nat -> ent s' !! k = ent s !! k;
  sp_clean : forall j, j <> i -> clean s j -> clean s' j;
  sp_frame : forall j, 0 <= j -> ~ reach i j -> node_at (bvf s') j = node_at (bvf s) j /\ node_evst s' !! Z.to_nat j = node_evst s !! Z.to_nat j }.

Lemma steps_trans e i s s' s'' : steps e i s s' -> steps e i s' s'' -> steps e i s s''.
Proof.
  intros [] []. split; [congruence|congruence|congruence| |eauto|].
  - intros k Hk. rewrite sp_ent1, sp_ent0 by done. done.
  - intros j Hj0 Hj. destruct (sp_frame1 j Hj0 Hj) as [-> ->], (sp_frame0 j Hj0 Hj) as [-> ->]. done.
Qed.

Lemma steps_visited e e' i a s s' : visited e' a s s' -> e <= e' -> a ∈ E i -> steps e i s s'.
Proof.
  intros [] He Ha. split; [done..| |by intros; auto|].
  - intros k Hk. apply vi_ent0. lia.
  - intros j Hj0 Hj. apply vi_frame0; [done|]. contradict Hj. by eapply rtc_l.
Qed.

(** Writing the node [i], or the parent of another. *)
Lemma steps_set_i e i nd nd' s : node_at (bvf s) i = Some nd -> steps e i s (set_nd i nd' s).
Proof.
  intros Hnd. split; [done..| |].
  - intros j Hj (ndj & H1 & H2). exists ndj. by rewrite (node_at_set_nd _ _ _ _ _ Hnd), decide_False.
  - intros j Hj0 Hj. rewrite (node_at_set_nd _ _ _ _ _ Hnd), decide_False; [done|]. intros ->. apply Hj, rtc_refl.
Qed.

Lemma steps_set_prev e i a ma p s : node_at (bvf s) a = Some ma -> a ∈ E i -> steps e i s (set_nd a (ma <| prev_node := p |>) s).
Proof.
  intros Hma Ha. split; [done..| |].
  - intros j Hj (ndj & H1 & H2 & H3 & H4). unfold clean. rewrite (node_at_set_nd _ _ _ _ _ Hma).
    destruct (decide (j = a)) as [->|]; [|exists ndj; by split_and!].
    rewrite Hma in H1. injection H1 as ->. eexists. by split_and!.
  - intros j Hj0 Hj. rewrite (node_at_set_nd _ _ _ _ _ Hma), decide_False; [done|]. intros ->. apply Hj. by apply rtc_once.
Qed.

Lemma clean_range s j : clean s j -> 0 <= j.
Proof. intros (nd & H & _). apply node_at_range in H. lia. Qed.

(** Changes of the states and of the saved state of [i]. *)
Lemma steps_states e i s s' : bvf s' = bvf s -> pool_num s' = pool_num s -> length (ent s') = length (ent s) ->
  (forall k, (k < Z.to_nat e)%nat -> ent s' !! k = ent s !! k) -> 0 <= i ->
  (node_evst s' = node_evst s \/ exists p, node_evst s' = <[Z.to_nat i := p]> (node_evst s)) -> 
  steps e i s s'.
Proof.
  intros Hb Hn Hl He Hi Hev. split; [by rewrite Hb|done..| |].
  - intros j Hj Hc. pose proof (clean_range _ _ Hc). destruct Hc as (nd & H1 & H2 & H3 & H4). exists nd. rewrite Hb. split_and!; try done.
    destruct Hev as [->|[p ->]]; [done|]. by rewrite list_lookup_insert_ne by lia.
  - intros j Hj0 Hj. rewrite Hb. split; [done|]. destruct Hev as [->|[p ->]]; [done|].
    apply list_lookup_insert_ne. intros Heq. apply Hj. replace j with i by lia. apply rtc_refl.
Qed.

(** The children of a node that is visited can be visited. *)
Definition visitable (s : evaluator) (i : Z) : Prop := forall j, reach i j -> clean s j /\ j <> 0 /\ ~ tc (edge E) j j.

Lemma child_visitable e i a s s' : steps e i s s' -> visitable s i -> a ∈ E i -> visitable s' a.
Proof.
  intros S V Ha j Hj. destruct (V j) as (Hc & H0 & Hac); [by eapply rtc_l|]. split; [|done].
  apply (sp_clean _ _ _ _ S); [|done]. intros ->. apply Hac. by eapply tc_rtc_r, Hj; apply tc_once.
Qed.

Lemma not_back i a s : visitable s i -> a ∈ E i -> ~ reach a i.
Proof. intros V Ha Hr. destruct (V i (rtc_refl _ _)) as (_ & _ & Hac). apply Hac. by eapply tc_rtc_r, Hr; apply tc_once. Qed.

(** The last round of a visit. *)
Lemma visit_end e i st s s' nd p : at_state e st s' -> steps e i s s' -> visitable s i ->
  node_at (bvf s') i = Some nd -> edge_dest nd = E i -> node_evst s' !! Z.to_nat i = Some None -> evst s = e -> pool_cur s = e + 1 ->
  prev_node nd = p -> visited e i s (set_nd i (nd <| cur_edge := 0 |>) s').
Proof.
  intros [] S V Hnd Hed Hev He Hcur Hp. pose proof (steps_trans _ _ _ _ _ S (steps_set_i e i _ (nd <| cur_edge := 0 |>) _ Hnd)) as [].
  split; try done; [by rewrite He|by rewrite Hcur|]. intros j Hj. destruct (decide (j = i)) as [->|Hne]; [|by apply sp_clean0].
  exists (nd <| cur_edge := 0 |>). by rewrite (node_at_set_nd _ _ _ _ _ Hnd), decide_True.
Qed.

(** A visited child leaves its parent as it was. *)
Lemma visited_parent e i a s s' : visited e a s s' -> ~ reach a i -> 0 <= i ->
  node_at (bvf s') i = node_at (bvf s) i /\ node_evst s' !! Z.to_nat i = node_evst s !! Z.to_nat i.
Proof. intros [] Hr Hi. by apply vi_frame0. Qed.

Lemma at_state_keep e st s s' : at_state e st s -> prm (bvf s') = prm (bvf s) -> evst s' = evst s -> pool_cur s' = pool_cur s ->
  pool_num s' = pool_num s -> ent s' !! Z.to_nat e = ent s !! Z.to_nat e -> at_state e st s'.
Proof. intros [] H1 H2 H3 H4 H5. split; congruence. Qed.

(** The children are entered with the state of their parent. *)
Lemma enter_child e i a st s nd ma last p : at_state e st s -> node_at (bvf s) i = Some nd -> node_at (bvf s) a = Some ma -> a <> i -> a ∈ E i -> 0 <= i ->
  last = false \/ p = None ->
  let s' := set_nd a (ma <| prev_node := i |>) (restored i last p (set_nd i (nd <| cur_edge := cur_edge nd + 1 |>) s)) in
  at_state e st s' /\ steps e i s s' /\ node_at (bvf s') a = Some (ma <| prev_node := i |>)
  /\ node_at (bvf s') i = Some (nd <| cur_edge := cur_edge nd + 1 |>) /\ node_evst s' !! Z.to_nat i = node_evst s !! Z.to_nat i.
Proof.
  intros A Hi Ha Hne Hae Hi0 Hlast. assert (restored i last p (set_nd i (nd <| cur_edge := cur_edge nd + 1 |>) s) = set_nd i (nd <| cur_edge := cur_edge nd + 1 |>) s) as ->
    by (by destruct Hlast as [-> | ->]; [destruct p|]).
  cbv zeta. set (s1 := set_nd i _ s).
  assert (node_at (bvf s1) a = Some ma) as Ha1 by (unfold s1; by rewrite (node_at_set_nd _ _ _ _ _ Hi), decide_False).
  assert (node_at (bvf s1) i = Some (nd <| cur_edge := cur_edge nd + 1 |>)) as Hi1 by (unfold s1; by rewrite (node_at_set_nd _ _ _ _ _ Hi), decide_True).
  split; [by eapply at_state_keep|]. split; [|].
  - eapply steps_trans; [by eapply steps_set_i|]. by apply steps_set_prev.
  - rewrite !(node_at_set_nd _ _ _ _ _ Ha1), decide_True by done. rewrite decide_False by done. done.
Qed.

Lemma resume f i s s1 : after f i s = (s1, Ret 0) -> i <> 0 ->
  exists f', f = Datatypes.S f' /\ (proceed i ≫= go_on f') s = (s1, Ret 0).
Proof.
  unfold after. intros H Hi. rewrite (proj2 (Z.eqb_neq i 0) Hi) in H. destruct f as [|f]; [done|]. exists f. split; [done|].
  apply round_succeeds in H as (s0 & Hs & H). by injection Hs as <-.
Qed.

Definition walks (f : nat) : Prop := forall i e st s s1 nd, at_state e st s -> visitable s i -> node_at (bvf s) i = Some nd ->
  comp_loop evaluate_body f (i, true) s = (s1, Ret 0) ->
  checked i st /\ exists f' s', (f' < f)%nat /\ after f' (prev_node nd) s' = (s1, Ret 0) /\ visited e i s s'.

(** A child, with the parent [i] in the state [s] after its evaluation. *)
Lemma walk_child f i a e e' st s s0 s1 nd ma last p : walks f -> visitable s i -> steps e i s s0 -> e <= e' ->
  at_state e' st s0 -> node_at (bvf s0) i = Some nd -> node_at (bvf s0) a = Some ma -> a ∈ E i -> last = false \/ p = None ->
  comp_loop evaluate_body f (a, true)
    (set_nd a (ma <| prev_node := i |>) (restored i last p (set_nd i (nd <| cur_edge := cur_edge nd + 1 |>) s0))) = (s1, Ret 0) ->
  checked a st /\ exists f' s', (f' < f)%nat /\ (proceed i ≫= go_on f') s' = (s1, Ret 0) /\ steps e i s s' /\ at_state e' (default st (ent s' !! Z.to_nat e')) s'
    /\ (forall k, (k < Z.to_nat e')%nat -> ent s' !! k = ent s0 !! k)
    /\ node_at (bvf s') i = Some (nd <| cur_edge := cur_edge nd + 1 |>) /\ node_evst s' !! Z.to_nat i = node_evst s0 !! Z.to_nat i.
Proof.
  intros IH V S He A Hi Ha Hae Hlast H. destruct (V i (rtc_refl _ _)) as (Hci & Hi0 & Hac).
  assert (a <> i) as Hne by (intros ->; apply Hac; by apply tc_once).
  destruct (enter_child e' i a st s0 nd ma last p A Hi Ha Hne Hae (clean_range _ _ Hci) Hlast) as (A2 & S2 & Ha2 & Hi2 & Hev2).
  set (s2 := set_nd a _ _) in *.
  assert (visitable s2 a) as V2.
  { eapply child_visitable; [|exact V|done]. eapply steps_trans; [exact S|]. destruct S2. split; try done. intros k Hk. apply sp_ent0. lia. }
  destruct (IH a e' st s2 s1 _ A2 V2 Ha2 H) as (Hch & f1 & s3 & Hf1 & Haft & Hvis). split; [done|].
  apply resume in Haft as (f2 & -> & Hgo); [|done]. exists f2, s3. split; [lia|]. split; [done|].
  destruct (visited_parent _ i _ _ _ Hvis (not_back _ _ _ V Hae) (clean_range _ _ Hci)) as [Hp1 Hp2].
  split; [|split; [|split; [|split]]].
  - eapply steps_trans; [exact S|]. eapply steps_trans; [|by eapply steps_visited].
    destruct S2. split; try done. intros k Hk. apply sp_ent0. lia.
  - destruct A2, Hvis. split; try congruence.
    assert (is_Some (ent s3 !! Z.to_nat e')) as [x Hx]; [|by rewrite Hx].
    apply lookup_lt_is_Some_2. rewrite vi_len0. by eapply lookup_lt_Some.
  - intros k Hk. rewrite (vi_ent _ _ _ _ Hvis k Hk). by apply S2.
  - by rewrite Hp1.
  - by rewrite Hp2.
Qed.

Lemma walks_all (HE : forall i, (length (E i) <= 2)%nat) f : walks f.
Proof.
  induction f as [f IH] using lt_wf_ind. intros i e st s s1 nd A V Hnd H. destruct f as [|f]; [done|].
  destruct (V i (rtc_refl _ _)) as (Hci & Hi0 & Hac). pose proof (clean_range _ _ Hci) as Hi.
  pose proof Hci as (nd' & Hnd' & Hed & Hcur & Hev). rewrite Hnd in Hnd'. injection Hnd' as <-.
  apply round_succeeds in H as (s0 & Heval & H).
  destruct (eval_node_inv i e st s s0 A Hci Heval) as (ins & st' & saved' & sz & sz' & Hins & Hok & Hb & Hnum & Hlen & Hent & Hcase).
  assert (node_at (bvf s0) i = Some nd) as Hnd0 by by rewrite Hb.
  assert (forall a, a ∈ E i -> exists ma, node_at (bvf s0) a = Some ma) as Hchild.
  { intros a Ha. destruct (V a (rtc_once _ _ Ha)) as ((ma & Hma & _) & _). exists ma. by rewrite Hb. }
  pose proof (HE i) as HEi. destruct (E i) as [|a [|b [|]]] eqn:HEq; cbn [length] in HEi; [| | |lia].
  - destruct Hcase as [A0 Hev0]. assert (steps e i s s0) as S0 by (eapply steps_states; eauto).
    split; [eapply checked_node; [done|by rewrite HEq|by rewrite HEq|by rewrite HEq]|].
    apply (proceed_finish f i nd) in H; [|done|by rewrite Hed]. exists f. eexists. split; [lia|]. split; [done|].
    eapply visit_end; [done|done|done|done|by rewrite HEq|by rewrite Hev0|by destruct A|by destruct A|done].
  - destruct Hcase as [A0 Hev0]. assert (steps e i s s0) as S0 by (eapply steps_states; eauto).
    destruct (Hchild a) as [ma Hma]; [apply elem_of_cons; by left|].
    assert (a ∈ E i) as Hae by (rewrite HEq; apply elem_of_cons; by left).
    apply (proceed_child f i nd a ma None) in H; [|done|by rewrite Hed, Hcur|intros ->; apply Hac, tc_once, Hae|done|by rewrite Hev0].
    eapply (walk_child f i a e e) in H as (Hca & f1 & s3 & Hf1 & Hgo & S3 & A3 & _ & Hi3 & Hev3); [|apply IH; lia|done|done|lia|done..|by right].
    split; [eapply checked_node; [done|by rewrite HEq| |by rewrite HEq]; rewrite HEq; by intros ? [= <-]|].
    apply (proceed_finish f1 i _ _ _ Hi3) in Hgo; [|cbn; rewrite Hed, Hcur; done].
    exists f1. eexists. split; [lia|]. split; [done|].
    eapply visit_end; [exact A3|done|done|done|cbn; by rewrite HEq|by rewrite Hev3, Hev0|by destruct A|by destruct A|done].
  - destruct Hcase as (fst_ & -> & A0 & Hfst & Hev0).
    assert (node_evst s0 !! Z.to_nat i = Some (Some e)) as Hev1 by (rewrite Hev0; apply list_lookup_insert_eq; by eapply lookup_lt_Some).
    assert (steps e i s s0) as S0 by (eapply steps_states; eauto).
    destruct (Hchild a) as [ma Hma]; [apply elem_of_cons; by left|].
    assert (a ∈ E i) as Hae by (rewrite HEq; apply elem_of_cons; by left).
    assert (b ∈ E i) as Hbe by (rewrite HEq; apply elem_of_cons; right; apply elem_of_cons; by left).
    apply (proceed_child f i nd a ma (Some e)) in H; [|done|by rewrite Hed, Hcur|intros ->; apply Hac, tc_once, Hae|done|done].
    eapply (walk_child f i a e (e + 1)) in H as (Hca & f1 & s3 & Hf1 & Hgo & S3 & A3 & Hent3 & Hi3 & Hev3);
      [|apply IH; lia|done|done|lia|done..|left; rewrite Hcur, Hed; done].
    rewrite Hev1 in Hev3. set (s4 := restored i true (Some e) s3).
    assert (at_state e fst_ s4) as A4.
    { destruct A, A3. split; try done.
      - change (pool_cur s4) with (u32 (pool_cur s3 - 1)). unfold wrap. rewrite Z.mod_small; lia.
      - change (pool_num s4) with (pool_num s3). lia.
      - change (ent s4) with (ent s3). by rewrite Hent3 by lia. }
    assert (steps e i s s4) as S4.
    { eapply steps_trans; [exact S3|]. eapply steps_states; try done. right. by exists None. }
    destruct (V b (rtc_once _ _ Hbe)) as (Hcb & _ & _).
    assert (b <> i) as Hbi by (intros ->; apply Hac, tc_once, Hbe).
    destruct (sp_clean _ _ _ _ S4 b Hbi Hcb) as (mb & Hmb & _).
    apply (proceed_child f1 i (nd <| cur_edge := cur_edge nd + 1 |>) b mb (Some e)) in Hgo; [|exact Hi3|cbn; by rewrite Hed, Hcur|done|exact Hmb|done].
    match type of Hgo with context [restored i ?x _ _] => replace x with true in Hgo by (cbn; by rewrite Hed, Hcur) end.
    eapply (walk_child f1 i b e e fst_ s s4 s1 (nd <| cur_edge := cur_edge nd + 1 |>) mb false None) in Hgo
      as (Hcb2 & f2 & s5 & Hf2 & Hgo & S5 & A5 & _ & Hi5 & Hev5); [|apply IH; lia|done|done|lia|done..|by left].
    split; [eapply checked_node; [done|by rewrite HEq|rewrite HEq; by intros ? [= <-]|rewrite HEq; by intros ? ? [= <-] [= <-]]|].
    apply (proceed_finish f2 i _ _ _ Hi5) in Hgo; [|cbn; rewrite Hed, Hcur; done].
    exists f2. eexists. split; [lia|]. split; [done|].
    eapply visit_end; [exact A5|done|done|done|cbn; by rewrite HEq| |by destruct A|by destruct A|done].
    rewrite Hev5. change (node_evst s4) with (<[Z.to_nat i := None]> (node_evst s3)). apply list_lookup_insert_eq. by eapply lookup_lt_Some.
Qed.

(** The first instruction, with one edge at most: with two the second is never followed. *)
Lemma walk_root (HE : forall i, (length (E i) <= 2)%nat) f st s s1 : at_state 0 st s -> (forall j, reach 0 j -> clean s j /\ ~ tc (edge E) j j) ->
  (length (E 0) <= 1)%nat -> comp_loop evaluate_body f (0, true) s = (s1, Ret 0) -> checked 0 st.
Proof.
  intros A V Hone H. destruct f as [|f]; [done|]. destruct (V 0 (rtc_refl _ _)) as (Hc0 & Hac).
  pose proof Hc0 as (nd & Hnd & Hed & Hcur & Hev). apply round_succeeds in H as (s0 & Heval & H).
  destruct (eval_node_inv 0 0 st s s0 A Hc0 Heval) as (ins & st' & saved' & sz & sz' & Hins & Hok & Hb & Hnum & Hlen & Hent & Hcase).
  assert (node_at (bvf s0) 0 = Some nd) as Hnd0 by by rewrite Hb.
  destruct (E 0) as [|a [|]] eqn:HEq; cbn [length] in Hone; [| |lia].
  - eapply checked_node; [done|by rewrite HEq|by rewrite HEq|by rewrite HEq].
  - destruct Hcase as [A0 Hev0]. assert (steps 0 0 s s0) as S0 by (eapply steps_states; eauto; lia).
    assert (a ∈ E 0) as Hae by (rewrite HEq; apply elem_of_cons; by left).
    assert (a <> 0) as Hne by (intros ->; apply Hac; by apply tc_once).
    destruct (V a (rtc_once _ _ Hae)) as ((ma & Hma & _) & _). rewrite <- Hb in Hma.
    apply (proceed_child f 0 nd a ma None) in H; [|done|by rewrite Hed, Hcur|done|done|by rewrite Hev0].
    destruct (enter_child 0 0 a st' s0 nd ma false None A0 Hnd0 Hma Hne Hae ltac:(lia) ltac:(by right)) as (A2 & S2 & Ha2 & _).
    pose proof (fun V' => walks_all HE f a 0 st' _ s1 (ma <| prev_node := 0 |>) A2 V' Ha2 H) as Hw.
    destruct Hw as [Hch _]; cycle 1.
    + eapply checked_node; [done|by rewrite HEq| |by rewrite HEq]. rewrite HEq. by intros ? [= <-].
    + intros j Hj. destruct (V j) as [Hcj Hacj]; [by eapply rtc_l|].
      assert (j <> 0) as Hj0 by (intros ->; apply Hac; by eapply tc_rtc_r; [apply tc_once|]).
      split_and!; [|done|done]. by apply (sp_clean _ _ _ _ (steps_trans _ _ _ _ _ S0 S2)).
Qed.
End Paths.

(** ** From [bpf_validate] *)

(** The nodes after the first pass. *)
Lemma validate_nodes prog b : 0 < Z.of_nat (length prog) < 2 ^ 31 -> (forall e, e ∈ program_nodes 0 prog -> code (snd e) < 255) ->
  validate (new_verifier prog) = (b, Ret 0) ->
  prm b = prog /\ Z.of_nat (length (in_ b)) = Z.of_nat (length prog)
  /\ forall i, 0 <= i < Z.of_nat (length prog) ->
       exists nd, node_at b i = Some nd /\ edge_dest nd = edges (Z.of_nat (length prog)) prog i /\ cur_edge nd = 0.
Proof.
  intros Hlen Hcode H. unfold validate in H. destruct (pass_run _ Hlen prog eq_refl Hcode) as (s1 & Hrun & [Hn1 [j Hc1]]).
  rewrite (bind_ret _ _ _ _ _ Hrun) in H. destruct (pass_ok prog); [|by injection H].
  change (negb (errno true =? 0)) with false in H. cbv iota in H. apply bind_ret_inv in H as (s2 & [] & Hd & H).
  assert (dfs_ready (edges (Z.of_nat (length prog)) prog) (Z.of_nat (length prog)) prog (u32 (Z.of_nat (length (program_nodes 0 prog)))) j
            (Z.of_nat (length (program_nodes 0 prog))) s1) as Hready by by split.
  destruct (dfs_run _ _ _ _ _ _ (edges_of_length _ _) Hlen s1 Hready) as [[_ Hub]|(s3 & [] & Hd' & Hdone)]; [by rewrite Hd in Hub|].
  rewrite Hd in Hd'. injection Hd' as <-. rewrite (bind_ret get _ s2 s2 s2) in H by reflexivity.
  assert (b = s2) as -> by (repeat (destruct (negb _) in H || destruct (_ || _) in H); by injection H).
  destruct Hdone as (fin & nback & cur & prev & W & [[Hl Hn] ((Hp & _) & _)] & _). split; [done|]. split; [done|].
  intros i Hi. eexists. split; [by apply Hn|]. split; [done|]. cbn. by rewrite (wk_cur _ _ _ _ _ _ _ _ W i) by apply not_elem_of_nil.
Qed.

(** The start of [evaluate] after the first pass accepted: undefined without a pool of
    states, or the loop from the first state and clean nodes. *)
Lemma evaluate_start {prms : BpfParams} prog b : 0 < Z.of_nat (length prog) < 2 ^ 31 -> (forall e, e ∈ program_nodes 0 prog -> code (snd e) < 255) ->
  validate (new_verifier prog) = (b, Ret 0) -> accepted prog ->
  (forall fuel, snd (evaluate fuel (evst_pool_init b)) = UB)
  \/ exists s, at_state prog 0 (first_state zero_evst) s
       /\ (forall j, reachable (edges (Z.of_nat (length prog)) prog) j -> clean (edges (Z.of_nat (length prog)) prog) s j)
       /\ forall fuel, evaluate fuel (evst_pool_init b) = comp_loop evaluate_body fuel (0, true) s.
Proof.
  intros Hlen Hcode Hv Hacc. destruct (validate_nodes prog b Hlen Hcode Hv) as (Hp & Hil & Hnodes). set (s := evst_pool_init b) in *.
  destruct (ent s !! Z.to_nat 0) as [st|] eqn:Hst; [right|left].
  2: { intros fuel. unfold evaluate. rewrite (bind_ret get _ s s s) by reflexivity. change (evst s) with 0.
    unfold get_state. do 2 (unfold mbind, comp_bind; cbn - [s]). change (ent s !! 0%nat) with (ent s !! Z.to_nat 0). by rewrite Hst. }
  pose proof Hst as Hst'. change (ent s) with (replicate (Z.to_nat (u32 (nb_jcc_nodes b + 1))) zero_evst) in Hst'.
  apply lookup_replicate in Hst' as [-> Hnum].
  eexists. split; [|split]; cycle 2.
  { intros fuel. unfold evaluate. rewrite (bind_ret get _ s s s) by reflexivity. change (evst s) with 0.
    rewrite (bind_ret _ _ _ _ _ (get_state_run _ _ _ Hst)), (bind_ret _ _ _ _ _ (put_state_run s 0 zero_evst (first_state zero_evst) Hst)). reflexivity. }
  - match goal with |- at_state _ _ _ ?x => set (s2 := x) end. split; [exact Hp|done|done| |].
    + change (pool_num s2) with (u32 (nb_jcc_nodes b + 1)). pose proof (wrap_range 32 ltac:(lia) (nb_jcc_nodes b + 1)) as Hw. unfold in_range in Hw. lia.
    + apply list_lookup_insert_eq. by eapply lookup_lt_Some.
  - match goal with |- forall j, _ -> clean _ ?x j => set (s2 := x) end. intros j Hj. destruct Hacc as (_ & Hnl & _).
    assert (0 <= j < Z.of_nat (length prog)) as Hjr.
    { destruct Hj as [|u d Hu Hd]; [lia|]. destruct (decide (0 <= d < Z.of_nat (length prog))); [done|]. exfalso. apply Hnl. by exists u, d. }
    destruct (Hnodes j Hjr) as (nd & Hnd & Hed & Hcur). exists nd. split_and!; try done.
    change (node_evst s2) with (replicate (length (prm b)) (@None Z)). rewrite Hp. apply lookup_replicate_2. lia.
Qed.

(** A program that [bpf_validate] accepts, when its first instruction is not a conditional jump. *)
Lemma validate_checked {prms : BpfParams} {sys : BpfSystem} prog fuel sz : 0 < Z.of_nat (length prog) < 2 ^ 31 ->
  (forall e, e ∈ program_nodes 0 prog -> code (snd e) < 255) ->
  (length (edges (Z.of_nat (length prog)) prog 0) <= 1)%nat ->
  bpf_validate prog fuel = Ret (0, sz) ->
  accepted prog /\ checked prog (edges (Z.of_nat (length prog)) prog) 0 (first_state zero_evst).
Proof.
  intros Hlen Hcode Hone H. unfold bpf_validate in H. case_match; [done|]. destruct (negb calloc_nodes); [done|].
  destruct (validate (new_verifier prog)) as [b [rc| | | |]] eqn:Hv; [|done..].
  destruct (Z.eqb_spec rc 0) as [->|Hne]; [|injection H as ? _; done]. cbn [negb] in H. destruct (negb calloc_states); [done|].
  pose proof (validate_run prog Hlen Hcode) as Hacc. cbv zeta in Hacc. rewrite Hv in Hacc. cbn [snd] in Hacc.
  destruct Hacc as [[Hacc _]|[(_ & _ & ?)|(_ & _ & ?)]]; [|done|done]. split; [done|].
  destruct (evaluate_start prog b Hlen Hcode Hv Hacc) as [Hub|(s & A & V & Hrun)].
  { specialize (Hub fuel). by destruct (evaluate fuel (evst_pool_init b)) as [? []]. }
  rewrite Hrun in H. destruct (comp_loop evaluate_body fuel (0, true) s) as [s1 [rc| | | |]] eqn:He; [|done..]. injection H as -> _.
  destruct Hacc as (_ & _ & Hac & _).
  eapply (walk_root prog _ (edges_of_length _ _) fuel (first_state zero_evst) s s1 A); [|done|exact He].
  intros j Hj. assert (reachable (edges (Z.of_nat (length prog)) prog) j) as Hre by (eapply reach_reachable; [exact Hj|apply reach_0]).
  split; [by apply V|]. intros Hc. apply Hac. by exists j.
Qed.
