(* ===== verification/BpfWalk.v ===== *)
(** * The second pass of the eBPF verifier ends (lib/librte_bpf/bpf_validate.c)

    The loop of [evaluate] has no counter: it ends because the first pass has refused the
    programs with cycles, after as many rounds as the paths of the graph take. *)

From S2P Require Import Prelude Effects Bpf BpfValidate BpfDfs BpfPass BpfVerify BpfRun BpfEval BpfEvalInsn BpfDomain BpfEvaluate BpfPaths.

(** ** Computations that do not run out of fuel *)

Definition no_fuel_out {S A} (c : comp S A) : Prop := forall s, snd (c s) <> NoFuel.

Lemma nf_bind {S A B} (c : comp S A) (k : A -> comp S B) : no_fuel_out c -> (forall a, no_fuel_out (k a)) -> no_fuel_out (c ≫= k).
Proof. intros Hc Hk s. unfold mbind, comp_bind. specialize (Hc s). destruct (c s) as [s' []]; try done. apply Hk. Qed.
Lemma nf_ret {S A} (a : A) : no_fuel_out (mret a : comp S A). Proof. done. Qed.
Lemma nf_get {S} : no_fuel_out (get : comp S S). Proof. done. Qed.
Lemma nf_modify {S} (f : S -> S) : no_fuel_out (modify f). Proof. done. Qed.
Lemma nf_ub {S A} : no_fuel_out (ub : comp S A). Proof. done. Qed.
Lemma nf_on_bvf {A} (c : comp bpf_verifier A) : no_fuel_out c -> no_fuel_out (on_bvf c).
Proof. intros H s. unfold on_bvf. specialize (H (bvf s)). by destruct (c (bvf s)). Qed.
Create HintDb nf.
#[export] Hint Resolve nf_bind nf_ret nf_get nf_modify nf_ub nf_on_bvf : nf.

(** Splits a computation that has no loop. *)
Ltac nf_tac := intros; repeat first [apply nf_bind; [|intros ?]|apply nf_on_bvf|case_match|by auto with nf].

Lemma nf_get_node i : no_fuel_out (get_node i). Proof. unfold get_node. nf_tac. Qed.
Lemma nf_set_node i nd : no_fuel_out (set_node i nd). Proof. unfold set_node. pose proof nf_get_node. nf_tac. Qed.
Lemma nf_next i : no_fuel_out (get_next_node i). Proof. unfold get_next_node. pose proof nf_get_node. pose proof nf_set_node. nf_tac. Qed.
Lemma nf_get_state p : no_fuel_out (get_state p). Proof. unfold get_state. nf_tac. Qed.
Lemma nf_put_state p st : no_fuel_out (put_state p st). Proof. unfold put_state. pose proof nf_get_state. nf_tac. Qed.
Lemma nf_get_node_evst p : no_fuel_out (get_node_evst p). Proof. unfold get_node_evst. nf_tac. Qed.
Lemma nf_set_node_evst i p : no_fuel_out (set_node_evst i p). Proof. unfold set_node_evst. pose proof nf_get_node_evst. nf_tac. Qed.

(** ** Computations that leave the graph alone *)

Definition keeps {A} (c : comp evaluator A) : Prop := forall s, bvf (fst (c s)) = bvf s.

Lemma keeps_bind {A B} (c : comp evaluator A) (k : A -> comp evaluator B) : keeps c -> (forall a, keeps (k a)) -> keeps (c ≫= k).
Proof. intros Hc Hk s. unfold mbind, comp_bind. specialize (Hc s). destruct (c s) as [s' []]; try done. cbn [fst] in Hc. rewrite <- Hc. apply Hk. Qed.
Lemma keeps_modify f : (forall s, bvf (f s) = bvf s) -> keeps (modify f).
Proof. intros H s. apply H. Qed.
Lemma keeps_get_node i : keeps (on_bvf (get_node i)).
Proof.
  intros s. unfold on_bvf. destruct (node_at (bvf s) i) as [nd|] eqn:Hn; [by rewrite (get_node_run _ _ _ Hn)|by rewrite (get_node_ub _ _ Hn)].
Qed.

Ltac keeps_tac := intros; repeat first [apply keeps_bind; [|intros ?]|apply keeps_get_node|by apply keeps_modify|case_match|done|by auto].

#[export] Hint Resolve nf_get_node nf_set_node nf_next nf_get_state nf_put_state nf_get_node_evst nf_set_node_evst : nf.

Section Walk.
Context {prms : BpfParams}.

Lemma nf_eval_node i : no_fuel_out (eval_node i).
Proof. unfold eval_node, save_eval_state, pull_eval_state, eval_current. nf_tac. Qed.

Lemma nf_body x : no_fuel_out (evaluate_body x).
Proof. pose proof nf_eval_node. unfold evaluate_body, restore_eval_state, push_eval_state. destruct x. nf_tac. Qed.

Lemma keeps_get_state p : keeps (get_state p). Proof. unfold get_state. keeps_tac. Qed.
Lemma keeps_put_state p st : keeps (put_state p st). Proof. unfold put_state. pose proof keeps_get_state. keeps_tac. Qed.
Lemma keeps_get_node_evst p : keeps (get_node_evst p). Proof. unfold get_node_evst. keeps_tac. Qed.
Lemma keeps_set_node_evst i p : keeps (set_node_evst i p). Proof. unfold set_node_evst. pose proof keeps_get_node_evst. keeps_tac. Qed.
Lemma keeps_restore i p : keeps (restore_eval_state i p).
Proof. unfold restore_eval_state, push_eval_state. pose proof keeps_set_node_evst. keeps_tac. Qed.
Lemma keeps_eval_node i : keeps (eval_node i).
Proof.
  unfold eval_node, save_eval_state, pull_eval_state, eval_current.
  pose proof keeps_get_state. pose proof keeps_put_state. pose proof keeps_get_node_evst. pose proof keeps_set_node_evst. keeps_tac.
Qed.

(** ** One round *)

(** The graph after a round at [i], which has more rounds after it. *)
Lemma body_next i entered s s' y nd : node_at (bvf s) i = Some nd -> evaluate_body (i, entered) s = (s', Ret (inl y)) ->
  match edge_dest nd !! Z.to_nat (cur_edge nd) with
  | Some a => y = (a, true) /\ forall ma, a <> i -> node_at (bvf s) a = Some ma ->
      forall j, node_at (bvf s') j = if decide (j = a) then Some (ma <| prev_node := i |>)
                                     else if decide (j = i) then Some (nd <| cur_edge := cur_edge nd + 1 |>) else node_at (bvf s) j
  | None => y = (prev_node nd, false) /\ prev_node nd <> 0
      /\ forall j, node_at (bvf s') j = if decide (j = i) then Some (nd <| cur_edge := 0 |>) else node_at (bvf s) j
  end.
Proof.
  intros Hnd H. unfold evaluate_body in H. apply bind_ret_inv in H as (s0 & rc & Hrc & H).
  assert (bvf s0 = bvf s) as Hb.
  { pose proof (keeps_eval_node i s) as Hk. destruct entered; [by rewrite Hrc in Hk|]. by injection Hrc as <- _. }
  rewrite <- Hb in Hnd. cbv zeta in H. destruct (edge_dest nd !! Z.to_nat (cur_edge nd)) as [a|] eqn:Ha.
  - rewrite (bind_ret _ _ _ _ _ (on_next_some _ _ _ _ Hnd Ha)) in H.
    set (nd' := nd <| cur_edge := cur_edge nd + 1 |>) in *. set (s2 := set_nd i nd' s0) in *.
    apply bind_ret_inv in H as (s3 & n & Hn & H). pose proof (keeps_get_node i s2) as K3. rewrite Hn in K3.
    apply bind_ret_inv in H as (s4 & q & Hq & H). pose proof (keeps_get_node_evst i s3) as K4. rewrite Hq in K4.
    apply bind_ret_inv in H as (s5 & u & Hu & H).
    assert (bvf s5 = bvf s4) as K5.
    { assert (keeps (match q with Some p => if cur_edge n =? Z.of_nat (length (edge_dest n)) then restore_eval_state i p else mret tt | None => mret tt end)) as Hk
        by (pose proof keeps_restore; keeps_tac). specialize (Hk s4). by rewrite Hu in Hk. }
    cbn [fst] in *. assert (bvf s5 = bvf s2) as K by congruence.
    apply bind_ret_inv in H as (s6 & m & Hm & H). apply bind_ret_inv in H as (s7 & u7 & H7 & H).
    assert (y = (a, true) /\ s' = s7) as [-> ->] by (destruct (rc =? 0); [by injection H|by injection H]).
    split; [done|]. intros ma Hne Hma j. rewrite <- Hb in Hma.
    assert (node_at (bvf s5) a = Some ma) as Hma5 by (rewrite K; unfold s2; by rewrite (node_at_set_nd _ _ _ _ _ Hnd), decide_False).
    rewrite (on_get_node _ _ _ Hma5) in Hm. injection Hm as <- <-. rewrite (on_set_node _ _ _ _ Hma5) in H7. injection H7 as <- _.
    rewrite (node_at_set_nd _ _ _ _ _ Hma5). destruct (decide (j = a)); [done|]. rewrite K. unfold s2.
    rewrite (node_at_set_nd _ _ _ _ _ Hnd). by rewrite Hb.
  - rewrite (bind_ret _ _ _ _ _ (on_next_none _ _ _ Hnd Ha)), (bind_ret _ _ _ _ _ (on_get_node _ _ _ Hnd)), (bind_ret _ _ _ _ _ (on_set_node _ _ _ _ Hnd)) in H.
    destruct (Z.eqb_spec (prev_node nd) 0); [done|].
    assert (y = (prev_node nd, false) /\ s' = set_nd i (nd <| cur_edge := 0 |>) s0) as [-> ->] by (destruct (rc =? 0); by injection H).
    split; [done|]. split; [done|]. intros j. rewrite (node_at_set_nd _ _ _ _ _ Hnd). by rewrite Hb.
Qed.

(** ** The walk *)

Definition halts (x : Z * bool) (s : evaluator) : Prop := exists fuel, snd (comp_loop evaluate_body fuel x s) <> NoFuel.

Lemma halts_round x s : (forall s' y, evaluate_body x s = (s', Ret (inl y)) -> halts y s') -> halts x s.
Proof.
  intros H. pose proof (nf_body x s) as Hnf. destruct (evaluate_body x s) as [s' o] eqn:Hb.
  assert ((exists y, o = Ret (inl y)) \/ forall y, o <> Ret (inl y)) as [[y ->]|Hne] by (destruct o as [[|]| | | |]; eauto; right; congruence).
  - destruct (H s' y eq_refl) as [fuel Hf]. exists (Datatypes.S fuel). cbn [comp_loop]. by rewrite (bind_ret _ _ _ _ _ Hb).
  - exists 1%nat. cbn [comp_loop]. unfold mbind, comp_bind. rewrite Hb. destruct o as [[y|r]| | | |]; try done. by destruct (Hne y).
Qed.

Section Visit.
Context (E : Z -> list Z).

(** A node as the first pass leaves it. *)
Definition clean_at (s : evaluator) (j : Z) : Prop := exists nd, node_at (bvf s) j = Some nd /\ edge_dest nd = E j /\ cur_edge nd = 0.

Definition below (b a : Z) : Prop := b ∈ E a.

Lemma below_acyclic i : Acc below i -> ~ tc (edge E) i i.
Proof.
  induction 1 as [i _ IH]. intros Hc. inversion Hc as [? ? Hab|? a ? Hab Ht]; subst.
  - by apply (IH i Hab).
  - apply (IH a Hab). by eapply tc_r.
Qed.

Lemma below_reach i j : Acc below i -> reach E i j -> Acc below j.
Proof. intros Ha Hr. revert Ha. induction Hr as [|i k j Hik _ IH]; [done|]. intros [Ha]. by apply IH, Ha. Qed.

(** The visit of [i] from [s] ends if the loop ends after it. *)
Definition ends (i : Z) : Prop := forall s nd, node_at (bvf s) i = Some nd -> (forall j, reach E i j -> clean_at s j) ->
  (forall s', prev_node nd <> 0 -> (forall j, ~ reach E i j -> node_at (bvf s') j = node_at (bvf s) j) -> (forall j, clean_at s j -> clean_at s' j) ->
     halts (prev_node nd, false) s') -> halts (i, true) s.

(** From edge number [k] on. *)
Lemma visit_rest i p s0 : ~ tc (edge E) i i -> (forall a, a ∈ E i -> ends a) -> (forall j, reach E i j -> clean_at s0 j) ->
  (forall s', p <> 0 -> (forall j, ~ reach E i j -> node_at (bvf s') j = node_at (bvf s0) j) -> (forall j, clean_at s0 j -> clean_at s' j) -> halts (p, false) s') ->
  forall m k entered s nd, (m + k = length (E i))%nat -> node_at (bvf s) i = Some nd -> edge_dest nd = E i -> cur_edge nd = Z.of_nat k -> prev_node nd = p ->
    (forall j, j <> i -> clean_at s0 j -> clean_at s j) -> (forall j, ~ reach E i j -> node_at (bvf s) j = node_at (bvf s0) j) ->
    halts (i, entered) s.
Proof.
  intros Hac IH V HK. induction m as [|m IHm]; intros k entered s nd Hk Hnd Hed Hcur Hp Hcl Hfr; apply halts_round; intros s' y Hy;
    pose proof (body_next _ _ _ _ _ _ Hnd Hy) as Hn; rewrite Hed, Hcur, Nat2Z.id in Hn.
  - rewrite lookup_ge_None_2 in Hn by lia. destruct Hn as (-> & Hp0 & Hs). rewrite Hp in *. apply HK; [done| |].
    + intros j Hj. rewrite Hs, decide_False; [by apply Hfr|]. intros ->. apply Hj, rtc_refl.
    + intros j Hj. unfold clean_at. rewrite Hs. destruct (decide (j = i)) as [->|Hne]; [by eexists|by apply Hcl].
  - destruct (lookup_lt_is_Some_2 (E i) k) as [a Ha]; [lia|]. rewrite Ha in Hn. destruct Hn as [-> Hs].
    assert (a ∈ E i) as Hae by by eapply list_elem_of_lookup_2. assert (a <> i) as Hne by (intros ->; apply Hac; by apply tc_once).
    assert (forall j, reach E a j -> j <> i) as Hji by (intros j Hj ->; apply Hac; eapply tc_rtc_r; [by apply tc_once|done]).
    destruct (Hcl a Hne (V _ (rtc_once _ _ Hae))) as (ma & Hma & Hmed & Hmc). specialize (Hs ma Hne Hma).
    assert (node_at (bvf s') i = Some (nd <| cur_edge := cur_edge nd + 1 |>)) as Hi'. { rewrite Hs, Hcur, decide_False, decide_True by congruence. done. }
    assert (forall j, j <> i -> clean_at s0 j -> clean_at s' j) as Hcl'.
    { intros j Hj Hr. unfold clean_at. rewrite Hs. destruct (decide (j = a)) as [->|]; [by eexists|]. rewrite decide_False by done. by apply Hcl. }
    assert (forall j, ~ reach E i j -> node_at (bvf s') j = node_at (bvf s0) j) as Hfr'.
    { intros j Hj. rewrite Hs, !decide_False; [by apply Hfr| |]; intros ->; apply Hj; [by apply rtc_refl|by apply rtc_once]. }
    apply (IH a Hae s' (ma <| prev_node := i |>)); [rewrite Hs, decide_True by done; done| |].
    + intros j Hj. apply Hcl'; [by apply Hji|by eapply V, rtc_l].
    + intros s2 _ Hfr2 Hcl2. change (prev_node (ma <| prev_node := i |>)) with i.
      assert (~ reach E a i) as Hai by (intros Hr; by apply (Hji i)).
      apply (IHm (Datatypes.S k) false s2 (nd <| cur_edge := cur_edge nd + 1 |>)); [lia|by rewrite Hfr2|done|cbn; lia|done| |].
      * intros j Hj Hr. by apply Hcl2, Hcl'.
      * intros j Hj. rewrite Hfr2; [by apply Hfr'|]. intros Hr. apply Hj. by eapply rtc_l.
Qed.

Lemma visit_ends i : Acc below i -> ends i.
Proof.
  induction 1 as [i Hi IH]. intros s nd Hnd V HK. destruct (V i (rtc_refl _ _)) as (nd' & Hnd' & Hed & Hcur). rewrite Hnd in Hnd'. injection Hnd' as <-.
  apply (visit_rest i (prev_node nd) s (below_acyclic i (Acc_intro i Hi)) IH V HK (length (E i)) 0 true s nd); done || lia.
Qed.
End Visit.
End Walk.

(** ** From [bpf_validate] *)

(** The relation is well founded below a node that reaches finitely many, without a cycle. *)
Lemma below_acc E (l : list Z) : (forall i, i ∈ l <-> reachable E i) -> ~ cyclic E -> forall i, reachable E i -> Acc (below E) i.
Proof.
  intros Hl Hac. assert (forall k visited i, (length l <= length visited + k)%nat -> NoDup (i :: visited) -> reachable E i ->
    (forall x, x ∈ visited -> reachable E x /\ tc (edge E) x i) -> Acc (below E) i) as H.
  { induction k as [|k IH]; intros visited i Hk Hnd Hi Hv.
    - exfalso. assert (length (i :: visited) <= length l)%nat as Hle; [|cbn in Hle; lia].
      apply submseteq_length, NoDup_submseteq; [done|]. intros x [->|Hx]%elem_of_cons; apply Hl; [done|by apply Hv].
    - constructor. intros a Ha. apply (IH (i :: visited)); [cbn; lia| |by eapply reach_edge|].
      + apply NoDup_cons. split; [|done]. intros [->|Hx]%elem_of_cons; apply Hac.
        * exists i. split; [done|by apply tc_once].
        * exists a. destruct (Hv a Hx). split; [done|]. by eapply tc_r.
      + intros x [->|Hx]%elem_of_cons; [split; [done|by apply tc_once]|]. destruct (Hv x Hx). split; [done|by eapply tc_r]. }
  intros i Hi. apply (H (length l) [] i); [lia|by apply NoDup_singleton|done|]. intros x Hx. by apply not_elem_of_nil in Hx.
Qed.

(** More rounds do not change a result. *)
Lemma comp_loop_more {S X R} (body : X -> comp S (X + R)) f f' x s : (f <= f')%nat -> snd (comp_loop body f x s) <> NoFuel ->
  comp_loop body f' x s = comp_loop body f x s.
Proof.
  revert f' x s. induction f as [|f IH]; intros f' x s Hle Hn; [done|]. destruct f' as [|f']; [lia|]. cbn [comp_loop] in *.
  unfold mbind, comp_bind in *. destruct (body x s) as [s' [[y|r]| | | |]]; try done. apply IH; [lia|done].
Qed.

Section Root.
Context {prms : BpfParams}.

Lemma body_eval i s s' y : evaluate_body (i, true) s = (s', Ret (inl y)) -> exists s0, eval_node i s = (s0, Ret 0).
Proof.
  intros H. unfold evaluate_body in H. apply bind_ret_inv in H as (s0 & rc & Hrc & H). exists s0. rewrite Hrc. cbv zeta in H.
  destruct (Z.eqb_spec rc 0) as [->|_]; [done|]. exfalso. apply bind_ret_inv in H as (s3 & nx & _ & H). destruct nx as [d|].
  - do 5 apply bind_ret_inv in H as (? & ? & _ & H). by injection H.
  - do 2 apply bind_ret_inv in H as (? & ? & _ & H). destruct (_ =? 0); by injection H.
Qed.

Context (prog : list ebpf_insn) (Hlen : 0 < Z.of_nat (length prog) < 2 ^ 31) (Hacc : accepted prog).

Local Notation E := (edges (Z.of_nat (length prog)) prog).

(** A first instruction without edges is a return, of a register that is not defined. *)
Lemma root_exit ins sz st' saved' sz' : E 0 = [] -> prog !! 0%nat = Some ins ->
  eval_insn prog 0 ins (first_state zero_evst) None sz <> Ok (st', saved', sz').
Proof using Hlen Hacc.
  intros HE Hins. assert ((0, ins) ∈ program_nodes 0 prog) as Hin by (destruct prog as [|i0 p]; [done|]; injection Hins as ->; apply elem_of_cons; by left).
  destruct Hacc as [Hok _]. unfold pass_ok in Hok. rewrite forallb_forall in Hok. specialize (Hok _ (proj1 (list_elem_of_In _ _) Hin)).
  assert (targets 0 ins = []) as Ht by (rewrite <- HE; symmetry; by apply edges_of_node). unfold targets in Ht.
  destruct (Z.eqb_spec (code ins) (BPF_JMP ∥ EBPF_EXIT)) as [Hc|]; [|by repeat case_match].
  unfold eval_insn. rewrite Hc. change (eval (ins_chk_at (BPF_JMP ∥ EBPF_EXIT))) with (Some Eval_exit). done.
Qed.

Lemma evaluate_halts s : at_state prog 0 (first_state zero_evst) s -> clean E s 0 -> (forall j, reachable E j -> clean_at E s j) -> halts (0, true) s.
Proof using Hlen Hacc.
  intros A Hc0 V. pose proof Hacc as (_ & _ & Hac & l & [_ Hl] & _). apply halts_round. intros s' y Hy.
  destruct (V 0 (reach_0 _)) as (nd & Hnd & Hed & Hcur). pose proof (body_next _ _ _ _ _ _ Hnd Hy) as Hn. rewrite Hed, Hcur in Hn.
  destruct (E 0) as [|a es] eqn:HE.
  - exfalso. destruct (body_eval _ _ _ _ Hy) as [s0 He]. destruct (eval_node_inv _ _ 0 0 _ _ _ A Hc0 He) as (ins & st' & saved' & sz & sz' & Hins & Hok & _).
    rewrite HE in Hok. by eapply root_exit.
  - change ((a :: es) !! Z.to_nat 0) with (Some a) in Hn. destruct Hn as [-> Hs].
    assert (a ∈ E 0) as Hae by (rewrite HE; apply elem_of_cons; by left). pose proof (reach_edge _ _ _ (reach_0 _) Hae) as Har.
    assert (a <> 0) as Hne by (intros ->; apply Hac; exists 0; split; [apply reach_0|by apply tc_once]).
    destruct (V a Har) as (ma & Hma & Hmed & Hmc). specialize (Hs ma Hne Hma).
    apply (visit_ends E a (below_acc _ _ Hl Hac _ Har) s' (ma <| prev_node := 0 |>)); [by rewrite Hs, decide_True by done| |done].
    intros j Hj. assert (reachable E j) as Hjr by by eapply reach_reachable.
    assert (j <> 0) as Hj0 by (intros ->; apply Hac; exists 0; split; [apply reach_0|]; by eapply tc_rtc_r; [apply tc_once|]).
    unfold clean_at. rewrite Hs. destruct (decide (j = a)) as [->|]; [by eexists|]. rewrite decide_False by done. by apply V.
Qed.
End Root.

(** C35. The verifier ends on every program: with enough rounds of the second pass the result
    of [bpf_validate] no longer depends on their number.  The loop has no counter of its
    own; the first pass has refused the programs on which it would not end. *)
Theorem bpf_validate_ends {prms : BpfParams} {sys : BpfSystem} (prog : list ebpf_insn)
  (Hlen : 0 < Z.of_nat (length prog) < 2 ^ 31) (Hcode : forall e, e ∈ program_nodes 0 prog -> code (snd e) < 255) :
  exists fuel r, r <> NoFuel /\ forall fuel', (fuel <= fuel')%nat -> bpf_validate prog fuel' = r.
Proof.
  unfold bpf_validate. destruct (_ && _); [by eexists 0%nat, (Ret _)|]. destruct (negb calloc_nodes); [by eexists 0%nat, (Ret _)|]. pose proof (validate_run prog Hlen Hcode) as Hrun. cbv zeta in Hrun.
  destruct (validate (new_verifier prog)) as [b o] eqn:Hv. cbn [snd] in Hrun. destruct Hrun as [[Hacc ->]|[(_ & _ & ->)|(_ & _ & ->)]].
  - change (negb (0 =? 0)) with false. cbv iota. destruct (negb calloc_states); [by eexists 0%nat, (Ret _)|]. destruct (evaluate_start prog b Hlen Hcode Hv Hacc) as [Hub|(s & A & V & Hev)].
    + exists 0%nat, UB. split; [done|]. intros fuel _. specialize (Hub fuel). by destruct (evaluate fuel (evst_pool_init b)) as [? []].
    + assert (halts (0, true) s) as [fuel Hf].
      { apply (evaluate_halts prog Hlen Hacc); [done|apply V, reach_0|]. intros j Hj. destruct (V j Hj) as (nd & ? & ? & ? & _). by exists nd. }
      exists fuel. eexists. split; [|intros fuel' Hle; rewrite Hev, (comp_loop_more _ fuel fuel') by done; reflexivity].
      by destruct (comp_loop evaluate_body fuel (0, true) s) as [? []].
  - by exists 0%nat, UB.
  - change (negb (- EINVAL =? 0)) with true. by eexists 0%nat, (Ret _).
Qed.

(** Every request is served. *)
Definition served : BpfSystem := {| calloc_nodes := true; calloc_states := true; mmap_ok := true; mprotect_ok := true |}.

Example bpf_validate_ends_witness :
  exists fuel r, r <> NoFuel /\ forall fuel', (fuel <= fuel')%nat -> bpf_validate (prms := {| xsym := []; prog_arg := mk_arg RTE_BPF_ARG_RAW 8 0 |}) (sys := served) branch fuel' = r.
Proof.
  apply (bpf_validate_ends branch); [cbn; lia|].
  intros e He. repeat (apply elem_of_cons in He as [->|He]; [reflexivity|]). destruct (not_elem_of_nil _ He).
Defined.
