(* ===== verification/BpfSafe.v ===== *)
(** * Memory safety of the programs that the eBPF verifier accepts (lib/librte_bpf)

    The second pass against the interpreter.  Its bounds are not sound for every
    instruction, so the theorem is about a fragment: 64-bit moves, additions, subtractions
    and shifts, loads, stores, comparisons and jumps, with every register used for numbers,
    for the context or for the stack throughout. *)

From S2P Require Import Prelude Effects Bpf BpfValidate BpfDfs BpfPass BpfVerify BpfRun BpfEval BpfEvalInsn BpfDomain BpfEvaluate BpfPaths.

(** ** The fragment *)

(** What a register is used for. *)
Inductive kind := Raw | Ctx | Stk.
#[export] Instance kind_eq_dec : EqDecision kind.
Proof. solve_decision. Defined.

Section Fragment.
Context (kinds : nat -> kind).

Definition kind_of (r : Z) : kind := kinds (Z.to_nat r).
Definition is_kind (r : Z) (k : kind) : bool := bool_decide (kind_of r = k).

Definition alu_frag (o : alu_op) (src : operand) (ins : ebpf_insn) : bool :=
  match o, src with
  | MOV, K => is_kind (dst_reg ins) Raw
  | MOV, X => is_kind (dst_reg ins) (kind_of (src_reg ins))
  | (ADD | SUB), K => negb (is_kind (dst_reg ins) Stk) || (imm ins mod 8 =? 0)
  | ADD, X => is_kind (src_reg ins) Raw && negb (is_kind (dst_reg ins) Stk)
  | (LSH | RSH | ARSH), K => is_kind (dst_reg ins) Raw && (0 <=? imm ins) && (imm ins <? 64)
  | _, _ => false
  end.

(** Where an access of [n] bytes goes: a part of the context, or a word of the stack. *)
Definition mem_frag (n : Z) (r o : Z) (load : bool) : bool :=
  match kind_of r with Raw => false | Ctx => negb load || (n <? 8) | Stk => (n =? 8) && (o mod 8 =? 0) end.

Definition frag (ins : ebpf_insn) : bool :=
  match action_of (code ins) with
  | Some (Alu w o src) => (w =? 64) && alu_frag o src ins
  | Some (Neg w) => (w =? 64) && is_kind (dst_reg ins) Raw
  | Some (Load n) => is_kind (dst_reg ins) Raw && mem_frag n (src_reg ins) (off ins) true
  | Some Load_imm64 => is_kind (dst_reg ins) Raw
  | Some (Store_reg n) => is_kind (src_reg ins) Raw && mem_frag n (dst_reg ins) (off ins) false
  | Some (Store_imm n) => mem_frag n (dst_reg ins) (off ins) false
  | Some (Jcc c src) =>
      is_kind (dst_reg ins) Raw
      && match src with K => true | X => is_kind (src_reg ins) Raw && match c with JSGT | JSLE => false | _ => true end end
  | Some (Ja | Exit_insn) => true
  | _ => false
  end.
End Fragment.

(** ** The table *)

Definition alu_code (o : alu_op) : Z :=
  match o with
  | ADD => BPF_ADD | SUB => BPF_SUB | AND => BPF_AND | OR => BPF_OR | LSH => BPF_LSH | RSH => BPF_RSH | ARSH => EBPF_ARSH
  | XOR => BPF_XOR | MUL => BPF_MUL | DIV => BPF_DIV | MOD => BPF_MOD | MOV => EBPF_MOV
  end.
Definition jcc_code (c : jump_cond) : Z :=
  match c with
  | JEQ => BPF_JEQ | JNE => EBPF_JNE | JGT => BPF_JGT | JLT => EBPF_JLT | JGE => BPF_JGE | JLE => EBPF_JLE
  | JSGT => EBPF_JSGT | JSLT => EBPF_JSLT | JSGE => EBPF_JSGE | JSLE => EBPF_JSLE | JSET => BPF_JSET
  end.
Definition operand_code (src : operand) : Z := match src with K => BPF_K | X => BPF_X end.

(** How the evaluation of an opcode fits its action. *)
Definition eval_entry_ok (op : Z) : bool :=
  match action_of op, eval (ins_chk_at op) with
  | Some (Alu 64 o src), Some Eval_alu =>
      (BPF_CLASS op =? EBPF_ALU64) && (BPF_OP op =? alu_code o) && (BPF_SRC op =? operand_code src)
  | Some (Neg 64), Some Eval_alu => (BPF_CLASS op =? EBPF_ALU64) && (BPF_OP op =? BPF_NEG) && (BPF_SRC op =? BPF_K)
  | Some (Load n), Some Eval_load => (bpf_size (BPF_SIZE op) =? n) && bool_decide (n ∈ [1; 2; 4; 8])
  | Some (Store_reg n), Some Eval_store =>
      (bpf_size (BPF_SIZE op) =? n) && bool_decide (n ∈ [1; 2; 4; 8]) && (BPF_CLASS op =? BPF_STX) && negb (BPF_MODE op =? EBPF_XADD)
  | Some (Store_imm n), Some Eval_store => (bpf_size (BPF_SIZE op) =? n) && bool_decide (n ∈ [1; 2; 4; 8]) && (BPF_CLASS op =? BPF_ST)
  | Some Load_imm64, Some Eval_ld_imm64 | Some Ja, None | Some Exit_insn, Some Eval_exit => true
  | Some (Jcc c src), Some Eval_jcc => (BPF_OP op =? jcc_code c) && (BPF_SRC op =? operand_code src)
  | Some (Jcc JSLT X), None => true
  | Some (Alu 32 _ _ | Neg 32 | To_be | To_le | Call | Xadd _), _ | None, _ => true
  | _, _ => false
  end.

Lemma eval_entries_ok : forallb eval_entry_ok (seqZ 0 255) = true.
Proof. vm_compute. reflexivity. Qed.

(** ** What the verifier knows, and what holds *)

(** The memory of an execution: the context, of [sz] bytes from [cb], and the 64 words of the
    stack from [sb].  An access of the context keeps the stack, and a word that is written is
    read back; nothing is said of an access elsewhere. *)
Class SafeMem {mem} (env : BpfEnv mem) (cb sz sb : Z) := {
  mem_ok : mem -> Prop;
  ctx_ld m o n : mem_ok m -> n ∈ [1; 2; 4; 8] -> 0 <= o -> o + n <= sz -> exists x, ld m (u64 (cb + o)) n = Some x /\ in_range (8 * n) x;
  slot_ld m j : mem_ok m -> 0 <= j < 64 -> exists x, ld m (u64 (sb + 8 * j)) 8 = Some x /\ in_range 64 x;
  ctx_st m o n x : mem_ok m -> n ∈ [1; 2; 4; 8] -> 0 <= o -> o + n <= sz -> in_range (8 * n) x ->
    exists m', st m (u64 (cb + o)) n x = Some m' /\ mem_ok m'
      /\ forall j, 0 <= j < 64 -> ld m' (u64 (sb + 8 * j)) 8 = ld m (u64 (sb + 8 * j)) 8;
  slot_st m j x : mem_ok m -> 0 <= j < 64 -> in_range 64 x ->
    exists m', st m (u64 (sb + 8 * j)) 8 x = Some m' /\ mem_ok m' /\ ld m' (u64 (sb + 8 * j)) 8 = Some x
      /\ forall i, 0 <= i < 64 -> i <> j -> ld m' (u64 (sb + 8 * i)) 8 = ld m (u64 (sb + 8 * i)) 8 }.

Section Values.
Context {prms : BpfParams} (cb sz sb : Z).

Definition stack_arg : rte_bpf_arg := mk_arg RTE_BPF_ARG_PTR_STACK MAX_BPF_STACK_SIZE 0.
Definition base (k : kind) : Z := match k with Raw => 0 | Ctx => cb | Stk => sb end.
Definition arg_ok (k : kind) (r : bpf_reg_val) (o : Z) : Prop :=
  match k with Raw => True | Ctx => v r = prog_arg | Stk => v r = stack_arg /\ o mod 8 = 0 end.

(** The number [x] is what the defined value [r] describes: an offset in the bounds from the base. *)
Definition points (k : kind) (r : bpf_reg_val) (x : Z) : Prop := exists o, x = u64 (base k + o) /\ within r o /\ arg_ok k r o.
Definition reg_ok (k : kind) (r : bpf_reg_val) (x : Z) : Prop := type (v r) = RTE_BPF_ARG_UNDEF \/ points k r x.

Lemma points_range k r x : points k r x -> in_range 64 x.
Proof. intros (o & -> & _). apply wrap_range. lia. Qed.

Lemma within_int64 r x : within r x -> int64_range x.
Proof. unfold within, int64_range. lia. Qed.

Lemma points_raw r x : points Raw r x -> in_range 64 x /\ within r (s64 x).
Proof.
  intros H. split; [by eapply points_range|]. destruct H as (o & -> & Hw & _). cbn [base].
  rewrite Z.add_0_l, s64_u64, s64_id; [done|by eapply within_int64].
Qed.

Lemma raw_points r x : in_range 64 x -> within r (s64 x) -> points Raw r x.
Proof. intros Hx Hw. exists (s64 x). split; [|done]. cbn [base]. by rewrite Z.add_0_l, u64_s64, wrap_small. Qed.

(** A value that is compared keeps its type. *)
Lemma points_same k r r' o : within r' o -> v r' = v r -> arg_ok k r o -> points k r' (u64 (base k + o)).
Proof. intros Hw Hv Ha. exists o. split_and!; [done..|]. destruct k; cbn in *; by rewrite ?Hv. Qed.

Lemma points_mask k r x : points k r x -> points k (eval_apply_mask r UINT64_MAX) x.
Proof.
  intros (o & -> & Hw & Ha). apply points_same with r; [|apply apply_mask_v|done].
  apply within_apply_mask; [by eapply within_int64|done].
Qed.

(** ** Operations *)

Lemma points_imm i : int64_range i -> points Raw (imm_val i) (u64 i).
Proof. intros Hi. apply raw_points; [apply wrap_range; lia|]. rewrite s64_u64. apply within_imm. Qed.

Lemma u64_add_add a b : u64 (u64 a + u64 b) = u64 (a + b).
Proof. by rewrite wrap_add_l, wrap_add_r. Qed.
Lemma u64_sub_sub a b : u64 (u64 a - u64 b) = u64 (a - b).
Proof. by rewrite wrap_sub_l, wrap_sub_r. Qed.

Lemma points_add k rd rs r x y : eval_add rd rs UINT64_MAX = Ok r -> points k rd x -> points Raw rs y ->
  (k = Stk -> y mod 8 = 0) -> points k r (u64 (x + y)).
Proof.
  intros H (o & -> & Hw & Ha) (o' & -> & Hw' & _) Hk. cbn [base] in *. rewrite Z.add_0_l in *.
  destruct (eval_add_sound _ _ _ _ _ H Hw Hw') as (_ & Hr & Hv & _). rewrite u64_add_add. exists (o + o').
  split; [f_equal; lia|]. split; [done|]. destruct k; cbn in *; rewrite ?Hv; try done. destruct Ha as [-> Hm]. split; [done|].
  specialize (Hk eq_refl). unfold wrap in Hk. rewrite <- Znumtheory.Zmod_div_mod in Hk; [|lia..|by exists (2 ^ 61)]. clear - Hm Hk. Z.div_mod_to_equations. lia.
Qed.

Lemma points_sub k rd i r x : eval_sub rd (imm_val i) UINT64_MAX = Ok r -> points k rd x -> int64_range i ->
  (k = Stk -> i mod 8 = 0) -> points k r (u64 (x - u64 i)).
Proof.
  intros H (o & -> & Hw & Ha) Hi Hk.
  destruct (eval_sub_imm_sound _ _ _ _ H Hw) as (_ & Hr & Hv & _). rewrite s64_id in Hr by done. rewrite u64_sub_sub. exists (o - i).
  split; [f_equal; lia|]. split; [done|]. destruct k; cbn in *; rewrite ?Hv; try done. destruct Ha as [-> Hm]. split; [done|].
  specialize (Hk eq_refl). clear - Hm Hk. Z.div_mod_to_equations. lia.
Qed.

Lemma points_neg rd r x : eval_neg rd 64 UINT64_MAX = Ok r -> points Raw rd x -> points Raw r (u64 (- x)).
Proof.
  intros H [Hx Hw]%points_raw. destruct (eval_neg_sound _ _ _ H Hw (s64_range _)) as (Hr & Hw' & _).
  exists (- s64 x). split; [|done]. cbn [base]. rewrite Z.add_0_l, <- !Z.sub_0_l.
  by rewrite <- (wrap_sub_r 64 0 x), <- (Z.sub_0_l (s64 x)), <- (wrap_sub_r 64 0 (s64 x)), u64_s64.
Qed.

Lemma points_shift o i rd r x : o ∈ [LSH; RSH; ARSH] -> 0 <= i < 64 -> eval_op (alu_code o) rd (imm_val i) 64 UINT64_MAX = Ok r ->
  points Raw rd x -> exists y, alu 64 o x i = Some y /\ points Raw r y.
Proof.
  intros Ho Hi H [Hx Hw]%points_raw. assert (sgn 64 i = i) as Hsi by (apply s64_id; unfold int64_range; lia).
  cbn [alu]. repeat (apply elem_of_cons in Ho as [->|Ho]; [|]); [| | |by apply not_elem_of_nil in Ho]; cbn [alu].
  - rewrite (proj2 (Z.ltb_lt i 64)) by lia. eexists. split; [done|].
    destruct (eval_lsh_imm_sound _ Hi _ _ _ H Hw Hx) as [Hr _]. apply raw_points; [apply wrap_range; lia|]. by rewrite s64_u64.
  - rewrite (proj2 (Z.ltb_lt i 64)) by lia. eexists. split; [done|].
    destruct (eval_rsh_imm_sound _ Hi _ _ _ H Hw Hx) as [Hr _]. apply raw_points; [|done].
    unfold in_range in *. rewrite Z.shiftr_div_pow2 by lia. pose proof (Z.pow_pos_nonneg 2 i).
    split; [apply Z.div_pos; lia|]. apply Z.div_lt_upper_bound; nia.
  - rewrite Hsi, (proj2 (Z.leb_le 0 i)), (proj2 (Z.ltb_lt i 64)) by lia. cbn [andb]. eexists. split; [done|].
    destruct (eval_arsh_imm_sound _ Hi _ _ _ H Hw (s64_range _)) as [Hr _]. apply raw_points; [apply wrap_range; lia|].
    rewrite s64_u64, s64_id; [done|]. by apply shiftr_range, s64_range.
Qed.
End Values.

(** ** One instruction *)

Section Safe.
Context {mem : Type} {env : BpfEnv mem} {prms : BpfParams} (cb sz sb : Z) {safe : SafeMem env cb sz sb}.
Context (Hsyms : xsym = []) (Harg : type prog_arg = RTE_BPF_ARG_PTR) (Hsz : size prog_arg = sz).
Context (prog : list ebpf_insn) (kinds : nat -> kind).

Local Notation kd r := (kind_of kinds r).
Local Notation points := (points cb sb).
Local Notation reg_ok := (reg_ok cb sb).
Local Notation slot j := (u64 (sb + 8 * j)).

(** The registers [rg] and the memory [m] are as [est] describes. *)
Record state_ok (est : bpf_eval_state) (rg : list Z) (m : mem) : Prop := {
  so_len : length (rv est) = 11%nat /\ length rg = 11%nat /\ length (sv est) = 64%nat;
  so_reg : forall i r x, rv est !! i = Some r -> rg !! i = Some x -> reg_ok (kinds i) r x;
  so_slot : forall j w x, 0 <= j < 64 -> sv est !! Z.to_nat j = Some w -> ld m (slot j) 8 = Some x -> reg_ok Raw w x;
  so_mem : mem_ok m }.

Lemma of_option_Ok {A} (o : option A) a : of_option o = Ok a -> o = Some a.
Proof using. destruct o; [by intros [= ->]|done]. Qed.

Lemma get_rv_ok est s i r : state_ok est (reg s) (bmem s) -> get_rv est i = Ok r ->
  exists x, get_reg s i = Some x /\ reg_ok (kd i) r x.
Proof using.
  intros H Hr%of_option_Ok. destruct (so_len _ _ _ H) as (Hl & Hl' & _).
  destruct (lookup_lt_is_Some_2 (reg s) (Z.to_nat i)) as [x Hx]; [apply lookup_lt_Some in Hr; lia|].
  exists x. split; [done|]. by apply (so_reg _ _ _ H).
Qed.

Lemma set_rv_ok est rg m i r x : state_ok est rg m -> reg_ok (kd i) r x -> state_ok (set_rv est i r) (<[Z.to_nat i := x]> rg) m.
Proof using.
  intros [(L1 & L2 & L3) HR HS HM] Hok. split; [cbn; rewrite !length_insert; done| |done|done].
  intros j r' x' Hr Hx. cbn in Hr. apply list_lookup_insert_Some in Hr as [(<- & <- & _)|[Hne Hr]].
  - apply list_lookup_insert_Some in Hx as [(_ & <- & _)|[? _]]; done.
  - rewrite list_lookup_insert_ne in Hx by done. by eapply HR.
Qed.

(** What is known of a register changes, not the register. *)
Lemma set_rv_same est s i r x : state_ok est (reg s) (bmem s) -> get_reg s i = Some x -> reg_ok (kd i) r x -> state_ok (set_rv est i r) (reg s) (bmem s).
Proof using. intros H Hx Hok. rewrite <- (list_insert_id (reg s) (Z.to_nat i) x Hx). by apply set_rv_ok. Qed.

(** The state after a register was written. *)
Lemma write_ok est s i r x : state_ok est (reg s) (bmem s) -> points (kd i) r x -> i <= 10 ->
  exists s', set_reg s i x = Some s' /\ state_ok (set_rv est i r) (reg s') (bmem s').
Proof using.
  intros H Hp Hi. rewrite set_reg_some by done. eexists. split; [done|]. cbn [reg bmem]. apply set_rv_ok; [done|by right].
Qed.

Lemma reg_ok_defined k r x : reg_ok k r x -> (type (v r) =? RTE_BPF_ARG_UNDEF) = false -> points k r x.
Proof using. intros [He|H] Hn; [|done]. by rewrite He in Hn. Qed.

Lemma reg_ok_mask k r x : reg_ok k r x -> reg_ok k (eval_apply_mask r UINT64_MAX) x.
Proof using. intros [He|H]; [left; by rewrite apply_mask_v|right; by apply points_mask]. Qed.

(** ** Arithmetic *)

Definition src_kind (ins : ebpf_insn) (src : operand) : kind := match src with K => Raw | X => kd (src_reg ins) end.

Lemma is_kind_spec r k : is_kind kinds r k = true <-> kd r = k.
Proof using. unfold is_kind. by rewrite bool_decide_eq_true. Qed.

Lemma imm_range ins : insn_wf ins -> int64_range (imm ins).
Proof using. unfold insn_wf, int64_range. lia. Qed.

Lemma shift_points o ins rd r x : o ∈ [LSH; RSH; ARSH] -> is_kind kinds (dst_reg ins) Raw && (0 <=? imm ins) && (imm ins <? 64) = true ->
  eval_op (alu_code o) rd (imm_val (imm ins)) 64 UINT64_MAX = Ok r -> points (kd (dst_reg ins)) rd x ->
  exists y, alu 64 o x (u64 (imm ins)) = Some y /\ points (kd (dst_reg ins)) r y.
Proof using.
  intros Ho Hf He Hx. apply andb_prop in Hf as [Hf ?]. apply andb_prop in Hf as [Hf ?]. rewrite is_kind_spec in Hf. rewrite Hf in *.
  rewrite wrap_small by (unfold in_range; clia). eapply points_shift; [done| |done..]. lia.
Qed.

Lemma alu_points o src ins rd rs r x b : alu_frag kinds o src ins = true -> insn_wf ins ->
  (o <> MOV -> points (kd (dst_reg ins)) rd x) -> points (src_kind ins src) rs b ->
  (src = K -> rs = imm_val (imm ins) /\ b = u64 (imm ins)) ->
  eval_op (alu_code o) rd rs 64 UINT64_MAX = Ok r ->
  exists y, alu 64 o (u64 x) b = Some y /\ points (kd (dst_reg ins)) r y.
Proof using.
  intros Hf Hwf Hx Hb Hk He. pose proof (imm_range ins Hwf) as Hi.
  assert (o <> MOV -> u64 x = x) as Hxs by (intros Ho; apply wrap_small; by eapply points_range, Hx).
  assert (o = MOV \/ o <> MOV) as [->|Ho] by (destruct o; auto).
  - injection He as <-. cbn [alu]. exists b. split; [done|].
    destruct src; cbn in Hf; rewrite is_kind_spec in Hf; by rewrite Hf.
  - specialize (Hx Ho). rewrite (Hxs Ho). destruct src; [destruct (Hk eq_refl) as [-> ->]|].
    + destruct o; try done; cbn [alu_frag] in Hf.
      * exists (u64 (x + u64 (imm ins))). split; [done|]. eapply points_add; [exact He|done|exact Hb|]. intros E. rewrite (proj2 (is_kind_spec _ _) E) in Hf. cbn in Hf.
        unfold wrap. rewrite <- Znumtheory.Zmod_div_mod; [lia|lia|lia|by exists (2 ^ 61)].
      * exists (u64 (x - u64 (imm ins))). split; [done|]. eapply points_sub; [exact He|done|done|]. intros E. rewrite (proj2 (is_kind_spec _ _) E) in Hf. cbn in Hf. lia.
      * eapply shift_points; [|done..]. repeat constructor.
      * eapply shift_points; [|done..]. repeat constructor.
      * eapply shift_points; [|done..]. repeat constructor.
    + destruct o; try done; cbn [alu_frag] in Hf. apply andb_prop in Hf as [Hs Hd]. rewrite is_kind_spec in Hs.
      exists (u64 (x + b)). split; [done|]. eapply points_add; [exact He|done| |].
      * unfold src_kind in Hb. by rewrite Hs in Hb.
      * intros E. by rewrite (proj2 (is_kind_spec _ _) E) in Hd.
Qed.

(** The entry of the table for an opcode of the fragment. *)
Lemma eval_entry op : 0 <= op < 255 -> eval_entry_ok op = true.
Proof using. intros H. pose proof eval_entries_ok as He. rewrite forallb_forall in He. apply He, list_elem_of_In, elem_of_seqZ. lia. Qed.

Lemma operand_ok est s ins src rs : state_ok est (reg s) (bmem s) ->
  (match src with K => Ok (imm_val (imm ins)) | X => get_rv est (src_reg ins) end) = Ok rs -> int64_range (imm ins) ->
  exists b, operand_val 64 s ins src = Some (u64 b) /\ reg_ok (src_kind ins src) rs b
    /\ (src = K -> b = u64 (imm ins)) /\ (src = X -> get_reg s (src_reg ins) = Some b).
Proof using.
  intros H Hrs Hi. destruct src; cbn [operand_val].
  - injection Hrs as <-. exists (u64 (imm ins)). rewrite wrap_wrap. split_and!; [done| |done|done]. right. by apply points_imm.
  - destruct (get_rv_ok _ _ _ _ H Hrs) as (x & Hx & Hok). exists x. rewrite Hx. done.
Qed.

(** What the check of the operands says. *)
Lemma eval_defined_Ok dst src u : eval_defined dst src = Ok u ->
  (forall r, dst = Some r -> (type (v r) =? RTE_BPF_ARG_UNDEF) = false) /\ (forall r, src = Some r -> (type (v r) =? RTE_BPF_ARG_UNDEF) = false).
Proof using. unfold eval_defined. intros H. inv_ok. by split; intros r ->. Qed.

(** The table's description of an arithmetic instruction. *)
Record alu_entry (ins : ebpf_insn) (op : Z) (src : operand) : Prop := {
  ae_class : BPF_CLASS (code ins) = EBPF_ALU64;
  ae_op : BPF_OP (code ins) = op;
  ae_src : BPF_SRC (code ins) = operand_code src }.

(** The evaluation of an arithmetic instruction, taken apart. *)
Lemma eval_alu_inv est s ins op src est' : state_ok est (reg s) (bmem s) -> int64_range (imm ins) -> alu_entry ins op src ->
  eval_alu est ins = Ok est' ->
  exists rd rs r x b, get_reg s (dst_reg ins) = Some x /\ (op <> EBPF_MOV -> points (kd (dst_reg ins)) rd x)
    /\ operand_val 64 s ins src = Some (u64 b) /\ (op <> BPF_NEG -> points (src_kind ins src) rs b)
    /\ (src = K -> rs = imm_val (imm ins) /\ b = u64 (imm ins))
    /\ eval_op op rd rs 64 UINT64_MAX = Ok r /\ est' = set_rv est (dst_reg ins) r.
Proof using.
  intros H Hi [Hc Ho Hs] He. unfold eval_alu in He. rewrite Hc, Ho, Hs in He. change (EBPF_ALU64 =? BPF_ALU) with false in He. cbv iota zeta in He.
  change (RTE_LEN2MASK 64) with (Ok UINT64_MAX : res Z) in He. inv_ok. match goal with H1 : UINT64_MAX = ?m |- _ => rewrite <- H1 in *; clear m H1 end.
  match goal with H1 : get_rv est (dst_reg ins) = Ok ?r, H2 : _ = Ok ?r', H3 : eval_defined _ _ = Ok _, H4 : eval_op _ _ _ _ _ = Ok ?r'' |- _ =>
    destruct (get_rv_ok _ _ _ _ H H1) as (x & Hx & Hrd); rename H2 into Hrs; rename r' into rs; apply eval_defined_Ok in H3 as [Hd3 Hs3];
    exists (eval_apply_mask r UINT64_MAX), rs, r'', x end.
  assert (exists b, operand_val 64 s ins src = Some (u64 b) /\ reg_ok (src_kind ins src) rs b /\ (src = K -> rs = imm_val (imm ins) /\ b = u64 (imm ins))) as (b & Hb & Hok & Hk).
  { destruct src; cbn [operand_code] in Hrs; cbv iota zeta in Hrs.
    - destruct (operand_ok est s ins K rs H) as (b & ? & ? & ? & ?); [exact Hrs|done|]. exists b. split_and!; [done..|]. intros _. split; [|auto]. by injection Hrs as <-.
    - change (BPF_X =? BPF_X) with true in Hrs. cbv iota in Hrs. inv_ok. match goal with H1 : get_rv est (src_reg ins) = Ok ?r |- _ =>
        destruct (operand_ok est s ins X r H H1 Hi) as (b & ? & ? & ? & ?) end. exists b. subst rs. split_and!; [done|by apply reg_ok_mask|done]. }
  exists b. split_and!; [done| |done| |done..].
  - intros Hne. eapply reg_ok_defined; [by apply reg_ok_mask|]. apply Hd3. by rewrite (proj2 (Z.eqb_neq _ _) Hne).
  - intros Hne. eapply reg_ok_defined; [done|]. apply Hs3. by rewrite (proj2 (Z.eqb_neq _ _) Hne).
Qed.

Lemma alu_safe est s ins o src est' : state_ok est (reg s) (bmem s) -> insn_wf ins -> dst_reg ins <= 10 ->
  alu_entry ins (alu_code o) src -> alu_frag kinds o src ins = true -> eval_alu est ins = Ok est' ->
  exists s', exec_alu 64 o src s ins = inl s' /\ state_ok est' (reg s') (bmem s').
Proof using.
  intros H Hwf Hd He Hf Hev.
  destruct (eval_alu_inv _ _ _ _ _ _ H (imm_range _ Hwf) He Hev) as (rd & rs & r & x & b & Hx & Hrd & Hb & Hrs & Hk & Hop & ->).
  assert (alu_code o <> BPF_NEG) as Hneg by by destruct o. specialize (Hrs Hneg).
  assert (u64 b = b) as Hbb by by apply wrap_small, (points_range cb sb (src_kind ins src) rs).
  destruct (alu_points o src ins rd rs r x b) as (y & Hy & Hp); [done|done| |done..|].
  { intros Ho. apply Hrd. by destruct o. }
  unfold exec_alu. rewrite Hb, Hbb. replace (match o, src with DIV, X | MOD, X => b =? 0 | _, _ => false end) with false by (destruct o, src; done).
  rewrite Hx. cbn [mbind option_bind]. rewrite Hy. cbn [mbind option_bind]. destruct (write_ok est s (dst_reg ins) r y H Hp Hd) as (s' & -> & Hs'). by exists s'.
Qed.

Lemma neg_safe est s ins est' : state_ok est (reg s) (bmem s) -> insn_wf ins -> dst_reg ins <= 10 ->
  alu_entry ins BPF_NEG K -> kd (dst_reg ins) = Raw -> eval_alu est ins = Ok est' ->
  exists s', exec_action prog s ins (Neg 64) = inl s' /\ state_ok est' (reg s') (bmem s').
Proof using.
  intros H Hwf Hd He Hf Hev.
  destruct (eval_alu_inv _ _ _ _ _ _ H (imm_range _ Hwf) He Hev) as (rd & rs & r & x & b & Hx & Hrd & _ & _ & _ & Hop & ->).
  specialize (Hrd ltac:(done)). cbn [exec_action]. rewrite Hx. cbn [mbind option_bind]. rewrite Hf in Hrd.
  pose proof (points_neg cb sb _ _ _ Hop Hrd) as Hp. rewrite <- Hf in Hp. destruct (write_ok est s (dst_reg ins) r _ H Hp Hd) as (s' & -> & Hs'). by exists s'.
Qed.

(** ** Memory *)

Lemma eval_ptr_defined stack_sz rm n i p : eval_ptr stack_sz rm n 1 i = Ok p -> (type (v rm) =? RTE_BPF_ARG_UNDEF) = false.
Proof using.
  unfold eval_ptr. intros H. inv_ok. match goal with H1 : eval_add rm _ _ = Ok ?r |- _ =>
    assert (v r = v rm) as Hv by (unfold eval_add in H1; inv_ok; by subst r); rewrite Hv in * end.
  destruct (Z.eqb_spec (type (v rm)) RTE_BPF_ARG_UNDEF) as [He|]; [|done]. by rewrite He in *.
Qed.

(** Where an access that was let through goes. *)
Lemma access_ok est s ins r n stack_sz rm p load : state_ok est (reg s) (bmem s) -> insn_wf ins -> n ∈ [1; 2; 4; 8] ->
  get_rv est r = Ok rm -> eval_ptr stack_sz rm n 1 (off ins) = Ok p -> mem_frag kinds n r (off ins) load = true ->
  (exists o, address s r (off ins) = Some (u64 (cb + o)) /\ 0 <= o /\ o + n <= sz /\ v (snd p) = prog_arg /\ (load = true -> n < 8))
  \/ (exists j, address s r (off ins) = Some (slot j) /\ 0 <= j < 64 /\ n = 8 /\ v (snd p) = stack_arg /\ u_max (snd p) / 8 = j).
Proof using Hsz.
  intros H Hwf Hn Hrm Hp Hf. destruct (get_rv_ok _ _ _ _ H Hrm) as (x & Hx & Hok).
  pose proof (reg_ok_defined _ _ _ Hok (eval_ptr_defined _ _ _ _ _ Hp)) as (o & -> & Hw & Ha).
  assert (1 <= n <= 8) as Hnr by (repeat (apply elem_of_cons in Hn as [->|Hn]; [lia|]); by apply not_elem_of_nil in Hn).
  assert (int64_range (off ins)) as Hoff by (unfold insn_wf, int64_range in *; lia).
  destruct (eval_ptr_sound _ _ _ _ _ _ Hp Hw Hoff) as (H0 & H1 & Hv & Hst); [lia|].
  unfold address. rewrite Hx. cbn [fmap option_fmap option_map]. rewrite wrap_add_l. unfold mem_frag in Hf.
  destruct (kd r); [done| |]; cbn [base arg_ok] in *.
  - left. exists (o + off ins). rewrite Ha in *. split; [f_equal; f_equal; lia|]. split_and!; [lia|lia|done|]. intros ->. lia.
  - right. destruct Ha as [Ha Hm]. rewrite Ha in *. specialize (Hst eq_refl). cbn [size stack_arg] in H1. change MAX_BPF_STACK_SIZE with 512 in H1.
    exists ((o + off ins) / 8). assert (o + off ins = 8 * ((o + off ins) / 8)) as He by (clear - Hm Hf; Z.div_mod_to_equations; lia).
    split; [f_equal; f_equal; lia|]. split; [lia|]. split; [lia|]. split; [done|]. by rewrite Hst.
Qed.

Lemma elem_sizes n : n ∈ [1; 2; 4; 8] -> 1 <= n <= 8 /\ RTE_LEN2MASK (n * 8) = Ok (2 ^ (8 * n) - 1).
Proof using. intros Hn. repeat (apply elem_of_cons in Hn as [->|Hn]; [split; [lia|reflexivity]|]). by apply not_elem_of_nil in Hn. Qed.

Lemma load_safe est s ins n stack_sz p : state_ok est (reg s) (bmem s) -> insn_wf ins -> dst_reg ins <= 10 ->
  bpf_size (BPF_SIZE (code ins)) = n -> n ∈ [1; 2; 4; 8] -> kd (dst_reg ins) = Raw -> mem_frag kinds n (src_reg ins) (off ins) true = true ->
  eval_load est stack_sz ins = Ok p ->
  exists s', exec_action prog s ins (Load n) = inl s' /\ state_ok (fst p) (reg s') (bmem s').
Proof using Harg Hsz.
  intros H Hwf Hd Hbs Hn Hk Hf He. destruct (elem_sizes n Hn) as [Hnr Hmask]. unfold eval_load in He. rewrite Hbs in He.
  apply bind_Ok in He as (rd & _ & He). apply bind_Ok in He as (rs & Hrs & He). cbv zeta in He. rewrite Hmask in He.
  apply bind_Ok in He as (msk & [= <-] & He). apply bind_Ok in He as (pt & Hpt & He). apply bind_Ok in He as (r & Hr & [= <-]).
  pose proof (access_ok _ _ _ _ _ _ _ _ _ H Hwf Hn Hrs Hpt Hf) as Hacc. cbn [fst exec_action].
  assert (exists a x, address s (src_reg ins) (off ins) = Some a /\ ld (bmem s) a n = Some x /\ points Raw r x) as (a & x & -> & Hld & Hp).
  { destruct Hacc as [(o & Ha & H0 & H1 & Hv & Hn8)|(j & Ha & Hj & -> & Hv & Hu)]; rewrite Hv in Hr.
    - destruct (ctx_ld (bmem s) o n (so_mem _ _ _ H) Hn H0 H1) as (x & Hx & Hxr). do 2 eexists. split; [done|]. split; [done|].
      rewrite Harg in Hr. specialize (Hn8 eq_refl). cbv beta iota in Hr.
      change (Ok (set_type (eval_max_load rd (2 ^ (8 * n) - 1)) RTE_BPF_ARG_RAW) = Ok r) in Hr. injection Hr as <-.
      unfold in_range in Hxr. pose proof (Z.pow_le_mono_r 2 (8 * n) 63 ltac:(lia) ltac:(lia)). apply raw_points; [unfold in_range; lia|].
      rewrite s64_id by (unfold int64_range; lia). exact (eval_max_load_sound rd (8 * n) x ltac:(lia) Hxr).
    - cbn [type stack_arg] in Hr. change (RTE_BPF_ARG_PTR_STACK =? RTE_BPF_ARG_PTR_STACK) with true in Hr. cbv iota in Hr. rewrite Hu in Hr.
      apply bind_Ok in Hr as (w & Hw%of_option_Ok & Hr). apply bind_Ok in Hr as ([] & Hdef%err_if_Ok & [= <-]). apply orb_false_iff in Hdef as [Hdef _].
      destruct (slot_ld (bmem s) j (so_mem _ _ _ H) Hj) as (x & Hx & _). do 2 eexists. split; [done|]. split; [done|].
      eapply reg_ok_defined; [|done]. by eapply (so_slot _ _ _ H). }
  cbn [mbind option_bind]. rewrite Hld. cbn [mbind option_bind]. rewrite <- Hk in Hp. destruct (write_ok est s (dst_reg ins) r x H Hp Hd) as (s' & -> & Hs'). by exists s'.
Qed.

(** The number that is stored, and what the verifier knows of it when all of it is. *)
Definition stored (s : bpf_state mem) (ins : ebpf_insn) (act : action) : option Z :=
  match act with Store_reg _ => get_reg s (src_reg ins) | _ => Some (imm ins) end.

Lemma exec_store_action s ins n act a x : act = Store_reg n \/ act = Store_imm n ->
  address s (dst_reg ins) (off ins) = Some a -> stored s ins act = Some x ->
  exec_action prog s ins act = defined (exec_store n s a x).
Proof using. intros [-> | ->] Ha Hx; cbn [exec_action stored] in *; rewrite Ha; cbn [mbind option_bind]; rewrite ?Hx; [done|]. by injection Hx as ->. Qed.

Lemma exec_store_ok s n a x m' : st (bmem s) a n (wrap (8 * n) x) = Some m' -> exec_store n s a x = Some (mk_bpf (reg s) (pc s) m').
Proof using. intros H. unfold exec_store. by rewrite H. Qed.

Lemma eval_store_inv est s ins n act stack_sz p : state_ok est (reg s) (bmem s) -> insn_wf ins ->
  act = Store_reg n \/ act = Store_imm n -> (act = Store_reg n -> kd (src_reg ins) = Raw /\ BPF_CLASS (code ins) = BPF_STX /\ (BPF_MODE (code ins) =? EBPF_XADD) = false) ->
  (act = Store_imm n -> BPF_CLASS (code ins) = BPF_ST) -> bpf_size (BPF_SIZE (code ins)) = n -> n ∈ [1; 2; 4; 8] ->
  eval_store est stack_sz ins = Ok p ->
  exists rd rs pt x, get_rv est (dst_reg ins) = Ok rd /\ eval_ptr stack_sz rd n 1 (off ins) = Ok pt
    /\ stored s ins act = Some x /\ (n = 8 -> points Raw rs (u64 x))
    /\ (if type (v (snd pt)) =? RTE_BPF_ARG_PTR_STACK then
           w ← get_sv est (u_max (snd pt) / 8); mret (set_sv est (u_max (snd pt) / 8) rs, fst pt)
         else if type (v (snd pt)) =? RTE_BPF_ARG_PTR_MBUF then eval_mbuf_store (snd pt) n ;; mret (est, fst pt)
         else mret (est, fst pt)) = Ok p.
Proof using.
  intros H Hwf Hact Hreg Himm Hbs Hn He. destruct (elem_sizes n Hn) as [Hnr Hmask]. unfold eval_store in He. cbv zeta in He. rewrite Hbs, Hmask in He.
  apply bind_Ok in He as (msk & [= <-] & He). apply bind_Ok in He as (rd & Hrd & He). apply bind_Ok in He as (rs & Hrs & He).
  apply bind_Ok in He as (u & Hu & He). apply eval_defined_Ok in Hu as [_ Hdef]. specialize (Hdef _ eq_refl).
  apply bind_Ok in He as (pt & Hpt & He). exists rd, rs, pt. destruct Hact as [-> | ->].
  - destruct (Hreg eq_refl) as (Hk & Hc & Hm). rewrite Hc in Hrs, He. rewrite Hm in He. cbv zeta in He.
    change (BPF_STX =? BPF_STX) with true in *. cbn [andb] in *. cbv iota in Hrs. apply bind_Ok in Hrs as (r & Hr & [= <-]).
    destruct (get_rv_ok _ _ _ _ H Hr) as (x & Hx & Hok). exists x. split_and!; [done..| |done]. intros ->. change (2 ^ (8 * 8) - 1) with UINT64_MAX in *.
    apply reg_ok_mask in Hok. pose proof (reg_ok_defined _ _ _ Hok Hdef) as Hp. rewrite Hk in Hp. by rewrite wrap_small by by eapply points_range.
  - specialize (Himm eq_refl). rewrite Himm in Hrs, He. cbv zeta in He. change (BPF_ST =? BPF_STX) with false in *. cbn [andb] in *. injection Hrs as <-.
    exists (imm ins). split_and!; [done..| |done]. intros ->. apply points_imm. by apply imm_range.
Qed.

Lemma store_safe est s ins n act stack_sz p : state_ok est (reg s) (bmem s) -> insn_wf ins ->
  act = Store_reg n \/ act = Store_imm n -> (act = Store_reg n -> kd (src_reg ins) = Raw /\ BPF_CLASS (code ins) = BPF_STX /\ (BPF_MODE (code ins) =? EBPF_XADD) = false) ->
  (act = Store_imm n -> BPF_CLASS (code ins) = BPF_ST) -> bpf_size (BPF_SIZE (code ins)) = n -> n ∈ [1; 2; 4; 8] ->
  mem_frag kinds n (dst_reg ins) (off ins) false = true -> eval_store est stack_sz ins = Ok p ->
  exists s', exec_action prog s ins act = inl s' /\ state_ok (fst p) (reg s') (bmem s').
Proof using Harg Hsz.
  intros H Hwf Hact Hreg Himm Hbs Hn Hf He.
  destruct (eval_store_inv _ _ _ _ _ _ _ H Hwf Hact Hreg Himm Hbs Hn He) as (rd & rs & pt & x & Hrd & Hpt & Hx & Hp & Hst). clear He.
  pose proof H as [L HR HS HM]. assert (0 <= 8 * n) as Hn8 by (destruct (elem_sizes n Hn); lia).
  destruct (access_ok _ _ _ _ _ _ _ _ _ H Hwf Hn Hrd Hpt Hf) as [(o & Ha & H0 & H1 & Hv & _)|(j & Ha & Hj & -> & Hv & Hu)];
    rewrite (exec_store_action _ _ _ _ _ _ Hact Ha Hx); rewrite Hv in Hst.
  - rewrite Harg in Hst. injection Hst as <-.
    destruct (ctx_st (bmem s) o n (wrap (8 * n) x) HM Hn H0 H1 (wrap_range _ Hn8 _)) as (m' & Hm & HM' & Hsame).
    rewrite (exec_store_ok _ _ _ _ _ Hm). eexists. split; [done|]. cbn [fst reg bmem]. split; [done..| |done].
    intros j w y Hj Hw Hy. rewrite Hsame in Hy by done. by eapply HS.
  - cbn [type stack_arg] in Hst. change (RTE_BPF_ARG_PTR_STACK =? RTE_BPF_ARG_PTR_STACK) with true in Hst. cbv iota in Hst. rewrite Hu in Hst.
    apply bind_Ok in Hst as (w0 & Hw0 & [= <-]).
    destruct (slot_st (bmem s) j (wrap (8 * 8) x) HM Hj (wrap_range _ Hn8 _)) as (m' & Hm & HM' & Hnew & Hsame).
    rewrite (exec_store_ok _ _ _ _ _ Hm). eexists. split; [done|]. cbn [fst reg bmem]. split; [cbn; rewrite length_insert; done|done| |done].
    intros i w y Hi Hw Hy. cbn in Hw. apply list_lookup_insert_Some in Hw as [(Hij & <- & _)|[Hij Hw]].
    + assert (i = j) as -> by lia. rewrite Hnew in Hy. injection Hy as <-. right. by apply Hp.
    + rewrite Hsame in Hy by (done || lia). by eapply HS.
Qed.

Lemma ld_imm64_safe est s ins ins1 est' : state_ok est (reg s) (bmem s) -> dst_reg ins <= 10 -> kd (dst_reg ins) = Raw ->
  prog !! Z.to_nat (pc s + 1) = Some ins1 -> eval_ld_imm64 est ins ins1 = Ok est' ->
  exists s', exec_action prog s ins Load_imm64 = inl s' /\ state_ok est' (reg s') (bmem s').
Proof using Hsyms.
  intros H Hd Hk Hins1 He. unfold eval_ld_imm64 in He. cbv zeta in He. rewrite Hsyms in He. cbn [find_var] in He.
  apply bind_Ok in He as (rd & _ & [= <-]). cbn [exec_action]. rewrite Hins1. set (x := Z.lor _ _).
  assert (in_range 64 x) as Hx.
  { assert (u64 x = x) as <-; [|apply wrap_range; lia]. unfold x. zbits. destruct (Z.ltb_spec i 64); [done|]. by rewrite (proj2 (Z.ltb_ge i 32)) by lia. }
  match goal with |- context [set_rv est _ ?r] => assert (points Raw r x) as Hp end.
  { apply raw_points; [done|]. unfold within. cbn. split_and!; (apply s64_range || lia). }
  rewrite <- Hk in Hp. destruct (write_ok est s (dst_reg ins) _ x H Hp Hd) as (s' & -> & Hs'). by eexists.
Qed.

(** ** Conditional jumps *)

Lemma number_same est s i r x : state_ok est (reg s) (bmem s) -> kd i = Raw -> get_reg s i = Some x -> in_range 64 x -> within r (s64 x) ->
  state_ok (set_rv est i r) (reg s) (bmem s).
Proof using. intros H Hk Hx Hr Hw. eapply set_rv_same; [done..|]. right. rewrite Hk. by apply raw_points. Qed.

Lemma get_rv_det est i r r' : get_rv est i = Ok r -> get_rv est i = Ok r' -> r' = r.
Proof using. intros H H'. rewrite H in H'. by injection H'. Qed.

(** Both operands are equal. *)
Lemma equal_ok est s ins src (rd rs : bpf_reg_val) a : state_ok est (reg s) (bmem s) -> kd (dst_reg ins) = Raw -> src_kind ins src = Raw ->
  get_reg s (dst_reg ins) = Some a -> (src = X -> get_reg s (src_reg ins) = Some a) -> in_range 64 a ->
  within rd (s64 a) -> within rs (s64 a) ->
  state_ok (let '(rd, rs) := eval_jeq_jne rd rs in set_rv (if operand_code src =? BPF_X then set_rv est (src_reg ins) rs else est) (dst_reg ins) rd) (reg s) (bmem s).
Proof using.
  intros H Hk Hks Ha Hb Hr Hd Hs. destruct (eval_jeq_jne_sound _ _ _ Hd Hs) as (H1 & _ & H2 & _). destruct (eval_jeq_jne rd rs) as [rd' rs'].
  apply number_same with a; [|done..]. destruct src; [done|]. cbn [operand_code]. change (BPF_X =? BPF_X) with true. cbv iota.
  apply number_same with a; try done. by apply Hb.
Qed.

Lemma jcc_safe est s ins c src p : state_ok est (reg s) (bmem s) -> insn_wf ins -> kd (dst_reg ins) = Raw ->
  (src = X -> kd (src_reg ins) = Raw /\ c <> JSGT /\ c <> JSLE) -> BPF_OP (code ins) = jcc_code c -> BPF_SRC (code ins) = operand_code src ->
  eval_jcc est est ins = Ok p ->
  exists a b, get_reg s (dst_reg ins) = Some a /\ operand_val 64 s ins src = Some b
    /\ state_ok (if jump_taken c a b then fst p else snd p) (reg s) (bmem s).
Proof using.
  intros H Hwf Hk Hsrc Hop Hs He. unfold eval_jcc in He. cbv zeta in He. rewrite Hop, Hs in He.
  apply bind_Ok in He as (rd & Hrd & He). apply bind_Ok in He as (rd' & Hrd' & He). rewrite (get_rv_det _ _ _ _ Hrd Hrd') in He. clear rd' Hrd'.
  apply bind_Ok in He as (rs & Hrs & He). apply bind_Ok in He as (rs' & Hrs' & He). rewrite Hrs in Hrs'. injection Hrs' as <-.
  apply bind_Ok in He as (u & [Hd1 Hs1]%eval_defined_Ok & He). specialize (Hd1 _ eq_refl). specialize (Hs1 _ eq_refl).
  destruct (get_rv_ok _ _ _ _ H Hrd) as (a & Ha & Hoka). destruct (operand_ok est s ins src rs H) as (b & Hb & Hokb & Hbk & Hbx); [by destruct src|by apply imm_range|].
  pose proof (reg_ok_defined _ _ _ Hoka Hd1) as Hpa. rewrite Hk in Hpa. apply points_raw in Hpa as [Hra Hwa].
  pose proof (reg_ok_defined _ _ _ Hokb Hs1) as Hpb. assert (src_kind ins src = Raw) as Hks by (destruct src; [done|by apply Hsrc]).
  rewrite Hks in Hpb. apply points_raw in Hpb as [Hrb Hwb]. exists a, b. split; [done|]. split; [by rewrite (wrap_small 64 b Hrb) in Hb|].
  assert (forall r, within r (s64 a) -> state_ok (set_rv est (dst_reg ins) r) (reg s) (bmem s)) as Hset by (intros r Hw; by apply number_same with a).
  assert (state_ok (if jump_taken c a b then fst p else snd p) (reg s) (bmem s)) as Hfin; [|exact Hfin].
  destruct c; cbn [jcc_code jump_taken] in *.
  - injection He as <-. cbn [fst snd]. destruct (Z.eqb_spec a b) as [->|_]; [|done].
    by apply (equal_ok est s ins src rd rs b).
  - injection He as <-. cbn [fst snd]. destruct (Z.eqb_spec a b) as [->|_]; [|done].
    by apply (equal_ok est s ins src rd rs b).
  - injection He as <-. cbn [fst snd]. destruct (b <? a); by apply Hset.
  - injection He as <-. cbn [fst snd]. destruct (a <? b); by apply Hset.
  - injection He as <-. cbn [fst snd]. destruct (b <=? a); by apply Hset.
  - injection He as <-. cbn [fst snd]. destruct (a <=? b); by apply Hset.
  - destruct src; [|by destruct (Hsrc eq_refl) as (_ & ? & _)]. injection Hrs as <-.
    apply bind_Ok in He as (q & Hq & [= <-]). change (eval_fill_imm zero_rv UINT64_MAX (imm ins)) with (imm_val (imm ins)) in Hq.
    destruct (eval_jsgt_jsle_sound _ _ _ _ (s64 a) Hq) as (H1 & H2 & _).
    rewrite (Hbk eq_refl), s64_u64. cbn [fst snd]. destruct (Z.ltb_spec (s64 (imm ins)) (s64 a)); apply Hset; auto.
  - injection He as <-. cbn [fst snd]. destruct (s64 a <? s64 b); done.
  - apply bind_Ok in He as (q' & Hq' & [= <-]). destruct (eval_jslt_jsge rd rs rd rs) as [q| |] eqn:Hq; [|done..]. injection Hq' as <-.
    destruct (eval_jslt_jsge_sound _ _ _ _ _ (s64 a) (s64 b) Hq Hwb Hwb) as (H1 & H2 & _). unfold swap. cbn [fst snd].
    destruct (Z.leb_spec (s64 b) (s64 a)); apply Hset; auto.
  - destruct src; [|by destruct (Hsrc eq_refl) as (_ & _ & ?)]. injection Hrs as <-.
    apply bind_Ok in He as (q' & Hq' & [= <-]). change (eval_fill_imm zero_rv UINT64_MAX (imm ins)) with (imm_val (imm ins)) in Hq'.
    destruct (eval_jsgt_jsle rd (imm_val (imm ins)) rd (imm_val (imm ins))) as [q| |] eqn:Hq; [|done..]. injection Hq' as <-.
    destruct (eval_jsgt_jsle_sound _ _ _ _ (s64 a) Hq) as (H1 & H2 & _). unfold swap.
    rewrite (Hbk eq_refl), s64_u64. cbn [fst snd]. destruct (Z.leb_spec (s64 a) (s64 (imm ins))); apply Hset; auto.
  - injection He as <-. cbn [fst snd]. destruct (negb _); done.
Qed.

(** ** A whole execution *)

(** The state after an instruction, by its edges. *)
Definition follows (act : action) (ins : ebpf_insn) (s : bpf_state mem) (est' : bpf_eval_state) (saved' : option bpf_eval_state)
  (r : bpf_state mem + bpf_stop) : Prop :=
  match r with
  | inr e => act = Exit_insn /\ exists x, e = Returned x
  | inl s' =>
      match act with
      | Jcc _ _ => (pc s' = pc s + off ins /\ state_ok est' (reg s') (bmem s'))
                   \/ (pc s' = pc s /\ exists f, saved' = Some f /\ state_ok f (reg s') (bmem s'))
      | _ => state_ok est' (reg s') (bmem s')
      end
  end.

Lemma insn_safe est s ins act stack_sz est' saved' stack_sz' : state_ok est (reg s) (bmem s) -> insn_wf ins -> code ins < 255 ->
  action_of (code ins) = Some act -> dst_reg ins <= 10 -> src_reg ins <= 10 -> frag kinds ins = true ->
  eval_insn prog (pc s) ins est (match act with Jcc _ _ => Some est | _ => None end) stack_sz = Ok (est', saved', stack_sz') ->
  follows act ins s est' saved' (exec_action prog s ins act).
Proof using Hsyms Harg Hsz.
  intros H Hwf Hc Hact Hd Hs10 Hf He. assert (eval_entry_ok (code ins) = true) as Hent by (apply eval_entry; unfold insn_wf in Hwf; lia).
  unfold eval_entry_ok in Hent. unfold eval_insn in He. cbv zeta in He. unfold frag in Hf. rewrite Hact in Hent, Hf.
  destruct act as [w o src|w| | |n| |n|n|n| |c src| |]; try done.
  - apply andb_prop in Hf as [->%Z.eqb_eq Hf]. destruct (eval (ins_chk_at (code ins))) as [[]|]; try done.
    apply bind_Ok in He as (e1 & He & [= <- <- <-]). do 2 apply andb_prop in Hent as [Hent ?].
    destruct (alu_safe est s ins o src e1) as (s' & Hs' & Hok); [done..|split; lia|done|done|]. cbn [exec_action]. by rewrite Hs'.
  - apply andb_prop in Hf as [->%Z.eqb_eq Hf%is_kind_spec]. destruct (eval (ins_chk_at (code ins))) as [[]|]; try done.
    apply bind_Ok in He as (e1 & He & [= <- <- <-]). do 2 apply andb_prop in Hent as [Hent ?].
    destruct (neg_safe est s ins e1) as (s' & Hs' & Hok); [done..|split; cbn [operand_code]; lia|done|done|]. by rewrite Hs'.
  - apply andb_prop in Hf as [Hk%is_kind_spec Hf]. destruct (eval (ins_chk_at (code ins))) as [[]|]; try done.
    apply bind_Ok in He as (p & He & [= <- <- <-]). apply andb_prop in Hent as [Hn Hel%bool_decide_eq_true].
    destruct (load_safe est s ins n stack_sz p) as (s' & Hs' & Hok); [done..|lia|done|done|done|done|]. by rewrite Hs'.
  - apply is_kind_spec in Hf. destruct (eval (ins_chk_at (code ins))) as [[]|]; try done.
    apply bind_Ok in He as (ins1 & Hins1%of_option_Ok & He). apply bind_Ok in He as (e1 & He & [= <- <- <-]).
    destruct (ld_imm64_safe est s ins ins1 e1) as (s' & Hs' & Hok); [done..|]. by rewrite Hs'.
  - apply andb_prop in Hf as [Hk%is_kind_spec Hf]. destruct (eval (ins_chk_at (code ins))) as [[]|]; try done.
    apply bind_Ok in He as (p & He & [= <- <- <-]). do 2 apply andb_prop in Hent as [Hent ?]. apply andb_prop in Hent as [Hn Hel%bool_decide_eq_true].
    destruct (store_safe est s ins n (Store_reg n) stack_sz p) as (s' & Hs' & Hok); [done|done|by left| |done|lia|done|done|done|by rewrite Hs'].
    intros _. split; [done|]. split; [lia|]. by apply negb_true_iff.
  - destruct (eval (ins_chk_at (code ins))) as [[]|]; try done.
    apply bind_Ok in He as (p & He & [= <- <- <-]). apply andb_prop in Hent as [Hent ?]. apply andb_prop in Hent as [Hn Hel%bool_decide_eq_true].
    destruct (store_safe est s ins n (Store_imm n) stack_sz p) as (s' & Hs' & Hok); [done|done|by right|done| |lia|done|done|done|by rewrite Hs'].
    intros _. lia.
  - destruct (eval (ins_chk_at (code ins))); [done|]. injection He as <- <- <-. exact H.
  - apply andb_prop in Hf as [Hk%is_kind_spec Hf]. destruct (eval (ins_chk_at (code ins))) as [[]|]; try (destruct c, src; done).
    + apply bind_Ok in He as (f & Hfe%of_option_Ok & He). injection Hfe as <-. apply bind_Ok in He as (p & He & [= <- <- <-]). assert ((BPF_OP (code ins) =? jcc_code c) && (BPF_SRC (code ins) =? operand_code src) = true) as [Hop%Z.eqb_eq Hs%Z.eqb_eq]%andb_prop by by destruct c, src.
      destruct (jcc_safe est s ins c src p) as (a & b & Ha & Hb & Hok); [done|done|done| |done|done|done|].
      * intros ->. apply andb_prop in Hf as [Hks%is_kind_spec Hf]. split; [done|]. by destruct c.
      * cbn [exec_action]. rewrite Ha, Hb. destruct (jump_taken c a b); [by left|]. right. by eauto.
    + injection He as <- <- <-. cbn [exec_action].
      destruct (get_reg_some s (dst_reg ins)) as [a ->]; [by destruct (so_len _ _ _ H) as (_ & ? & _)|done|].
      assert (exists b, operand_val 64 s ins src = Some b) as [b ->].
      { destruct src; [by eexists|]. cbn [operand_val]. destruct (get_reg_some s (src_reg ins)) as [b ->]; [by destruct (so_len _ _ _ H) as (_ & ? & _)|done|by eexists]. }
      destruct (jump_taken c a b); [by left|]. right. by eauto.
  - destruct (get_reg_some s 0) as [a Ha]; [by destruct (so_len _ _ _ H) as (_ & ? & _)|done|]. cbn [exec_action]. rewrite Ha. split; [done|by eexists].
Qed.

Context (Hlen : 0 < Z.of_nat (length prog) < 2 ^ 31) (Hcode : forall e, e ∈ program_nodes 0 prog -> code (snd e) < 255).
Context (Hwf : forall ins, ins ∈ prog -> insn_wf ins) (Hacc : accepted prog) (Hmid : no_mid_jump prog = true).
Context (Hfrag : forallb (fun e => frag kinds (snd e)) (program_nodes 0 prog) = true).

Local Notation E := (edges (Z.of_nat (length prog)) prog).

(** What is known of the instruction at [i], and of where it goes. *)
Lemma node_facts i : i ∈ insns prog -> exists ins act, prog !! Z.to_nat i = Some ins /\ action_of (code ins) = Some act /\ 0 <= i
  /\ insn_wf ins /\ code ins < 255 /\ dst_reg ins <= 10 /\ src_reg ins <= 10 /\ frag kinds ins = true /\ imm_ok ins act
  /\ E i = action_targets i act ins
  /\ forall k x, action_targets i act ins !! k = Some (u32 x) -> - 2 ^ 16 <= x < 2 ^ 32 -> E i !! k = Some x /\ x ∈ insns prog.
Proof using Hlen Hcode Hwf Hacc Hmid Hfrag.
  intros Hi. destruct (accepted_insn prog Hacc Hmid i Hi) as (ins & Hin & Hok & Hins & Hr & Ht).
  assert (insn_wf ins) as Hw by (apply Hwf; by eapply list_elem_of_lookup_2). pose proof (andb_prop _ _ Hok) as [Hsyn _].
  destruct (syntax_action ins Hw (Hcode _ Hin) Hsyn) as (act & Hact & Hd & Hs & Htg & Himm). exists ins, act.
  assert (E i = action_targets i act ins) as HE by (rewrite <- Htg; by apply edges_of_node).
  rewrite forallb_forall in Hfrag. split_and!; [done..|lia|done|by apply (Hcode _ Hin)|done|done| |done|done|].
  - by apply (Hfrag (i, ins)), list_elem_of_In.
  - intros k x Hk Hx. rewrite HE. rewrite <- Htg in *. destruct (Ht (u32 x)) as [Hle Hin']; [by eapply list_elem_of_lookup_2|].
    rewrite (target_value prog Hlen x Hx Hle) in *. done.
Qed.

(** A program whose paths were all evaluated runs to a return. *)
Lemma checked_runs i est : checked prog E i est -> forall s, pc s = i -> i ∈ insns prog -> state_ok est (reg s) (bmem s) ->
  exists fuel s' x, bpf_run prog fuel s = Some (s', Returned x).
Proof using All.
  induction 1 as [i est ins est' saved' z z' Hins Hev Ha IHa Hb IHb]. intros s Hpc Hi Hok.
  destruct (node_facts i Hi) as (ins' & act & Hins' & Hact & Hi0 & Hw & Hc & Hd & Hs & Hf & Himm & HE & Hgo). rewrite Hins in Hins'. injection Hins' as <-.
  assert (follows act ins s est' saved' (exec_action prog s ins act)) as Hfol.
  { eapply (insn_safe est s ins act z est' saved' z'); try done. rewrite Hpc. rewrite HE in Hev.
    replace (match act with Jcc _ _ => Some est | _ => None end) with (if (1 <? length (action_targets i act ins))%nat then Some est else None); [done|by destruct act]. }
  assert (bpf_step prog s = match exec_action prog s ins act with inl s' => inl (mk_bpf (reg s') (pc s' + 1) (bmem s')) | inr e => inr e end) as Hstep.
  { unfold bpf_step. rewrite Hpc, (proj2 (Z.ltb_ge _ _)) by lia. by rewrite Hins, Hact. }
  destruct (exec_action prog s ins act) as [s'|e] eqn:Hex.
  2: { destruct Hfol as (_ & x & ->). exists 1%nat, s, x. cbn [bpf_run]. by rewrite Hstep. }
  assert (forall k x est2, action_targets i act ins !! k = Some (u32 x) -> - 2 ^ 16 <= x < 2 ^ 32 -> pc s' + 1 = x -> state_ok est2 (reg s') (bmem s') ->
    (forall a, E i !! k = Some a -> forall s, pc s = a -> a ∈ insns prog -> state_ok est2 (reg s) (bmem s) -> exists fuel s' x, bpf_run prog fuel s = Some (s', Returned x)) ->
    exists fuel s' x, bpf_run prog fuel s = Some (s', Returned x)) as Hnext.
  { intros k x est2 Hk Hx Hpc' Hok' IH. destruct (Hgo k x Hk Hx) as [HEk Hxi].
    destruct (IH x HEk (mk_bpf (reg s') (pc s' + 1) (bmem s'))) as (fuel & s'' & y & Hrun); [done..|].
    exists (Datatypes.S fuel), s'', y. cbn [bpf_run]. by rewrite Hstep. }
  assert (act = Load_imm64 -> is_Some (prog !! Z.to_nat (pc s + 1))) as Hld.
  { intros ->. cbn [exec_action] in Hex. by destruct (prog !! Z.to_nat (pc s + 1)). }
  assert (regs_ok s) as Hr by (destruct (so_len _ _ _ Hok) as (_ & ? & _); done). rewrite <- Hpc in Hins.
  pose proof (action_progress prog s ins act Hr Hd Hs Hins Hact Himm Hld) as Hprog. rewrite Hex in Hprog. destruct Hprog as [_ Hpc'].
  assert (- 2 ^ 15 <= off ins < 2 ^ 15) as Hoff by apply Hw. assert (i < 2 ^ 31) as Hi31 by (rewrite Hpc in Hins; apply lookup_lt_Some in Hins; lia).
  destruct act; try done; cbn [follows action_targets] in *;
    try (apply (Hnext 0%nat (i + 1) est'); [done|lia|lia|done|done]).
  - apply (Hnext 0%nat (i + 2) est'); [done|lia|lia|done|done].
  - apply (Hnext 0%nat (i + off ins + 1) est'); [done|lia|lia|done|done].
  - destruct Hfol as [[Hp Hok']|(Hp & f & -> & Hok')].
    + apply (Hnext 0%nat (i + off ins + 1) est'); [done|lia|lia|done|done].
    + apply (Hnext 1%nat (i + 1) f); [done|lia|lia|done|]. intros a Ha1. by apply (IHb a f).
Qed.
End Safe.

(** The state before the first instruction. *)
Lemma first_state_ok {mem} {env : BpfEnv mem} {prms : BpfParams} cb sz sb {safe : SafeMem env cb sz sb} kinds rg m :
  type prog_arg = RTE_BPF_ARG_PTR -> kinds 1%nat = Ctx -> kinds 10%nat = Stk -> length rg = 11%nat -> mem_ok m ->
  rg !! 1%nat = Some (u64 cb) -> rg !! 10%nat = Some (u64 (sb + MAX_BPF_STACK_SIZE)) -> state_ok cb sz sb kinds (first_state zero_evst) rg m.
Proof.
  intros Ht H1 H10 Hl Hm Hr1 Hr10. split; [done| | |done].
  - intros i r x Hr Hx. unfold first_state in Hr. cbv zeta in Hr. rewrite Ht in Hr. change (RTE_BPF_ARG_PTR =? RTE_BPF_ARG_RAW) with false in Hr. cbv iota in Hr.
    unfold set_rv in Hr. cbn [rv] in Hr. apply list_lookup_insert_Some in Hr as [(<- & <- & _)|[_ Hr]].
    { right. change (Z.to_nat 10) with 10%nat in *. rewrite H10. rewrite Hr10 in Hx. injection Hx as <-. exists MAX_BPF_STACK_SIZE. split_and!; done. }
    cbn [rv] in Hr. apply list_lookup_insert_Some in Hr as [(<- & <- & _)|[_ Hr]].
    { right. change (Z.to_nat 1) with 1%nat in *. rewrite H1. rewrite Hr1 in Hx. injection Hx as <-. exists 0. cbn [base]. rewrite Z.add_0_r. split_and!; done. }
    left. apply lookup_replicate in Hr as [-> _]. done.
  - intros j w x Hj Hw _. left. unfold first_state in Hw. cbv zeta in Hw. rewrite Ht in Hw. cbn [sv set_rv] in Hw.
    apply lookup_replicate in Hw as [-> _]. done.
Qed.

(** The programs of the fragment: jumps land on instructions, the first of which is no
    conditional jump. *)
Definition in_fragment (kinds : nat -> kind) (prog : list ebpf_insn) : bool :=
  bool_decide (kinds 1%nat = Ctx) && bool_decide (kinds 10%nat = Stk) && no_mid_jump prog
  && (length (edges (Z.of_nat (length prog)) prog 0) <=? 1)%nat && forallb (fun e => frag kinds (snd e)) (program_nodes 0 prog).

(** An accepted program of the fragment, on a memory that serves the context and the stack. *)
Lemma fragment_run {mem} {env : BpfEnv mem} {prms : BpfParams} {sys : BpfSystem} cb sz sb {safe : SafeMem env cb sz sb} kinds prog fuel stack_sz (s : bpf_state mem) :
  xsym = [] -> type prog_arg = RTE_BPF_ARG_PTR -> size prog_arg = sz ->
  0 < Z.of_nat (length prog) < 2 ^ 31 -> (forall e, e ∈ program_nodes 0 prog -> code (snd e) < 255) -> (forall ins, ins ∈ prog -> insn_wf ins) ->
  in_fragment kinds prog = true -> bpf_validate prog fuel = Ret (0, stack_sz) ->
  pc s = 0 -> length (reg s) = 11%nat -> mem_ok (bmem s) -> reg s !! 1%nat = Some (u64 cb) -> reg s !! 10%nat = Some (u64 (sb + MAX_BPF_STACK_SIZE)) ->
  exists s' x, bpf_run prog (length prog) s = Some (s', Returned x).
Proof.
  intros Hsyms Harg Hsz Hlen Hcode Hwf Hfr Hv Hpc Hl Hm H1 H10. unfold in_fragment in Hfr.
  apply andb_prop in Hfr as [Hfr Hfrag]. apply andb_prop in Hfr as [Hfr Hone%Nat.leb_le]. apply andb_prop in Hfr as [Hfr Hmid].
  apply andb_prop in Hfr as [Hk1%bool_decide_eq_true Hk10%bool_decide_eq_true].
  destruct (validate_checked prog fuel stack_sz Hlen Hcode Hone Hv) as [Hacc Hch].
  destruct (run_terminates prog Hlen Hcode Hwf Hacc Hmid s Hl Hpc) as (s1 & e1 & Hrun1 & _).
  assert (0 ∈ insns prog) as H0.
  { unfold insns. destruct prog as [|ins p]; [cbn in Hlen; lia|]. cbn [program_nodes]. apply elem_of_cons. by left. }
  destruct (checked_runs cb sz sb Hsyms Harg Hsz prog kinds Hlen Hcode Hwf Hacc Hmid Hfrag 0 _ Hch s Hpc H0) as (f & s2 & x & Hrun2).
  { by apply first_state_ok. }
  exists s2, x. pose proof (bpf_run_more _ _ (Nat.max f (length prog)) _ _ (Nat.le_max_l _ _) Hrun2) as E2.
  pose proof (bpf_run_more _ _ (Nat.max f (length prog)) _ _ (Nat.le_max_r _ _) Hrun1) as E1. rewrite E1 in E2. rewrite Hrun1. congruence.
Qed.
