(* ===== verification/BpfAccess.v ===== *)
(** * Accesses of the programs that the eBPF verifier accepts (lib/librte_bpf)

    A byte memory with a context and a stack, outside of which an access is undefined; that
    accepted programs of the fragment never leave them, and accepted programs that do. *)

From S2P Require Import Prelude Effects Bytes Bpf BpfValidate BpfDfs BpfPass BpfVerify BpfRun BpfEval BpfEvalInsn BpfDomain BpfEvaluate BpfPaths BpfWalk BpfSafe.

(** ** Guarded memory *)

Section Guarded.
Context (cb sz sb : Z).

Definition allowed (a n : Z) : bool :=
  ((cb <=? a) && (a + n <=? cb + sz)) || ((sb <=? a) && (a + n <=? sb + MAX_BPF_STACK_SIZE)).

(** Little-endian loads and stores in the context of [sz] bytes and in the stack; no
    external functions. *)
Definition guarded : BpfEnv (Z -> Z) := {|
  ld := fun m a n => if allowed a n then Some (le_value (range_bytes m a n)) else None;
  st := fun m a n x => if allowed a n then Some (store_bytes m a (le_bytes (Z.to_nat n) x)) else None;
  xsym_func := fun _ _ _ => None |}.

(** The two objects are disjoint and do not wrap around. *)
Definition apart : Prop :=
  0 <= cb /\ cb + sz <= 2 ^ 64 /\ 0 <= sb /\ sb + MAX_BPF_STACK_SIZE < 2 ^ 64 /\ 0 <= sz
  /\ (cb + sz <= sb \/ sb + MAX_BPF_STACK_SIZE <= cb).

Lemma le_range m a n : (forall x, byte_ok (m x)) -> 0 <= n -> in_range (8 * n) (le_value (range_bytes m a n)).
Proof using.
  intros Hm Hn. pose proof (le_value_range (range_bytes m a n) (range_bytes_ok m a n Hm)) as H. rewrite length_range_bytes, Z2Nat.id in H by lia.
  unfold in_range. by rewrite Z.pow_mul_r by lia.
Qed.

Lemma store_elsewhere m a n x b k : 0 <= n -> 0 <= k -> a + n <= b \/ b + k <= a ->
  range_bytes (store_bytes m a (le_bytes (Z.to_nat n) x)) b k = range_bytes m b k.
Proof using.
  intros Hn Hk Hd. apply range_bytes_ext. intros y Hy. apply store_bytes_frame. rewrite le_bytes_length. lia.
Qed.

Lemma store_here m a x : in_range 64 x -> le_value (range_bytes (store_bytes m a (le_bytes 8 x)) a 8) = x.
Proof using. intros Hx. pose proof (load64_store64 m a x) as H. unfold load64, store64 in H. rewrite H. by apply wrap_small. Qed.

Lemma sizes_range n : n ∈ [1; 2; 4; 8] -> 1 <= n <= 8.
Proof using. intros Hn. repeat (apply elem_of_cons in Hn as [->|Hn]; [lia|]). by apply not_elem_of_nil in Hn. Qed.

Lemma allowed_ctx o n : apart -> 0 <= o -> 1 <= n -> o + n <= sz -> u64 (cb + o) = cb + o /\ allowed (cb + o) n = true.
Proof using. unfold apart. intros H Ho Hn Hs. split; [apply wrap_small; unfold in_range; lia|]. unfold allowed. lia. Qed.

Lemma allowed_slot j : apart -> 0 <= j < 64 -> u64 (sb + 8 * j) = sb + 8 * j /\ allowed (sb + 8 * j) 8 = true.
Proof using. unfold apart. change MAX_BPF_STACK_SIZE with 512. intros H Hj. split; [apply wrap_small; unfold in_range; lia|]. unfold allowed. change MAX_BPF_STACK_SIZE with 512. lia. Qed.

(** Such a memory serves the programs of the fragment. *)
Program Definition guarded_safe (H : apart) : SafeMem guarded cb sz sb := {| mem_ok := fun m => forall x, byte_ok (m x) |}.
Next Obligation.
  intros H m o n Hm Hn%sizes_range H0 H1. destruct (allowed_ctx o n H H0 ltac:(lia) H1) as [-> Ha]. cbn [ld guarded]. rewrite Ha.
  eexists. split; [done|]. apply le_range; [done|lia].
Qed.
Next Obligation.
  intros H m j Hm Hj. destruct (allowed_slot j H Hj) as [-> Ha]. cbn [ld guarded]. rewrite Ha. eexists. split; [done|]. by apply le_range.
Qed.
Next Obligation.
  intros H m o n x Hm Hn%sizes_range H0 H1 _. destruct (allowed_ctx o n H H0 ltac:(lia) H1) as [-> Ha]. cbn [st guarded]. rewrite Ha.
  eexists. split; [done|]. split; [apply store_bytes_ok; [apply le_bytes_ok|done]|].
  intros j Hj. destruct (allowed_slot j H Hj) as [-> Hb]. cbn [ld guarded]. rewrite Hb. unfold apart in H. change MAX_BPF_STACK_SIZE with 512 in H.
  by rewrite store_elsewhere by lia.
Qed.
Next Obligation.
  intros H m j x Hm Hj Hx. destruct (allowed_slot j H Hj) as [-> Ha]. cbn [ld st guarded]. rewrite Ha.
  eexists. split; [done|]. split; [apply store_bytes_ok; [apply le_bytes_ok|done]|]. split; [f_equal; by apply store_here|].
  intros i Hi Hne. destruct (allowed_slot i H Hi) as [-> Hb]. rewrite Hb. change 8%nat with (Z.to_nat 8). by rewrite store_elsewhere by lia.
Qed.
End Guarded.

(** ** Programs *)

Definition ldxb (d s o : Z) : ebpf_insn := mk_insn (BPF_LDX ∥ BPF_MEM ∥ BPF_B) d s o 0.
Definition ldxw (d s o : Z) : ebpf_insn := mk_insn (BPF_LDX ∥ BPF_MEM ∥ BPF_W) d s o 0.
Definition ldxdw (d s o : Z) : ebpf_insn := mk_insn (BPF_LDX ∥ BPF_MEM ∥ EBPF_DW) d s o 0.
Definition stxdw (d s o : Z) : ebpf_insn := mk_insn (BPF_STX ∥ BPF_MEM ∥ EBPF_DW) d s o 0.
Definition stdw (d o i : Z) : ebpf_insn := mk_insn (BPF_ST ∥ BPF_MEM ∥ EBPF_DW) d 0 o i.
Definition alu_k (op d i : Z) : ebpf_insn := mk_insn (EBPF_ALU64 ∥ op ∥ BPF_K) d 0 0 i.
Definition alu_x (op d s : Z) : ebpf_insn := mk_insn (EBPF_ALU64 ∥ op ∥ BPF_X) d s 0 0.
Definition jmp_k (op d o i : Z) : ebpf_insn := mk_insn (BPF_JMP ∥ op ∥ BPF_K) d 0 o i.
Definition jmp_x (op d s o : Z) : ebpf_insn := mk_insn (BPF_JMP ∥ op ∥ BPF_X) d s o 0.
Definition exit_insn : ebpf_insn := mk_insn (BPF_JMP ∥ EBPF_EXIT) 0 0 0 0.

(** An index from the context, checked, and a word at it, by way of the stack. *)
Definition indexed : list ebpf_insn :=
  [ldxb 2 1 0; alu_k EBPF_MOV 0 0; jmp_k BPF_JGT 2 5 59; jmp_k EBPF_JSGT 2 4 59; alu_x BPF_ADD 1 2; ldxw 3 1 1; stxdw 10 3 (-8); ldxdw 0 10 (-8); exit_insn].

(** A full word of the context taken for the number 0 or -1. *)
Definition full_load : list ebpf_insn := [ldxdw 2 1 0; alu_k BPF_ADD 2 5; alu_x BPF_ADD 1 2; ldxdw 0 1 0; exit_insn].
(** An address added to an address. *)
Definition two_addresses : list ebpf_insn := [alu_k EBPF_MOV 3 0; alu_x BPF_ADD 3 1; alu_x BPF_ADD 1 3; ldxb 0 1 0; exit_insn].
(** The lower bound of a conjunction. *)
Definition masked_index : list ebpf_insn := [ldxb 2 1 0; alu_k BPF_ADD 2 1; alu_k BPF_AND 2 1; alu_x BPF_ADD 1 2; ldxb 0 1 (-1); exit_insn].
(** A store across two words of the stack. *)
Definition unaligned : list ebpf_insn := [stdw 10 (-8) 0; stdw 10 (-12) (-1); ldxdw 2 10 (-8); alu_x BPF_ADD 1 2; ldxb 0 1 0; exit_insn].
(** An index compared with a register. *)
Definition compared : list ebpf_insn :=
  [ldxb 2 1 0; ldxb 3 1 1; alu_k EBPF_MOV 0 0; jmp_x EBPF_JSGT 2 3 3; jmp_x BPF_JGT 2 3 2; alu_x BPF_ADD 1 2; ldxb 0 1 63; exit_insn].
(** The second edge of the first instruction. *)
Definition first_jump : list ebpf_insn := [jmp_k BPF_JEQ 1 2 0; ldxdw 0 10 1000; exit_insn; alu_k EBPF_MOV 0 0; exit_insn].
Definition prms64 : BpfParams := {| xsym := []; prog_arg := mk_arg RTE_BPF_ARG_PTR 64 0 |}.


(** ** Properties *)

(** A program that is loaded was accepted. *)
Lemma load_validates {prms : BpfParams} {sys : BpfSystem} prog fuel : rte_bpf_load prog fuel = Ret 0 -> exists stack_sz, bpf_validate prog fuel = Ret (0, stack_sz).
Proof.
  unfold rte_bpf_load. destruct (negb _); [done|]. destruct (negb mmap_ok); [done|]. destruct (bpf_validate prog fuel) as [[rc sz]| | | |]; [|done..].
  destruct (Z.eqb_spec rc 0) as [->|Hne]; [by exists sz|]. intros [= H]. cbn [andb] in H. lia.
Qed.

(** C34. Memory safety of the verifier's second pass, for a fragment: a program that
    [rte_bpf_load] accepts runs to a return, on any registers and any memory that serves the
    context and the stack, and so makes no access elsewhere.  The fragment has 64-bit moves,
    additions, subtractions and shifts, negation, 64-bit constants, loads of one, two and four bytes from
    the context, stores of all sizes of numbers into it, aligned eight-byte words of the stack, and the jumps,
    those for signed "greater" and "less or equal" against a constant only.  It uses each
    register for one purpose; indices into the context may vary. *)
Theorem fragment_safe {mem} {env : BpfEnv mem} {prms : BpfParams} {sys : BpfSystem} (cb sz sb : Z) {safe : SafeMem env cb sz sb} (kinds : nat -> kind)
  (prog : list ebpf_insn) (vfuel fuel : nat) (rg : list Z) (m : mem)
  (Hsyms : xsym = []) (Harg : type prog_arg = RTE_BPF_ARG_PTR) (Hsz : size prog_arg = sz)
  (Hlen : 0 < Z.of_nat (length prog) < 2 ^ 31) (Hwf : forall ins, ins ∈ prog -> insn_wf ins) (Hcode : forall ins, ins ∈ prog -> code ins < 255)
  (Hfrag : in_fragment kinds prog = true) (Hok : rte_bpf_load prog vfuel = Ret 0)
  (Hreg : length rg = 11%nat) (Hm : mem_ok m) (Hcb : in_range 64 cb) (Hsb : in_range 64 (sb + MAX_BPF_STACK_SIZE)) (Hfuel : (length prog <= fuel)%nat) :
  exists x, snd (rte_bpf_exec prog fuel sb cb (rg, m)) = Ret x.
Proof.
  set (rg' := <[10%nat := sb + MAX_BPF_STACK_SIZE]> (<[1%nat := cb]> rg)).
  assert (length rg' = 11%nat) as Hl by (unfold rg'; by rewrite !length_insert).
  destruct (load_validates _ _ Hok) as [stack_sz Hv]. destruct (fragment_run cb sz sb kinds prog vfuel stack_sz (mk_bpf rg' 0 m)) as (s' & x & Hrun); try done.
  - intros [i ins] He. apply Hcode. apply program_nodes_lookup in He; [|done]. by eapply list_elem_of_lookup_2.
  - cbn [reg]. unfold rg'. rewrite list_lookup_insert_ne by done. rewrite list_lookup_insert_eq by lia. by rewrite wrap_small.
  - cbn [reg]. unfold rg'. rewrite list_lookup_insert_eq by (rewrite length_insert; lia). by rewrite wrap_small.
  - exists x. apply (bpf_run_more _ _ fuel) in Hrun; [|done]. unfold rte_bpf_exec. cbn [rte_bpf_exec_burst].
    unfold mbind, comp_bind. cbn [modify fst snd]. unfold bpf_exec at 1. cbn [fst snd]. fold rg'. by rewrite Hrun.
Qed.

(** Bytes of a context from 4096 on. *)
Definition bytes_7_9 (a : Z) : Z := if a =? 4096 then 7 else if a =? 4097 then 9 else 1.
Definition one_context (r : nat) : kind := match r with 1%nat => Ctx | 10%nat => Stk | _ => Raw end.

Example fragment_safe_witness :
  rte_bpf_load (prms := prms64) (sys := served) indexed 40 = Ret 0
  /\ exists x, snd (rte_bpf_exec (env := guarded 4096 64 65536) indexed 9 65536 4096 (replicate 11 0, bytes_7_9)) = Ret x.
Proof.
  split; [vm_compute; reflexivity|].
  assert (apart 4096 64 65536) as Hp by (unfold apart; change MAX_BPF_STACK_SIZE with 512; lia).
  assert (Hok : rte_bpf_load (prms := prms64) (sys := served) indexed 40 = Ret 0) by (vm_compute; reflexivity).
  refine (fragment_safe (prms := prms64) (sys := served) (safe := guarded_safe 4096 64 65536 Hp) 4096 64 65536 one_context indexed 40 9 (replicate 11 0) bytes_7_9
    eq_refl eq_refl eq_refl _ _ _ _ Hok eq_refl _ _ _ (le_n 9)).
  - cbn. lia.
  - intros ins Hin. unfold indexed in Hin. repeat (apply elem_of_cons in Hin as [->|Hin]; [vm_compute; repeat split; intros [=]|]). destruct (not_elem_of_nil _ Hin).
  - intros ins Hin. unfold indexed in Hin. repeat (apply elem_of_cons in Hin as [->|Hin]; [reflexivity|]). destruct (not_elem_of_nil _ Hin).
  - vm_compute. reflexivity.
  - intros x. unfold byte_ok, bytes_7_9. repeat case_match; lia.
  - unfold in_range. lia.
  - unfold in_range. change MAX_BPF_STACK_SIZE with 512. lia.
Defined.

(** The execution stops at a load outside the two objects. *)
Definition stray_load (cb sz sb : Z) (prog : list ebpf_insn) (r : option (bpf_state (Z -> Z) * bpf_stop)) : bool :=
  match r with
  | Some (s, Undefined) =>
      match prog !! Z.to_nat (pc s) with
      | Some ins =>
          match action_of (code ins), address s (src_reg ins) (off ins) with
          | Some (Load n), Some a => negb (allowed cb sz sb a n)
          | _, _ => false
          end
      | None => false
      end
  | _ => false
  end.

(** The registers that [rte_bpf_exec] starts with. *)
Definition first_regs (cb sb : Z) : list Z := <[10%nat := sb + MAX_BPF_STACK_SIZE]> (<[1%nat := cb]> (replicate 11 0)).

(** What the fragment leaves out: programs that [rte_bpf_load] accepts and whose
    execution reads outside the context and the stack.  They take a word of the context for
    a known number, add an address to an address, rely on the lower bound of a conjunction,
    on a store across two words of the stack, on a comparison with a register, or put the
    access behind the second edge of a first instruction that is a conditional jump, which
    [evaluate] never follows. *)
Theorem accepted_escapes :
  Forall (fun prog => rte_bpf_load (prms := prms64) (sys := served) prog 40 = Ret 0
                      /\ stray_load 4096 64 65536 prog (bpf_run (env := guarded 4096 64 65536) prog 40 (mk_bpf (first_regs 4096 65536) 0 bytes_7_9)) = true)
    [full_load; two_addresses; masked_index; unaligned; compared; first_jump].
Proof. repeat (apply Forall_cons; split; [split; vm_compute; reflexivity|]). apply Forall_nil_2. Qed.
