(* ===== verification/BpfPkt.v ===== *)
(** * Packet filters (lib/librte_bpf/bpf_pkt.c)

    The eBPF programs on the receive and transmit queues: what a filter does to a burst of
    packets, with the interpreter and with native code. *)

From S2P Require Import Prelude Effects Mbuf Bpf.

(** [mb[i]] for each [i] with [rc[i] != 0], and for the others. *)
Definition matched (mb rc : list Z) : list Z := (filter (fun x => snd x <> 0) (zip mb rc)).*1.
Definition unmatched (mb rc : list Z) : list Z := (filter (fun x => snd x = 0) (zip mb rc)).*1.

Section Pkt.
Context {P : Type} `{!MempoolOps P} {env : BpfEnv (store P)}.

Local Notation M := (comp (store P)).

(** The first loop of [apply_filter], from [i] and [j] on: the array, [dr], and [j]. *)
Fixpoint filter_loop (rc : list Z) (i j : nat) (mb dr : list Z) : M (list Z * list Z * nat) :=
  match rc with
  | [] => mret (mb, dr, j)
  | r :: rc =>
      m ← aread mb i;
      if negb (r =? 0) then filter_loop rc (S i) (S j) (<[j := m]> mb) dr
      else filter_loop rc (S i) j mb (dr ++ [m])
  end.

Fixpoint free_all (fuel : nat) (l : list Z) : M unit :=
  match l with [] => mret tt | m :: l => rte_pktmbuf_free fuel m ;; free_all fuel l end.

(** The array and the number of packets that are left. *)
Definition apply_filter (fuel : nat) (mb rc : list Z) (drop : bool) : M (list Z * Z) :=
  x ← filter_loop rc 0 0 mb [];
  let '(mb, dr, j) := x in
  if drop then free_all fuel dr ;; mret (mb, Z.of_nat j)
  else mret (list_inserts j dr mb, Z.of_nat j).

(** The interpreter, on registers that are not initialised. *)
Definition exec_burst (prog : list ebpf_insn) (fuel : nat) (stack : Z) (regs ctx : list Z) : M (list Z) := fun s =>
  let '((_, s'), o) := rte_bpf_exec_burst prog fuel stack ctx (regs, s) in (s', o).

(** The data address, [rte_pktmbuf_mtod]. *)
Definition mtod (p : Z) : M Z := m ← load p; mret (rte_pktmbuf_mtod_offset m 0).

Definition pkt_filter_vm (prog : list ebpf_insn) (xfuel fuel : nat) (stack : Z) (regs mb : list Z) (drop : bool) : M (list Z * Z) :=
  dp ← mapM mtod mb;
  rc ← exec_burst prog xfuel stack regs dp;
  apply_filter fuel mb rc drop.

Definition pkt_filter_mb_vm (prog : list ebpf_insn) (xfuel fuel : nat) (stack : Z) (regs mb : list Z) (drop : bool) : M (list Z * Z) :=
  rc ← exec_burst prog xfuel stack regs mb;
  apply_filter fuel mb rc drop.

(** [n] counts the packets that do not match. *)
Definition no_match (rc : list Z) : Z := Z.of_nat (length (filter (fun r => r = 0) rc)).

Definition pkt_filter_jit (func : Z -> M Z) (fuel : nat) (mb : list Z) (drop : bool) : M (list Z * Z) :=
  rc ← mapM (fun m => dp ← mtod m; func dp) mb;
  if negb (no_match rc =? 0) then apply_filter fuel mb rc drop else mret (mb, Z.of_nat (length mb)).

Definition pkt_filter_mb_jit (func : Z -> M Z) (fuel : nat) (mb : list Z) (drop : bool) : M (list Z * Z) :=
  rc ← mapM func mb;
  if negb (no_match rc =? 0) then apply_filter fuel mb rc drop else mret (mb, Z.of_nat (length mb)).

(** ** The filter *)

Lemma matched_cons m mb r rc : matched (m :: mb) (r :: rc) = if r =? 0 then matched mb rc else m :: matched mb rc.
Proof using. unfold matched. cbn [zip zip_with]. rewrite filter_cons. cbn [snd]. destruct (Z.eqb_spec r 0); [by rewrite decide_False by (intros H; done)|by rewrite decide_True]. Qed.

Lemma unmatched_cons m mb r rc : unmatched (m :: mb) (r :: rc) = if r =? 0 then m :: unmatched mb rc else unmatched mb rc.
Proof using. unfold unmatched. cbn [zip zip_with]. rewrite filter_cons. cbn [snd]. destruct (Z.eqb_spec r 0); [by rewrite decide_True|by rewrite decide_False]. Qed.

Lemma matched_perm mb rc : length mb = length rc -> matched mb rc ++ unmatched mb rc ≡ₚ mb.
Proof using.
  revert rc. induction mb as [|m mb IH]; intros [|r rc] Hl; try done. injection Hl as Hl.
  rewrite matched_cons, unmatched_cons. destruct (r =? 0); [by rewrite <- Permutation_middle, IH|cbn; by rewrite IH].
Qed.

Lemma matched_length mb rc : length mb = length rc -> (length (matched mb rc) + length (unmatched mb rc) = length mb)%nat.
Proof using. intros H. rewrite <- length_app. by rewrite matched_perm. Qed.

Lemma unmatched_length mb rc : length mb = length rc -> Z.of_nat (length (unmatched mb rc)) = no_match rc.
Proof using.
  revert rc. unfold no_match. induction mb as [|m mb IH]; intros [|r rc] Hl; try done. injection Hl as Hl. rewrite unmatched_cons, filter_cons.
  destruct (Z.eqb_spec r 0); [rewrite decide_True by done; cbn [length]; specialize (IH _ Hl); lia|rewrite decide_False by done; by apply IH].
Qed.

Local Ltac arr := first [done|by rewrite <- !app_assoc|cbn [length app]; rewrite !length_app; cbn [length]; lia].

(** The loop moves the packets that match to the front, over places it has read. *)
Lemma filter_loop_run rc pre mid post dr i j mb s : length post = length rc ->
  i = (length pre + length mid)%nat -> j = length pre -> mb = pre ++ mid ++ post ->
  filter_loop rc i j mb dr s
  = (s, Ret (pre ++ matched post rc ++ drop (length (matched post rc)) (mid ++ post), dr ++ unmatched post rc,
             (length pre + length (matched post rc))%nat)).
Proof using.
  revert pre mid post dr i j mb. induction rc as [|r rc IH]; intros pre mid post dr i j mb Hl -> -> ->.
  - destruct post; [|done]. cbn. by rewrite !app_nil_r, Nat.add_0_r.
  - destruct post as [|m post]; [done|]. injection Hl as Hl. cbn [filter_loop]. unfold aread.
    assert ((pre ++ mid ++ m :: post) !! (length pre + length mid)%nat = Some m) as -> by by rewrite app_assoc, <- length_app, list_lookup_middle.
    rewrite (bind_ret (mret m) _ s s m eq_refl). rewrite matched_cons, unmatched_cons. destruct (r =? 0); cbn [negb].
    + rewrite (IH pre (mid ++ [m]) post) by arr. by rewrite <- !app_assoc.
    + rewrite insert_app_r_alt by lia. rewrite Nat.sub_diag. cbn [length]. destruct mid as [|x mid]; cbn [app list_insert drop].
      * rewrite (IH (pre ++ [m]) [] post) by arr.
        rewrite length_app, <- app_assoc. cbn [length app]. by rewrite <- Nat.add_assoc.
      * rewrite (IH (pre ++ [m]) (mid ++ [m]) post) by arr.
        rewrite length_app, <- !app_assoc. cbn [length app]. by rewrite <- Nat.add_assoc.
Qed.

(** The filter: the packets that match come first, in their order; the others are freed, or
    follow in their order. *)
Lemma apply_filter_run fuel mb rc drp : length mb = length rc ->
  forall s, apply_filter fuel mb rc drp s =
    (if drp then free_all fuel (unmatched mb rc) ;; mret (matched mb rc ++ drop (length (matched mb rc)) mb, Z.of_nat (length (matched mb rc)))
     else mret (matched mb rc ++ unmatched mb rc, Z.of_nat (length (matched mb rc)))) s.
Proof using.
  intros Hl s. unfold apply_filter. rewrite (bind_ret _ _ _ _ _ (filter_loop_run rc [] [] mb [] 0 0 mb s Hl eq_refl eq_refl eq_refl)).
  cbn [app length Nat.add]. destruct drp; [done|]. cbv beta iota. unfold mret, comp_ret. repeat f_equal.
  pose proof (matched_length mb rc Hl) as Hm.
  replace (length (matched mb rc)) with (length (matched mb rc) + 0)%nat at 1 by lia. rewrite list_inserts_app_r. f_equal.
  rewrite <- (app_nil_r (drop _ mb)), list_inserts_0_r, app_nil_r by (rewrite length_drop; lia). done.
Qed.

Lemma all_matched mb rc : length mb = length rc -> no_match rc = 0 -> matched mb rc = mb /\ unmatched mb rc = [].
Proof using.
  intros Hl Hn. pose proof (unmatched_length mb rc Hl) as Hu. destruct (unmatched mb rc) eqn:He; [|cbn in Hu; lia]. split; [|done].
  revert rc Hl Hn Hu He. induction mb as [|m mb IH]; intros [|r rc] Hl Hn Hu He; try done. injection Hl as Hl. rewrite matched_cons. rewrite unmatched_cons in He.
  destruct (Z.eqb_spec r 0); [done|]. f_equal. unfold no_match in *. rewrite filter_cons, decide_False in Hn by done. by apply IH.
Qed.

Lemma apply_filter_all fuel mb rc drp s : length mb = length rc -> no_match rc = 0 ->
  apply_filter fuel mb rc drp s = (s, Ret (mb, Z.of_nat (length mb))).
Proof using.
  intros Hl Hn. rewrite apply_filter_run by done. destruct (all_matched mb rc Hl Hn) as [-> ->].
  destruct drp; cbn [free_all]; [rewrite (bind_ret (mret tt) _ s s tt eq_refl), drop_all|]; by rewrite app_nil_r.
Qed.

(** ** Interpreter and native code *)

Lemma bind_same {A B} (c : M A) (k k' : A -> M B) s : (forall s' a, c s = (s', Ret a) -> k a s' = k' a s') -> (c ≫= k) s = (c ≫= k') s.
Proof using. intros H. unfold mbind, comp_bind. destruct (c s) as [s' []]; try done. by apply H. Qed.

Lemma bind_eq {A B} (c c' : M A) (k : A -> M B) s : c s = c' s -> (c ≫= k) s = (c' ≫= k) s.
Proof using. intros H. unfold mbind, comp_bind. by rewrite H. Qed.

Lemma mapM_cons {A} (f : A -> M Z) x l s : mapM f (x :: l) s = (y ← f x; k ← mapM f l; mret (y :: k)) s.
Proof using. done. Qed.

Lemma mapM_ret_length {A} (f : A -> M Z) l s s' k : mapM f l s = (s', Ret k) -> length k = length l.
Proof using.
  revert s s' k. induction l as [|x l IH]; intros s s' k H; [by injection H as <- <-|]. rewrite mapM_cons in H.
  apply bind_ret_inv in H as (s1 & y & _ & H). apply bind_ret_inv in H as (s2 & k' & Hk & H). injection H as <- <-. cbn. f_equal. by eapply IH.
Qed.

Context (prog : list ebpf_insn) (xfuel : nat) (stack : Z) (func : Z -> M Z).
(** Native code does what the interpreter does, and leaves the records of the buffers alone. *)
Context (Hfunc : forall regs c s, length regs = 11%nat -> exists regs', length regs' = 11%nat
  /\ bpf_exec prog xfuel (<[10%nat := stack + MAX_BPF_STACK_SIZE]> (<[1%nat := c]> regs), s) = ((regs', fst (func c s)), snd (func c s))).

Lemma exec_burst_func cs regs s : length regs = 11%nat -> exec_burst prog xfuel stack regs cs s = mapM func cs s.
Proof using Hfunc.
  revert regs s. induction cs as [|c cs IH]; intros regs s Hl; [done|]. rewrite mapM_cons. unfold exec_burst. cbn [rte_bpf_exec_burst].
  destruct (Hfunc regs c s Hl) as (regs' & Hl' & He). unfold mbind, comp_bind. cbn [modify fst snd]. rewrite He.
  destruct (func c s) as [s1 o]. cbn [fst snd]. destruct o; cbn [reraise]; try done.
  specialize (IH regs' s1 Hl'). unfold exec_burst in IH. destruct (rte_bpf_exec_burst prog xfuel stack cs (regs', s1)) as [[r2 s2] o2].
  apply (f_equal (fun x : store P * outcome (list Z) => let (s', o) := x in match o with Ret l => (s', Ret (a :: l)) | o => (s', reraise o) end)) in IH.
  etransitivity; [|exact IH]. by destruct o2.
Qed.

Lemma mtod_run s m r : mbufs s !! m = Some r -> mtod m s = (s, Ret (rte_pktmbuf_mtod_offset r 0)).
Proof using. intros H. unfold mtod. erewrite bind_ret; [reflexivity|]. unfold load. erewrite bind_ret; [|reflexivity]. by rewrite H. Qed.

Lemma mtod_all mb (s : store P) : (forall x, x ∈ mb -> is_Some (mbufs s !! x)) ->
  exists dps, forall s' : store P, mbufs s' = mbufs s -> mapM mtod mb s' = (s', Ret dps).
Proof using.
  induction mb as [|m mb IH]; intros Hv; [by exists []|]. destruct (Hv m) as [r Hr]; [apply elem_of_cons; by left|].
  destruct IH as [dps Hdps]; [intros x Hx; apply Hv, elem_of_cons; by right|]. exists (rte_pktmbuf_mtod_offset r 0 :: dps). intros s' Hs'.
  rewrite mapM_cons, (bind_ret _ _ _ _ _ (mtod_run s' m r ltac:(by rewrite Hs'))). by rewrite (bind_ret _ _ _ _ _ (Hdps s' Hs')).
Qed.

Context (Hkeep : forall c s, mbufs (fst (func c s)) = mbufs s).

(** Asking for all addresses first makes no difference. *)
Lemma mapM_mtod mb s : (forall m, m ∈ mb -> is_Some (mbufs s !! m)) ->
  mapM (fun m => dp ← mtod m; func dp) mb s = (dps ← mapM mtod mb; mapM func dps) s.
Proof using Hkeep.
  revert s. induction mb as [|m mb IH]; intros s Hv; [done|].
  destruct (Hv m) as [r Hr]; [apply elem_of_cons; by left|].
  destruct (mtod_all mb s) as [dps Hdps]; [intros x Hx; apply Hv, elem_of_cons; by right|].
  assert (mapM mtod (m :: mb) s = (s, Ret (rte_pktmbuf_mtod_offset r 0 :: dps))) as Hall.
  { rewrite mapM_cons, (bind_ret _ _ _ _ _ (mtod_run s m r Hr)). by rewrite (bind_ret _ _ _ _ _ (Hdps s eq_refl)). }
  rewrite (bind_ret _ _ _ _ _ Hall), !mapM_cons, bind_assoc, (bind_ret _ _ _ _ _ (mtod_run s m r Hr)).
  apply bind_same. intros s1 y Hy. apply bind_eq. pose proof (Hkeep (rte_pktmbuf_mtod_offset r 0) s) as Hk. rewrite Hy in Hk. cbn [fst] in Hk.
  rewrite <- (bind_ret _ (fun dps => mapM func dps) _ _ _ (Hdps s1 Hk)). apply IH. intros x Hx. rewrite Hk. apply Hv, elem_of_cons. by right.
Qed.
End Pkt.

(** ** Properties *)

(** C37. A packet filter runs the program on the data of each packet of the burst and puts the
    packets for which it returns a number other than zero first, in their order; the others
    are freed in their order, on receive queues, or follow, on transmit queues.  Native code
    that does what the interpreter does gives the same filter, its shortcut for bursts that
    match throughout included. *)
Theorem pkt_filter_correct {P : Type} `{!MempoolOps P} {env : BpfEnv (store P)} (prog : list ebpf_insn) (xfuel fuel : nat) (stack : Z)
  (func : Z -> comp (store P) Z) (regs mb : list Z) (drp : bool) (s : store P)
  (Hfunc : forall regs c s, length regs = 11%nat -> exists regs', length regs' = 11%nat
     /\ bpf_exec prog xfuel (<[10%nat := stack + MAX_BPF_STACK_SIZE]> (<[1%nat := c]> regs), s) = ((regs', fst (func c s)), snd (func c s)))
  (Hkeep : forall c s, mbufs (fst (func c s)) = mbufs s) (Hregs : length regs = 11%nat) (Hbufs : forall m, m ∈ mb -> is_Some (mbufs s !! m)) :
  pkt_filter_jit func fuel mb drp s = pkt_filter_vm prog xfuel fuel stack regs mb drp s
  /\ pkt_filter_vm prog xfuel fuel stack regs mb drp s =
       (rc ← mapM (fun m => dp ← mtod m; func dp) mb;
        if drp then free_all fuel (unmatched mb rc) ;; mret (matched mb rc ++ drop (length (matched mb rc)) mb, Z.of_nat (length (matched mb rc)))
        else mret (matched mb rc ++ unmatched mb rc, Z.of_nat (length (matched mb rc)))) s
  /\ forall rc, length mb = length rc -> matched mb rc ++ unmatched mb rc ≡ₚ mb.
Proof.
  assert (pkt_filter_vm prog xfuel fuel stack regs mb drp s = (rc ← mapM (fun m => dp ← mtod m; func dp) mb; apply_filter fuel mb rc drp) s) as Hvm.
  { unfold pkt_filter_vm. transitivity (((dps ← mapM mtod mb; mapM func dps) ≫= fun rc => apply_filter fuel mb rc drp) s).
    - rewrite bind_assoc. apply bind_same. intros s' dps _. apply bind_eq. by apply exec_burst_func.
    - apply bind_eq. symmetry. by apply mapM_mtod. }
  assert (forall s' rc, mapM (fun m => dp ← mtod m; func dp) mb s = (s', Ret rc) -> length mb = length rc) as Hlen
    by (intros s' rc H; symmetry; by eapply mapM_ret_length).
  rewrite Hvm. split_and!.
  - apply bind_same. intros s' rc H. destruct (Z.eqb_spec (no_match rc) 0) as [Hn|]; [|done]. cbn [negb].
    rewrite apply_filter_all by eauto. done.
  - apply bind_same. intros s' rc H. apply apply_filter_run. by eapply Hlen.
  - intros rc Hl. by apply matched_perm.
Qed.

(** The first byte of a packet, read by a program and by native code. *)
Definition first_byte : list ebpf_insn := [mk_insn (BPF_LDX ∥ BPF_MEM ∥ BPF_B) 0 1 0 0; mk_insn (BPF_JMP ∥ EBPF_EXIT) 0 0 0 0].
Definition data_env : BpfEnv (store list_pools) :=
  {| ld := fun s a _ => Some (mem s a); st := fun _ _ _ _ => None; xsym_func := fun _ _ _ => None |}.
Definition native_first_byte (c : Z) : comp (store list_pools) Z := fun s => (s, Ret (mem s (u64 (c + 0)))).
Definition two_packets : store list_pools := example_store <| mem := fun a => if a =? 5056 then 0 else 1 |>.

Example pkt_filter_correct_witness :
  pkt_filter_jit native_first_byte 2 [4096; 8192] false two_packets
    = pkt_filter_vm (env := data_env) first_byte 2 2 0 (replicate 11 0) [4096; 8192] false two_packets
  /\ snd (pkt_filter_jit native_first_byte 2 [4096; 8192] false two_packets) = Ret ([8192; 4096], 1).
Proof.
  split; [|reflexivity].
  refine (proj1 (pkt_filter_correct (env := data_env) first_byte 2 2 0 native_first_byte (replicate 11 0) [4096; 8192] false two_packets _ _ eq_refl _)).
  - intros regs c s Hl. do 11 (destruct regs as [|? regs]; [done|]). destruct regs; [|done]. eexists. split; [|reflexivity]. reflexivity.
  - done.
  - intros m Hm. repeat (apply elem_of_cons in Hm as [->|Hm]; [by eexists|]). destruct (not_elem_of_nil _ Hm).
Defined.
