(* ===== verification/BpfHooks.v ===== *)
(** * Loading and unloading of packet filters at run time (lib/librte_bpf/bpf_pkt.c)

    One queue with its [struct bpf_eth_cbi], a thread that polls the queue and a thread that
    loads and unloads programs, whose accesses to the structure interleave.  The lock allows
    one loading thread at a time; the accesses of a thread take effect in program order,
    which the barriers ask for.  A run of a program on one packet is one step; a program whose
    runs do not return keeps its callback. *)

From stdpp Require Import relations.
From S2P Require Import Prelude Bpf BpfEval.

Definition EINVAL : Z := 22.
Definition ENOMEM : Z := 12.
Definition ENOTSUP : Z := 95.
Definition RTE_BPF_ETH_F_JIT : Z := 0x1.
Definition BPF_ETH_CBI_INUSE : Z := 1.

(** ** Data *)

(** The callback functions of a direction: native code or interpreter, for packet data or
    for packet buffers. *)
Inductive callback := Cb_jit | Cb_mb_jit | Cb_vm | Cb_mb_vm.
#[export] Instance callback_eq_dec : EqDecision callback.
Proof. solve_decision. Defined.

(** The same choice on receive and on transmit queues. *)
Definition select_callback (type flags : Z) : option callback :=
  if negb (Z.land flags RTE_BPF_ETH_F_JIT =? 0) then
    if type =? RTE_BPF_ARG_PTR then Some Cb_jit else if type =? RTE_BPF_ARG_PTR_MBUF then Some Cb_mb_jit else None
  else if type =? RTE_BPF_ARG_PTR then Some Cb_vm
  else if type =? RTE_BPF_ARG_PTR_MBUF then Some Cb_mb_vm else None.

Definition uses_jit (k : callback) : bool := match k with Cb_jit | Cb_mb_jit => true | _ => false end.
Definition takes_mbuf (k : callback) : bool := match k with Cb_mb_jit | Cb_mb_vm => true | _ => false end.

(** A loaded program: its mapping, the type of its argument, whether it has native code, and
    whether its runs return ([BpfRun.v] has accepted programs of both kinds). *)
Record program := mk_prog { addr : Z; prog_type : Z; has_jit : bool; returns : bool }.
#[export] Instance program_eq_dec : EqDecision program.
Proof. solve_decision. Defined.

(** Where the polling thread is in a callback for a burst of [n] packets; in [D_run] the
    program [p] runs on a packet that has [n] others behind it. *)
Inductive data_pc :=
| D_idle
| D_called (k : callback) (n : nat)
| D_in (k : callback) (n : nat)
| D_checked (k : callback) (n : nat)
| D_run (k : callback) (p : option program) (n : nat)
| D_out.

(** What follows the unloading of a program: nothing, or the installation of another with
    the error of [rte_eth_add_rx_callback] or its counterpart, 0 if it succeeds. *)
Definition next_load : Type := option (callback * program * Z).

Inductive ctl_pc :=
| C_idle
| C_remove (a : next_load)
| C_clear (a : next_load)
| C_read (a : next_load)
| C_wait (a : next_load) (puse : Z)
| C_destroy (a : next_load)
| C_cleanup_bpf (a : next_load)
| C_cleanup_jit (a : next_load)
| C_set_bpf (k : callback) (p : program) (e : Z)
| C_set_jit (k : callback) (p : program) (e : Z)
| C_add (k : callback) (p : program) (e : Z)
| C_cb (k : callback) (p : program)
| C_fail (p : program)
| C_fail_bpf
| C_fail_jit.

(** [cb] is whether the handle is set, [chain] the callbacks of this structure in the list
    of the queue, in order, of which the last belongs to the handle, [present] whether the structure was allocated, [live] the mappings of
    programs that were not destroyed, [rc] the result of the last load. *)
Record hook := mk_hook {
  use : Z;
  cb : bool;
  bpf : option program;
  jit : option program;
  chain : list callback;
  present : bool;
  live : gset Z;
  data : data_pc;
  ctl : ctl_pc;
  rc : Z }.

Definition init : hook := mk_hook 0 false None None [] false ∅ D_idle C_idle 0.

(** ** The polling thread *)

Definition bpf_eth_cbi_inuse (s : hook) : hook := s <| use := u32 (use s + 1) |>.
Definition bpf_eth_cbi_unuse (s : hook) : hook := s <| use := u32 (use s + 1) |>.

Definition selected (k : callback) (s : hook) : option program := if uses_jit k then jit s else bpf s.

(** Its next step: for a burst of [nb_pkts] packets it calls the [i]-th callback.  The interpreter is
    given the program once; native code is looked up for each packet.  A program that does
    not return keeps the thread where it is; one that is missing stops it. *)
Definition data_step (i nb_pkts : nat) (s : hook) : option hook :=
  match data s with
  | D_idle => k ← chain s !! i; Some (s <| data := D_called k nb_pkts |>)
  | D_called k n => Some ((bpf_eth_cbi_inuse s) <| data := D_in k n |>)
  | D_in k n => Some (s <| data := if cb s then D_checked k n else D_out |>)
  | D_checked k O => Some (s <| data := D_out |>)
  | D_checked k (S n) => Some (s <| data := D_run k (selected k s) n |>)
  | D_run k None _ => None
  | D_run k (Some p) n =>
      if returns p then
        Some (s <| data := match n with O => D_out | S n => D_run k (if uses_jit k then jit s else Some p) n end |>)
      else Some s
  | D_out => Some ((bpf_eth_cbi_unuse s) <| data := D_idle |>)
  end.

(** ** The loading thread *)

Definition rte_bpf_destroy (p : program) (s : hook) : hook := s <| live := live s ∖ {[addr p]} |>.

Definition after_unload (a : next_load) : ctl_pc := match a with None => C_idle | Some (k, p, e) => C_set_bpf k p e end.

(** The next access of [bpf_eth_unload], [bpf_eth_cbi_unload], [bpf_eth_cbi_wait],
    [bpf_eth_cbi_cleanup] and of the end of [bpf_eth_elf_load].  [removed] is whether
    [rte_eth_remove_rx_callback] or its counterpart finds the callback, which the code
    does not look at. *)
Definition ctl_step (removed : bool) (s : hook) : option hook :=
  match ctl s with
  | C_idle => None
  | C_remove a => Some (if cb s then s <| chain := if removed then removelast (chain s) else chain s |> <| ctl := C_clear a |> else s <| ctl := after_unload a |>)
  | C_clear a => Some (s <| cb := false |> <| ctl := C_read a |>)
  | C_read a => Some (s <| ctl := if negb (Z.land (use s) BPF_ETH_CBI_INUSE =? 0) then C_wait a (use s) else C_destroy a |>)
  | C_wait a puse => Some (if use s =? puse then s else s <| ctl := C_destroy a |>)
  | C_destroy a => Some ((match bpf s with Some p => rte_bpf_destroy p s | None => s end) <| ctl := C_cleanup_bpf a |>)
  | C_cleanup_bpf a => Some (s <| bpf := None |> <| ctl := C_cleanup_jit a |>)
  | C_cleanup_jit a => Some (s <| jit := None |> <| ctl := after_unload a |>)
  | C_set_bpf k p e => Some (s <| bpf := Some p |> <| ctl := C_set_jit k p e |>)
  | C_set_jit k p e => Some (s <| jit := if has_jit p then Some p else None |> <| ctl := C_add k p e |>)
  | C_add k p e =>
      Some (if e =? 0 then s <| chain := chain s ++ [k] |> <| ctl := C_cb k p |> else s <| cb := false |> <| rc := - e |> <| ctl := C_fail p |>)
  | C_cb k p => Some (s <| cb := true |> <| rc := 0 |> <| ctl := C_idle |>)
  | C_fail p => Some ((rte_bpf_destroy p s) <| ctl := C_fail_bpf |>)
  | C_fail_bpf => Some (s <| bpf := None |> <| ctl := C_fail_jit |>)
  | C_fail_jit => Some (s <| jit := None |> <| ctl := C_idle |>)
  end.

(** A call of [rte_bpf_eth_*_elf_load] with what its environment answers: whether port and
    queue exist, the type and the flags, the error of [rte_bpf_elf_load] or the program,
    whether [rte_zmalloc] succeeds, and the error of adding the callback. *)
Record load_call := mk_load { queue_ok : bool; type_arg : Z; flags : Z; elf : Z + Z * bool * bool; zmalloc_ok : bool; add_errno : Z }.
Inductive request := Unload | Load (l : load_call).

(** The part of a call before the structure is changed; a new program has a mapping of its own. *)
Definition start (r : request) (s : hook) : option hook :=
  match ctl s, r with
  | C_idle, Unload => Some (if present s then s <| ctl := C_remove None |> else s)
  | C_idle, Load l =>
      if negb (queue_ok l) then Some (s <| rc := - EINVAL |>)
      else match select_callback (type_arg l) (flags l) with
      | None => Some (s <| rc := - EINVAL |>)
      | Some k =>
          match elf l with
          | inl e => Some (s <| rc := - e |>)
          | inr (a, has_jit, returns) =>
              if decide (a ∈ live s) then None
              else if negb (Z.land (flags l) RTE_BPF_ETH_F_JIT =? 0) && negb has_jit then Some (s <| rc := - ENOTSUP |>)
              else
                let s := s <| live := live s ∪ {[a]} |> in
                if negb (present s) && negb (zmalloc_ok l) then Some (s <| rc := - ENOMEM |>)
                else Some (s <| present := true |> <| ctl := C_remove (Some (k, mk_prog a (type_arg l) has_jit returns, add_errno l)) |>)
          end
      end
  | _, _ => None
  end.

(** ** Executions *)

Inductive event := Data (i nb_pkts : nat) | Ctl (removed : bool) | Start (r : request).

Definition do_event (e : event) (s : hook) : option hook :=
  match e with Data i nb => data_step i nb s | Ctl removed => ctl_step removed s | Start r => start r s end.

Section Steps.
Context (allowed : request -> Prop).

Definition step (s s' : hook) : Prop :=
  exists e, do_event e s = Some s' /\ match e with Start r => allowed r | _ => True end.
Definition reachable (s : hook) : Prop := rtc step init s.
End Steps.

Fixpoint run_events (es : list event) (s : hook) : option hook :=
  match es with [] => Some s | e :: es => do_event e s ≫= run_events es end.

(** ** The invariant *)

Section Invariant.
Context (allowed : request -> Prop).

(** The polling thread is between the two changes of [use]. *)
Definition inside (d : data_pc) : bool := match d with D_in _ _ | D_checked _ _ | D_run _ _ _ | D_out => true | _ => false end.
(** It uses, or is about to use, the program. *)
Definition running (d : data_pc) : bool := match d with D_checked _ _ | D_run _ _ _ => true | _ => false end.

Definition native (p : program) : option program := if has_jit p then Some p else None.
Definition installed (p : program) (s : hook) : Prop := bpf s = Some p /\ jit s = native p.
Definition vacant (s : hook) : Prop := bpf s = None /\ jit s = None.

Definition addrs (o : option program) : gset Z := match o with Some p => {[addr p]} | None => ∅ end.
Definition pending (a : next_load) : gset Z := match a with Some (_, p, _) => {[addr p]} | None => ∅ end.

(** The mappings that the structure and the call in progress hold. *)
Definition owned (s : hook) : gset Z :=
  match ctl s with
  | C_idle => addrs (bpf s)
  | C_remove a | C_clear a | C_read a | C_wait a _ | C_destroy a => addrs (bpf s) ∪ pending a
  | C_cleanup_bpf a | C_cleanup_jit a => pending a
  | C_set_bpf _ p _ | C_set_jit _ p _ | C_add _ p _ | C_cb _ p | C_fail p => {[addr p]}
  | C_fail_bpf | C_fail_jit => ∅
  end.

(** The pending program has another mapping than the installed one. *)
Definition apart (s : hook) (a : next_load) : Prop := addrs (bpf s) ## pending a.

(** What the loading thread knows at each place. *)
Definition ctl_ok (s : hook) : Prop :=
  match ctl s with
  | C_idle => cb s = false -> vacant s
  | C_remove a => (cb s = false -> vacant s) /\ apart s a
  | C_clear a => cb s = true /\ apart s a
  | C_read a => cb s = false /\ (exists p, installed p s) /\ apart s a
  | C_wait a q => cb s = false /\ (exists p, installed p s) /\ apart s a /\ Z.odd q = true /\ 0 <= q < 2 ^ 32
  | C_destroy a => cb s = false /\ apart s a
  | C_cleanup_bpf _ | C_set_bpf _ _ _ | C_set_jit _ _ _ | C_fail_bpf | C_fail _ => cb s = false
  | C_cleanup_jit _ | C_fail_jit => cb s = false /\ bpf s = None
  | C_add _ p _ | C_cb _ p => cb s = false /\ installed p s
  end
  /\ match ctl s with C_set_bpf _ _ _ => vacant s | C_set_jit _ p _ => bpf s = Some p | _ => True end.

(** A program that is used stays in place: the handle is set, or its unloading has not passed
    the wait for this use. *)
Definition held (s : hook) : Prop :=
  cb s = true \/ match ctl s with C_read _ => True | C_wait _ q => q = use s | _ => False end.

Record inv (s : hook) : Prop := {
  inv_use : 0 <= use s < 2 ^ 32;
  inv_odd : Z.odd (use s) = inside (data s);
  inv_cb : cb s = true -> exists p, installed p s;
  inv_ctl : ctl_ok s;
  inv_held : running (data s) = true -> held s;
  inv_run : match data s with D_run k o _ => o = selected k s | _ => True end;
  inv_live : exists lost, live s = owned s ∪ lost /\ owned s ## lost
    /\ ((forall l, allowed (Load l) -> zmalloc_ok l = true) -> lost = ∅) }.

Lemma u32_succ_range x : 0 <= u32 (x + 1) < 2 ^ 32.
Proof using. apply Z.mod_pos_bound. lia. Qed.

Lemma u32_succ_odd x : 0 <= x < 2 ^ 32 -> Z.odd (u32 (x + 1)) = negb (Z.odd x).
Proof using.
  intros Hx. unfold wrap. destruct (decide (x = 2 ^ 32 - 1)) as [->|]; [reflexivity|].
  rewrite Z.mod_small by lia. rewrite Z.add_1_r, Z.odd_succ, <- Z.negb_odd. done.
Qed.

Lemma u32_succ_ne x : 0 <= x < 2 ^ 32 -> u32 (x + 1) <> x.
Proof using. intros Hx He. pose proof (u32_succ_odd x Hx) as H. rewrite He in H. by destruct (Z.odd x). Qed.

Lemma inuse_odd x : negb (Z.land x BPF_ETH_CBI_INUSE =? 0) = Z.odd x.
Proof using. change BPF_ETH_CBI_INUSE with (Z.ones 1). rewrite (Z.land_ones x 1) by lia. change (2 ^ 1) with 2. rewrite Zmod_odd. by destruct (Z.odd x). Qed.

Lemma inv_init : inv init.
Proof using. constructor; cbn; try done; exists ∅; set_solver. Qed.

Local Ltac open s H :=
  destruct s as [u c b j ch pr lv d ct r]; destruct H as [Hu Ho Hcb Hctl Hheld Hrun Hlive];
  cbn [use cb bpf jit chain present live data ctl rc] in *.

Lemma inv_data i nb s s' : inv s -> data_step i nb s = Some s' -> inv s'.
Proof using.
  intros H Hs. open s H. unfold data_step in Hs. cbn [data chain] in Hs. destruct d as [|k n|k n|k n|k o n|].
  - destruct (ch !! i) as [k|]; [|done]. injection Hs as <-. by split.
  - injection Hs as <-. split; cbn in *; try done; [apply u32_succ_range|by rewrite u32_succ_odd, Ho].
  - injection Hs as <-. destruct c; split; cbn in *; try done. by left.
  - destruct n as [|n]; injection Hs as <-; by split.
  - destruct o as [p|]; [|done]. destruct (returns p); [|by injection Hs as <-; split].
    destruct n as [|n]; injection Hs as <-; split; cbn in *; try done. rewrite Hrun. unfold selected. cbn. by destruct (uses_jit k).
  - injection Hs as <-. split; cbn in *; try done; [apply u32_succ_range|by rewrite u32_succ_odd, Ho].
Qed.

(** The parts of the invariant that do not speak of mappings. *)
Local Ltac plain := unfold ctl_ok, held, installed, vacant, apart, owned, selected in *; cbn - [Z.odd union] in *.
Local Ltac parts Hlive :=
  constructor; plain; try done;
  match goal with |- exists l : gset Z, _ => idtac | _ => clear Hlive; try solve [intuition (subst; eauto; congruence)] end.

Local Ltac norun d Hheld :=
  assert (running d = false) as Hno by (subst; destruct (running d); [destruct (Hheld eq_refl) as [|[]]; done|done]).

Lemma inv_ctl_step removed s s' : inv s -> ctl_step removed s = Some s' -> inv s'.
Proof using.
  intros H Hs. open s H. unfold ctl_step in Hs. cbn [ctl] in Hs. plain. destruct Hctl as [Hctl Hctl'].
  destruct ct as [|a|a|a|a q|a|a|a|k p e|k p e|k p e|k p|p| |]; [done|..]; injection Hs as <-; cbn in *.
  - destruct c; cbn; [by parts Hlive|]. destruct Hctl as [He _]. destruct (He eq_refl) as [-> ->].
    cbn in Hlive. rewrite left_id_L in Hlive by apply _. destruct a as [[[k p] e]|]; cbn in *; parts Hlive.
  - destruct Hctl as [-> Ha]. destruct (Hcb eq_refl) as [p Hp]. parts Hlive.
  - rewrite inuse_odd. destruct (Z.odd u) eqn:Hodd; parts Hlive. intros Hx. by destruct d.
  - destruct (Z.eqb_spec u q) as [->|Hne]; [by split|]. parts Hlive.
  - destruct Hctl as [-> Ha]. norun d Hheld. destruct b as [p|]; parts Hlive; destruct Hlive as (lost & -> & Hd & Hn); exists lost; set_solver.
  - norun d Hheld. parts Hlive. by destruct d.
  - destruct Hctl as [-> ->]. norun d Hheld. destruct a as [[[k p] e]|]; parts Hlive; by destruct d.
  - norun d Hheld. parts Hlive. by destruct d.
  - norun d Hheld. parts Hlive. by destruct d.
  - destruct (e =? 0); parts Hlive.
  - destruct Hctl as (-> & -> & ->). parts Hlive.
  - norun d Hheld. destruct Hlive as (lost & -> & Hd & Hn). parts Hn. exists lost. set_solver.
  - norun d Hheld. parts Hlive. by destruct d.
  - destruct Hctl as [-> ->]. norun d Hheld. parts Hlive. by destruct d.
Qed.

Lemma inv_start q s s' : inv s -> allowed q -> start q s = Some s' -> inv s'.
Proof using.
  intros H Ha Hs. open s H. unfold start in Hs. cbn [ctl present live] in Hs. plain. destruct Hctl as [Hctl _].
  destruct ct; try done. destruct q as [|l].
  - injection Hs as <-. cbn in *. destruct pr; cbn; parts Hlive. by rewrite right_id_L by apply _.
  - destruct (negb (queue_ok l)); [injection Hs as <-; by parts Hlive|].
    destruct (select_callback _ _) as [k|]; [|injection Hs as <-; by parts Hlive].
    destruct (elf l) as [e|[[a has] ret]]; [injection Hs as <-; by parts Hlive|].
    destruct (decide (a ∈ lv)) as [|Hfresh]; [done|].
    destruct (_ && negb has); [injection Hs as <-; by parts Hlive|]. destruct Hlive as (lost & -> & Hd & Hn).
    destruct (negb pr && negb (zmalloc_ok l)) eqn:Hz; injection Hs as <-; cbn in *; parts Hn.
    + exists (lost ∪ {[a]}). split_and!; [set_solver|set_solver|]. intros Hall. rewrite (Hall l Ha), andb_false_r in Hz. done.
    + split; [|done]. split; [done|]. set_solver.
    + exists lost. set_solver.
Qed.

Lemma inv_reachable s : reachable allowed s -> inv s.
Proof using.
  intros H. unfold reachable in H. assert (forall s1, rtc (step allowed) s1 s -> inv s1 -> inv s) as Hind; [|exact (Hind _ H inv_init)].
  clear H. induction 1 as [|s1 s2 s3 (e & He & Ha) _ IH]; [done|]. intros Hi. apply IH.
  destruct e as [i nb|removed|q]; [by eapply inv_data|by eapply inv_ctl_step|by eapply inv_start].
Qed.

(** ** The kind of the callback *)

Context (k0 : callback) (t : Z).
Context (Hone : forall l, allowed (Load l) -> type_arg l = t /\ select_callback (type_arg l) (flags l) = Some k0).

Lemma elem_of_removelast (k : callback) l : (forall x, x ∈ l -> x = k0) -> k ∈ removelast l -> k = k0.
Proof using.
  intros H Hk. apply H. destruct (decide (l = [])) as [->|Hne]; [done|]. rewrite (app_removelast_last k0 Hne). apply elem_of_app. by left.
Qed.

(** A program that callback [k0] can run. *)
Definition suits (p : program) : Prop := prog_type p = t /\ (uses_jit k0 = true -> has_jit p = true).
Definition suits_next (a : next_load) : Prop := match a with Some (k, p, _) => k = k0 /\ suits p | None => True end.

Record kind_inv (s : hook) : Prop := {
  kind_chain : forall k, k ∈ chain s -> k = k0;
  kind_data : match data s with D_called k _ | D_in k _ | D_checked k _ | D_run k _ _ => k = k0 | _ => True end;
  kind_bpf : forall p, bpf s = Some p -> suits p;
  kind_ctl : match ctl s with
    | C_remove a | C_clear a | C_read a | C_wait a _ | C_destroy a | C_cleanup_bpf a | C_cleanup_jit a => suits_next a
    | C_set_bpf k p _ | C_set_jit k p _ | C_add k p _ | C_cb k p => k = k0 /\ suits p
    | _ => True
    end }.

Lemma select_uses_jit type fl k : select_callback type fl = Some k -> uses_jit k = negb (Z.land fl RTE_BPF_ETH_F_JIT =? 0).
Proof using. unfold select_callback. repeat case_match; intros [= <-]; done. Qed.

Local Ltac open_kind s H :=
  destruct s as [u c b j ch pr lv d ct r]; destruct H as [Hch Hd Hb Hct]; cbn [use cb bpf jit chain present live data ctl rc] in *.

Lemma kind_step s s' : kind_inv s -> step allowed s s' -> kind_inv s'.
Proof using Hone.
  intros H (e & Hs & Ha). open_kind s H. destruct e as [i nb|removed|q]; cbn in Hs.
  - unfold data_step in Hs. cbn in Hs. destruct d as [|k n|k n|k n|k o n|].
    + destruct (ch !! i) as [k|] eqn:Hk; [|done]. injection Hs as <-. split; cbn; auto. by eapply Hch, list_elem_of_lookup_2.
    + injection Hs as <-. split; cbn; auto.
    + injection Hs as <-. split; cbn; auto. by destruct c.
    + destruct n; injection Hs as <-; split; cbn; auto.
    + destruct o as [p|]; [|done]. destruct (returns p); [|injection Hs as <-; by split]. destruct n; injection Hs as <-; split; cbn; auto.
    + injection Hs as <-. split; cbn; auto.
  - assert (forall k, k ∈ (if removed then removelast ch else ch) -> k = k0) as Hrm
      by (intros k Hk; destruct removed; [by eapply elem_of_removelast|by apply Hch]).
    assert (forall k, k ∈ ch ++ [k0] -> k = k0) as Hadd by (intros k [Hk|Hk%list_elem_of_singleton]%elem_of_app; auto).
    unfold ctl_step in Hs. cbn in Hs. destruct ct as [|a|a|a|a q|a|a|a|k p e|k p e|k p e|k p|p| |]; [done|..]; injection Hs as <-.
    all: try (destruct a as [[[k p] e]|]); try destruct c; try destruct b; try destruct (_ =? _); try destruct (negb _).
    all: split; cbn in *; try done; auto. all: intros; simplify_eq; naive_solver.
  - unfold start in Hs. cbn in Hs. destruct ct; try done. destruct q as [|l]; [destruct pr; injection Hs as <-; by split|].
    destruct (Hone l Ha) as [Ht Hk]. rewrite Hk in Hs. pose proof (select_uses_jit _ _ _ Hk) as Hj.
    destruct (negb (queue_ok l)); [injection Hs as <-; by split|]. destruct (elf l) as [x|[[a has] ret]]; [injection Hs as <-; by split|].
    destruct (decide (a ∈ lv)); [done|]. rewrite <- Hj in Hs. destruct (uses_jit k0 && negb has) eqn:Hh; [injection Hs as <-; by split|].
    destruct (negb pr && negb (zmalloc_ok l)); injection Hs as <-; split; cbn; try done. split; [done|]. split; [done|]. cbn. intros Hu. rewrite Hu in Hh. by destruct has.
Qed.

Lemma kind_reachable s : reachable allowed s -> kind_inv s.
Proof using Hone.
  intros H. unfold reachable in H. assert (forall s1, rtc (step allowed) s1 s -> kind_inv s1 -> kind_inv s) as Hind.
  - clear H. induction 1 as [|s1 s2 s3 Hs _ IH]; [done|]. intros Hi. by eapply IH, kind_step.
  - apply (Hind _ H). split; try done. by intros k Hk%elem_of_nil.
Qed.
End Invariant.

(** ** Helpers of the properties *)

Lemma run_installed allowed s k p n : inv allowed s -> data s = D_run k (Some p) n -> bpf s = Some p /\ addr p ∈ live s.
Proof.
  intros I Hd. assert (exists p', installed p' s /\ addr p' ∈ live s) as (p' & [Hb Hj] & Hl).
  - destruct (inv_held _ _ I) as [Hc|Hc]; [by rewrite Hd|..]; destruct (inv_live _ _ I) as (lost & -> & _); pose proof (inv_ctl _ _ I) as [Hk _].
    + destruct (inv_cb _ _ I Hc) as [p' [Hb Hj]]. exists p'. split; [by split|]. apply elem_of_union_l. unfold owned. rewrite Hb. cbn [addrs].
      destruct (ctl s); cbn in Hk; try (apply elem_of_union_l); try (by apply elem_of_singleton); exfalso; intuition congruence.
    + unfold owned. destruct (ctl s); try done; cbn in Hk; destruct Hk as (_ & (p' & [Hb Hj]) & _); exists p'; rewrite Hb; (split; [by split|]); cbn [addrs]; set_solver.
  - pose proof (inv_run _ _ I) as Hr. rewrite Hd in Hr. unfold selected in Hr. rewrite Hb, Hj in *. unfold native in Hr.
    assert (p = p') as ->; [|done]. destruct (uses_jit k); [destruct (has_jit p')|]; congruence.
Qed.

Lemma run_kind allowed k0 t s k o n : inv allowed s -> kind_inv k0 t s -> data s = D_run k o n ->
  k = k0 /\ exists p, o = Some p /\ prog_type p = t.
Proof.
  intros I K Hd. pose proof (kind_data _ _ _ K) as Hk. rewrite Hd in Hk. subst k. split; [done|].
  assert (exists p, installed p s) as (p & Hb & Hj).
  - destruct (inv_held _ _ I) as [Hc|Hc]; [by rewrite Hd|by apply (inv_cb _ _ I)|]. pose proof (inv_ctl _ _ I) as [Hk _]. destruct (ctl s); try done; apply Hk.
  - destruct (kind_bpf _ _ _ K p Hb) as [Ht Hu]. exists p. split; [|done]. pose proof (inv_run _ _ I) as Hr. rewrite Hd in Hr. unfold selected, native in *.
    rewrite Hb, Hj in Hr. destruct (uses_jit k0); [by rewrite Hu in Hr|done].
Qed.

(** ** The wait *)

(** The steps that are left to the polling thread in its callback once the handle is
    cleared: the packets left and at most two more. *)
Definition steps_left (d : data_pc) : nat :=
  match d with
  | D_in _ _ => 2
  | D_checked _ n | D_run _ _ n => n + 2
  | D_out => 1
  | _ => 0
  end.

(** The steps of the polling thread in a sequence. *)
Fixpoint polls (es : list event) : nat :=
  match es with [] => 0 | Data _ _ :: es => S (polls es) | _ :: es => polls es end.

(** A step inside the callback, with a program that returns: one less is left, and the last
    changes [use]. *)
Lemma data_left i nb s s' : inside (data s) = true -> cb s = false -> (forall k p n, data s = D_run k (Some p) n -> returns p = true) ->
  data_step i nb s = Some s' ->
  steps_left (data s) = S (steps_left (data s')) /\ ctl s' = ctl s /\ bpf s' = bpf s /\ cb s' = cb s
  /\ use s' = (if inside (data s') then use s else u32 (use s + 1)).
Proof.
  intros Hi Hc Hp Hs. destruct s as [u c b j ch pr lv d ct r]. cbn in *. subst c. unfold data_step in Hs. cbn in Hs.
  destruct d as [|k n|k n|k n|k [p|] n|]; try done.
  - by injection Hs as <-.
  - destruct n; by injection Hs as <-.
  - rewrite (Hp k p n eq_refl) in Hs. destruct n; by injection Hs as <-.
  - by injection Hs as <-.
Qed.

(** Any step of the polling thread adds one to [use] or leaves it. *)
Lemma data_use i nb s s' : data_step i nb s = Some s' -> ctl s' = ctl s /\ (use s' = use s \/ use s' = u32 (use s + 1)).
Proof.
  intros Hs. destruct s as [u c b j ch pr lv d ct r]. unfold data_step in Hs. cbn in Hs.
  destruct d as [|k n|k [|n]|k [|n]|k [p|] n|]; try done; try (destruct (ch !! i); [|done]); try (destruct (returns p); [destruct n|]);
    injection Hs as <-; cbn; auto.
Qed.

Lemma start_idle r s s' : start r s = Some s' -> ctl s = C_idle.
Proof. unfold start. by destruct (ctl s). Qed.

(** After the end of the callback the loading thread leaves the wait at its next step,
    before [use] comes round to the same number. *)
Lemma wait_after es removed s s' a q m : ctl s = C_wait a q -> 0 <= q < 2 ^ 32 -> use s = u32 (q + m) -> 1 <= m -> m + Z.of_nat (polls es) < 2 ^ 32 ->
  run_events (es ++ [Ctl removed]) s = Some s' ->
  exists es1 s1, es1 `prefix_of` es ++ [Ctl removed] /\ run_events es1 s = Some s1 /\ ctl s1 = C_destroy a.
Proof.
  intros Hc Hq. revert s m Hc. induction es as [|e es IH]; intros s m Hc Hu Hm Hlt Hr; cbn [app] in *.
  all: assert (forall x, ctl_step x s = Some (s <| ctl := C_destroy a |>)) as Hleave
    by (intros x; unfold ctl_step; rewrite Hc; destruct (Z.eqb_spec (use s) q) as [E|]; [|done];
        rewrite Hu in E; unfold wrap in E; revert E; Z.div_mod_to_equations; lia).
  - exists [Ctl removed], (s <| ctl := C_destroy a |>). split; [done|]. split; [|done]. cbn. by rewrite Hleave.
  - cbn [run_events] in Hr. destruct (do_event e s) as [s1|] eqn:He; [|done]. destruct e as [i nb|x|r]; cbn [do_event] in He.
    + destruct (data_use i nb s s1 He) as [Hc1 Hu1]. change (polls (Data i nb :: es)) with (S (polls es)) in Hlt.
      assert (exists m1, use s1 = u32 (q + m1) /\ 1 <= m1 <= m + 1) as (m1 & Hm1 & Hr1).
      { destruct Hu1 as [E|E]; [exists m; split; [congruence|lia]|exists (m + 1); split; [|lia]]. rewrite E, Hu, wrap_add_l. f_equal. lia. }
      destruct (IH s1 m1) as (es1 & s2 & Hpre & Hrun & Hd); [congruence|done|lia|lia|done|].
      exists (Data i nb :: es1), s2. split; [by apply prefix_cons|]. split; [|done]. cbn [run_events do_event]. by rewrite He.
    + exists [Ctl x], (s <| ctl := C_destroy a |>). split; [by apply prefix_cons, prefix_nil|]. split; [|done]. cbn. by rewrite Hleave.
    + apply start_idle in He. congruence.
Qed.

Section Wait.
Context (allowed : request -> Prop) (a : next_load) (q : Z) (p : program) (Hp : returns p = true).

(** The loading thread waits for the callback that is inside, which runs [p]. *)
Record waiting (s : hook) : Prop := {
  wt_inv : inv allowed s;
  wt_ctl : ctl s = C_wait a q;
  wt_bpf : bpf s = Some p;
  wt_use : use s = q }.

Lemma waiting_inside s : waiting s -> inside (data s) = true /\ cb s = false /\ 0 <= q < 2 ^ 32.
Proof using.
  intros [I Hc _ Hu]. pose proof (inv_ctl _ _ I) as [Hk _]. rewrite Hc in Hk. destruct Hk as (Hcb & _ & _ & Hodd & Hq).
  split; [|done]. by rewrite <- (inv_odd _ _ I), Hu.
Qed.

Lemma waiting_returns s k p' n : waiting s -> data s = D_run k (Some p') n -> returns p' = true.
Proof using Hp. intros [I _ Hb _] Hd. destruct (run_installed _ _ _ _ _ I Hd) as [Hb' _]. congruence. Qed.

Lemma waiting_data i nb s s' : waiting s -> data_step i nb s = Some s' ->
  steps_left (data s) = S (steps_left (data s')) /\ (waiting s' \/ ctl s' = C_wait a q /\ use s' = u32 (q + 1)).
Proof using Hp.
  intros W Hs. destruct (waiting_inside s W) as (Hi & Hc & _). pose proof W as [I Hw Hb Hu].
  destruct (data_left i nb s s' Hi Hc) as (Hl & Hw' & Hb' & _ & Hu'); [intros k p' n; by apply waiting_returns|done|].
  split; [done|]. destruct (inside (data s')); [left|right; split; congruence].
  split; [by eapply inv_data|congruence..].
Qed.

Lemma wait_ends es removed s s' : waiting s -> (steps_left (data s) <= polls es)%nat -> Z.of_nat (polls es) < 2 ^ 32 ->
  run_events (es ++ [Ctl removed]) s = Some s' ->
  exists es1 s1, es1 `prefix_of` es ++ [Ctl removed] /\ run_events es1 s = Some s1 /\ ctl s1 = C_destroy a.
Proof using Hp.
  revert s. induction es as [|e es IH]; intros s W Hl Hlt Hr; destruct (waiting_inside s W) as (Hi & Hcb & Hq); cbn [app] in *.
  - cbn [polls] in Hl. destruct (data s); cbn in *; try done; lia.
  - cbn [run_events] in Hr. destruct (do_event e s) as [s1|] eqn:He; [|done]. destruct e as [i nb|x|r]; cbn [do_event] in He.
    + destruct (waiting_data i nb s s1 W He) as [Hs [W1|[Hw Hu]]]; cbn [polls] in Hl, Hlt.
      * destruct (IH s1 W1) as (es1 & s2 & Hpre & Hrun & Hd); [lia|lia|done|].
        exists (Data i nb :: es1), s2. split; [by apply prefix_cons|]. split; [|done]. cbn [run_events do_event]. by rewrite He.
      * destruct (wait_after es removed s1 s' a q 1 Hw Hq Hu) as (es1 & s2 & Hpre & Hrun & Hd); [lia|lia|done|].
        exists (Data i nb :: es1), s2. split; [by apply prefix_cons|]. split; [|done]. cbn [run_events do_event]. by rewrite He.
    + assert (s1 = s) as ->.
      { revert He. unfold ctl_step. rewrite (wt_ctl s W), (wt_use s W), Z.eqb_refl. congruence. }
      destruct (IH s W) as (es1 & s2 & Hpre & Hrun & Hd); [done|done|done|].
      exists (Ctl x :: es1), s2. split; [by apply prefix_cons|]. split; [|done]. cbn [run_events do_event]. by rewrite He.
    + apply start_idle in He. rewrite (wt_ctl s W) in He. done.
Qed.
End Wait.

Lemma run_events_reachable (allowed : request -> Prop) es s : (forall r, Start r ∈ es -> allowed r) -> run_events es init = Some s -> reachable allowed s.
Proof.
  unfold reachable. generalize init. induction es as [|e es IH]; intros s0 Ha H; cbn in H; [by injection H as ->|].
  destruct (do_event e s0) as [s1|] eqn:He; [|done]. apply rtc_l with s1.
  - exists e. split; [done|]. destruct e; try done. apply Ha. apply elem_of_cons. by left.
  - apply IH; [|done]. intros r Hr. apply Ha, elem_of_cons. by right.
Qed.

(** ** Properties *)

(** C36. Programs are loaded and unloaded on a queue while it is polled, in every interleaving
    of the steps of the two threads.
    - The program that a callback runs is the installed one, and its mapping was not
      destroyed.
    - The loading thread waits for a callback only while it is inside.  If runs of the
      installed program return, then in every sequence of steps in which the polling thread
      takes as many steps as packets are left, and two, and the loading thread looks again
      before 2^32 steps, the wait ends.  Nothing stops the polling thread meanwhile but a
      program that is missing.
    - Between calls the only mapping that is left is that of the installed program, if
      allocations succeed.
    - If all programs of the queue are loaded with one type and one kind of callback, then
      callback and program always agree on their argument and native code is never missing. *)
Theorem hooks_safe (allowed : request -> Prop) (s : hook) (Hs : reachable allowed s) :
  (forall k p n, data s = D_run k (Some p) n -> bpf s = Some p /\ addr p ∈ live s)
  /\ (forall a q, ctl s = C_wait a q ->
        (use s <> q -> forall removed, ctl_step removed s = Some (s <| ctl := C_destroy a |>))
        /\ (use s = q ->
          inside (data s) = true
          /\ (forall i nb, data_step i nb s = None -> exists k n, data s = D_run k None n)
          /\ forall p, bpf s = Some p -> returns p = true ->
             forall es removed s', run_events (es ++ [Ctl removed]) s = Some s' ->
               (steps_left (data s) <= polls es)%nat -> Z.of_nat (polls es) < 2 ^ 32 ->
               exists es1 s1, es1 `prefix_of` es ++ [Ctl removed] /\ run_events es1 s = Some s1 /\ ctl s1 = C_destroy a))
  /\ ((forall l, allowed (Load l) -> zmalloc_ok l = true) -> ctl s = C_idle ->
        live s = match bpf s with Some p => {[addr p]} | None => ∅ end)
  /\ (forall k0 t, (forall l, allowed (Load l) -> type_arg l = t /\ select_callback (type_arg l) (flags l) = Some k0) ->
        forall k o n, data s = D_run k o n -> k = k0 /\ exists p, o = Some p /\ prog_type p = t).
Proof.
  pose proof (inv_reachable _ _ Hs) as I. split_and!.
  - intros k p n. by eapply run_installed.
  - intros a q Hw. split.
    + intros Hu removed. unfold ctl_step. rewrite Hw. by destruct (Z.eqb_spec (use s) q).
    + intros Hu. assert (inside (data s) = true) as Hi.
      { pose proof (inv_ctl _ _ I) as [Hk _]. rewrite Hw in Hk. rewrite <- (inv_odd _ _ I), Hu. apply Hk. }
      split_and!; [done| |].
      * intros i nb Hn. unfold data_step in Hn. destruct (data s) as [|k n|k n|k [|n]|k [p|] n|]; try done; [by destruct (returns p)|eauto].
      * intros p Hb Hp es removed s' Hr Hl Hlt. by apply (wait_ends allowed a q p Hp es removed s s').
  - intros Hz Hc. destruct (inv_live _ _ I) as (lost & -> & _ & ->); [|done]. unfold owned. rewrite Hc. by rewrite right_id_L by apply _.
  - intros k0 t Hone k o n. eapply run_kind; [done|]. by eapply kind_reachable.
Qed.

(** Replacing a program while a callback runs it on the first of two packets. *)
Definition load_of (a type fl : Z) (has : bool) : request := Load (mk_load true type fl (inr (a, has, true)) true 0).
Definition first_load : list event := Start (load_of 4096 RTE_BPF_ARG_PTR 0 false) :: replicate 5 (Ctl true).
Definition replacing : list event :=
  first_load ++ replicate 4 (Data 0 2) ++ Start (load_of 8192 RTE_BPF_ARG_PTR 0 false) :: replicate 3 (Ctl true).

Definition reached (es : list event) : hook := default init (run_events es init).

Example hooks_safe_witness :
  ctl (reached replacing) = C_wait (Some (Cb_vm, mk_prog 8192 RTE_BPF_ARG_PTR false true, 0)) 1
  /\ data (reached replacing) = D_run Cb_vm (Some (mk_prog 4096 RTE_BPF_ARG_PTR false true)) 1 /\ 4096 ∈ live (reached replacing)
  /\ exists es1 s1, es1 `prefix_of` replicate 3 (Data 0 0) ++ [Ctl true] /\ run_events es1 (reached replacing) = Some s1
       /\ ctl s1 = C_destroy (Some (Cb_vm, mk_prog 8192 RTE_BPF_ARG_PTR false true, 0)).
Proof.
  assert (data (reached replacing) = D_run Cb_vm (Some (mk_prog 4096 RTE_BPF_ARG_PTR false true)) 1) as Hd by (vm_compute; reflexivity).
  assert (ctl (reached replacing) = C_wait (Some (Cb_vm, mk_prog 8192 RTE_BPF_ARG_PTR false true, 0)) 1) as Hc by (vm_compute; reflexivity).
  assert (run_events replacing init = Some (reached replacing)) as Hr by (vm_compute; reflexivity).
  destruct (hooks_safe (fun _ => True) _ (run_events_reachable _ replacing _ (fun _ _ => I) Hr)) as (H1 & H2 & _).
  split; [exact Hc|]. split; [exact Hd|]. split; [exact (proj2 (H1 _ _ _ Hd))|].
  destruct (H2 _ _ Hc) as [_ H3]. destruct (H3 ltac:(vm_compute; reflexivity)) as (_ & _ & H4).
  assert (bpf (reached replacing) = Some (mk_prog 4096 RTE_BPF_ARG_PTR false true)) as Hb by (vm_compute; reflexivity).
  apply (H4 _ Hb eq_refl _ true (reached (replacing ++ replicate 3 (Data 0 0) ++ [Ctl true]))).
  - vm_compute. reflexivity.
  - rewrite Hd. vm_compute. lia.
  - vm_compute. reflexivity.
Defined.

(** A callback that was called before its program was unloaded runs the program of another
    type that was loaded in the meantime, or finds no native code. *)
Definition race (fl : Z) (has : bool) : list event :=
  Start (load_of 4096 RTE_BPF_ARG_PTR fl true) :: replicate 5 (Ctl true)
  ++ [Data 0 1; Start (load_of 8192 RTE_BPF_ARG_PTR_MBUF 0 has)]
  ++ replicate 10 (Ctl true) ++ replicate 3 (Data 0 1).

Theorem hook_kind_race :
  (exists s p, reachable (fun _ => True) s /\ data s = D_run Cb_vm (Some p) 0 /\ prog_type p = RTE_BPF_ARG_PTR_MBUF)
  /\ exists s, reachable (fun _ => True) s /\ data s = D_run Cb_jit None 0.
Proof.
  split; [exists (reached (race 0 true)), (mk_prog 8192 RTE_BPF_ARG_PTR_MBUF true true)|exists (reached (race 1 false))].
  - split; [apply (run_events_reachable _ (race 0 true)); [done|]|split]; vm_compute; reflexivity.
  - split; [apply (run_events_reachable _ (race 1 false)); [done|]|]; vm_compute; reflexivity.
Qed.
